(* ===== verification/_CoqProject ===== *)
-Q . S2P
Prelude.v
Sql.v
Primitives.v
BigEndian.v
Codec.v
Engine.v
Concrete.v
CodecProps.v
DecodeWf.v
DbModel.v
DbOps.v
DbInvariant.v
DbUnwind.v
DbProps.v
DbService.v
Database.v
DbPool.v
ConcreteDb.v
World.v
Sequencer.v
SequencerProps.v
Signing.v
ConcreteRlp.v
BlobSources.v
BlobProps.v
ConcreteBlobs.v
Pipeline.v
PipelineProps.v
Consolidation.v
ConsolidationProps.v
Driver.v
ConcreteWorld.v
DriverProps.v
Migration.v
MigrationProps.v
ConcreteMigration.v
Watcher.v
WatcherProps.v
WatcherRuns.v
WatcherInv.v
ConcreteL1.v
Orchestrator.v
Network.v
NetworkProps.v
ConcreteNetwork.v
SignerRotation.v
Config.v
Redaction.v
RedactionProps.v
RpcServer.v
NetworkBuilder.v
Startup.v
RemoteSource.v
RemoteProps.v
RunLoop.v
Handle.v
OrchestratorInv.v
OrchestratorProps.v
Provenance.v
System.v
ImportProps.v
Outputs.v
L1Props.v
LoopProps.v
FullNode.v
ConcreteNode.v
Shutdown.v
ConcreteSystem.v
ConcreteFull.v
RemoteNode.v
StartupProps.v
ConcreteStart.v
Profiler.v
DebugCommands.v
DebugEvents.v
DebugAttach.v
ConcreteDebug.v
Divergences.v
