(* ===== verification/Prelude.v ===== *)
(** * The DogeOS rollup node: a verification library

    The node follows an L1 (the rollup contracts on the parent chain) and drives an L2 execution
    client.  A watcher indexes L1 and reports messages, batches and reorgs; the orchestrator stores
    them, derives the blocks the batches commit to, reconciles them with the L2 chain, imports the
    blocks peers announce, and sequences blocks of its own when it is configured to.  This library
    translates the node's Rust code (src/crates) into executable definitions, names the definitions
    after the functions they translate, and proves what the node promises about them.

    ** How the program is modelled

    - Fallible, stateful code is a computation in [M S E A] of this file: a function from the state
      [S] to an outcome ([Ok], [Err] or [Panic]) and the state it leaves.  An error keeps what was
      done before it; [Database] and [on_database] roll a transaction back, as SQLite does.
    - Integers are [Z] at their width: [wrapping_*], [saturating_*] and [checked_*] are the
      operations of the source; [+], [-] and [*] of the source are the wrapping ones where they can
      leave the width (the workspace's release profile has no overflow checks); [as] casts are
      [as_i64] and [as_u64].  [debug_assert!] is not part of that profile and left out.
    - Loops without a bound in the source take fuel and say so when it runs out ([StillRunning] for
      the watcher and the remote block source, [None] for the retries of the database); see
      "Bounds" below.
    - Concurrency is a step relation: the signer task ([Signing]), the network manager ([Network]),
      the RPC server's start ([RpcServer]), the run loop of the orchestrator ([RunLoop]), the
      watcher next to the orchestrator ([System]), all four tasks with the channels between them
      ([FullNode]), and the transactions of many clients on one database ([DbPool]).  Theorems about
      them hold for every reachable state, whatever inputs arrive in whatever order.
    - Code outside the repository is a class of operations; what the node relies on of it is a
      second class of laws or a named hypothesis, and every theorem that has one is evaluated on a
      concrete instance (the [Concrete*] files).  The parameters: [SqlEngine] (the order in which
      SQLite visits rows), [Chain] (hashes and the encoding of transactions), [CodecLibs] (RLP, ABI
      and zstd decoding), [EngineApi], [L2Provider], [BlockClient], [TaggedBlocks] (the execution
      client), [PayloadConversion], [Rlp], [SignerRecovery], [SignatureBytes], [SignerBackends]
      (signatures and keys), [Timers] (tokio), [L1Node], [L1Abi] (the L1 node and the generated
      event decoders), [Allocation], [HttpClient], [MigrationInfo], [Kzg], [BlobCache],
      [BlobServices], [LruCache], [WireCodec] (the derived message codec), [HashText], [Urls], for
      the debug toolkit [CommandParsers], [DebugText], [JsonRpc], [HeadProvider] and
      [AttachBackends], and for the remote block source [RemoteNode], [BlockReader] and [OrchestratorHandle]; [RemoteNode.v]
      instantiates the last one with the modelled orchestrator.

    ** The files, bottom up (source under src/crates)

    - Shared: [Prelude] (integers, outcomes, the state and error monad, lists, tactics, the hint
      database [node]), [Sql] (the statements of sea-orm over tables), [Primitives] (primitives/src),
      [BigEndian] (bytes, the buffer monad).
    - Batches: [Codec], [CodecProps] (codec/src, l1/src/abi/calls.rs), [DecodeWf] (what every decoded
      batch satisfies).  [Pipeline], [PipelineProps]
      (derivation-pipeline/src, providers/src/l1/message.rs): from a batch to payload attributes.
      [BlobSources], [BlobProps] (providers/src/l1/blob, beacon.rs): where its blob comes from.
    - Storage: [DbModel] (database/db/src/models: the rows), [DbOps] (operations.rs: one definition
      per method), [DbInvariant] (the class [DbClosed] of database invariants, schema integrity),
      [DbUnwind], [DbProps] (what the operations do), [DbService] (service), [Database] (db.rs),
      [DbPool] (the connection pool of db.rs with its locks, transaction.rs), [Migration],
      [MigrationProps] (database/migration).
    - Execution: [Engine] (engine/src), [World] (the engine and the database together),
      [Sequencer], [SequencerProps] (sequencer/src), [Signing] (signer/src, primitives/src/signature.rs,
      chain-orchestrator/src/consensus.rs), [Consolidation], [ConsolidationProps], [Driver],
      [DriverProps] (chain-orchestrator/src/consolidation.rs, derivation.rs).
    - L1: [Watcher] (watcher/src), with [WatcherProps] (reorgs), [WatcherRuns] (logs) and
      [WatcherInv] (whole runs).
    - Orchestration: [Orchestrator] (chain-orchestrator/src/lib.rs handlers, sync.rs, status.rs),
      [RunLoop] (handle_command and run_until_shutdown), [Handle] (handle/mod.rs),
      [OrchestratorInv] (what every handler keeps, for any property of the fork choice and any
      [DbClosed] one of the database),
      [OrchestratorProps], [ImportProps], [L1Props], [LoopProps].  [Outputs]: what each iteration of
      the loop may send.  [Provenance] and [System]: the watcher, its channel (watcher/src/handle)
      and the orchestrator as one system; [FullNode]: that system with the signer task and the
      network manager.  [Shutdown]: an attempt that the shutdown interrupts, and the restart.
    - Network: [Network], [NetworkProps] (network/src, scroll-wire/src), [NetworkBuilder]
      (node/src/builder/network.rs).
    - Node: [Config] (node/src/args.rs, constants.rs, primitives/src/node/config.rs), [Redaction],
      [RedactionProps] (the scrubbing of logged errors and of Debug output), [SignerRotation]
      (signer_rotation.rs), [RpcServer] (add_ons/rpc.rs), [Startup], [StartupProps] (args.rs,
      node.rs), [RemoteSource], [RemoteProps], [RemoteNode] (add_ons/remote_block_source.rs),
      [Profiler] (pprof.rs).
    - Debug toolkit (node/src/debug_toolkit): [DebugCommands] (commands.rs), [DebugEvents]
      (event/stream.rs, repl/terminal.rs, the loop of repl/local.rs), [DebugAttach] (repl/attach.rs,
      shared/rpc.rs).
    - Inputs: the [Concrete*] files instantiate the parameters and hold the witnesses; [Divergences]
      evaluates the runs in which the code departs from its comments or loses work.

    ** How the parts interact in the model

    [run_round] (a round of the watcher) appends notifications to its channel; [sys_step] hands them
    to the orchestrator's [step], which also takes commands, blocks of peers, signed blocks, timer
    ticks and finished derivations.  The handlers run [DbOps] on the database of [Env] as transactions
    and the requests of [Engine] on its execution client; what leaves the orchestrator (events,
    announcements, requests to the signer and the watcher) is appended to its outbox in order.
    [full_step] reads that outbox: each request to the signer is an input of [signer_step], each
    announcement and import outcome one of [network_step], and their results come back as inputs of
    the loop; the channels to and from the signer lose nothing, the network manager's events are a
    broadcast of which a slow loop may miss some.  [build] of [Startup] produces the orchestrator state this loop starts from.

    ** What the theorems show

    - The whole node: the fork choice stays ordered (safe and finalized never above the head, the
      finalized block never moves back) and the database keeps its keys and references, in every
      iteration of the run loop and from every state the start can produce; only the fail-stop
      errors end the loop; every message and batch stored comes from a log that L1 served; every
      block that leaves the node was signed by its own key, checked against the authorized signer
      or imported by command, and its own blocks leave in the order they were built; a shutdown in
      the middle of an attempt loses no batch.
    - L1: over every run the buffer of headers is bounded and ends at the recorded head; a reorg is
      reported at the fork point; logs are relayed once, in chain order, whatever their grouping.
    - Storage: every unique key and reference of the schema in every reachable database; unwinding
      removes what is above the target and nothing else; a call through the retrying handle is one
      transaction of the specification or leaves the database as it was, and is answered once the
      driver recovers; interleaved calls are linearizable and never hold more connections than the
      pool has; the migrations are read back as written.
    - Derivation and reconciliation: decoders accept what they should and produce well-formed
      batches whose contexts are byte for byte those encoded, version 0 alone can panic; the pipeline
      is in order; the blocks of a batch that match what the client answers for their numbers are kept
      and the first that does not rebuilds the rest.
    - Blocks: a peer's block never moves the safe or the finalized block, and changes nothing when
      the authorized signer did not sign it; an import sends every payload and, when the node is in
      sync, validates the L1 messages first; the walk over a fork terminates; payload jobs and
      signatures are in order; a block is delivered once and survives the wire, and only an abandoned
      shutdown request makes the network manager panic.
    - Start and periphery: validation, the agreement on the L2 head (for an execution client at rest,
      whose tags do not move while the node starts: [at_rest]), the RPC's handle and exactly who gets
      it, signer rotation, blob authenticity, the round-robin walk over the blob providers, the resume
      point of the remote block source and the exact steps in which it imports and builds, and what a redacted dump can reveal; a request of the RPC is served as the method
      it was written for; a line typed at the debug toolkit asks the node for what it says.

    ** Bounds

    - [fork_fuel] (the announced block's number plus one) is enough for the walk over a fork, for a
      client whose ranges fall: [fork_walk_terminates].
    - The watcher's walk needs as many rounds as there are unfinalized blocks: [chain_followed].
      Its start asks L1 for a block until it is answered, as the source does: there the fuel bounds
      the attempts, and a node that never answers leaves [StillRunning].
    - The search for the common block of the remote source needs as many rounds as the block number
      it starts from ([highest_common_spec]), its following loop one round per block of distance
      ([catches_up]).  Waiting for a build has no bound: the source hangs on a build that fails
      ([Divergences], [RemoteNode]).
    - Decoding takes the length of its input: blobs ([collect_payload]), header metadata
      ([decode_all_no_panic]), text ([lossy_utf8], [replace_tokens_scanned]); the download of the
      metadata takes the number of chunks ([download_loop_serves]), its insertion the number of
      records ([insert_batches_Ok]).
    - The database retries a bounded number of times when it is configured so, and then returns
      ([retry_bounded_returns]).

    ** Not modelled

    - Metrics: they do not touch the node's state.  The accept loop of the profiler's server.
    - The test utilities (node/src/test_utils), and what of the debug toolkit works on them: the
      commands of the local REPL, the custom actions, and the coloured text of the status.
    - The parsing and the help text of the command line (clap), log output and the watcher's
      liveness probe, which only logs; what reth and alloy do behind the parameters above.
    - The capacity of channels, which only delays a sender, and wall-clock delays between retries.
    - Statements that create tables, columns and indexes: the record types of [DbModel] are their
      result. *)

From Stdlib Require Export ZArith Lia.
From stdpp Require Export base tactics strings gmap sorting numbers list.

#[global] Set Default Goal Selector "!".
#[global] Open Scope Z_scope.

(** ** Machine integers

    Rust's [u64] values are integers of [Z] in [0, 2^64).  The release profile of the workspace
    keeps Cargo's default, where [+], [-] and [*] wrap; the checked and saturating operations are
    the ones of the Rust standard library. *)

Definition u64_mod : Z := 2 ^ 64.
Definition u64_max : Z := 2 ^ 64 - 1.
Definition i64_max : Z := 2 ^ 63 - 1.
Definition i32_min : Z := - 2 ^ 31.
Definition i32_max : Z := 2 ^ 31 - 1.

Definition in_u64 (z : Z) : Prop := 0 <= z < 2 ^ 64.

Definition wrapping_add (a b : Z) : Z := (a + b) mod u64_mod.
Definition wrapping_sub (a b : Z) : Z := (a - b) mod u64_mod.
Definition saturating_add (a b : Z) : Z := Z.min u64_max (a + b).
Definition saturating_sub (a b : Z) : Z := Z.max 0 (a - b).
Definition saturating_mul (a b : Z) : Z := Z.min u64_max (a * b).
Definition checked_sub (a b : Z) : option Z := if b <=? a then Some (a - b) else None.

(** [x as i64] and [x as u64]: two's complement reinterpretation. *)
Definition as_i64 (z : Z) : Z := if z <=? i64_max then z else z - u64_mod.
Definition as_u64 (z : Z) : Z := z mod u64_mod.

(** [TryInto::<i64>::try_into] on a [u64]. *)
Definition try_i64 (z : Z) : option Z := if z <=? i64_max then Some z else None.

Lemma as_i64_small z : z <= i64_max → as_i64 z = z.
Proof. unfold as_i64. intros H. by rewrite (proj2 (Z.leb_le _ _) H). Qed.

Lemma as_u64_as_i64 z : in_u64 z → as_u64 (as_i64 z) = z.
Proof.
  unfold in_u64, as_u64, as_i64, i64_max, u64_mod. intros H.
  destruct (Z.leb_spec z (2 ^ 63 - 1)).
  - apply Z.mod_small. lia.
  - replace (z - 2 ^ 64) with (z + (-1) * 2 ^ 64) by lia.
    rewrite Z.mod_add by lia. apply Z.mod_small. lia.
Qed.

Lemma as_i64_inj a b : in_u64 a → in_u64 b → as_i64 a = as_i64 b → a = b.
Proof.
  intros Ha Hb Heq. rewrite <- (as_u64_as_i64 a), <- (as_u64_as_i64 b) by done. by rewrite Heq.
Qed.

Lemma try_i64_as_i64 z i : try_i64 z = Some i → i = as_i64 z ∧ i = z.
Proof.
  unfold try_i64, as_i64. destruct (z <=? i64_max) eqn:E; intros; simplify_eq; auto.
Qed.

Lemma as_u64_small z : in_u64 z → as_u64 z = z.
Proof. unfold in_u64, as_u64, u64_mod. intros. by apply Z.mod_small. Qed.

(** ** Outcomes and the state monad of the stateful components

    A Rust function that returns [Result<A, E>] ends in [Ok], in [Err], or panics ([expect],
    [unreachable!], [assert!]); a panic stops the node and is an outcome of its own. *)

Inductive outcome (E A : Type) : Type :=
| Ok (a : A)
| Err (e : E)
| Panic.
Arguments Ok {E A} a.
Arguments Err {E A} e.
Arguments Panic {E A}.

Definition is_ok {E A} (o : outcome E A) : bool :=
  match o with Ok _ => true | _ => false end.

Definition omap_ok {E A B} (f : A → B) (o : outcome E A) : outcome E B :=
  match o with Ok a => Ok (f a) | Err e => Err e | Panic => Panic end.

Definition omap_err {E F A} (f : E → F) (o : outcome E A) : outcome F A :=
  match o with Ok a => Ok a | Err e => Err (f e) | Panic => Panic end.

Definition obind {E A B} (o : outcome E A) (k : A → outcome E B) : outcome E B :=
  match o with Ok a => k a | Err e => Err e | Panic => Panic end.

(** [option.ok_or(e)] and [option.expect(_)]. *)
Definition ok_or {E A} (e : E) (o : option A) : outcome E A :=
  match o with Some a => Ok a | None => Err e end.
Definition expect {E A} (o : option A) : outcome E A :=
  match o with Some a => Ok a | None => Panic end.

(** State, error and panic.  The state reached before an error is kept, as in the source: only a
    database transaction rolls back. *)
Definition M (S E A : Type) : Type := S → outcome E A * S.

Definition ret {S E A} (a : A) : M S E A := λ s, (Ok a, s).
Definition fail {S E A} (e : E) : M S E A := λ s, (Err e, s).
Definition panic {S E A} : M S E A := λ s, (Panic, s).
Definition bind {S E A B} (m : M S E A) (k : A → M S E B) : M S E B :=
  λ s, match m s with
       | (Ok a, s') => k a s'
       | (Err e, s') => (Err e, s')
       | (Panic, s') => (Panic, s')
       end.
Definition get {S E} : M S E S := λ s, (Ok s, s).
Definition gets {S E A} (f : S → A) : M S E A := λ s, (Ok (f s), s).
Definition modify {S E} (f : S → S) : M S E unit := λ s, (Ok tt, f s).
Definition lift {S E A} (o : outcome E A) : M S E A := λ s, (o, s).
Definition map_err {S E F A} (f : E → F) (m : M S E A) : M S F A :=
  λ s, let '(o, s') := m s in (omap_err f o, s').

(** Runs [m] and returns its result as a value, so that the caller can inspect an error. *)
Definition try {S E F A} (m : M S E A) : M S F (A + E) :=
  λ s, match m s with
       | (Ok a, s') => (Ok (inl a), s')
       | (Err e, s') => (Ok (inr e), s')
       | (Panic, s') => (Panic, s')
       end.

(** Runs a computation on one field of the state. *)
Definition zoom {S T E A} (g : S → T) (p : T → S → S) (m : M T E A) : M S E A :=
  λ s, let '(o, t) := m (g s) in (o, p t s).

Declare Scope node_scope.
Delimit Scope node_scope with node.
#[global] Open Scope node_scope.

Notation "'let*' x := m 'in' k" := (bind m (λ x, k))
  (at level 10, x pattern, m at level 100, k at level 200,
   format "'[v' 'let*'  x  :=  m  'in' '/' k ']'") : node_scope.
Notation "m ;;; k" := (bind m (λ _, k))
  (at level 100, k at level 200, right associativity) : node_scope.
Notation "'when' b 'then' m" := (if b then m else ret tt)
  (at level 10, b at level 100, m at level 99) : node_scope.

(** [for x in l { f x }]. *)
Fixpoint for_each {S E A} (f : A → M S E unit) (l : list A) : M S E unit :=
  match l with
  | [] => ret tt
  | x :: l => f x ;;; for_each f l
  end.

Lemma bind_Ok {S E A B} (m : M S E A) (k : A → M S E B) s b s' :
  bind m k s = (Ok b, s') → ∃ a s1, m s = (Ok a, s1) ∧ k a s1 = (Ok b, s').
Proof. unfold bind. destruct (m s) as [[a|e|] s1]; intros H; simplify_eq; eauto. Qed.

Lemma bind_step {S E A B} (m : M S E A) (k : A → M S E B) s a s' :
  m s = (Ok a, s') → bind m k s = k a s'.
Proof. unfold bind. by intros ->. Qed.

Lemma bind_ret_l {S E A B} (a : A) (k : A → M S E B) s : bind (ret a) k s = k a s.
Proof. done. Qed.

Lemma bind_assoc {S E A B C} (m : M S E A) (f : A → M S E B) (g : B → M S E C) s :
  bind (bind m f) g s = bind m (λ a, bind (f a) g) s.
Proof. unfold bind. by destruct (m s) as [[]]. Qed.

(** The value of a run that ended in [Ok]. *)
Definition ok_value {E A} (d : A) (o : outcome E A) : A := match o with Ok a => a | _ => d end.

Lemma ok_run {S E A} (d : A) (p : outcome E A * S) :
  is_ok (fst p) = true → p = (Ok (ok_value d (fst p)), snd p).
Proof. by destruct p as [[]]. Qed.

(** An invariant that holds after every outcome, [Err] and [Panic] included. *)
Definition preserves {S E A} (I : S → Prop) (m : M S E A) : Prop :=
  ∀ s, I s → I (m s).2.

Lemma lift_Ok {S E A} (o : outcome E A) (s : S) a s' : lift o s = (Ok a, s') → o = Ok a ∧ s' = s.
Proof. unfold lift. intros; by simplify_eq. Qed.

Lemma preserves_ok {S E A} (I : S → Prop) (m : M S E A) s o s' :
  preserves I m → m s = (o, s') → I s → I s'.
Proof. intros Hm Hrun Hs. specialize (Hm s Hs). by rewrite Hrun in Hm. Qed.

Create HintDb node discriminated.

Lemma preserves_ret {S E A} I (a : A) : preserves I (ret a : M S E A).
Proof. by intros s. Qed.
Lemma preserves_fail {S E A} I (e : E) : preserves I (fail e : M S E A).
Proof. by intros s. Qed.
Lemma preserves_panic {S E A} I : preserves I (panic : M S E A).
Proof. by intros s. Qed.
Lemma preserves_lift {S E A} I (o : outcome E A) : preserves I (lift o : M S E A).
Proof. by intros s. Qed.
Lemma preserves_gets {S E A} I (f : S → A) : preserves I (gets f : M S E A).
Proof. by intros s. Qed.
Lemma preserves_bind {S E A B} I (m : M S E A) (k : A → M S E B) :
  preserves I m → (∀ a, preserves I (k a)) → preserves I (bind m k).
Proof.
  intros Hm Hk s Hs. unfold bind. pose proof (Hm s Hs) as H1.
  destruct (m s) as [[a|e|] s1]; simpl in *; auto. by apply Hk.
Qed.
Lemma preserves_modify {S E} (I : S → Prop) (f : S → S) :
  (∀ s, I s → I (f s)) → preserves I (modify f : M S E unit).
Proof. intros H s Hs. by apply H. Qed.
Lemma preserves_map_err {S E F A} I (f : E → F) (m : M S E A) :
  preserves I m → preserves I (map_err f m).
Proof. intros H s Hs. specialize (H s Hs). unfold map_err. by destruct (m s). Qed.
Lemma preserves_try {S E F A} I (m : M S E A) :
  preserves I m → preserves I (try m : M S F _).
Proof. intros H s Hs. specialize (H s Hs). unfold try. by destruct (m s) as [[]]. Qed.
Lemma preserves_for_each {S E A} I (f : A → M S E unit) l :
  (∀ x, preserves I (f x)) → preserves I (for_each f l).
Proof. intros H. induction l; simpl; [apply preserves_ret|by apply preserves_bind]. Qed.
Lemma preserves_if {S E A} I (b : bool) (m1 m2 : M S E A) :
  preserves I m1 → preserves I m2 → preserves I (if b then m1 else m2).
Proof. by destruct b. Qed.

#[export] Hint Resolve preserves_ret preserves_fail preserves_panic preserves_lift
  preserves_gets preserves_map_err preserves_try preserves_for_each preserves_if : node.
#[export] Hint Resolve preserves_bind : node.

(** ** What a computation can do to the state

    [follows R m]: however [m] ends, the state it leaves is related to the state it started from.
    Where [preserves] speaks of a property of states, this speaks of their change. *)

Definition follows {S E A} (R : relation S) (m : M S E A) : Prop := ∀ s, R s (m s).2.

Section Follows.
Context {S : Type} (R : relation S) `{!PreOrder R}.

Lemma follows_same {E A} (m : M S E A) : (∀ s, (m s).2 = s) → follows R m.
Proof. intros Hm s. rewrite Hm. reflexivity. Qed.
Lemma follows_ret {E A} (a : A) : follows R (ret a : M S E A).
Proof. by apply follows_same. Qed.
Lemma follows_fail {E A} (e : E) : follows R (fail e : M S E A).
Proof. by apply follows_same. Qed.
Lemma follows_panic {E A} : follows R (panic : M S E A).
Proof. by apply follows_same. Qed.
Lemma follows_lift {E A} (o : outcome E A) : follows R (lift o : M S E A).
Proof. by apply follows_same. Qed.
Lemma follows_gets {E A} (f : S → A) : follows R (gets f : M S E A).
Proof. by apply follows_same. Qed.
Lemma follows_get {E} : follows R (get : M S E S).
Proof. by apply follows_same. Qed.
Lemma follows_modify {E} (f : S → S) : (∀ s, R s (f s)) → follows R (modify f : M S E unit).
Proof. intros Hf s. apply Hf. Qed.
Lemma follows_bind {E A B} (m : M S E A) (k : A → M S E B) :
  follows R m → (∀ a, follows R (k a)) → follows R (bind m k).
Proof.
  intros Hm Hk s. unfold bind. pose proof (Hm s) as H1.
  destruct (m s) as [[a|e|] s1]; simpl in *; [|done..]. etransitivity; [exact H1|apply Hk].
Qed.
Lemma follows_map_err {E F A} (f : E → F) (m : M S E A) : follows R m → follows R (map_err f m).
Proof. intros Hm s. specialize (Hm s). unfold map_err. by destruct (m s). Qed.
Lemma follows_try {E F A} (m : M S E A) : follows R m → follows R (try m : M S F _).
Proof. intros Hm s. specialize (Hm s). unfold try. by destruct (m s) as [[]]. Qed.
Lemma follows_for_each {E A} (f : A → M S E unit) l :
  (∀ x, follows R (f x)) → follows R (for_each f l).
Proof. intros Hf. induction l; simpl; [apply follows_ret|by apply follows_bind]. Qed.
End Follows.

#[export] Hint Resolve follows_ret follows_fail follows_panic follows_lift follows_gets follows_get
  : node.

(** Case analysis on the scrutinee of the goal's or a hypothesis' outermost match. *)
Ltac case_out :=
  match goal with
  | H : context [match ?x with _ => _ end] |- _ =>
      lazymatch x with context [match _ with _ => _ end] => fail | _ => destruct x eqn:? end
  | |- context [match ?x with _ => _ end] =>
      lazymatch x with context [match _ with _ => _ end] => fail | _ => destruct x eqn:? end
  end.

(** Turns the boolean comparisons of the context into propositions. *)
Ltac bool_to_prop :=
  repeat match goal with
  | H : (_ && _) = true |- _ => apply andb_true_iff in H as [? ?]
  | H : (_ || _) = false |- _ => apply orb_false_iff in H as [? ?]
  | H : negb _ = true |- _ => apply negb_true_iff in H
  | H : negb _ = false |- _ => apply negb_false_iff in H
  | H : (_ <? _) = true |- _ => apply Z.ltb_lt in H
  | H : (_ <? _) = false |- _ => apply Z.ltb_ge in H
  | H : (_ <=? _) = true |- _ => apply Z.leb_le in H
  | H : (_ <=? _) = false |- _ => apply Z.leb_gt in H
  | H : (_ =? _) = true |- _ => apply Z.eqb_eq in H
  | H : (_ =? _) = false |- _ => apply Z.eqb_neq in H
  | H : bool_decide _ = true |- _ => apply bool_decide_eq_true in H
  | H : bool_decide _ = false |- _ => apply bool_decide_eq_false in H
  end.

(** Closes a goal whose hypotheses describe a computation that cannot have ended that way. *)
Ltac monad_absurd :=
  intros; unfold ret, fail, panic, lift, gets, get, modify in *; simplify_eq/=; try done; congruence.
