(* ===== verification/Sql.v ===== *)
(** * Relational statements

    The statements sea-orm issues for the node: filtered selections, bulk updates and deletions
    over a table, a table being the list of its rows.  SQL leaves the order in which a query
    visits the rows open wherever the statement has no [ORDER BY] (and between equal keys of one):
    the class [SqlEngine] makes that order a parameter, any permutation of the selected rows. *)

From S2P Require Import Prelude.

Class SqlEngine := {
  scan : ∀ {A : Type}, list A → list A;
  scan_perm : ∀ {A} (l : list A), scan l ≡ₚ l
}.

(** Comparisons with a nullable column: a comparison with NULL does not select the row. *)
Definition null_gt (c : option Z) (x : Z) : bool := match c with Some v => x <? v | None => false end.
Definition null_gte (c : option Z) (x : Z) : bool := match c with Some v => x <=? v | None => false end.
Definition null_lt (c : option Z) (x : Z) : bool := match c with Some v => v <? x | None => false end.
Definition null_lte (c : option Z) (x : Z) : bool := match c with Some v => v <=? x | None => false end.
Definition null_eq (c : option Z) (x : Z) : bool := match c with Some v => v =? x | None => false end.
Definition is_null (c : option Z) : bool := match c with Some _ => false | None => true end.
Definition is_not_null (c : option Z) : bool := negb (is_null c).

(** [x IN (xs)]. *)
Definition is_in (x : Z) (xs : list Z) : bool := existsb (Z.eqb x) xs.

Lemma is_in_true x xs : is_in x xs = true ↔ x ∈ xs.
Proof.
  unfold is_in. rewrite existsb_exists.
  split.
  - intros (y & Hy & Heq). apply Z.eqb_eq in Heq as ->. by apply list_elem_of_In.
  - intros Hx. exists x. split; [by apply list_elem_of_In|apply Z.eqb_refl].
Qed.

Definition update_many {R} (p : R → bool) (f : R → R) (t : list R) : list R :=
  map (λ r, if p r then f r else r) t.
Definition delete_many {R} (p : R → bool) (t : list R) : list R :=
  List.filter (λ r, negb (p r)) t.
Definition rows_affected {R} (p : R → bool) (t : list R) : Z := Z.of_nat (length (List.filter p t)).

Definition asc {R} (key : R → Z) (a b : R) : Prop := key a <= key b.
Definition desc {R} (key : R → Z) (a b : R) : Prop := key b <= key a.
#[export] Instance asc_dec {R} (key : R → Z) : RelDecision (asc key).
Proof. intros a b. apply Z.le_dec. Defined.
#[export] Instance desc_dec {R} (key : R → Z) : RelDecision (desc key).
Proof. intros a b. apply Z.le_dec. Defined.
#[export] Instance asc_total {R} (key : R → Z) : Total (asc key).
Proof. intros a b. unfold asc. lia. Qed.
#[export] Instance desc_total {R} (key : R → Z) : Total (desc key).
Proof. intros a b. unfold desc. lia. Qed.
#[export] Instance asc_trans {R} (key : R → Z) : Transitive (asc key).
Proof. intros a b c. unfold asc. lia. Qed.
#[export] Instance desc_trans {R} (key : R → Z) : Transitive (desc key).
Proof. intros a b c. unfold desc. lia. Qed.

(** [MAX(column)] over a nullable column. *)
Definition max_opt (a b : option Z) : option Z :=
  match a, b with
  | Some x, Some y => Some (Z.max x y)
  | Some x, None => Some x
  | None, o => o
  end.
Definition max_column (l : list (option Z)) : option Z := foldr max_opt None l.

Section Queries.
Context `{SqlEngine}.

Definition find {R} (p : R → bool) (t : list R) : list R := scan (List.filter p t).
Definition one {R} (l : list R) : option R := head l.
Definition order_by_asc {R} (key : R → Z) (l : list R) : list R := merge_sort (asc key) l.
Definition order_by_desc {R} (key : R → Z) (l : list R) : list R := merge_sort (desc key) l.

(** [ORDER BY k1 DESC, k2 DESC]. *)
Definition desc2 {R} (k1 k2 : R → Z) (a b : R) : Prop :=
  k1 b < k1 a ∨ (k1 a = k1 b ∧ k2 b <= k2 a).
#[global] Instance desc2_dec {R} (k1 k2 : R → Z) : RelDecision (desc2 k1 k2).
Proof.
  intros a b. unfold desc2.
  refine (if Z_lt_dec (k1 b) (k1 a) then left _
          else if decide (k1 a = k1 b ∧ k2 b <= k2 a) then left _ else right _); tauto.
Defined.
#[global] Instance desc2_total {R} (k1 k2 : R → Z) : Total (desc2 k1 k2).
Proof. intros a b. unfold desc2. lia. Qed.
#[global] Instance desc2_trans {R} (k1 k2 : R → Z) : Transitive (desc2 k1 k2).
Proof. intros a b c. unfold desc2. lia. Qed.
Definition order_by_desc2 {R} (k1 k2 : R → Z) (l : list R) : list R := merge_sort (desc2 k1 k2) l.

Lemma elem_of_where {R} (p : R → bool) (t : list R) r :
  r ∈ List.filter p t ↔ r ∈ t ∧ p r = true.
Proof. rewrite !list_elem_of_In. apply filter_In. Qed.

Lemma elem_of_find {R} (p : R → bool) (t : list R) r : r ∈ find p t ↔ r ∈ t ∧ p r = true.
Proof. unfold find. rewrite scan_perm. apply elem_of_where. Qed.

Lemma elem_of_order_by_asc {R} key (l : list R) r : r ∈ order_by_asc key l ↔ r ∈ l.
Proof. unfold order_by_asc. by rewrite merge_sort_Permutation. Qed.
Lemma elem_of_order_by_desc {R} key (l : list R) r : r ∈ order_by_desc key l ↔ r ∈ l.
Proof. unfold order_by_desc. by rewrite merge_sort_Permutation. Qed.
Lemma elem_of_order_by_desc2 {R} k1 k2 (l : list R) r : r ∈ order_by_desc2 k1 k2 l ↔ r ∈ l.
Proof. unfold order_by_desc2. by rewrite merge_sort_Permutation. Qed.

Lemma elem_of_delete_many {R} (p : R → bool) (t : list R) r :
  r ∈ delete_many p t ↔ r ∈ t ∧ p r = false.
Proof. unfold delete_many. rewrite elem_of_where, negb_true_iff. done. Qed.

Lemma elem_of_update_many {R} (p : R → bool) f (t : list R) r :
  r ∈ update_many p f t ↔ ∃ r0, r0 ∈ t ∧ r = (if p r0 then f r0 else r0).
Proof.
  unfold update_many. rewrite list_elem_of_In, in_map_iff.
  split; intros (r0 & ? & ?); exists r0; rewrite ?list_elem_of_In in *; done.
Qed.

Lemma order_by_asc_sorted {R} key (l : list R) : StronglySorted (asc key) (order_by_asc key l).
Proof. apply StronglySorted_merge_sort; apply _. Qed.
Lemma order_by_desc_sorted {R} key (l : list R) : StronglySorted (desc key) (order_by_desc key l).
Proof. apply StronglySorted_merge_sort; apply _. Qed.
Lemma order_by_desc2_sorted {R} k1 k2 (l : list R) :
  StronglySorted (desc2 k1 k2) (order_by_desc2 k1 k2 l).
Proof. apply StronglySorted_merge_sort; apply _. Qed.

(** The first row of a sorted selection is an extremum of it. *)
Lemma sorted_head {R} (rel : R → R → Prop) (l : list R) r :
  StronglySorted rel l → one l = Some r → ∀ r', r' ∈ l → r' = r ∨ rel r r'.
Proof.
  destruct l as [|x l]; simpl; [done|]. intros Hs [= ->] r' Hr'.
  apply elem_of_cons in Hr' as [->|Hr']; [by left|right].
  inversion Hs as [|? ? _ Hall]; subst. rewrite Forall_forall in Hall.
  apply Hall. done.
Qed.

Lemma one_elem {R} (l : list R) r : one l = Some r → r ∈ l.
Proof. destruct l; intros; simplify_eq/=. by left. Qed.

Lemma one_None {R} (l : list R) : one l = None ↔ l = [].
Proof. by destruct l. Qed.

(** [ORDER BY key DESC LIMIT 1]. *)
Lemma one_desc {R} key (p : R → bool) (t : list R) r :
  one (order_by_desc key (find p t)) = Some r →
  r ∈ t ∧ p r = true ∧ ∀ r', r' ∈ t → p r' = true → key r' <= key r.
Proof.
  intros Hone. pose proof (one_elem _ _ Hone) as Hin.
  rewrite elem_of_order_by_desc, elem_of_find in Hin. destruct Hin as [Hin Hp].
  split_and!; [done..|]. intros r' Hr' Hp'.
  destruct (sorted_head _ _ r (order_by_desc_sorted key (find p t)) Hone r') as [->|]; try done.
  by rewrite elem_of_order_by_desc, elem_of_find.
Qed.

Lemma one_desc_None {R} key (p : R → bool) (t : list R) :
  one (order_by_desc key (find p t)) = None → ∀ r, r ∈ t → p r = false.
Proof.
  intros Hn%one_None r Hr. destruct (p r) eqn:Hp; [|done]. exfalso.
  assert (r ∈ order_by_desc key (find p t)) as Hin
    by (by rewrite elem_of_order_by_desc, elem_of_find).
  rewrite Hn in Hin. by apply not_elem_of_nil in Hin.
Qed.

Lemma update_many_id {R} (p : R → bool) f (t : list R) :
  (∀ r, r ∈ t → p r = false) → update_many p f t = t.
Proof.
  intros Hp. unfold update_many. induction t as [|r t IH]; simpl; [done|].
  rewrite (Hp r) by (by left). rewrite IH; [done|]. intros. apply Hp. by right.
Qed.

Lemma delete_many_id {R} (p : R → bool) (t : list R) :
  (∀ r, r ∈ t → p r = false) → delete_many p t = t.
Proof.
  intros Hp. unfold delete_many. induction t as [|r t IH]; simpl; [done|].
  rewrite (Hp r) by (by left). simpl. rewrite IH; [done|]. intros. apply Hp. by right.
Qed.

Lemma find_nil {R} (p : R → bool) (t : list R) :
  (∀ r, r ∈ t → p r = false) → find p t = [].
Proof.
  intros Hp. destruct (find p t) as [|r l] eqn:E; [done|].
  assert (r ∈ find p t) as Hr by (rewrite E; by left).
  apply elem_of_find in Hr as [Hr Ht]. by rewrite Hp in Ht.
Qed.

Lemma rows_affected_0 {R} (p : R → bool) (t : list R) :
  (∀ r, r ∈ t → p r = false) ↔ rows_affected p t = 0.
Proof.
  unfold rows_affected. split.
  - intros Hp. destruct (List.filter p t) as [|r l] eqn:E; [done|].
    assert (r ∈ List.filter p t) as Hr by (rewrite E; by left).
    apply elem_of_where in Hr as [Hr Ht]. by rewrite Hp in Ht.
  - intros Hl r Hr. destruct (p r) eqn:Hp; [|done]. exfalso.
    assert (r ∈ List.filter p t) as Hin by (by apply elem_of_where).
    destruct (List.filter p t); [by apply not_elem_of_nil in Hin|simpl in Hl; lia].
Qed.
End Queries.

(** Rows in the order they are stored: the order the witnesses use. *)
Definition stored_order : SqlEngine := {| scan := λ A l, l; scan_perm := λ A l, reflexivity l |}.
