(* ===== verification/Primitives.v ===== *)
(** * Primitive types (crates/primitives/src)

    Block and batch identifiers, the batch status and its textual form, the consolidation
    outcomes, the L1 start-up information and the bounded vector.  Types and functions of the
    third-party crates (alloy, reth and the dogeos ones) appear as data, and their functions (hashing,
    transaction encoding) as the operations of the class [Chain]. *)

From S2P Require Import Prelude.

(** A 256-bit word, an address and a byte string: the values of alloy's [B256], [U256], [Address]
    and [Bytes], as integers and lists of byte values. *)
Definition B256 : Type := Z.
Definition Address : Type := Z.
Definition Bytes : Type := list Z.
Definition Signature : Type := Z.

Record BlockInfo := mkBlockInfo { number : Z; hash : B256 }.
Record BatchInfo := mkBatchInfo { b_index : Z; b_hash : B256 }.

#[global] Instance BlockInfo_eq_dec : EqDecision BlockInfo.
Proof. solve_decision. Defined.
#[global] Instance BatchInfo_eq_dec : EqDecision BatchInfo.
Proof. solve_decision. Defined.

(** [PartialOrd for BlockInfo]: blocks compare by number only. *)
Definition BlockInfo_partial_cmp (self other : BlockInfo) : option comparison :=
  Some (number self ?= number other)%Z.

Record BatchCommitData := mkBatchCommitData {
  bc_hash : B256;
  bc_index : Z;
  bc_block_number : Z;
  bc_block_timestamp : Z;
  bc_calldata : Bytes;
  bc_blob_versioned_hash : option B256;
  bc_finalized_block_number : option Z;
  bc_reverted_block_number : option Z
}.

#[global] Instance BatchCommitData_eq_dec : EqDecision BatchCommitData.
Proof. solve_decision. Defined.

Definition BatchInfo_from (value : BatchCommitData) : BatchInfo :=
  {| b_index := bc_index value; b_hash := bc_hash value |}.

Inductive BatchStatus := Committed | Processing | Consolidated | Reverted | Finalized.

#[global] Instance BatchStatus_eq_dec : EqDecision BatchStatus.
Proof. solve_decision. Defined.

Definition is_consolidated (s : BatchStatus) : bool :=
  match s with Consolidated => true | _ => false end.
Definition is_finalized (s : BatchStatus) : bool :=
  match s with Finalized => true | _ => false end.

Definition as_str (s : BatchStatus) : string :=
  match s with
  | Committed => "committed"
  | Processing => "processing"
  | Consolidated => "consolidated"
  | Reverted => "reverted"
  | Finalized => "finalized"
  end.

(** [FromStr for BatchStatus]; the error carries the rejected string. *)
Definition BatchStatus_from_str (s : string) : outcome string BatchStatus :=
  if String.eqb s "committed" then Ok Committed
  else if String.eqb s "processing" then Ok Processing
  else if String.eqb s "consolidated" then Ok Consolidated
  else if String.eqb s "reverted" then Ok Reverted
  else if String.eqb s "finalized" then Ok Finalized
  else Err s.

(** An L2 block with the hashes of the L1 messages it includes. *)
Record L2BlockInfoWithL1Messages := mkL2BlockInfo {
  block_info : BlockInfo;
  l1_messages : list B256
}.

#[global] Instance L2BlockInfo_eq_dec : EqDecision L2BlockInfoWithL1Messages.
Proof. solve_decision. Defined.

(** The startup configuration of the L1 watcher. *)
Inductive L1BlockStartupInfo :=
| UnsafeBlocks (blocks : list BlockInfo)
| FinalizedBlockNumber (n : Z)
| NoStartupInfo.

Definition L1BlockStartupInfo_new
    (unsafe_blocks : list BlockInfo) (finalized_block_number : option Z) : L1BlockStartupInfo :=
  match unsafe_blocks with
  | _ :: _ => UnsafeBlocks unsafe_blocks
  | [] => match finalized_block_number with
          | Some number => FinalizedBlockNumber number
          | None => NoStartupInfo
          end
  end.

(** ** Consolidation outcomes (batch.rs) *)

Record BatchConsolidationOutcome := mkBatchOutcome {
  batch_info : BatchInfo;
  blocks : list L2BlockInfoWithL1Messages;
  skipped_l1_messages : list Z;
  target_status : BatchStatus;
  l2_head_updated : bool
}.

Definition BatchConsolidationOutcome_new
    (bi : BatchInfo) (status : BatchStatus) (head_updated : bool) : BatchConsolidationOutcome :=
  {| batch_info := bi; blocks := []; skipped_l1_messages := [];
     target_status := status; l2_head_updated := head_updated |}.

Definition push_block (self : BatchConsolidationOutcome) (block : L2BlockInfoWithL1Messages) :
    BatchConsolidationOutcome :=
  {| batch_info := batch_info self; blocks := blocks self ++ [block];
     skipped_l1_messages := skipped_l1_messages self;
     target_status := target_status self; l2_head_updated := l2_head_updated self |}.

Definition with_skipped_l1_messages (self : BatchConsolidationOutcome) (skipped : list Z) :
    BatchConsolidationOutcome :=
  {| batch_info := batch_info self; blocks := blocks self; skipped_l1_messages := skipped;
     target_status := target_status self; l2_head_updated := l2_head_updated self |}.

(** [updated_l2_head]: panics when the head was updated and there is no block. *)
Definition updated_l2_head {E} (self : BatchConsolidationOutcome) : outcome E (option BlockInfo) :=
  if l2_head_updated self
  then omap_ok (λ b, Some (block_info b)) (expect (last (blocks self)))
  else Ok None.

Inductive BlockConsolidationOutcome :=
| OutcomeUpdateFcs (info : L2BlockInfoWithL1Messages)
| OutcomeSkipped (info : L2BlockInfoWithL1Messages)
| OutcomeReorged (info : L2BlockInfoWithL1Messages).

(** [block_info] and [into_inner] of [BlockConsolidationOutcome]. *)
Definition into_inner (o : BlockConsolidationOutcome) : L2BlockInfoWithL1Messages :=
  match o with
  | OutcomeUpdateFcs info | OutcomeSkipped info | OutcomeReorged info => info
  end.

(** ** Blocks and L1 messages: third-party data *)

(** [alloy_consensus::Header]. *)
Record Header := mkHeader {
  parent_hash : B256;
  ommers_hash : B256;
  beneficiary : Address;
  state_root : B256;
  transactions_root : B256;
  receipts_root : B256;
  logs_bloom : Z;
  difficulty : Z;
  h_number : Z;
  gas_limit : Z;
  gas_used : Z;
  timestamp : Z;
  extra_data : Bytes;
  mix_hash : B256;
  nonce : Z;
  base_fee_per_gas : option Z
}.

(** [dogeos_protocol_types::TxL1Message]. *)
Record TxL1Message := mkTxL1Message {
  queue_index : Z;
  l1_gas_limit : Z;
  l1_to : Address;
  l1_value : Z;
  l1_sender : Address;
  l1_input : Bytes
}.

#[global] Instance TxL1Message_eq_dec : EqDecision TxL1Message.
Proof. solve_decision. Defined.

Record L1MessageEnvelope := mkL1MessageEnvelope {
  transaction : TxL1Message;
  l1_block_number : Z;
  l2_block_number : option Z;
  queue_hash : option B256
}.

#[global] Instance L1MessageEnvelope_eq_dec : EqDecision L1MessageEnvelope.
Proof. solve_decision. Defined.

(** Operations of the third-party crates the node relies on: the block hash, Keccak-256, the hash
    of an L1 message, and the transactions ([ScrollTxEnvelope]) of a block. *)
Class Chain := {
  Tx : Type;
  is_l1_message : Tx → bool;
  tx_hash : Tx → B256;
  trie_hash : Tx → B256;
  encoded_2718 : Tx → Bytes;
  decode_2718 : Bytes → option Tx;
  hash_slow : Header → B256;
  keccak256 : Bytes → B256;
  l1_tx_hash : TxL1Message → B256;
  l1_encoded_2718 : TxL1Message → Bytes
}.

Section Blocks.
Context `{Chain}.

(** [DogeosBlock]: a header and the transactions of its body. *)
Record DogeosBlock := mkBlock { header : Header; transactions : list Tx }.

Definition block_hash_slow (b : DogeosBlock) : B256 := hash_slow (header b).
Definition block_number (b : DogeosBlock) : Z := h_number (header b).

(** [From<&Header> for BlockInfo] and [From<&DogeosBlock> for BlockInfo]. *)
Definition BlockInfo_from_header (value : Header) : BlockInfo :=
  {| number := h_number value; hash := hash_slow value |}.

(** [From<&DogeosBlock> for L2BlockInfoWithL1Messages]. *)
Definition L2BlockInfo_from_block (value : DogeosBlock) : L2BlockInfoWithL1Messages :=
  {| block_info := {| number := h_number (header value); hash := hash_slow (header value) |};
     l1_messages := map tx_hash (List.filter is_l1_message (transactions value)) |}.

(** [ExecutionPayloadV1]: the fields the node reads. *)
Record ExecutionPayloadV1 := mkPayload {
  p_parent_hash : B256;
  p_block_number : Z;
  p_block_hash : B256;
  p_base_fee_per_gas : Z;
  p_timestamp : Z;
  p_transactions : list Bytes
}.

Definition L1_MESSAGE_TRANSACTION_TYPE : Z := 126.

(** [TryFrom<&ExecutionPayloadV1> for L2BlockInfoWithL1Messages]: the transactions whose first
    byte is the L1 message type are decoded; an undecodable one is an error. *)
Fixpoint payload_l1_messages (txs : list Bytes) : outcome unit (list B256) :=
  match txs with
  | [] => Ok []
  | tx :: txs =>
      match head tx with
      | Some ty =>
          if ty =? L1_MESSAGE_TRANSACTION_TYPE then
            match decode_2718 tx with
            | None => Err tt
            | Some t => omap_ok (cons (tx_hash t)) (payload_l1_messages txs)
            end
          else payload_l1_messages txs
      | None => payload_l1_messages txs
      end
  end.

Definition L2BlockInfo_try_from_payload (value : ExecutionPayloadV1) :
    outcome unit L2BlockInfoWithL1Messages :=
  omap_ok
    (mkL2BlockInfo {| number := p_block_number value; hash := p_block_hash value |})
    (payload_l1_messages (p_transactions value)).

End Blocks.

(** ** The bounded vector (bounded_vec.rs)

    The buffer of a [VecDeque] and its capacity.  [with_capacity] may allocate more than it is
    asked for and a push into a full buffer grows it: both are the allocator's choice. *)

Module BoundedVec.
Section BoundedVec.
Context {T : Type}.

Record t := mk { data : list T; capacity : nat }.

Variable grow : nat → nat.

(** [VecDeque::push_back] and [VecDeque::push_front]. *)
Definition deque_push_back (v : t) (elem : T) : t :=
  {| data := data v ++ [elem];
     capacity := if Nat.eqb (length (data v)) (capacity v) then grow (capacity v)
                 else capacity v |}.
Definition deque_push_front (v : t) (elem : T) : t :=
  {| data := elem :: data v;
     capacity := if Nat.eqb (length (data v)) (capacity v) then grow (capacity v)
                 else capacity v |}.

Definition pop_front (v : t) : t := {| data := tail (data v); capacity := capacity v |}.
Definition pop_back (v : t) : t :=
  {| data := take (length (data v) - 1) (data v); capacity := capacity v |}.

Definition is_full (v : t) : bool := Nat.eqb (length (data v)) (capacity v).

Definition push_back (v : t) (elem : T) : t :=
  deque_push_back (if is_full v then pop_front v else v) elem.

Definition push_front (v : t) (elem : T) : t :=
  deque_push_front (if is_full v then pop_back v else v) elem.

(** [pop]: the last element and the vector without it. *)
Definition pop (v : t) : option T * t := (last (data v), pop_back v).

Definition first (v : t) : option T := head (data v).
Definition vec_last (v : t) : option T := last (data v).
Definition clear (v : t) : t := {| data := []; capacity := capacity v |}.
(** [drain(0..=position)]. *)
Definition drain_upto (position : nat) (v : t) : t :=
  {| data := drop (S position) (data v); capacity := capacity v |}.

(** [Extend::extend]. *)
Definition extend (v : t) (iter : list T) : t := foldl push_back v iter.

(** The length never exceeds a positive capacity. *)
Definition wf (v : t) : Prop := (0 < capacity v)%nat ∧ (length (data v) ≤ capacity v)%nat.

Lemma push_back_spec v x :
  wf v →
  capacity (push_back v x) = capacity v ∧
  data (push_back v x) = drop (length (data v) + 1 - capacity v) (data v ++ [x]).
Proof.
  intros [Hc Hl]. unfold push_back, is_full, deque_push_back, pop_front.
  destruct (Nat.eqb_spec (length (data v)) (capacity v)) as [E|E]; simpl.
  - rewrite <- E. replace (length (data v) + 1 - length (data v))%nat with 1%nat by lia.
    destruct (data v) as [|y l]; simpl in *; [lia|].
    split; [|done]. by rewrite (proj2 (Nat.eqb_neq _ _)) by lia.
  - rewrite (proj2 (Nat.eqb_neq _ _)) by lia.
    replace (length (data v) + 1 - capacity v)%nat with 0%nat by lia. done.
Qed.

Lemma push_back_wf v x : wf v → wf (push_back v x).
Proof.
  intros Hw. destruct (push_back_spec v x Hw) as [Hc Hd]. destruct Hw as [Hp Hl].
  split; rewrite Hc; [done|]. rewrite Hd, length_drop, length_app. simpl. lia.
Qed.

Lemma push_front_wf v x : wf v → wf (push_front v x).
Proof.
  intros [Hp Hl]. unfold push_front, is_full, deque_push_front, pop_back, wf.
  destruct (Nat.eqb_spec (length (data v)) (capacity v)) as [E|E]; simpl.
  - rewrite length_take. rewrite (proj2 (Nat.eqb_neq _ _)) by lia. lia.
  - rewrite (proj2 (Nat.eqb_neq _ _)) by lia. lia.
Qed.

Lemma extend_wf v xs : wf v → wf (extend v xs).
Proof. revert v. induction xs; simpl; auto using push_back_wf. Qed.

Lemma extend_spec v xs :
  wf v →
  capacity (extend v xs) = capacity v ∧
  data (extend v xs) = drop (length (data v) + length xs - capacity v) (data v ++ xs).
Proof.
  revert v. induction xs as [|x xs IH]; intros v Hw; simpl.
  - rewrite app_nil_r. split; [done|].
    replace (length (data v) + 0 - capacity v)%nat with 0%nat by (destruct Hw; lia). done.
  - destruct (IH (push_back v x) (push_back_wf v x Hw)) as [Hc Hd].
    destruct (push_back_spec v x Hw) as [Hc1 Hd1]. destruct Hw as [Hp Hl].
    fold (extend (push_back v x) xs). rewrite Hc, Hc1. split; [done|].
    rewrite Hd, Hc1, Hd1, length_drop, length_app. simpl.
    replace (data v ++ x :: xs) with ((data v ++ [x]) ++ xs) by (by rewrite <- app_assoc).
    set (k := (length (data v) + 1 - capacity v)%nat).
    set (j := (length (data v) + 1 - k + length xs - capacity v)%nat).
    rewrite <- (skipn_O (drop k (data v ++ [x]) ++ xs)) at 1.
    replace (drop k (data v ++ [x]) ++ xs) with (drop k ((data v ++ [x]) ++ xs))
      by (rewrite drop_app_le; [done|rewrite length_app; simpl; lia]).
    rewrite drop_0, drop_drop. f_equal. lia.
Qed.
End BoundedVec.
Arguments t : clear implicits.
End BoundedVec.
