(* ===== verification/BigEndian.v ===== *)
(** * Byte strings and big-endian integers

    The byte-level vocabulary of the codec: [to_be_bytes] and [from_be_bytes] of Rust's unsigned
    integers on lists of byte values, and the buffer monad, whose state is the unread rest of a
    [&mut &[u8]].  Reading past the end of a slice panics, as slice indexing and [Buf::advance]
    do. *)

From S2P Require Import Prelude Primitives.

Definition byte_ok (b : Z) : Prop := 0 <= b < 256.

(** [from_be_bytes] and [to_be_bytes] at [n] bytes. *)
Definition from_be (bs : Bytes) : Z := foldl (λ acc b, acc * 256 + b) 0 bs.

Fixpoint be_bytes (n : nat) (z : Z) : Bytes :=
  match n with
  | O => []
  | S n => (z / 256 ^ Z.of_nat n) mod 256 :: be_bytes n z
  end.

Lemma length_be_bytes n z : length (be_bytes n z) = n.
Proof. by induction n; simpl; f_equal. Qed.

Lemma from_be_acc acc bs :
  foldl (λ acc b, acc * 256 + b) acc bs = acc * 256 ^ Z.of_nat (length bs) + from_be bs.
Proof.
  unfold from_be. revert acc. induction bs as [|b bs IH]; intros acc; cbn [foldl length].
  { rewrite Z.pow_0_r. lia. }
  rewrite IH, (IH (0 * 256 + b)). rewrite Nat2Z.inj_succ, Z.pow_succ_r by lia. lia.
Qed.

Lemma from_be_cons b bs : from_be (b :: bs) = b * 256 ^ Z.of_nat (length bs) + from_be bs.
Proof. unfold from_be at 1. simpl. rewrite from_be_acc. lia. Qed.

Lemma from_be_be_bytes_mod n z : from_be (be_bytes n z) = z mod 256 ^ Z.of_nat n.
Proof.
  induction n as [|n IH]; [by rewrite Z.pow_0_r, Z.mod_1_r|].
  cbn [be_bytes]. rewrite from_be_cons, length_be_bytes, IH, Nat2Z.inj_succ, Z.pow_succ_r by lia.
  rewrite (Z.mul_comm 256), Z.rem_mul_r by lia. lia.
Qed.

Lemma from_be_be_bytes n z : 0 <= z < 256 ^ Z.of_nat n → from_be (be_bytes n z) = z.
Proof. intros. rewrite from_be_be_bytes_mod. by apply Z.mod_small. Qed.

Lemma from_be_bound bs : Forall byte_ok bs → 0 <= from_be bs < 256 ^ Z.of_nat (length bs).
Proof.
  induction bs as [|b bs IH]; intros Hb; [done|]. inversion_clear Hb as [|? ? Hb1 Hb2].
  specialize (IH Hb2). rewrite from_be_cons. cbn [length].
  rewrite Nat2Z.inj_succ, Z.pow_succ_r by lia. unfold byte_ok in Hb1. nia.
Qed.

Lemma be_bytes_from_be bs : Forall byte_ok bs → be_bytes (length bs) (from_be bs) = bs.
Proof.
  induction bs as [|b bs IH]; intros Hb; [done|]. inversion_clear Hb as [|? ? Hb1 Hb2].
  pose proof (from_be_bound bs Hb2) as Hr.
  assert (∀ n k z, (n ≤ k)%nat → be_bytes n (b * 256 ^ Z.of_nat k + z) = be_bytes n z) as Hshift.
  { intros n k z. induction n as [|n IHn]; intros Hn; [done|]. cbn [be_bytes].
    rewrite IHn by lia. f_equal.
    replace (Z.of_nat k) with (Z.of_nat n + (1 + Z.of_nat (k - S n))) by lia.
    rewrite Z.pow_add_r, Z.pow_add_r, Z.pow_1_r by lia.
    replace (b * (256 ^ Z.of_nat n * (256 * 256 ^ Z.of_nat (k - S n))) + z)
      with (z + b * 256 ^ Z.of_nat (k - S n) * 256 * 256 ^ Z.of_nat n) by lia.
    rewrite Z.div_add by lia. by rewrite Z.mod_add by lia. }
  cbn [length be_bytes]. rewrite from_be_cons, Hshift, (IH Hb2) by lia. f_equal.
  rewrite Z.div_add_l by lia. rewrite Z.div_small by lia. rewrite Z.add_0_r.
  by apply Z.mod_small.
Qed.

(** ** Reading a buffer *)

Section Buffer.
Context {E : Type}.

(** [Buf::advance]. *)
Definition advance (n : nat) : M Bytes E unit :=
  λ buf, if (n <=? length buf)%nat then (Ok tt, drop n buf) else (Panic, buf).

(** [let x = buf[..n]; buf.advance(n)]. *)
Definition take_bytes (n : nat) : M Bytes E Bytes :=
  λ buf, if (n <=? length buf)%nat then (Ok (take n buf), drop n buf) else (Panic, buf).

(** [from_be_bytes_slice_and_advance_buf!] and [from_slice_and_advance_buf!] at [n] bytes. *)
Definition take_be (n : nat) : M Bytes E Z := let* bs := take_bytes n in ret (from_be bs).

(** [check_buf_len!]: the error when fewer than [n] bytes are left. *)
Definition check_buf_len (e : E) (n : nat) : M Bytes E unit :=
  λ buf, if (length buf <? n)%nat then (Err e, buf) else (Ok tt, buf).

(** [for _ in 0..n { v.push(m) }]. *)
Fixpoint repeat_m {S A} (n : nat) (m : M S E A) : M S E (list A) :=
  match n with
  | O => ret []
  | S n => let* a := m in let* l := repeat_m n m in ret (a :: l)
  end.

Lemma take_bytes_app bs rest n : length bs = n → take_bytes n (bs ++ rest) = (Ok bs, rest).
Proof.
  intros <-. unfold take_bytes. rewrite (proj2 (Nat.leb_le _ _)) by (rewrite length_app; lia).
  by rewrite take_app_length, drop_app_length.
Qed.

Lemma take_be_app n z rest :
  0 <= z < 256 ^ Z.of_nat n → take_be n (be_bytes n z ++ rest) = (Ok z, rest).
Proof.
  intros Hz. unfold take_be, bind. rewrite take_bytes_app by apply length_be_bytes.
  unfold ret. by rewrite from_be_be_bytes.
Qed.

Lemma advance_app bs rest n : length bs = n → advance n (bs ++ rest) = (Ok tt, rest).
Proof.
  intros <-. unfold advance. rewrite (proj2 (Nat.leb_le _ _)) by (rewrite length_app; lia).
  by rewrite drop_app_length.
Qed.

(** What a successful read says about the buffer it started from. *)
Lemma take_bytes_inv n buf bs rest :
  take_bytes n buf = (Ok bs, rest) → buf = bs ++ rest ∧ length bs = n.
Proof.
  unfold take_bytes. destruct (Nat.leb_spec n (length buf)); [|done]. intros; simplify_eq.
  split; [by rewrite take_drop|]. rewrite length_take. lia.
Qed.

Lemma take_be_inv n buf z rest :
  Forall byte_ok buf → take_be n buf = (Ok z, rest) →
  buf = be_bytes n z ++ rest ∧ 0 <= z < 256 ^ Z.of_nat n ∧ Forall byte_ok rest.
Proof.
  intros Hb (bs & s1 & H1 & H2)%bind_Ok. unfold ret in H2. simplify_eq.
  apply take_bytes_inv in H1 as [-> <-]. apply Forall_app in Hb as [Hb1 Hb2].
  split_and!; try done; [|by apply from_be_bound..]. by rewrite be_bytes_from_be.
Qed.

Lemma take_be_long n buf : (n ≤ length buf)%nat →
  ∃ z, take_be n buf = (Ok z, drop n buf).
Proof.
  intros H. unfold take_be, bind, take_bytes. rewrite (proj2 (Nat.leb_le _ _) H). by eexists.
Qed.
End Buffer.
