(* ===== verification/Codec.v ===== *)
(** * The batch codec (crates/codec/src and crates/l1/src/abi/calls.rs)

    The decoder of the data a batch commits on L1: the commit calldata, the batch headers of the
    versions 0 to 7, the block contexts, the transactions and the blob envelope.  Decoders are
    computations on the unread rest of a buffer.  RLP, ABI and zstd decoding and the table of
    transaction types are third-party code: the operations of the class [CodecLibs].  The
    [debug_assert!]s of the source are not part of the release build and are left out. *)

From S2P Require Import Prelude Primitives BigEndian.

Inductive DecodingError :=
| UnsupportedCodecVersion (v : Z)
| MalformedCodecVersion (v : Z)
| MissingBlob
| MissingChunkData
| MissingParentHeader
| InvalidCalldataFormat
| InvalidParentHeaderFormat
| UnsupportedTransactionType (ty : Z)
| InvalidTypedTransactionEncoding
| InvalidSkippedL1MessageBitmapLength (len : nat)
| Eof
| Other (msg : string).

(** [alloy_rlp::Header], with the length of the header itself. *)
Record RlpHeader := mkRlpHeader { is_list : bool; header_length : nat; payload_length : nat }.

Inductive ScrollTxType := Eip2930 | Eip1559 | Eip7702 | OtherTxType.

(** The calls of the rollup contract, as the ABI decoder returns them. *)
Record commitBatchCall := mkCommitBatch {
  cb_version : Z;
  cb_parent_batch_header : Bytes;
  cb_chunks : list Bytes;
  cb_skipped_l1_message_bitmap : Bytes
}.
Record commitBatchWithBlobProofCall := mkCommitBatchWithBlobProof {
  cbp_version : Z;
  cbp_parent_batch_header : Bytes;
  cbp_chunks : list Bytes;
  cbp_skipped_l1_message_bitmap : Bytes;
  cbp_blob_data_proof : Bytes
}.
Record commitBatchesCall := mkCommitBatches {
  cbs_version : Z;
  cbs_parent_batch_hash : B256;
  cbs_last_batch_hash : B256
}.

Class CodecLibs := {
  rlp_header_decode : Bytes → option RlpHeader;
  tx_type_try_from : Z → option ScrollTxType;
  (** The successive results of [Decoder::read] on a zstd frame: [None] is an error. *)
  zstd_reads : Bytes → list (option Bytes);
  commitBatch_SELECTOR : Bytes;
  commitBatchWithBlobProof_SELECTOR : Bytes;
  commitBatches_SELECTOR : Bytes;
  commitBatch_abi_decode : Bytes → option commitBatchCall;
  commitBatchWithBlobProof_abi_decode : Bytes → option commitBatchWithBlobProofCall;
  commitBatches_abi_decode : Bytes → option commitBatchesCall
}.

(** ** Blocks (block.rs, payload.rs) *)

Record BlockContext := mkBlockContext {
  c_number : Z;
  c_timestamp : Z;
  c_base_fee : Z;
  c_gas_limit : Z;
  c_num_transactions : Z;
  c_num_l1_messages : Z
}.

Record L2Block := mkL2Block { l2_transactions : list Bytes; context : BlockContext }.

(** [BlockContext::to_be_bytes]. *)
Definition to_be_bytes (c : BlockContext) : Bytes :=
  be_bytes 8 (c_number c) ++ be_bytes 8 (c_timestamp c) ++
  (if negb (c_base_fee c =? 0) then be_bytes 32 (c_base_fee c) else replicate 32 0) ++
  be_bytes 8 (c_gas_limit c) ++ be_bytes 2 (c_num_transactions c) ++
  be_bytes 2 (c_num_l1_messages c).

Inductive L1MessageQueueInfo :=
| InitialQueueIndex (index : Z)
| Hashed (prev_l1_message_queue_hash post_l1_message_queue_hash : B256).

Record PayloadData := mkPayloadData {
  pd_blocks : list L2Block;
  l1_message_queue_info : L1MessageQueueInfo;
  pd_skipped_l1_message_bitmap : option (list bool)
}.

Definition queue_index_start (p : PayloadData) : option Z :=
  match l1_message_queue_info p with InitialQueueIndex i => Some i | Hashed _ _ => None end.
Definition prev_l1_message_queue_hash (p : PayloadData) : option B256 :=
  match l1_message_queue_info p with InitialQueueIndex _ => None | Hashed h _ => Some h end.
Definition post_l1_message_queue_hash (p : PayloadData) : option B256 :=
  match l1_message_queue_info p with InitialQueueIndex _ => None | Hashed _ h => Some h end.

Record Batch := mkBatch {
  version : Z;
  chunks_block_count : option (list nat);
  batch_data : PayloadData
}.

(** ** The blob iterator (blob.rs) *)

Record BlobSliceIter := mkBlobIter { iterator : Bytes; count : Z }.

Definition from_blob_slice (blob : Bytes) : BlobSliceIter := {| iterator := blob; count := 0 |}.

(** [Iterator::next]. *)
Definition blob_next (it : BlobSliceIter) : option Z * BlobSliceIter :=
  let it := if count it mod 32 =? 0
            then {| iterator := tail (iterator it); count := count it + 1 |} else it in
  (head (iterator it), {| iterator := tail (iterator it); count := count it + 1 |}).

(** [.copied().collect()]; every [next] that returns a byte consumes one, so the length of the
    blob bounds the number of calls. *)
Fixpoint collect (fuel : nat) (it : BlobSliceIter) : Bytes :=
  match fuel with
  | O => []
  | S fuel => match blob_next it with
              | (Some b, it) => b :: collect fuel it
              | (None, _) => []
              end
  end.

Definition heap_blob (blob : Bytes) : Bytes := collect (length blob) (from_blob_slice blob).

(** ** Batch headers (v0, v1, v3, v7/batch_header.rs) *)

Section Codec.
Context `{CodecLibs} `{Chain}.

Notation Buf := (M Bytes DecodingError).
Notation check_len := (check_buf_len Eof).

Record BatchHeaderV0 := mkHeaderV0 {
  h0_version : Z; h0_batch_index : Z; h0_l1_message_popped : Z; h0_total_l1_message_popped : Z;
  h0_data_hash : B256; h0_parent_batch_hash : B256; h0_skipped_l1_message_bitmap : Bytes
}.

Record BatchHeaderV1 := mkHeaderV1 {
  h1_version : Z; h1_batch_index : Z; h1_l1_message_popped : Z; h1_total_l1_message_popped : Z;
  h1_data_hash : B256; h1_blob_versioned_hash : B256; h1_parent_batch_hash : B256;
  h1_skipped_l1_message_bitmap : Bytes
}.

Record BatchHeaderV3 := mkHeaderV3 {
  h3_version : Z; h3_batch_index : Z; h3_l1_message_popped : Z; h3_total_l1_message_popped : Z;
  h3_data_hash : B256; h3_blob_versioned_hash : B256; h3_parent_batch_hash : B256;
  h3_last_block_timestamp : Z; h3_blob_data_proof : B256 * B256
}.

Record BatchHeaderV7 := mkHeaderV7 {
  h7_version : Z; h7_batch_index : Z; h7_blob_versioned_hash : B256; h7_parent_batch_hash : B256
}.

(** [u64::div_ceil]. *)
Definition div_ceil (a b : Z) : Z := a / b + (if a mod b =? 0 then 0 else 1).

(** The skipped message bitmap that ends a header of version 0 to 2:
    [buf.chunks(32).flatten().rev()], and the check of its length. *)
Definition take_bitmap (l1_message_popped : Z) : Buf Bytes :=
  let* buf := get in
  let bitmap := reverse buf in
  if negb (Z.of_nat (length buf) =? div_ceil l1_message_popped 256 * 32) then fail Eof
  else advance (length bitmap) ;;; ret bitmap.

Definition BatchHeaderV0_try_from_buf : Buf BatchHeaderV0 :=
  check_len 89 ;;;
  let* version := take_be 1 in
  let* batch_index := take_be 8 in
  let* l1_message_popped := take_be 8 in
  let* total_l1_message_popped := take_be 8 in
  let* data_hash := take_be 32 in
  let* parent_batch_hash := take_be 32 in
  let* bitmap := take_bitmap l1_message_popped in
  ret (mkHeaderV0 version batch_index l1_message_popped total_l1_message_popped data_hash
         parent_batch_hash bitmap).

Definition BatchHeaderV1_try_from_buf : Buf BatchHeaderV1 :=
  check_len 121 ;;;
  let* version := take_be 1 in
  let* batch_index := take_be 8 in
  let* l1_message_popped := take_be 8 in
  let* total_l1_message_popped := take_be 8 in
  let* data_hash := take_be 32 in
  let* blob_versioned_hash := take_be 32 in
  let* parent_batch_hash := take_be 32 in
  let* bitmap := take_bitmap l1_message_popped in
  ret (mkHeaderV1 version batch_index l1_message_popped total_l1_message_popped data_hash
         blob_versioned_hash parent_batch_hash bitmap).

Definition BatchHeaderV3_try_from_buf : Buf BatchHeaderV3 :=
  check_len 193 ;;;
  let* version := take_be 1 in
  let* batch_index := take_be 8 in
  let* l1_message_popped := take_be 8 in
  let* total_l1_message_popped := take_be 8 in
  let* data_hash := take_be 32 in
  let* blob_versioned_hash := take_be 32 in
  let* parent_batch_hash := take_be 32 in
  let* last_block_timestamp := take_be 8 in
  let* z := take_be 32 in
  let* y := take_be 32 in
  ret (mkHeaderV3 version batch_index l1_message_popped total_l1_message_popped data_hash
         blob_versioned_hash parent_batch_hash last_block_timestamp (z, y)).

(** The bytes the [hash_slow] of each header hashes. *)
Definition BatchHeaderV0_bytes (h : BatchHeaderV0) : Bytes :=
  be_bytes 1 (h0_version h) ++ be_bytes 8 (h0_batch_index h) ++
  be_bytes 8 (h0_l1_message_popped h) ++ be_bytes 8 (h0_total_l1_message_popped h) ++
  be_bytes 32 (h0_data_hash h) ++ be_bytes 32 (h0_parent_batch_hash h) ++
  h0_skipped_l1_message_bitmap h.
Definition BatchHeaderV1_bytes (h : BatchHeaderV1) : Bytes :=
  be_bytes 1 (h1_version h) ++ be_bytes 8 (h1_batch_index h) ++
  be_bytes 8 (h1_l1_message_popped h) ++ be_bytes 8 (h1_total_l1_message_popped h) ++
  be_bytes 32 (h1_data_hash h) ++ be_bytes 32 (h1_blob_versioned_hash h) ++
  be_bytes 32 (h1_parent_batch_hash h) ++ h1_skipped_l1_message_bitmap h.
Definition BatchHeaderV3_bytes (h : BatchHeaderV3) : Bytes :=
  be_bytes 1 (h3_version h) ++ be_bytes 8 (h3_batch_index h) ++
  be_bytes 8 (h3_l1_message_popped h) ++ be_bytes 8 (h3_total_l1_message_popped h) ++
  be_bytes 32 (h3_data_hash h) ++ be_bytes 32 (h3_blob_versioned_hash h) ++
  be_bytes 32 (h3_parent_batch_hash h) ++ be_bytes 8 (h3_last_block_timestamp h) ++
  be_bytes 32 (h3_blob_data_proof h).1 ++ be_bytes 32 (h3_blob_data_proof h).2.
Definition BatchHeaderV7_bytes (h : BatchHeaderV7) : Bytes :=
  be_bytes 1 (h7_version h) ++ be_bytes 8 (h7_batch_index h) ++
  be_bytes 32 (h7_blob_versioned_hash h) ++ be_bytes 32 (h7_parent_batch_hash h).

Definition BatchHeaderV0_hash_slow h : B256 := keccak256 (BatchHeaderV0_bytes h).
Definition BatchHeaderV1_hash_slow h : B256 := keccak256 (BatchHeaderV1_bytes h).
Definition BatchHeaderV3_hash_slow h : B256 := keccak256 (BatchHeaderV3_bytes h).
Definition BatchHeaderV7_hash_slow h : B256 := keccak256 (BatchHeaderV7_bytes h).

(** batch_header.rs: the header of a version; [try_from_buf] never builds the version 7. *)
Inductive BatchHeader :=
| HeaderV0 (h : BatchHeaderV0)
| HeaderV1 (h : BatchHeaderV1)
| HeaderV3 (h : BatchHeaderV3)
| HeaderV7 (h : BatchHeaderV7).

Definition total_l1_message_popped (h : BatchHeader) : option Z :=
  match h with
  | HeaderV0 h => Some (h0_total_l1_message_popped h)
  | HeaderV1 h => Some (h1_total_l1_message_popped h)
  | HeaderV3 h => Some (h3_total_l1_message_popped h)
  | HeaderV7 _ => None
  end.

Definition BatchHeader_try_from_buf : Buf BatchHeader :=
  let* buf := get in
  match buf with
  | [] => fail Eof
  | version :: _ =>
      if version =? 0 then let* h := BatchHeaderV0_try_from_buf in ret (HeaderV0 h)
      else if version <=? 2 then let* h := BatchHeaderV1_try_from_buf in ret (HeaderV1 h)
      else let* h := BatchHeaderV3_try_from_buf in ret (HeaderV3 h)
  end.

(** ** Block contexts (v0/block_context.rs, v7/block_context.rs) *)

Record BlockContextV7 := mkContextV7 {
  c7_timestamp : Z; c7_base_fee : Z; c7_gas_limit : Z; c7_num_transactions : Z;
  c7_num_l1_messages : Z
}.

Definition BlockContextV0_try_from_buf : Buf BlockContext :=
  check_len 60 ;;;
  let* number := take_be 8 in
  let* timestamp := take_be 8 in
  let* base_fee := take_be 32 in
  let* gas_limit := take_be 8 in
  let* num_transactions := take_be 2 in
  let* num_l1_messages := take_be 2 in
  ret (mkBlockContext number timestamp base_fee gas_limit num_transactions num_l1_messages).

Definition BlockContextV7_try_from_buf : Buf BlockContextV7 :=
  check_len 52 ;;;
  let* timestamp := take_be 8 in
  let* base_fee := take_be 32 in
  let* gas_limit := take_be 8 in
  let* num_transactions := take_be 2 in
  let* num_l1_messages := take_be 2 in
  ret (mkContextV7 timestamp base_fee gas_limit num_transactions num_l1_messages).

(** [transactions_count] of both contexts: L2 transactions, L1 messages excluded. *)
Definition transactions_count (num_transactions num_l1_messages : Z) : nat :=
  Z.to_nat (saturating_sub num_transactions num_l1_messages).

(** [From<(BlockContextV7, u64)> for BlockContext]. *)
Definition BlockContext_from_v7 (c : BlockContextV7) (block_number : Z) : BlockContext :=
  mkBlockContext block_number (c7_timestamp c) (c7_base_fee c) (c7_gas_limit c)
    (c7_num_transactions c) (c7_num_l1_messages c).

(** ** Transactions (transaction.rs) *)

Definition length_with_payload (h : RlpHeader) : nat := header_length h + payload_length h.

Definition finish (offset : nat) : Buf Bytes :=
  let* buf := get in
  if (length buf <? offset)%nat then fail Eof else take_bytes offset.

Definition Transaction_try_from_buf : Buf Bytes :=
  let* buf := get in
  match rlp_header_decode buf with
  | None => fail Eof
  | Some header =>
      if is_list header then finish (length_with_payload header)
      else
        match buf with
        | [] => panic
        | tx_type_id :: tx_decode =>
            match tx_type_try_from tx_type_id with
            | Some (Eip2930 | Eip1559 | Eip7702) =>
                match rlp_header_decode tx_decode with
                | None => fail Eof
                | Some header =>
                    if negb (is_list header) then fail InvalidTypedTransactionEncoding
                    else finish (length_with_payload header + 1)
                end
            | _ => fail (UnsupportedTransactionType tx_type_id)
            end
        end
  end.

(** ** The commit calls (crates/l1/src/abi/calls.rs) *)

Inductive CommitBatchCall :=
| CommitBatch (b : commitBatchCall)
| CommitBatchWithBlobProof (b : commitBatchWithBlobProofCall)
| CommitBatches (b : commitBatchesCall).

Definition try_decode (calldata : Bytes) : option CommitBatchCall :=
  if (length calldata <? 4)%nat then None
  else
    let sel := take 4 calldata in
    if bool_decide (sel = commitBatch_SELECTOR) then
      CommitBatch <$> commitBatch_abi_decode calldata
    else if bool_decide (sel = commitBatchWithBlobProof_SELECTOR) then
      CommitBatchWithBlobProof <$> commitBatchWithBlobProof_abi_decode calldata
    else if bool_decide (sel = commitBatches_SELECTOR) then
      CommitBatches <$> commitBatches_abi_decode calldata
    else None.

Definition call_version (c : CommitBatchCall) : Z :=
  match c with
  | CommitBatch b => cb_version b
  | CommitBatchWithBlobProof b => cbp_version b
  | CommitBatches b => cbs_version b
  end.

Definition parent_batch_header (c : CommitBatchCall) : option Bytes :=
  match c with
  | CommitBatch b => Some (cb_parent_batch_header b)
  | CommitBatchWithBlobProof b => Some (cbp_parent_batch_header b)
  | CommitBatches _ => None
  end.

Definition chunks (c : CommitBatchCall) : option (list Bytes) :=
  match c with
  | CommitBatch b => Some (cb_chunks b)
  | CommitBatchWithBlobProof b => Some (cbp_chunks b)
  | CommitBatches _ => None
  end.

(** The eight bits of a byte, the least significant one first. *)
Definition byte_bits (b : Z) : list bool :=
  map (λ i, Z.land (Z.shiftr b i) 1 =? 1) [0; 1; 2; 3; 4; 5; 6; 7].

Definition skipped_l1_message_bitmap (c : CommitBatchCall) :
    outcome DecodingError (option (list bool)) :=
  let bits bitmap :=
    if negb (Nat.eqb (length bitmap mod 32) 0)
    then Err (InvalidSkippedL1MessageBitmapLength (length bitmap))
    else Ok (Some (concat (map byte_bits (reverse bitmap)))) in
  match c with
  | CommitBatch b => bits (cb_skipped_l1_message_bitmap b)
  | CommitBatchWithBlobProof b => bits (cbp_skipped_l1_message_bitmap b)
  | CommitBatches _ => Ok None
  end.

(** ** Versions 0 to 6 *)

(** The block contexts a chunk starts with, and their number. *)
Definition chunk_contexts : Buf (nat * list BlockContext) :=
  let* buf := get in
  match buf with
  | [] => fail Eof
  | blocks_count :: _ =>
      advance 1 ;;;
      let* contexts := repeat_m (Z.to_nat blocks_count) BlockContextV0_try_from_buf in
      ret (Z.to_nat blocks_count, contexts)
  end.

(** The blocks of a list of contexts; [tx] reads one transaction. *)
Fixpoint chunk_blocks (tx : Buf Bytes) (contexts : list BlockContext) : Buf (list L2Block) :=
  match contexts with
  | [] => ret []
  | context :: contexts =>
      let* transactions :=
        repeat_m (transactions_count (c_num_transactions context) (c_num_l1_messages context)) tx in
      let* l2_blocks := chunk_blocks tx contexts in
      ret (mkL2Block transactions context :: l2_blocks)
  end.

(** Version 0: the transactions follow the contexts in the chunk, each after a 4-byte length. *)
Definition v0_transaction : Buf Bytes := advance 4 ;;; Transaction_try_from_buf.

Fixpoint decode_v0_chunks (chunks : list Bytes) : outcome DecodingError (list nat * list L2Block) :=
  match chunks with
  | [] => Ok ([], [])
  | chunk :: chunks =>
      obind ((let* (n, contexts) := chunk_contexts in
              let* blocks := chunk_blocks v0_transaction contexts in
              ret (n, blocks)) chunk).1 (λ '(n, blocks),
      obind (decode_v0_chunks chunks) (λ '(counts, l2_blocks),
      Ok (n :: counts, blocks ++ l2_blocks)))
  end.

Definition raw_header (c : CommitBatchCall) : outcome DecodingError Bytes :=
  ok_or MissingParentHeader (parent_batch_header c).

(** The start of the batch's L1 messages, from the parent header. *)
Definition l1_message_start_index (raw_parent_header : Bytes) : outcome DecodingError Z :=
  obind (BatchHeader_try_from_buf raw_parent_header).1 (λ h, expect (total_l1_message_popped h)).

Definition decode_v0 (calldata : Bytes) : outcome DecodingError Batch :=
  obind (ok_or InvalidCalldataFormat (try_decode calldata)) (λ call,
  obind (ok_or MissingChunkData (chunks call)) (λ chunks,
  obind (decode_v0_chunks chunks) (λ '(counts, l2_blocks),
  obind (raw_header call) (λ raw_parent_header,
  obind (l1_message_start_index raw_parent_header) (λ start,
  obind (skipped_l1_message_bitmap call) (λ bitmap,
  Ok (mkBatch (call_version call) (Some counts)
        (mkPayloadData l2_blocks (InitialQueueIndex start) bitmap)))))))).

(** Versions 1 to 6: the contexts come from the calldata and the transactions from the blob. *)
Fixpoint decode_v1_chunks (chunks : list Bytes) : Buf (list nat * list L2Block) :=
  match chunks with
  | [] => ret ([], [])
  | chunk :: chunks =>
      let* (n, contexts) := lift (chunk_contexts chunk).1 in
      let* blocks := chunk_blocks Transaction_try_from_buf contexts in
      let* (counts, l2_blocks) := decode_v1_chunks chunks in
      ret (n :: counts, blocks ++ l2_blocks)
  end.

Definition decode_v1_chunk (version : Z) (bitmap : option (list bool)) (start : Z)
    (chunks : list Bytes) (blob : Bytes) : outcome DecodingError Batch :=
  omap_ok (λ '(counts, l2_blocks),
    mkBatch version (Some counts) (mkPayloadData l2_blocks (InitialQueueIndex start) bitmap))
    (decode_v1_chunks chunks blob).1.

Definition v1_TRANSACTION_DATA_BLOB_INDEX_OFFSET : nat := 4 * 15.
Definition v2_TRANSACTION_DATA_BLOB_INDEX_OFFSET : nat := 4 * 45.

(** The envelope of the blob of versions 1 to 6: a chunk count and a table of offsets. *)
Definition skip_chunk_table (offset : nat) : Buf unit :=
  check_len (2 + offset) ;;;
  let* chunk_count := take_be 2 in
  advance offset.

Definition decode_chunks_in_blob (call : CommitBatchCall) (offset : nat) (start : Z)
    (chunks : list Bytes) (buf : Bytes) : outcome DecodingError Batch :=
  match skip_chunk_table offset buf with
  | (Ok _, buf) =>
      obind (skipped_l1_message_bitmap call) (λ bitmap,
        decode_v1_chunk (call_version call) bitmap start chunks buf)
  | (Err e, _) => Err e
  | (Panic, _) => Panic
  end.

Definition decode_v1 (calldata blob : Bytes) : outcome DecodingError Batch :=
  obind (ok_or InvalidCalldataFormat (try_decode calldata)) (λ call,
  obind (raw_header call) (λ raw_parent_header,
  obind (l1_message_start_index raw_parent_header) (λ start,
  obind (ok_or MissingChunkData (chunks call)) (λ chunks,
  decode_chunks_in_blob call v1_TRANSACTION_DATA_BLOB_INDEX_OFFSET start chunks
    (heap_blob blob))))).

(** [decompress_blob_data] (v2/zstd.rs). *)
Definition ZSTD_MAGIC_NUMBER : Bytes := [0x28; 0xb5; 0x2f; 0xfd].

Fixpoint read_loop (reads : list (option Bytes)) : Bytes :=
  match reads with
  | Some dst :: reads => if (length dst =? 0)%nat then [] else dst ++ read_loop reads
  | None :: _ | [] => []
  end.

Definition decompress_blob_data (data : Bytes) : Bytes :=
  read_loop (zstd_reads (ZSTD_MAGIC_NUMBER ++ data)).

Definition decode_v2 (calldata blob : Bytes) : outcome DecodingError Batch :=
  obind (ok_or InvalidCalldataFormat (try_decode calldata)) (λ call,
  obind (ok_or MissingChunkData (chunks call)) (λ chunks,
  obind (raw_header call) (λ raw_parent_header,
  obind (l1_message_start_index raw_parent_header) (λ start,
  decode_chunks_in_blob call v2_TRANSACTION_DATA_BLOB_INDEX_OFFSET start chunks
    (decompress_blob_data (heap_blob blob)))))).

Definition decode_v4 (calldata blob : Bytes) : outcome DecodingError Batch :=
  obind (ok_or InvalidCalldataFormat (try_decode calldata)) (λ call,
  obind (ok_or MissingChunkData (chunks call)) (λ chunks,
  obind (raw_header call) (λ raw_parent_header,
  obind (l1_message_start_index raw_parent_header) (λ start,
  match heap_blob blob with
  | [] => Err Eof
  | is_compressed :: rest =>
      let buf := if is_compressed =? 1 then decompress_blob_data rest else rest in
      decode_chunks_in_blob call v2_TRANSACTION_DATA_BLOB_INDEX_OFFSET start chunks buf
  end)))).

(** ** Version 7 *)

(** The blocks of a version 7 payload; [i] is the position of the first one. *)
Fixpoint v7_blocks (initial_block_number i : Z) (contexts : list BlockContextV7) :
    Buf (list L2Block) :=
  match contexts with
  | [] => ret []
  | context :: contexts =>
      let* transactions :=
        repeat_m (transactions_count (c7_num_transactions context) (c7_num_l1_messages context))
          Transaction_try_from_buf in
      let* l2_blocks := v7_blocks initial_block_number (i + 1) contexts in
      ret (mkL2Block transactions
             (BlockContext_from_v7 context (wrapping_add initial_block_number i)) :: l2_blocks)
  end.

Definition decode_v7_payload_m : Buf PayloadData :=
  check_len (64 + 8 + 2) ;;;
  let* prev_message_queue_hash := take_be 32 in
  let* post_message_queue_hash := take_be 32 in
  let* initial_block_number := take_be 8 in
  let* blocks_count := take_be 2 in
  let* block_contexts := repeat_m (Z.to_nat blocks_count) BlockContextV7_try_from_buf in
  let* l2_blocks := v7_blocks initial_block_number 0 block_contexts in
  ret (mkPayloadData l2_blocks (Hashed prev_message_queue_hash post_message_queue_hash) None).

Definition decode_v7_payload (blob : Bytes) : outcome DecodingError PayloadData :=
  (decode_v7_payload_m blob).1.

Definition decode_payload (version : Z) (blob : Bytes) : outcome DecodingError Batch :=
  omap_ok (mkBatch version None) (decode_v7_payload blob).

Definition BLOB_ENVELOPE_V7_OFFSET_PAYLOAD : nat := 5.

(** The version byte, the payload size on three bytes and the compression flag. *)
Definition v7_envelope : Buf (Z * Z * Z) :=
  check_len (1 + 3 + 1) ;;;
  let* version := take_be 1 in
  let* blob_payload_size := take_be 3 in
  let* is_compressed := take_be 1 in
  ret (version, blob_payload_size, is_compressed).

Definition decode_v7 (blob : Bytes) : outcome DecodingError Batch :=
  let heap := heap_blob blob in
  obind (v7_envelope heap).1 (λ '(version, blob_payload_size, is_compressed),
    let size := Z.to_nat blob_payload_size in
    if (length heap <? size + BLOB_ENVELOPE_V7_OFFSET_PAYLOAD)%nat then Err Eof
    else
      let buf := take size (drop BLOB_ENVELOPE_V7_OFFSET_PAYLOAD heap) in
      decode_payload version (if is_compressed =? 1 then decompress_blob_data buf else buf)).

(** ** The entry point (lib.rs) *)

Definition get_codec_version (calldata : Bytes) : outcome DecodingError Z :=
  if (length calldata <? 36)%nat then Err Eof
  else
    let version := from_be (take 32 (drop 4 calldata)) in
    if negb (Z.land version (Z.ldiff (2 ^ 256 - 1) 255) =? 0) then Err (MalformedCodecVersion version)
    else Ok version.

Definition decode (calldata : Bytes) (blob : option Bytes) : outcome DecodingError Batch :=
  obind (get_codec_version calldata) (λ version,
    let with_blob k := obind (ok_or MissingBlob blob) k in
    if version =? 0 then decode_v0 calldata
    else if version =? 1 then with_blob (decode_v1 calldata)
    else if (2 <=? version) && (version <? 4) then with_blob (decode_v2 calldata)
    else if (4 <=? version) && (version <? 7) then with_blob (decode_v4 calldata)
    else if (7 <=? version) && (version <=? 11) then with_blob decode_v7
    else Err (UnsupportedCodecVersion version)).

(** ** The data hash of a batch (batch.rs) *)

Definition hash_chunk (version : Z) (l2_blocks : list L2Block)
    (l1_messages_per_block : list (list TxL1Message)) : B256 :=
  keccak256
    (concat (map (λ b, take 58 (to_be_bytes (context b))) l2_blocks) ++
     concat (zip_with (λ b msgs,
         concat (map (λ m, be_bytes 32 (l1_tx_hash m)) msgs) ++
         (if version =? 0
          then concat (map (λ tx, be_bytes 32 (keccak256 tx)) (l2_transactions b)) else []))
       l2_blocks l1_messages_per_block)).

(** The messages of each block, taken off the front of the buffer. *)
Fixpoint messages_per_block (blocks : list L2Block) (msgs : list TxL1Message) :
    list (list TxL1Message) * list TxL1Message :=
  match blocks with
  | [] => ([], msgs)
  | b :: blocks =>
      let n := Z.to_nat (c_num_l1_messages (context b)) in
      let '(mine, rest) :=
        if (n <=? length msgs)%nat then (take n msgs, drop n msgs) else ([], []) in
      let '(others, rest) := messages_per_block blocks rest in
      (mine :: others, rest)
  end.

Fixpoint chunk_hashes (version : Z) (counts : list nat) (blocks : list L2Block)
    (msgs : list TxL1Message) : option Bytes :=
  match counts with
  | [] => Some []
  | n :: counts =>
      if (length blocks <? n)%nat then None
      else
        let '(per_block, msgs) := messages_per_block (take n blocks) msgs in
        hs ← chunk_hashes version counts (drop n blocks) msgs;
        Some (be_bytes 32 (hash_chunk version (take n blocks) per_block) ++ hs)
  end.

Definition try_compute_data_hash (b : Batch) (msgs : list TxL1Message) : option B256 :=
  if 7 <=? version b then None
  else
    counts ← chunks_block_count b;
    hs ← chunk_hashes (version b) counts (pd_blocks (batch_data b)) msgs;
    Some (keccak256 hs).
End Codec.
