(* ===== verification/Engine.v ===== *)
(** * The fork choice state and the engine driver (crates/engine/src)

    [ForkchoiceState] (fcs.rs) with its update rules, the driver [Engine] (engine.rs) that mirrors
    the execution client's fork choice, and the comparison of a block with derived payload
    attributes (payload.rs).  The execution client is a third-party service: the class
    [EngineApi] gives its requests as operations on an abstract state [W] of the outside world. *)

From S2P Require Import Prelude Primitives.

(** ** Engine API data (alloy_rpc_types_engine) *)

Inductive PayloadStatusEnum :=
| Valid
| Invalid (validation_error : string)
| Syncing
| Accepted.

Record PayloadStatus := mkPayloadStatus {
  status : PayloadStatusEnum;
  latest_valid_hash : option B256
}.

Definition PayloadId : Type := Z.

Record ForkchoiceUpdated := mkForkchoiceUpdated {
  payload_status : PayloadStatus;
  payload_id : option PayloadId
}.

Definition status_is_invalid (s : PayloadStatus) : bool :=
  match status s with Invalid _ => true | _ => false end.
Definition fcu_is_invalid (r : ForkchoiceUpdated) : bool := status_is_invalid (payload_status r).
Definition fcu_is_valid (r : ForkchoiceUpdated) : bool :=
  match status (payload_status r) with Valid => true | _ => false end.

Record AlloyForkchoiceState := mkAlloyFcs {
  head_block_hash : B256;
  safe_block_hash : B256;
  finalized_block_hash : B256
}.

(** [BlockDataHint] and the part of [ScrollPayloadAttributes] the node reads and writes. *)
Record BlockDataHint := mkHint {
  hint_extra_data : option Bytes;
  hint_state_root : option B256;
  hint_coinbase : option Address;
  hint_nonce : option Z;
  hint_difficulty : option Z
}.

Record ScrollPayloadAttributes := mkAttributes {
  attr_timestamp : Z;
  attr_suggested_fee_recipient : Address;
  attr_prev_randao : B256;
  attr_transactions : option (list Bytes);
  attr_no_tx_pool : bool;
  attr_block_data_hint : BlockDataHint;
  attr_gas_limit : option Z
}.

(** ** The fork choice state (fcs.rs) *)

Inductive FcsError :=
| NoUpdateProvided
| FinalizedBlockNumberNotIncreasing
| HeadBelowSafe
| SafeBelowFinalized.

Record ForkchoiceState := mkFcs { fcs_head : BlockInfo; fcs_safe : BlockInfo; fcs_finalized : BlockInfo }.

#[global] Instance ForkchoiceState_eq_dec : EqDecision ForkchoiceState.
Proof. solve_decision. Defined.

Definition from_block_info (bi : BlockInfo) : ForkchoiceState := mkFcs bi bi bi.

Definition from_genesis (genesis : B256) : ForkchoiceState :=
  mkFcs {| hash := genesis; number := 0 |} {| hash := genesis; number := 0 |}
        {| hash := genesis; number := 0 |}.

(** [from_provider]: the three tags as the provider reports them; a missing block gives [None]. *)
Definition from_provider (latest safe finalized : option BlockInfo) : option ForkchoiceState :=
  match latest, safe, finalized with
  | Some latest_block, Some safe_block, Some finalized_block =>
      let safe_block := if number safe_block <? number finalized_block
                        then finalized_block else safe_block in
      Some (mkFcs latest_block safe_block finalized_block)
  | _, _, _ => None
  end.

Definition fcs_update (head safe finalized : option BlockInfo) (self : ForkchoiceState) :
    outcome FcsError ForkchoiceState :=
  match head, safe, finalized with
  | None, None, None => Err NoUpdateProvided
  | _, _, _ =>
      let new_finalized := default (fcs_finalized self) finalized in
      let new_safe := default (fcs_safe self) safe in
      let new_head := default (fcs_head self) head in
      if (number new_finalized <=? number (fcs_finalized self)) &&
         negb (bool_decide (new_finalized = fcs_finalized self))
      then Err FinalizedBlockNumberNotIncreasing
      else if number new_head <? number new_safe then Err HeadBelowSafe
      else if number new_safe <? number new_finalized then Err SafeBelowFinalized
      else Ok (mkFcs new_head new_safe new_finalized)
  end.

Definition update_head_block_info (head : BlockInfo) := fcs_update (Some head) None None.
Definition update_safe_block_info (safe : BlockInfo) := fcs_update None (Some safe) None.
Definition update_finalized_block_info (f : BlockInfo) := fcs_update None None (Some f).

Definition get_alloy_fcs (self : ForkchoiceState) : AlloyForkchoiceState :=
  mkAlloyFcs (hash (fcs_head self)) (hash (fcs_safe self)) (hash (fcs_finalized self)).

Definition get_alloy_optimistic_fcs (self : ForkchoiceState) : AlloyForkchoiceState :=
  mkAlloyFcs (hash (fcs_head self)) 0 0.

Definition is_genesis (self : ForkchoiceState) : bool := number (fcs_head self) =? 0.

(** The ordering the fork choice maintains. *)
Definition fcs_ordered (f : ForkchoiceState) : Prop :=
  number (fcs_finalized f) <= number (fcs_safe f) <= number (fcs_head f).

(** [finalized] never moves back, and never changes hash at its height. *)
Definition finalized_extends (old new : ForkchoiceState) : Prop :=
  fcs_finalized new = fcs_finalized old ∨
  number (fcs_finalized old) < number (fcs_finalized new).

(** ** Block comparison (payload.rs) *)

Section Matching.
Context `{Chain}.

(** The accessors of reth's [AlloyBlockHeader] trait on the Ethereum header type. *)
Definition mix_hash_opt (h : Header) : option B256 := Some (mix_hash h).
Definition nonce_opt (h : Header) : option Z := Some (nonce h).

Definition block_matches_attributes
    (attributes : ScrollPayloadAttributes) (base_fee : Z) (block : DogeosBlock) : bool :=
  let h := header block in
  let block_data := attr_block_data_hint attributes in
  if negb (bool_decide (base_fee_per_gas h = Some base_fee)) then false
  else if match attr_gas_limit attributes with
          | Some gas => negb (gas =? gas_limit h) | None => false end then false
  else if negb (match attr_transactions attributes with
                | Some v => bool_decide (v = map encoded_2718 (transactions block))
                | None => false end) then false
  else if negb (timestamp h =? attr_timestamp attributes) then false
  else if negb (default 0 (mix_hash_opt h) =? attr_prev_randao attributes) then false
  else if match hint_extra_data block_data with
          | Some ex => negb (bool_decide (ex = extra_data h)) | None => false end then false
  else if match hint_state_root block_data with
          | Some d => negb (d =? state_root h) | None => false end then false
  else if match hint_coinbase block_data with
          | Some d => negb (d =? beneficiary h) | None => false end then false
  else if negb (default 0 (hint_nonce block_data) =? default 0 (nonce_opt h)) then false
  else true.

(** The declarative reading of the documentation of [block_matches_attributes]. *)
Definition agrees {A} (hint : option A) (actual : A) : Prop :=
  ∀ x, hint = Some x → x = actual.

Definition matches (a : ScrollPayloadAttributes) (base_fee : Z) (b : DogeosBlock) : Prop :=
  base_fee_per_gas (header b) = Some base_fee ∧
  agrees (attr_gas_limit a) (gas_limit (header b)) ∧
  attr_transactions a = Some (map encoded_2718 (transactions b)) ∧
  timestamp (header b) = attr_timestamp a ∧
  mix_hash (header b) = attr_prev_randao a ∧
  agrees (hint_extra_data (attr_block_data_hint a)) (extra_data (header b)) ∧
  agrees (hint_state_root (attr_block_data_hint a)) (state_root (header b)) ∧
  agrees (hint_coinbase (attr_block_data_hint a)) (beneficiary (header b)) ∧
  default 0 (hint_nonce (attr_block_data_hint a)) = nonce (header b).
End Matching.

(** ** The engine driver (engine.rs) *)

Inductive EngineError :=
| EngineFcsError (e : FcsError)
| TransportError (msg : string).

(** The requests of the execution client's Engine API. *)
Class EngineApi (W : Type) := {
  fork_choice_updated_v1 :
    AlloyForkchoiceState → option ScrollPayloadAttributes → W →
    outcome string ForkchoiceUpdated * W;
  new_payload_v1 : ExecutionPayloadV1 → W → outcome string PayloadStatus * W;
  get_payload_v1 : PayloadId → W → outcome string ExecutionPayloadV1 * W
}.

Section Engine.
Context `{EngineApi W}.

Record Engine := mkEngine { fcs : ForkchoiceState; client : W }.

Definition set_fcs (f : ForkchoiceState) (e : Engine) : Engine :=
  {| fcs := f; client := client e |}.

(** One request to the client; a transport failure is an error of the driver. *)
Definition request {A} (r : W → outcome string A * W) : M Engine EngineError A :=
  λ e, let '(o, w) := r (client e) in
       (omap_err TransportError o, {| fcs := fcs e; client := w |}).

Definition candidate (head safe finalized : option BlockInfo) :
    M Engine EngineError ForkchoiceState :=
  λ e, (omap_err EngineFcsError (fcs_update head safe finalized (fcs e)), e).

Definition is_none3 {A} (a b c : option A) : bool :=
  match a, b, c with None, None, None => true | _, _, _ => false end.

Definition update_fcs (head safe finalized : option BlockInfo) :
    M Engine EngineError ForkchoiceUpdated :=
  if is_none3 head safe finalized then fail (EngineFcsError NoUpdateProvided) else
  let* f := candidate head safe finalized in
  let* result := request (fork_choice_updated_v1 (get_alloy_fcs f) None) in
  match status (payload_status result) with
  | Accepted => panic
  | _ =>
      when negb (fcu_is_invalid result) then modify (set_fcs f) ;;;
      ret result
  end.

Definition update_fcs_checked (head safe finalized : option BlockInfo) :
    M Engine EngineError ForkchoiceUpdated :=
  if is_none3 head safe finalized then fail (EngineFcsError NoUpdateProvided) else
  let* f := candidate head safe finalized in
  let* result := request (fork_choice_updated_v1 (get_alloy_fcs f) None) in
  when fcu_is_valid result then modify (set_fcs f) ;;;
  ret result.

Definition optimistic_sync (block : BlockInfo) : M Engine EngineError ForkchoiceUpdated :=
  let* f := candidate (Some block) None None in
  let* result := request (fork_choice_updated_v1 (get_alloy_optimistic_fcs f) None) in
  when negb (fcu_is_invalid result) then modify (set_fcs f) ;;;
  ret result.

Definition new_payload (payload : ExecutionPayloadV1) : M Engine EngineError PayloadStatus :=
  request (new_payload_v1 payload).

Definition build_payload (head : option BlockInfo) (attributes : ScrollPayloadAttributes) :
    M Engine EngineError ForkchoiceUpdated :=
  let* f := match head with
            | Some h => candidate (Some h) None None
            | None => gets fcs
            end in
  request (fork_choice_updated_v1 (get_alloy_fcs f) (Some attributes)).

Definition get_payload (pid : PayloadId) : M Engine EngineError ExecutionPayloadV1 :=
  request (get_payload_v1 pid).
End Engine.
Arguments Engine : clear implicits.
Arguments mkEngine {W} _ _.

(** ** Properties of the fork choice rules *)

#[export] Instance finalized_extends_preorder : PreOrder finalized_extends.
Proof.
  split.
  - intros f. by left.
  - intros f1 f2 f3. unfold finalized_extends. intros [E1|L1] [E2|L2].
    + left. congruence.
    + right. by rewrite <- E1.
    + right. by rewrite E2.
    + right. lia.
Qed.

(** The candidate the options of an update describe. *)
Definition fcs_candidate (head safe finalized : option BlockInfo) (self : ForkchoiceState) :
    ForkchoiceState :=
  mkFcs (default (fcs_head self) head) (default (fcs_safe self) safe)
        (default (fcs_finalized self) finalized).

Lemma fcs_update_unfold head safe finalized self :
  is_none3 head safe finalized = false →
  fcs_update head safe finalized self =
    let c := fcs_candidate head safe finalized self in
    if (number (fcs_finalized c) <=? number (fcs_finalized self)) &&
       negb (bool_decide (fcs_finalized c = fcs_finalized self))
    then Err FinalizedBlockNumberNotIncreasing
    else if number (fcs_head c) <? number (fcs_safe c) then Err HeadBelowSafe
    else if number (fcs_safe c) <? number (fcs_finalized c) then Err SafeBelowFinalized
    else Ok c.
Proof. by destruct head, safe, finalized. Qed.

Lemma fcs_update_spec head safe finalized self new :
  fcs_update head safe finalized self = Ok new ↔
    is_none3 head safe finalized = false ∧
    new = fcs_candidate head safe finalized self ∧
    fcs_ordered new ∧ finalized_extends self new.
Proof.
  destruct (is_none3 head safe finalized) eqn:E.
  { destruct head, safe, finalized; simplify_eq/=. naive_solver. }
  rewrite fcs_update_unfold by done. unfold fcs_ordered, finalized_extends.
  set (c := fcs_candidate head safe finalized self). cbv zeta.
  repeat case_out; bool_to_prop; (split; [intros ?|intros (_ & -> & ? & ?)]);
    simplify_eq; try done; try (destruct_or?; congruence || lia).
  split_and!; try done; try lia.
  apply andb_false_iff in Heqb as [?|?]; bool_to_prop; auto.
Qed.

(** an update of the fork choice state succeeds exactly when something is updated, the candidate
    keeps finalized <= safe <= head, and finalized stays or strictly advances; the new state is
    then the candidate, and a rejected update is always one of the four errors. *)
Theorem fcs_update_ok_iff head safe finalized self :
  (∀ new, fcs_update head safe finalized self = Ok new ↔
    is_none3 head safe finalized = false ∧
    new = fcs_candidate head safe finalized self ∧
    fcs_ordered new ∧ finalized_extends self new) ∧
  fcs_update head safe finalized self ≠ Panic.
Proof.
  split; [intros new; apply fcs_update_spec|].
  destruct (is_none3 head safe finalized) eqn:E.
  - by destruct head, safe, finalized.
  - rewrite fcs_update_unfold by done. cbv zeta. by repeat case_out.
Qed.

(** ** Properties of the block comparison *)

Section MatchingProperties.
Context `{Chain}.

Lemma guard_true (b k : bool) : (if b then false else k) = true ↔ b = false ∧ k = true.
Proof. destruct b, k; naive_solver. Qed.

Lemma agrees_test {A} (test : A → bool) (o : option A) (y : A) :
  (∀ x, test x = true ↔ x = y) →
  match o with Some x => negb (test x) | None => false end = false ↔ agrees o y.
Proof.
  intros Ht. unfold agrees. destruct o as [x|]; [|naive_solver].
  rewrite negb_false_iff, Ht. naive_solver.
Qed.

Lemma txs_test (o : option (list Bytes)) v :
  negb (match o with Some x => bool_decide (x = v) | None => false end) = false ↔ o = Some v.
Proof. destruct o; rewrite negb_false_iff, ?bool_decide_eq_true; naive_solver. Qed.

(** the comparison accepts a block exactly when every field the batch determines agrees. *)
Theorem block_matches_attributes_spec a base_fee b :
  block_matches_attributes a base_fee b = true ↔ matches a base_fee b.
Proof.
  unfold block_matches_attributes, matches, mix_hash_opt, nonce_opt. cbv zeta. simpl default.
  rewrite !guard_true, txs_test, !negb_false_iff, bool_decide_eq_true, !Z.eqb_eq.
  rewrite (agrees_test (λ g, g =? gas_limit (header b))) by (intros; apply Z.eqb_eq).
  rewrite (agrees_test (λ d, bool_decide (d = extra_data (header b))))
    by (intros; apply bool_decide_eq_true).
  rewrite (agrees_test (λ d, d =? state_root (header b))) by (intros; apply Z.eqb_eq).
  rewrite (agrees_test (λ d, d =? beneficiary (header b))) by (intros; apply Z.eqb_eq).
  naive_solver.
Qed.
End MatchingProperties.

(** ** Properties of the driver *)

Section EngineProperties.
Context `{EngineApi W}.
Implicit Types e : Engine W.

(** What every operation of the driver keeps of the fork choice state it started from. *)
Definition fcs_inv (f0 : ForkchoiceState) (e : Engine W) : Prop :=
  fcs_ordered (fcs e) ∧ finalized_extends f0 (fcs e).

Lemma candidate_spec head safe finalized e f e' :
  candidate head safe finalized e = (Ok f, e') →
  e' = e ∧ fcs_update head safe finalized (fcs e) = Ok f.
Proof.
  unfold candidate. destruct (fcs_update head safe finalized (fcs e)); simpl; naive_solver.
Qed.

Lemma request_fcs {A} (r : W → outcome string A * W) e : fcs (request r e).2 = fcs e.
Proof. unfold request. by destruct (r (client e)). Qed.

(** A request that is followed by a conditional commit of a candidate keeps the invariant. *)
Lemma commit_inv {A} f0 head safe finalized (r : ForkchoiceState → W → outcome string A * W)
    (k : ForkchoiceState → A → M (Engine W) EngineError ForkchoiceUpdated) :
  (∀ f a e, k f a e = (Panic, e) ∨ (∃ b, (k f a e).1 = Ok b) ∧
              ((k f a e).2 = e ∨ (k f a e).2 = set_fcs f e)) →
  preserves (fcs_inv f0)
    (let* f := candidate head safe finalized in let* a := request (r f) in k f a).
Proof.
  intros Hk e [Ho Hf]. unfold bind at 1.
  destruct (candidate head safe finalized e) as [[f|?|] e1] eqn:Ec;
    [apply candidate_spec in Ec as [-> Hc]| |];
    [|unfold candidate in Ec; destruct (fcs_update _ _ _ _); simplify_eq/=; by split..].
  apply fcs_update_spec in Hc as (_ & _ & Hord & Hext).
  unfold bind, request. destruct (r f (client e)) as [[a|?|] w]; simpl; [|by split..].
  destruct (Hk f a (mkEngine (fcs e) w)) as [->|[_ [->| ->]]]; simpl; try by split.
  split; simpl; [done|]. by transitivity (fcs e).
Qed.

Ltac solve_commit :=
  apply commit_inv; intros f a e; unfold bind, ret, modify, panic; simpl;
  repeat (case_out; simpl); eauto 8.

Lemma update_fcs_inv f0 head safe finalized :
  preserves (fcs_inv f0) (update_fcs head safe finalized).
Proof. unfold update_fcs. destruct (is_none3 _ _ _); [auto with node|]. solve_commit. Qed.

Lemma update_fcs_checked_inv f0 head safe finalized :
  preserves (fcs_inv f0) (update_fcs_checked head safe finalized).
Proof. unfold update_fcs_checked. destruct (is_none3 _ _ _); [auto with node|]. solve_commit. Qed.

Lemma optimistic_sync_inv f0 block : preserves (fcs_inv f0) (optimistic_sync block).
Proof. unfold optimistic_sync. solve_commit. Qed.

(** Requests and payload building never touch the local fork choice. *)
Lemma fcs_inv_same f0 e e' : fcs e' = fcs e → fcs_inv f0 e → fcs_inv f0 e'.
Proof. unfold fcs_inv. by intros ->. Qed.

Lemma new_payload_fcs p e : fcs (new_payload p e).2 = fcs e.
Proof. apply request_fcs. Qed.
Lemma get_payload_fcs i e : fcs (get_payload i e).2 = fcs e.
Proof. apply request_fcs. Qed.
Lemma build_payload_fcs h a e : fcs (build_payload h a e).2 = fcs e.
Proof.
  unfold build_payload. destruct h as [h|]; [|apply request_fcs].
  unfold bind, candidate. destruct (fcs_update (Some h) None None (fcs e)); [|done..].
  apply request_fcs.
Qed.

(** One operation of the driver, whatever the client answers. *)
Inductive engine_step : Engine W → Engine W → Prop :=
| step_update_fcs h s f e : engine_step e (update_fcs h s f e).2
| step_update_fcs_checked h s f e : engine_step e (update_fcs_checked h s f e).2
| step_optimistic_sync b e : engine_step e (optimistic_sync b e).2
| step_new_payload p e : engine_step e (new_payload p e).2
| step_build_payload h a e : engine_step e (build_payload h a e).2
| step_get_payload i e : engine_step e (get_payload i e).2
| step_environment f w w' : engine_step (mkEngine f w) (mkEngine f w').

(** C22: in every state the driver reaches, whatever the execution client answers, finalized <= safe
    <= head by block number, and the finalized block is the initial one or strictly above it: it
    never moves back and is never replaced at its height. *)
Theorem engine_reachable_ordered e0 e :
  fcs_ordered (fcs e0) → rtc engine_step e0 e →
  fcs_ordered (fcs e) ∧ finalized_extends (fcs e0) (fcs e).
Proof.
  intros Ho Hr. change (fcs_inv (fcs e0) e).
  assert (fcs_inv (fcs e0) e0) as Hi by (by split).
  revert Hi. clear Ho. generalize (fcs e0) as f0; intros f0.
  induction Hr as [|e1 e2 e3 Hs _ IH]; [done|]. intros Hi. apply IH. clear IH.
  destruct Hs as [h s f e|h s f e|b e|p e|h a e|i e|f w w1]; [..|done].
  - by apply update_fcs_inv.
  - by apply update_fcs_checked_inv.
  - by apply optimistic_sync_inv.
  - by eapply fcs_inv_same; [apply new_payload_fcs|].
  - by eapply fcs_inv_same; [apply build_payload_fcs|].
  - by eapply fcs_inv_same; [apply get_payload_fcs|].
Qed.

(** A checked update answered [VALID] adopts the candidate; any other answer changes nothing. *)
Lemma update_fcs_checked_ok head safe finalized e r e' :
  update_fcs_checked head safe finalized e = (Ok r, e') →
  if fcu_is_valid r then fcs_update head safe finalized (fcs e) = Ok (fcs e') else fcs e' = fcs e.
Proof.
  unfold update_fcs_checked. destruct (is_none3 _ _ _); [monad_absurd|].
  unfold bind, candidate, request. destruct (fcs_update _ _ _ _) as [f|?|] eqn:Hf; simpl;
    [|monad_absurd..].
  destruct (fork_choice_updated_v1 (get_alloy_fcs f) None (client e)) as [[r'|?|] w] eqn:Hr;
    simpl; [|monad_absurd..].
  destruct (fcu_is_valid r') eqn:Hv; unfold modify, ret; intros; simplify_eq/=; by rewrite Hv.
Qed.

Lemma update_fcs_checked_failed head safe finalized e o e' :
  update_fcs_checked head safe finalized e = (o, e') → is_ok o = false → fcs e' = fcs e.
Proof.
  unfold update_fcs_checked. destruct (is_none3 _ _ _); [monad_absurd|].
  unfold bind, candidate, request. destruct (fcs_update _ _ _ _) as [f|?|] eqn:Hf; simpl;
    [|monad_absurd..].
  destruct (fork_choice_updated_v1 (get_alloy_fcs f) None (client e)) as [[r|?|] w] eqn:Hr;
    simpl; [|monad_absurd..].
  destruct (fcu_is_valid r) eqn:Hv; unfold modify, ret; intros; by simplify_eq/=.
Qed.

(** the checked update never runs ahead of the execution client: the local state changes only
    when the client answered [VALID] to exactly the candidate that becomes the state. *)
Theorem update_fcs_checked_only_valid head safe finalized e o e' :
  update_fcs_checked head safe finalized e = (o, e') → fcs e' ≠ fcs e →
  ∃ r w', fork_choice_updated_v1 (get_alloy_fcs (fcs e')) None (client e) = (Ok r, w') ∧
    fcu_is_valid r = true ∧ o = Ok r ∧ fcs_update head safe finalized (fcs e) = Ok (fcs e').
Proof.
  unfold update_fcs_checked. destruct (is_none3 _ _ _); [monad_absurd|].
  unfold bind, candidate, request. destruct (fcs_update _ _ _ _) as [f|?|] eqn:Hf; simpl;
    [|monad_absurd..].
  destruct (fork_choice_updated_v1 (get_alloy_fcs f) None (client e)) as [[r|?|] w] eqn:Hr;
    simpl; [|monad_absurd..].
  destruct (fcu_is_valid r) eqn:Hv; [|monad_absurd].
  unfold modify, ret. intros. simplify_eq/=.
  by exists r, w.
Qed.
End EngineProperties.
