(* ===== verification/Concrete.v ===== *)
(** * Concrete instances of the parameters

    Small executable stand-ins for the third-party functions of [Chain] and for an execution
    client that answers from a script.  The witnesses of the library evaluate the model on them;
    no theorem depends on their particular values. *)

From S2P Require Import Prelude Sql Primitives BigEndian Codec Engine.

(** A transaction is a flag (L1 message or not) and an identifier, which is also its hash. *)
Definition toy_tx : Type := bool * Z.

Definition toy_chain : Chain := {|
  Tx := toy_tx;
  is_l1_message := fst;
  tx_hash := snd;
  trie_hash := snd;
  encoded_2718 := λ t, [if fst t then 126 else 2; snd t];
  decode_2718 := λ b, match b with [126; i] => Some (true, i) | [2; i] => Some (false, i) | _ => None end;
  hash_slow := state_root;
  keccak256 := foldl (λ a b, (a * 31 + b) mod 2 ^ 256) 7;
  l1_tx_hash := λ m, 10000 + queue_index m;
  l1_encoded_2718 := λ m, [126; 10000 + queue_index m]
|}.

(** A header with a given number, hash, parent and timestamp. *)
Definition toy_header (n h parent ts : Z) : Header :=
  {| parent_hash := parent; ommers_hash := 0; beneficiary := 0; state_root := h;
     transactions_root := 0; receipts_root := 0; logs_bloom := 0; difficulty := 1; h_number := n;
     gas_limit := 30000000; gas_used := 0; timestamp := ts; extra_data := []; mix_hash := 0;
     nonce := 0; base_fee_per_gas := Some 7 |}.

Definition toy_block (n h parent ts : Z) (txs : list toy_tx) : @DogeosBlock toy_chain :=
  @mkBlock toy_chain (toy_header n h parent ts) txs.

(** The answers a scripted client still has to give; an empty script is a transport error. *)
Record Script := mkScript {
  fcu_answers : list ForkchoiceUpdated;
  payload_answers : list PayloadStatus;
  get_answers : list ExecutionPayloadV1
}.

Definition answer {A} (l : list A) : outcome string A * list A :=
  match l with a :: l => (Ok a, l) | [] => (Err "script exhausted"%string, []) end.

Definition script_api : EngineApi Script := {|
  fork_choice_updated_v1 := λ _ _ s,
    let '(o, l) := answer (fcu_answers s) in (o, mkScript l (payload_answers s) (get_answers s));
  new_payload_v1 := λ _ s,
    let '(o, l) := answer (payload_answers s) in (o, mkScript (fcu_answers s) l (get_answers s));
  get_payload_v1 := λ _ s,
    let '(o, l) := answer (get_answers s) in (o, mkScript (fcu_answers s) (payload_answers s) l)
|}.

Definition fcu_answer (s : PayloadStatusEnum) (id : option Z) : ForkchoiceUpdated :=
  mkForkchoiceUpdated (mkPayloadStatus s None) id.

(** RLP headers of one byte, an identity "compression" and calldata whose only chunk follows the
    version word. *)
Definition toy_rlp (buf : Bytes) : option RlpHeader :=
  match buf with
  | [] => None
  | b :: _ =>
      if b <? 128 then Some (mkRlpHeader false 0 1)
      else if (192 <=? b) && (b <=? 247) then Some (mkRlpHeader true 1 (Z.to_nat (b - 192)))
      else None
  end.

Definition toy_libs : CodecLibs := {|
  rlp_header_decode := toy_rlp;
  tx_type_try_from := λ b, if b =? 1 then Some Eip2930 else if b =? 2 then Some Eip1559
                           else if b =? 4 then Some Eip7702
                           else if b =? 126 then Some OtherTxType else None;
  zstd_reads := λ frame, [Some (drop 4 frame)];
  commitBatch_SELECTOR := [1; 1; 1; 1];
  commitBatchWithBlobProof_SELECTOR := [2; 2; 2; 2];
  commitBatches_SELECTOR := [3; 3; 3; 3];
  commitBatch_abi_decode := λ cd,
    Some (mkCommitBatch (default 0 (cd !! 35%nat)) (replicate 89 0) [drop 36 cd] []);
  commitBatchWithBlobProof_abi_decode := λ _, None;
  commitBatches_abi_decode := λ cd,
    Some (mkCommitBatches (from_be (take 32 (drop 4 cd))) 0 0)
|}.

(** A blob that carries [payload]: a zero byte before every 31 bytes. *)
Fixpoint toy_blob (fuel : nat) (payload : Bytes) : Bytes :=
  match fuel with
  | O => []
  | S fuel => match payload with
              | [] => []
              | _ => 0 :: take 31 payload ++ toy_blob fuel (drop 31 payload)
              end
  end.

(** The context of block [n] with one L2 transaction and no L1 message, and the payload that
    holds this single block. *)
Definition toy_context (n : Z) : BlockContext := mkBlockContext n 1700 7 30000000 1 0.
Definition toy_payload (n : Z) : PayloadData :=
  mkPayloadData [mkL2Block [[192]] (toy_context n)] (Hashed 11 12) None.

(** Calldata of the toy ABI for a version, with the bytes of its single chunk. *)
Definition toy_calldata (version : Z) (chunk : Bytes) : Bytes :=
  [1; 1; 1; 1] ++ be_bytes 32 version ++ chunk.
