(* ===== verification/CodecProps.v ===== *)
(** * Properties of the batch codec

    The bytes the decoders accept (blob iterator, version 7 payload, batch headers), and where
    decoding can panic. *)

From S2P Require Import Prelude Primitives BigEndian Codec Concrete.

(** ** The blob iterator *)

(** The bytes of a blob that are not the first of a field element, [pos] being the position of
    the first byte of the list. *)
Fixpoint payload_from (pos : Z) (blob : Bytes) : Bytes :=
  match blob with
  | [] => []
  | b :: blob => if pos mod 32 =? 0 then payload_from (pos + 1) blob
                 else b :: payload_from (pos + 1) blob
  end.

Lemma collect_payload fuel l c :
  (length l ≤ fuel)%nat → 0 <= c → collect fuel (mkBlobIter l c) = payload_from c l.
Proof.
  revert l c. induction fuel as [|fuel IH]; intros l c Hf Hc.
  { by destruct l; [|simpl in Hf; lia]. }
  destruct l as [|b l]; [simpl; by destruct (c mod 32 =? 0)|]. simpl in Hf.
  cbn [collect payload_from]. unfold blob_next. cbn [count iterator].
  destruct (c mod 32 =? 0) eqn:E; cbn [iterator count head tail].
  - bool_to_prop. destruct l as [|b' l]; [done|]. simpl in Hf.
    cbn [head tail payload_from].
    assert (((c + 1) mod 32 =? 0) = false) as ->.
    { apply Z.eqb_neq. rewrite Z.add_mod, E by lia. done. }
    f_equal. apply IH; [simpl in *; lia|lia].
  - f_equal. apply IH; lia.
Qed.

Lemma payload_from_run k pos blob :
  (k ≤ 31)%nat → pos mod 32 = (32 - Z.of_nat k) mod 32 → 0 <= pos →
  payload_from pos blob = take k blob ++ payload_from (pos + Z.of_nat k) (drop k blob).
Proof.
  revert pos blob. induction k as [|k IH]; intros pos blob Hk Hp H0.
  { by rewrite Z.add_0_r, drop_0. }
  rewrite (Z.mod_small (32 - _)) in Hp by lia.
  destruct blob as [|b blob]; [done|]. cbn [payload_from take drop app].
  rewrite (proj2 (Z.eqb_neq _ _)) by lia. cbn [app]. f_equal.
  rewrite IH; [f_equal; f_equal; lia|lia| |lia].
  rewrite Z.add_mod, Hp by lia. f_equal. rewrite (Z.mod_small 1) by lia. lia.
Qed.

Lemma payload_from_element pos blob :
  pos mod 32 = 0 → 0 <= pos →
  payload_from pos blob = take 31 (drop 1 blob) ++ payload_from (pos + 32) (drop 32 blob).
Proof.
  intros Hp H0. destruct blob as [|b blob]; [done|]. cbn [payload_from].
  rewrite Hp. change (0 =? 0) with true. cbv iota.
  rewrite (payload_from_run 31) by (try lia; rewrite Z.add_mod, Hp by lia; done).
  change (drop 1 (b :: blob)) with (drop 0 blob). rewrite drop_0.
  f_equal. f_equal. lia.
Qed.

Lemma payload_from_lookup blob pos j :
  pos mod 32 = 0 → 0 <= pos →
  payload_from pos blob !! j = blob !! (32 * (j / 31) + 1 + j mod 31)%nat.
Proof.
  unfold Bytes in *. revert blob pos. induction j as [j IH] using lt_wf_ind; intros blob pos Hp H0.
  rewrite payload_from_element by done.
  destruct (decide (j < 31)%nat) as [Hj|Hj].
  - rewrite Nat.div_small, Nat.mod_small by lia.
    destruct (decide (j < length (take 31 (drop 1 blob)))%nat) as [Hl|Hl].
    + rewrite lookup_app_l by done. rewrite lookup_take_lt by lia. by rewrite lookup_drop.
    + rewrite length_take, length_drop in Hl.
      rewrite (drop_ge blob 32) by lia. simpl (payload_from _ []). rewrite app_nil_r.
      rewrite lookup_take_lt, lookup_drop by lia. f_equal.
  - assert (j / 31 = S ((j - 31) / 31) ∧ j mod 31 = (j - 31) mod 31)%nat as [Hd Hm].
    { replace j with (j - 31 + 1 * 31)%nat at 1 3 by lia.
      rewrite Nat.div_add, Nat.Div0.mod_add by lia. lia. }
    destruct (decide (length (take 31 (drop 1 blob)) = 31%nat)) as [Hl|Hl].
    + rewrite lookup_app_r, Hl, IH by (lia || (rewrite Z.add_mod, Hp by lia; done)).
      rewrite lookup_drop. f_equal. lia.
    + rewrite length_take, length_drop in Hl.
      rewrite (drop_ge blob 32) by lia. simpl (payload_from _ []). rewrite app_nil_r.
      rewrite !lookup_ge_None_2; [done|lia|rewrite length_take, length_drop; lia].
Qed.

(** the iterator over a blob yields every byte but the first of each 32-byte field element, in
    order: byte [j] of the result is byte [j mod 31 + 1] of the field element [j / 31]. *)
Theorem heap_blob_lookup blob j :
  heap_blob blob !! j = blob !! (32 * (j / 31) + 1 + j mod 31)%nat.
Proof.
  unfold heap_blob, from_blob_slice. rewrite collect_payload by (done || lia).
  by apply payload_from_lookup.
Qed.

(** ** Reading a successful parse backwards *)

Lemma check_len_inv n buf u rest :
  check_buf_len Eof n buf = (Ok u, rest) → rest = buf ∧ (n ≤ length buf)%nat.
Proof.
  unfold check_buf_len. destruct (Nat.ltb_spec (length buf) n); [done|]. intros; by simplify_eq.
Qed.

(** Splits a successful straight-line parser into the reads it consists of. *)
Ltac inv_reads :=
  repeat match goal with
  | H : bind _ _ _ = (Ok _, _) |- _ =>
      let a := fresh "z" in let s := fresh "s" in let H1 := fresh "R" in
      apply bind_Ok in H as (a & s & H1 & H); simpl in H
  | H : check_buf_len _ _ _ = (Ok _, _) |- _ => apply check_len_inv in H as [-> ?]
  | Hb : Forall byte_ok ?b, H : take_be _ ?b = (Ok _, _) |- _ =>
      apply (take_be_inv _ _ _ _ Hb) in H as (-> & ? & ?); clear Hb
  | H : ret _ _ = (Ok _, _) |- _ => unfold ret in H; simplify_eq
  end.

(** ** The version 7 payload and its format *)

Section Format.
Context `{CodecLibs} `{Chain}.

Definition encode_context_v7 (c : BlockContext) : Bytes :=
  be_bytes 8 (c_timestamp c) ++ be_bytes 32 (c_base_fee c) ++ be_bytes 8 (c_gas_limit c) ++
  be_bytes 2 (c_num_transactions c) ++ be_bytes 2 (c_num_l1_messages c).

(** The format of da-codec's version 7: the queue hashes, the number of the first block and the
    block count, the contexts of all blocks, then the L2 transactions of all blocks. *)
Definition encode_v7 (initial : Z) (p : PayloadData) (prev post : B256) : Bytes :=
  be_bytes 32 prev ++ be_bytes 32 post ++ be_bytes 8 initial ++
  be_bytes 2 (Z.of_nat (length (pd_blocks p))) ++
  concat (map (λ b, encode_context_v7 (context b)) (pd_blocks p)) ++
  concat (map (λ b, concat (l2_transactions b)) (pd_blocks p)).

(** A block that a context of the batch describes: it holds the L2 transactions the context
    counts, the L1 messages excluded. *)
Definition block_shape (b : L2Block) : Prop :=
  length (l2_transactions b) =
  transactions_count (c_num_transactions (context b)) (c_num_l1_messages (context b)).

(** Consecutive block numbers from [initial]. *)
Definition numbered (initial i : Z) (bs : list L2Block) : Prop :=
  ∀ k b, bs !! k = Some b → c_number (context b) = wrapping_add initial (i + Z.of_nat k).

Definition payload_wf (initial : Z) (p : PayloadData) : Prop :=
  Forall block_shape (pd_blocks p) ∧ numbered initial 0 (pd_blocks p).

Lemma Transaction_inv buf tx rest :
  Transaction_try_from_buf buf = (Ok tx, rest) → buf = tx ++ rest.
Proof.
  unfold Transaction_try_from_buf, bind at 1, get. intros Ht.
  assert (∀ n, finish n buf = (Ok tx, rest) → buf = tx ++ rest) as Hf.
  { intros n. unfold finish, bind, get. destruct (length buf <? n)%nat; [done|].
    intros [? _]%take_bytes_inv. done. }
  repeat (case_out; try done); eauto.
Qed.

Lemma repeat_m_inv {A} (m : M Bytes DecodingError A) (enc : A → Bytes) n buf l rest :
  (∀ buf a rest, m buf = (Ok a, rest) → buf = enc a ++ rest) →
  repeat_m n m buf = (Ok l, rest) → buf = concat (map enc l) ++ rest ∧ length l = n.
Proof.
  intros Hm. revert buf l. induction n as [|n IH]; intros buf l; simpl.
  { unfold ret. intros; simplify_eq. done. }
  intros (a & s1 & H1 & (l' & s2 & H2 & H3)%bind_Ok)%bind_Ok. unfold ret in H3. simplify_eq.
  apply Hm in H1 as ->. apply IH in H2 as [-> <-]. simpl. by rewrite <- app_assoc.
Qed.

(** As [repeat_m_inv], for an item whose encoding needs the bytes to be bytes. *)
Lemma repeat_m_inv_bytes {A} (m : M Bytes DecodingError A) (enc : A → Bytes) n buf l rest :
  (∀ buf a rest, Forall byte_ok buf → m buf = (Ok a, rest) →
     buf = enc a ++ rest ∧ Forall byte_ok rest) →
  Forall byte_ok buf → repeat_m n m buf = (Ok l, rest) →
  buf = concat (map enc l) ++ rest ∧ length l = n ∧ Forall byte_ok rest.
Proof.
  intros Hm. revert buf l. induction n as [|n IH]; intros buf l Hb; simpl.
  { unfold ret. intros; simplify_eq. done. }
  intros (a & s1 & H1 & (l' & s2 & H2 & H3)%bind_Ok)%bind_Ok. unfold ret in H3. simplify_eq.
  apply Hm in H1 as [-> Hb1]; [|done]. apply IH in H2 as (-> & <- & ?); [|done].
  simpl. by rewrite <- app_assoc.
Qed.

Lemma context_v7_inv buf c rest :
  Forall byte_ok buf → BlockContextV7_try_from_buf buf = (Ok c, rest) →
  buf = encode_context_v7 (BlockContext_from_v7 c 0) ++ rest ∧ Forall byte_ok rest.
Proof.
  intros Hb Hp. unfold BlockContextV7_try_from_buf in Hp. inv_reads.
  split; [|done]. unfold encode_context_v7, BlockContext_from_v7.
  cbn [c_timestamp c_base_fee c_gas_limit c_num_transactions c_num_l1_messages
       c7_timestamp c7_base_fee c7_gas_limit c7_num_transactions c7_num_l1_messages].
  by rewrite <- !app_assoc.
Qed.

Lemma v7_blocks_inv initial i cs buf bs rest :
  v7_blocks initial i cs buf = (Ok bs, rest) →
  buf = concat (map (λ b, concat (l2_transactions b)) bs) ++ rest ∧
  Forall block_shape bs ∧ numbered initial i bs ∧
  map (λ b, encode_context_v7 (context b)) bs =
    map (λ c, encode_context_v7 (BlockContext_from_v7 c 0)) cs.
Proof.
  revert i buf bs. induction cs as [|c cs IH]; intros i buf bs Hp; simpl in Hp; inv_reads.
  { done. }
  apply (repeat_m_inv _ id) in R as [-> Hl]; [|by apply Transaction_inv].
  apply IH in R0 as (-> & Hs & Hn & He). rewrite map_id. simpl.
  split_and!; [by rewrite <- app_assoc|by constructor| |by f_equal].
  intros [|k] b Hk; simplify_eq/=; [by rewrite Z.add_0_r|].
  rewrite (Hn k b Hk). f_equal. lia.
Qed.

(** soundness of the version 7 decoder: a payload it accepts is, byte for byte, the encoding
    of the decoded blocks followed by unread bytes; the blocks are numbered consecutively from
    the initial number and hold exactly the transactions their contexts count. *)
Theorem decode_v7_payload_sound buf p :
  Forall byte_ok buf → decode_v7_payload buf = Ok p →
  ∃ initial prev post rest,
    buf = encode_v7 initial p prev post ++ rest ∧ payload_wf initial p ∧
    l1_message_queue_info p = Hashed prev post.
Proof.
  unfold decode_v7_payload. intros Hb Hd.
  destruct (decode_v7_payload_m buf) as [o rest] eqn:Hp. simpl in Hd. subst o.
  unfold decode_v7_payload_m in Hp. inv_reads.
  apply (repeat_m_inv_bytes _ (λ c, encode_context_v7 (BlockContext_from_v7 c 0))) in R4
    as (-> & Hn & _); [|apply context_v7_inv|done].
  apply v7_blocks_inv in R5 as (-> & Hs & Hnum & He).
  pose proof (f_equal length He) as Hlen. rewrite !length_map, Hn in Hlen.
  eexists _, _, _, _. split_and!; [|by split|done]. unfold encode_v7. simpl pd_blocks.
  rewrite He, Hlen, Z2Nat.id by lia.
  by rewrite <- !app_assoc.
Qed.

(** A transaction whose bytes are recognised whatever follows them. *)
Definition self_delimiting (tx : Bytes) : Prop :=
  ∀ rest, Transaction_try_from_buf (tx ++ rest) = (Ok tx, rest).

Definition context_ok (c : BlockContext) : Prop :=
  in_u64 (c_timestamp c) ∧ 0 <= c_base_fee c < 2 ^ 256 ∧ in_u64 (c_gas_limit c) ∧
  0 <= c_num_transactions c < 2 ^ 16 ∧ 0 <= c_num_l1_messages c < 2 ^ 16.

Lemma repeat_m_app {A} (m : M Bytes DecodingError A) (enc : A → Bytes) l rest :
  (∀ a rest, a ∈ l → m (enc a ++ rest) = (Ok a, rest)) →
  repeat_m (length l) m (concat (map enc l) ++ rest) = (Ok l, rest).
Proof.
  induction l as [|a l IH]; intros Hm; [done|]. simpl. rewrite <- app_assoc.
  unfold bind at 1. rewrite Hm by left. unfold bind. rewrite IH; [done|].
  intros; apply Hm; by right.
Qed.

Lemma bind_take_be {A} n z rest (k : Z → M Bytes DecodingError A) :
  0 <= z < 256 ^ Z.of_nat n → bind (take_be n) k (be_bytes n z ++ rest) = k z rest.
Proof. intros. unfold bind. by rewrite take_be_app. Qed.

Lemma bind_check_len {A} n buf (k : unit → M Bytes DecodingError A) :
  (n ≤ length buf)%nat → bind (check_buf_len Eof n) k buf = k tt buf.
Proof. intros. unfold bind, check_buf_len. by rewrite (proj2 (Nat.ltb_ge _ _)). Qed.

Definition to_v7 (c : BlockContext) : BlockContextV7 :=
  mkContextV7 (c_timestamp c) (c_base_fee c) (c_gas_limit c) (c_num_transactions c)
    (c_num_l1_messages c).

Ltac length_bytes := rewrite ?length_app, ?length_be_bytes; lia.

Lemma context_v7_app c rest :
  context_ok c → BlockContextV7_try_from_buf (encode_context_v7 c ++ rest) = (Ok (to_v7 c), rest).
Proof.
  unfold context_ok, in_u64. intros (?&?&?&?&?). unfold BlockContextV7_try_from_buf, encode_context_v7.
  rewrite bind_check_len by length_bytes. rewrite <- !app_assoc.
  by rewrite !bind_take_be by (simpl; lia).
Qed.

Lemma v7_blocks_app initial i bs rest :
  Forall block_shape bs → numbered initial i bs →
  (∀ b tx, b ∈ bs → tx ∈ l2_transactions b → self_delimiting tx) →
  v7_blocks initial i (map (λ b, to_v7 (context b)) bs)
    (concat (map (λ b, concat (l2_transactions b)) bs) ++ rest) = (Ok bs, rest).
Proof.
  revert i. induction bs as [|b bs IH]; intros i Hs Hn Htx; [done|].
  inversion_clear Hs as [|? ? Hb Hbs]. cbn [map concat v7_blocks]. simpl c7_num_transactions.
  simpl c7_num_l1_messages. rewrite <- app_assoc. unfold bind at 1.
  rewrite <- (map_id (l2_transactions b)) at 1. rewrite <- Hb, repeat_m_app.
  2: { intros tx r Hin. apply (Htx b tx); [by left|done]. }
  unfold bind. rewrite IH; [|done| |].
  - unfold ret. do 3 f_equal. pose proof (Hn 0%nat b eq_refl) as Hn0. rewrite Z.add_0_r in Hn0.
    destruct b as [txs c]. simpl in *. f_equal. destruct c. simpl in *. rewrite Hn0. done.
  - intros k b' Hk. rewrite (Hn (S k) b' Hk). f_equal. lia.
  - intros b' tx Hin. apply Htx. by right.
Qed.

(** C31: completeness of the version 7 decoder: the encoding of a well-formed payload with
    self-delimiting transactions is decoded to exactly that payload, whatever follows it. *)
Theorem decode_v7_payload_complete initial p prev post rest :
  payload_wf initial p → Forall (λ b, context_ok (context b)) (pd_blocks p) →
  (∀ b tx, b ∈ pd_blocks p → tx ∈ l2_transactions b → self_delimiting tx) →
  in_u64 initial → 0 <= prev < 2 ^ 256 → 0 <= post < 2 ^ 256 →
  Z.of_nat (length (pd_blocks p)) < 2 ^ 16 →
  decode_v7_payload (encode_v7 initial p prev post ++ rest) =
    Ok (mkPayloadData (pd_blocks p) (Hashed prev post) None).
Proof.
  unfold in_u64. intros [Hs Hn] Hc Htx Hi Hprev Hpost Hlen.
  unfold decode_v7_payload, decode_v7_payload_m, encode_v7.
  rewrite bind_check_len by length_bytes. rewrite <- !app_assoc.
  rewrite !bind_take_be by (simpl; lia). rewrite Nat2Z.id. unfold bind at 1.
  assert (length (pd_blocks p) = length (map (λ b, to_v7 (context b)) (pd_blocks p))) as Hl
    by by rewrite length_map.
  set (enc c := encode_context_v7 (BlockContext_from_v7 c 0)).
  replace (map (λ b, encode_context_v7 (context b)) (pd_blocks p))
    with (map enc (map (λ b, to_v7 (context b)) (pd_blocks p)))
    by (rewrite map_map; by apply map_ext).
  rewrite Hl, repeat_m_app.
  2: { intros c r. rewrite list_elem_of_fmap. intros (b & -> & Hb).
       rewrite Forall_forall in Hc. specialize (Hc b Hb). unfold enc.
       pose proof (context_v7_app (context b) r Hc) as <-. done. }
  unfold bind. by rewrite v7_blocks_app.
Qed.
End Format.

(** ** Batch headers *)

Section Headers.
Context `{CodecLibs} `{Chain}.

(** a version 3 header (versions 3 and above) hashes to the hash of exactly the 193 bytes it
    was read from. *)
Theorem header_v3_hash buf h rest :
  Forall byte_ok buf → BatchHeaderV3_try_from_buf buf = (Ok h, rest) →
  BatchHeaderV3_hash_slow h = keccak256 (take 193 buf) ∧ rest = drop 193 buf.
Proof.
  intros Hb Hp. unfold BatchHeaderV3_try_from_buf in Hp.
  assert (buf = BatchHeaderV3_bytes h ++ rest) as ->.
  { inv_reads. unfold BatchHeaderV3_bytes.
    cbn [h3_version h3_batch_index h3_l1_message_popped h3_total_l1_message_popped h3_data_hash
         h3_blob_versioned_hash h3_parent_batch_hash h3_last_block_timestamp h3_blob_data_proof
         fst snd].
    by rewrite <- !app_assoc. }
  assert (length (BatchHeaderV3_bytes h) = 193%nat) as Hl.
  { unfold BatchHeaderV3_bytes. by rewrite !length_app, !length_be_bytes. }
  rewrite <- Hl, take_app_length, drop_app_length. done.
Qed.

Lemma take_bitmap_inv n buf b rest :
  take_bitmap n buf = (Ok b, rest) → buf = reverse b ∧ rest = [].
Proof.
  unfold take_bitmap, bind at 1, get. case_out; [done|].
  unfold bind, advance, ret. rewrite length_reverse, Nat.leb_refl, drop_all. intros. simplify_eq.
  by rewrite reverse_involutive.
Qed.

(** a version 0 header does not hash to the hash of the bytes it was read from: the skipped
    message bitmap is kept in reverse byte order, and hashed in that order. *)
Theorem header_v0_hash_reversed buf h rest :
  Forall byte_ok buf → BatchHeaderV0_try_from_buf buf = (Ok h, rest) →
  BatchHeaderV0_hash_slow h = keccak256 (take 89 buf ++ reverse (drop 89 buf)) ∧ rest = [].
Proof.
  intros Hb Hp. unfold BatchHeaderV0_try_from_buf in Hp. inv_reads.
  match goal with Ht : take_bitmap _ _ = _ |- _ => apply take_bitmap_inv in Ht as [-> ->] end.
  split; [|done].
  rewrite !app_assoc.
  match goal with |- context [take 89 (?l ++ reverse _)] => set (fixed := l) end.
  assert (length fixed = 89%nat) as Hl.
  { unfold fixed. by rewrite !length_app, !length_be_bytes. }
  rewrite <- Hl, take_app_length, drop_app_length, reverse_involutive.
  unfold BatchHeaderV0_hash_slow, BatchHeaderV0_bytes, fixed.
  cbn [h0_version h0_batch_index h0_l1_message_popped h0_total_l1_message_popped h0_data_hash
       h0_parent_batch_hash h0_skipped_l1_message_bitmap].
  by rewrite <- !app_assoc.
Qed.
End Headers.

(** ** Panics *)

Section Panics.
Context `{CodecLibs} `{Chain}.

Definition no_panic {S E A} (m : M S E A) : Prop := ∀ s, (m s).1 ≠ Panic.

Lemma no_panic_bind {S E A B} (m : M S E A) (k : A → M S E B) :
  no_panic m → (∀ a, no_panic (k a)) → no_panic (bind m k).
Proof.
  intros Hm Hk s. unfold bind. specialize (Hm s). destruct (m s) as [[a|e|] s1]; [apply Hk|done..].
Qed.
Lemma no_panic_ret {S E A} (a : A) : no_panic (ret a : M S E A).
Proof. by intros s. Qed.
Lemma no_panic_lift {S E A} (o : outcome E A) : o ≠ Panic → no_panic (lift o : M S E A).
Proof. intros Ho s. by apply Ho. Qed.
Lemma no_panic_repeat {S E A} n (m : M S E A) : no_panic m → no_panic (repeat_m n m).
Proof.
  intros Hm. induction n; simpl; [apply no_panic_ret|].
  apply no_panic_bind; [done|intros a]. apply no_panic_bind; [done|intros l]. apply no_panic_ret.
Qed.

Lemma bind_take_long {A} n (k : Z → M Bytes DecodingError A) buf :
  (n ≤ length buf)%nat → bind (take_be n) k buf = k (from_be (take n buf)) (drop n buf).
Proof.
  intros Hl. unfold bind, take_be, bind, take_bytes. by rewrite (proj2 (Nat.leb_le _ _) Hl).
Qed.

Lemma check_len_ok {A} n (k : M Bytes DecodingError A) buf :
  ((n ≤ length buf)%nat → (k buf).1 ≠ Panic) → ((check_buf_len Eof n ;;; k) buf).1 ≠ Panic.
Proof.
  intros Hk. unfold bind, check_buf_len. destruct (Nat.ltb_spec (length buf) n); [done|by apply Hk].
Qed.

(** A straight-line parser whose reads stay within the length it checked first. *)
Ltac reads_fit :=
  apply check_len_ok; intros; repeat (rewrite bind_take_long by (rewrite ?length_drop; lia)).

Lemma take_bitmap_no_panic n : no_panic (take_bitmap n).
Proof.
  intros buf. unfold take_bitmap, bind at 1, get. case_out; [done|].
  unfold bind, advance. by rewrite length_reverse, Nat.leb_refl.
Qed.

Lemma BatchHeader_no_panic : no_panic BatchHeader_try_from_buf.
Proof.
  intros buf. unfold BatchHeader_try_from_buf, bind at 1, get.
  repeat case_out; try done; apply no_panic_bind; try (intros; apply no_panic_ret);
    intros b'; unfold BatchHeaderV0_try_from_buf, BatchHeaderV1_try_from_buf,
      BatchHeaderV3_try_from_buf; reads_fit; try done;
    apply no_panic_bind; try (intros; apply no_panic_ret); apply take_bitmap_no_panic.
Qed.

Lemma l1_message_start_index_no_panic raw : l1_message_start_index raw ≠ Panic.
Proof.
  unfold l1_message_start_index. pose proof (BatchHeader_no_panic raw) as Hn.
  destruct (BatchHeader_try_from_buf raw) as [[h|e|] s] eqn:Hp; simpl in *; [|done..].
  unfold BatchHeader_try_from_buf, bind at 1, get in Hp.
  repeat (case_out; try done);
    apply bind_Ok in Hp as (h' & ? & _ & Hp); unfold ret in Hp; by simplify_eq.
Qed.

Lemma context_v0_no_panic : no_panic BlockContextV0_try_from_buf.
Proof. intros buf. unfold BlockContextV0_try_from_buf. by reads_fit. Qed.

Lemma context_v7_no_panic : no_panic BlockContextV7_try_from_buf.
Proof. intros buf. unfold BlockContextV7_try_from_buf. by reads_fit. Qed.

Lemma chunk_contexts_no_panic : no_panic chunk_contexts.
Proof.
  intros buf. unfold chunk_contexts, bind at 1, get. case_out; [done|].
  unfold bind at 1, advance. cbn [length Nat.leb drop].
  apply no_panic_bind; [|intros; apply no_panic_ret].
  apply no_panic_repeat, context_v0_no_panic.
Qed.

(** Documented behaviour of [alloy_rlp::Header::decode]: an empty buffer is too short. *)
Hypothesis rlp_empty : rlp_header_decode [] = None.

Lemma Transaction_no_panic : no_panic Transaction_try_from_buf.
Proof.
  assert (∀ n, no_panic (finish n)) as Hf.
  { intros n buf. unfold finish, bind, get. destruct (Nat.ltb_spec (length buf) n); [done|].
    unfold take_bytes. by rewrite (proj2 (Nat.leb_le _ _)). }
  intros buf. unfold Transaction_try_from_buf, bind at 1, get.
  destruct buf; [by rewrite rlp_empty|]. repeat (case_out; try done); apply Hf.
Qed.

Lemma chunk_blocks_no_panic cs : no_panic (chunk_blocks Transaction_try_from_buf cs).
Proof.
  induction cs as [|c cs IH]; simpl; [apply no_panic_ret|].
  apply no_panic_bind; [apply no_panic_repeat, Transaction_no_panic|intros l].
  apply no_panic_bind; [done|intros; apply no_panic_ret].
Qed.

Lemma v7_blocks_no_panic n i cs : no_panic (v7_blocks n i cs).
Proof.
  revert i. induction cs as [|c cs IH]; intros i; simpl; [apply no_panic_ret|].
  apply no_panic_bind; [apply no_panic_repeat, Transaction_no_panic|intros l].
  apply no_panic_bind; [done|intros; apply no_panic_ret].
Qed.

Lemma decode_v1_chunks_no_panic cs : no_panic (decode_v1_chunks cs).
Proof.
  induction cs as [|c cs IH]; simpl; [apply no_panic_ret|].
  apply no_panic_bind; [apply no_panic_lift, chunk_contexts_no_panic|intros [n l]].
  apply no_panic_bind; [apply chunk_blocks_no_panic|intros bs].
  apply no_panic_bind; [done|intros []; apply no_panic_ret].
Qed.

Lemma obind_no_panic {E A B} (o : outcome E A) (k : A → outcome E B) :
  o ≠ Panic → (∀ a, k a ≠ Panic) → obind o k ≠ Panic.
Proof. destruct o; simpl; auto. Qed.

Lemma ok_or_no_panic {E A} (e : E) (o : option A) : ok_or e o ≠ Panic.
Proof. by destruct o. Qed.

Lemma bitmap_no_panic call : skipped_l1_message_bitmap call ≠ Panic.
Proof. unfold skipped_l1_message_bitmap. by repeat case_out. Qed.

Lemma decode_chunks_in_blob_no_panic call off start cs buf :
  decode_chunks_in_blob call off start cs buf ≠ Panic.
Proof.
  unfold decode_chunks_in_blob.
  assert ((skip_chunk_table off buf).1 ≠ Panic) as Hs.
  { unfold skip_chunk_table. reads_fit. unfold advance.
    by rewrite (proj2 (Nat.leb_le _ _)) by (rewrite length_drop; lia). }
  destruct (skip_chunk_table off buf) as [[[]|e|] rest]; simpl in Hs; [|done..].
  apply obind_no_panic; [apply bitmap_no_panic|intros bm]. unfold decode_v1_chunk.
  pose proof (decode_v1_chunks_no_panic cs rest).
  by destruct (decode_v1_chunks cs rest) as [[[]|?|] ?].
Qed.

Lemma decode_v7_no_panic blob : decode_v7 blob ≠ Panic.
Proof.
  unfold decode_v7. apply obind_no_panic.
  { unfold v7_envelope. by reads_fit. }
  intros [[v size] c]. case_out; [done|]. unfold decode_payload, decode_v7_payload.
  assert (∀ b, (decode_v7_payload_m b).1 ≠ Panic) as Hp.
  { intros b. unfold decode_v7_payload_m. reads_fit.
    apply no_panic_bind; [apply no_panic_repeat, context_v7_no_panic|intros l].
    apply no_panic_bind; [apply v7_blocks_no_panic|intros; apply no_panic_ret]. }
  match goal with |- omap_ok _ (decode_v7_payload_m ?x).1 ≠ _ =>
    specialize (Hp x); by destruct (decode_v7_payload_m x) as [[]] end.
Qed.

(** C33: malformed batch data never panics the decoder for versions 1 and above: every read of a
    slice is checked against its length, so truncated data decodes or fails with an error. *)
Theorem decode_panics_only_v0 calldata blob :
  decode calldata blob = Panic → get_codec_version calldata = Ok 0.
Proof.
  unfold decode. destruct (get_codec_version calldata) as [v|?|] eqn:Hv; simpl; [|done|].
  2: { unfold get_codec_version in Hv. by repeat case_out. }
  destruct (v =? 0) eqn:E0; [bool_to_prop; by subst|]. intros Hp. exfalso. revert Hp.
  repeat case_out; try done; apply obind_no_panic; try apply ok_or_no_panic; intros bl;
    try apply decode_v7_no_panic; unfold decode_v1, decode_v2, decode_v4, raw_header;
    repeat (apply obind_no_panic; [first [apply ok_or_no_panic|apply l1_message_start_index_no_panic]|
      intros ?]); try apply decode_chunks_in_blob_no_panic.
  case_out; [done|]. apply decode_chunks_in_blob_no_panic.
Qed.
End Panics.

(** ** Witnesses *)

Definition toy_v7_bytes : Bytes := encode_v7 5 (toy_payload 5) 11 12.

Lemma decode_v7_payload_sound_witness :
  ∃ initial prev post rest,
    toy_v7_bytes = encode_v7 initial (toy_payload 5) prev post ++ rest ∧
    payload_wf initial (toy_payload 5) ∧ l1_message_queue_info (toy_payload 5) = Hashed prev post.
Proof.
  apply (@decode_v7_payload_sound toy_libs).
  - unfold byte_ok. apply (bool_decide_unpack _). vm_compute. exact I.
  - vm_compute. reflexivity.
Defined.

Lemma decode_v7_payload_complete_witness :
  @decode_v7_payload toy_libs (toy_v7_bytes ++ [9; 9]) =
    Ok (mkPayloadData (pd_blocks (toy_payload 5)) (Hashed 11 12) None).
Proof.
  apply (@decode_v7_payload_complete toy_libs 5 (toy_payload 5) 11 12 [9; 9]);
    unfold in_u64; try (simpl; lia).
  - split; [by constructor|]. by intros [|k] b Hk; simplify_eq/=.
  - constructor; [|constructor]. unfold context_ok, in_u64. simpl. lia.
  - intros b tx Hb Htx. simpl in Hb. apply list_elem_of_singleton in Hb as ->.
    apply list_elem_of_singleton in Htx as ->. by intros rest.
Defined.

Definition toy_header_bytes : Bytes :=
  3 :: be_bytes 8 100 ++ be_bytes 8 2 ++ be_bytes 8 50 ++ be_bytes 32 1 ++ be_bytes 32 2 ++
  be_bytes 32 3 ++ be_bytes 8 1700 ++ be_bytes 32 4 ++ be_bytes 32 5 ++ [77].

Lemma header_v3_hash_witness :
  BatchHeaderV3_hash_slow (H0 := toy_chain) (mkHeaderV3 3 100 2 50 1 2 3 1700 (4, 5)) =
    keccak256 (Chain := toy_chain) (take 193 toy_header_bytes) ∧
  [77] = drop 193 toy_header_bytes.
Proof.
  apply (header_v3_hash toy_header_bytes).
  - unfold byte_ok. apply (bool_decide_unpack _). vm_compute. exact I.
  - vm_compute. reflexivity.
Defined.

(** A version 0 header of three popped messages, the first of which was skipped. *)
Definition toy_header_v0_bytes : Bytes :=
  0 :: be_bytes 8 100 ++ be_bytes 8 3 ++ be_bytes 8 22 ++ be_bytes 32 1 ++ be_bytes 32 2 ++
  be_bytes 32 1.

Lemma header_v0_hash_reversed_witness :
  BatchHeaderV0_hash_slow (H0 := toy_chain) (mkHeaderV0 0 100 3 22 1 2 (reverse (be_bytes 32 1))) =
    keccak256 (Chain := toy_chain)
      (take 89 toy_header_v0_bytes ++ reverse (drop 89 toy_header_v0_bytes)) ∧
  @nil Z = [].
Proof.
  apply (header_v0_hash_reversed toy_header_v0_bytes).
  - unfold byte_ok. apply (bool_decide_unpack _). vm_compute. exact I.
  - vm_compute. reflexivity.
Defined.

(** A version 0 chunk that ends after a block context that counts a transaction. *)
Definition truncated_v0_calldata : Bytes := toy_calldata 0 ([1] ++ to_be_bytes (toy_context 5)).

Lemma decode_panics_only_v0_witness :
  get_codec_version truncated_v0_calldata = Ok 0.
Proof.
  apply (@decode_panics_only_v0 toy_libs eq_refl truncated_v0_calldata None).
  vm_compute. reflexivity.
Defined.
