(* ===== verification/DecodeWf.v ===== *)
(** * Every decoded batch is well formed

    What the decoders of all versions promise of a batch they accept: the transactions its contexts
    count, numbers within the widths of their types, and, byte for byte, the contexts the calldata or
    the blob encodes. *)

From S2P Require Import Prelude Primitives BigEndian Codec Concrete CodecProps.

(** The third-party decoders return bytes, and the version of a commit is a [uint8] of the ABI. *)
Class CodecBytes `{CodecLibs} : Prop := {
  zstd_bytes data bs : Forall byte_ok data → Some bs ∈ zstd_reads data → Forall byte_ok bs;
  commit_batch_bytes data c :
    Forall byte_ok data → commitBatch_abi_decode data = Some c →
    byte_ok (cb_version c) ∧ Forall byte_ok (cb_parent_batch_header c) ∧
    Forall (Forall byte_ok) (cb_chunks c);
  commit_batch_with_blob_proof_bytes data c :
    Forall byte_ok data → commitBatchWithBlobProof_abi_decode data = Some c →
    byte_ok (cbp_version c) ∧ Forall byte_ok (cbp_parent_batch_header c) ∧
    Forall (Forall byte_ok) (cbp_chunks c)
}.

Section Decoding.
Context `{CodecLibs} `{Chain}.

(** ** The specification *)

(** What the derivation pipeline relies on: each block has the L2 transactions its context
    counts, and the chunks, when there are chunks, partition the blocks. *)
Definition batch_wf (b : Batch) : Prop :=
  Forall block_shape (pd_blocks (batch_data b)) ∧
  match chunks_block_count b with
  | Some counts => sum_list counts = length (pd_blocks (batch_data b))
  | None => True
  end.

(** Every number fits its type. *)
Definition fields_ok (c : BlockContext) : Prop := in_u64 (c_number c) ∧ context_ok c.

Definition queue_info_ok (q : L1MessageQueueInfo) : Prop :=
  match q with
  | InitialQueueIndex i => in_u64 i
  | Hashed prev post => 0 <= prev < 2 ^ 256 ∧ 0 <= post < 2 ^ 256
  end.

Definition widths_ok (b : Batch) : Prop :=
  byte_ok (version b) ∧ Forall (λ bl, fields_ok (context bl)) (pd_blocks (batch_data b)) ∧
  queue_info_ok (l1_message_queue_info (batch_data b)).

(** A chunk starts with the number of its blocks and their contexts. *)
Definition chunk_encodes (chunk : Bytes) (bs : list L2Block) : Prop :=
  ∃ rest, chunk = Z.of_nat (length bs) :: concat (map (λ b, to_be_bytes (context b)) bs) ++ rest.

(** The payload inside the envelope of a version 7 blob. *)
Definition v7_payload (blob : Bytes) : Bytes :=
  let heap := heap_blob blob in
  let size := from_be (take 3 (drop 1 heap)) in
  let buf := take (Z.to_nat size) (drop 5 heap) in
  if default 0 (heap !! 4%nat) =? 1 then decompress_blob_data buf else buf.

(** The blocks are the encoded ones: up to version 6 chunk by chunk those of the calldata, from version
    7 on those of the payload of the blob, numbered consecutively from its initial number. *)
Definition as_encoded (calldata : Bytes) (blob : option Bytes) (b : Batch) : Prop :=
  ∃ v, get_codec_version calldata = Ok v ∧
  match chunks_block_count b with
  | Some counts => v < 7 ∧ ∃ call cs groups,
      try_decode calldata = Some call ∧ chunks call = Some cs ∧
      pd_blocks (batch_data b) = concat groups ∧ counts = map length groups ∧
      Forall2 chunk_encodes cs groups
  | None => 7 <= v ∧ ∃ bl initial prev post rest,
      blob = Some bl ∧ in_u64 initial ∧
      v7_payload bl = encode_v7 initial (batch_data b) prev post ++ rest ∧
      numbered initial 0 (pd_blocks (batch_data b)) ∧
      l1_message_queue_info (batch_data b) = Hashed prev post
  end.

Definition decoded_ok (calldata : Bytes) (blob : option Bytes) (b : Batch) : Prop :=
  batch_wf b ∧ widths_ok b ∧ as_encoded calldata blob b.

(** ** Contexts *)

Lemma u64_bytes z : 0 <= z < 256 ^ Z.of_nat 8 → in_u64 z.
Proof. unfold in_u64. change (256 ^ Z.of_nat 8) with (2 ^ 64). lia. Qed.

Lemma base_fee_bytes z :
  (if negb (z =? 0) then be_bytes 32 z else replicate 32 0) = be_bytes 32 z.
Proof. by destruct (Z.eqb_spec z 0) as [->|]. Qed.

(** Discharges the bounds of the fields of a context from those of the bytes read. *)
Ltac fields :=
  unfold fields_ok, context_ok, in_u64; simpl;
  change (256 ^ Z.of_nat 8) with (2 ^ 64) in *; change (256 ^ Z.of_nat 32) with (2 ^ 256) in *;
  change (256 ^ Z.of_nat 2) with (2 ^ 16) in *; repeat split; lia.

Lemma context_v0_inv buf c rest :
  Forall byte_ok buf → BlockContextV0_try_from_buf buf = (Ok c, rest) →
  buf = to_be_bytes c ++ rest ∧ fields_ok c ∧ Forall byte_ok rest.
Proof.
  intros Hb Hp. unfold BlockContextV0_try_from_buf in Hp. inv_reads.
  split_and!; [|by fields|done]. unfold to_be_bytes. cbn [c_number c_timestamp c_base_fee c_gas_limit c_num_transactions c_num_l1_messages].
  by rewrite base_fee_bytes, <- !app_assoc.
Qed.

Lemma context_v7_fields buf c rest :
  Forall byte_ok buf → BlockContextV7_try_from_buf buf = (Ok c, rest) →
  context_ok (BlockContext_from_v7 c 0) ∧ Forall byte_ok rest.
Proof.
  intros Hb Hp. unfold BlockContextV7_try_from_buf in Hp. inv_reads.
  split; [by fields|done].
Qed.

(** What holds of every item that is read holds of all of them. *)
Lemma repeat_m_Forall {A} (P : A → Prop) (m : M Bytes DecodingError A) n buf l rest :
  (∀ buf a rest, Forall byte_ok buf → m buf = (Ok a, rest) → P a ∧ Forall byte_ok rest) →
  Forall byte_ok buf → repeat_m n m buf = (Ok l, rest) → Forall P l ∧ Forall byte_ok rest.
Proof.
  intros Hm. revert buf l. induction n as [|n IH]; intros buf l Hb; simpl.
  { unfold ret. intros; by simplify_eq. }
  intros (a & s1 & H1 & (l' & s2 & H2 & H3)%bind_Ok)%bind_Ok. unfold ret in H3. simplify_eq.
  apply Hm in H1 as [Ha Hs]; [|done]. apply IH in H2 as [Hl ?]; [|done]. split; [by constructor|done].
Qed.

Lemma chunk_contexts_inv chunk n cs :
  Forall byte_ok chunk → (chunk_contexts chunk).1 = Ok (n, cs) →
  length cs = n ∧ Forall fields_ok cs ∧
  ∃ rest, chunk = Z.of_nat n :: concat (map to_be_bytes cs) ++ rest.
Proof.
  intros Hb Hf. destruct (chunk_contexts chunk) as [o s] eqn:Hp. simpl in Hf. subst o.
  unfold chunk_contexts, bind at 1, get in Hp. destruct chunk as [|k chunk]; [done|]. inv_reads.
  inversion Hb as [|? ? Hk Hb']; subst. unfold advance in R. simpl in R. rewrite drop_0 in R. simplify_eq R.
  intros _ <-.
  pose proof R0 as R1.
  apply (repeat_m_inv_bytes _ to_be_bytes) in R0 as (-> & Hl & _); [| |done].
  2: { intros buf a r Hbuf Ha. by apply context_v0_inv in Ha as (? & _ & ?). }
  apply (repeat_m_Forall fields_ok) in R1 as [Hok _]; [| |done].
  2: { intros buf a r Hbuf Ha. by apply context_v0_inv in Ha as (_ & ? & ?). }
  split_and!; [done|done|]. unfold byte_ok in Hk. rewrite Z2Nat.id by lia. by exists s.
Qed.

(** ** Chunks *)

Lemma obind_Ok {E A B} (o : outcome E A) (k : A → outcome E B) b :
  obind o k = Ok b → ∃ a, o = Ok a ∧ k a = Ok b.
Proof. destruct o; simpl; naive_solver. Qed.

Lemma ok_or_Ok {E A} (e : E) (o : option A) a : ok_or e o = Ok a → o = Some a.
Proof. destruct o; intros; by simplify_eq/=. Qed.

(** Peels the successful steps off a decoder. *)
Ltac inv_obind :=
  repeat match goal with
  | H : obind _ _ = Ok _ |- _ =>
      let a := fresh "a" in let H1 := fresh "R" in apply obind_Ok in H as (a & H1 & H)
  | H : ok_or _ _ = Ok _ |- _ => apply ok_or_Ok in H
  | H : raw_header _ = Ok _ |- _ => unfold raw_header in H
  end.

Lemma repeat_m_length {S E A} n (m : M S E A) s l s' :
  repeat_m n m s = (Ok l, s') → length l = n.
Proof.
  revert s l s'. induction n as [|n IH]; intros s l s'; simpl.
  { unfold ret. intros; by simplify_eq. }
  intros (a & s1 & _ & (l' & s2 & H2 & H3)%bind_Ok)%bind_Ok. unfold ret in H3. simplify_eq/=.
  f_equal. by eapply IH.
Qed.

Lemma chunk_blocks_inv tx cs buf bs rest :
  chunk_blocks tx cs buf = (Ok bs, rest) → Forall block_shape bs ∧ map context bs = cs.
Proof.
  revert buf bs. induction cs as [|c cs IH]; intros buf bs Hp; simpl in Hp; inv_reads; [done|].
  apply repeat_m_length in R. apply IH in R0 as [Hs Hl].
  split; [by constructor|]. simpl. by f_equal.
Qed.

(** The blocks of a chunk: [bs] are those of [chunk], which starts with [n] contexts [cs]. *)
Lemma chunk_group chunk n cs (bs : list L2Block) :
  Forall byte_ok chunk → (chunk_contexts chunk).1 = Ok (n, cs) → map context bs = cs →
  n = length bs ∧ Forall (λ b, fields_ok (context b)) bs ∧ chunk_encodes chunk bs.
Proof.
  intros Hb Hc <-. apply chunk_contexts_inv in Hc as (Hl & Hok & rest & ->); [|done].
  rewrite length_map in Hl. subst n. split_and!; [done|by rewrite Forall_map in Hok|].
  exists rest. by rewrite map_map.
Qed.

(** The decoded groups of blocks of a list of chunks. *)
Definition groups_of (cs : list Bytes) (counts : list nat) (bs : list L2Block) : Prop :=
  Forall block_shape bs ∧ Forall (λ b, fields_ok (context b)) bs ∧
  ∃ groups, bs = concat groups ∧ counts = map length groups ∧ Forall2 chunk_encodes cs groups.

Lemma groups_of_nil : groups_of [] [] [].
Proof. split_and!; [done|done|]. by exists []. Qed.

Lemma groups_of_cons chunk n cs bs chunks counts rest :
  Forall byte_ok chunk → (chunk_contexts chunk).1 = Ok (n, cs) →
  Forall block_shape bs → map context bs = cs → groups_of chunks counts rest →
  groups_of (chunk :: chunks) (n :: counts) (bs ++ rest).
Proof.
  intros Hb Hc Hs Hcs (Hs' & Hf' & groups & -> & -> & Hg).
  destruct (chunk_group chunk n cs bs Hb Hc Hcs) as (-> & Hf & He).
  split_and!; [by apply Forall_app|by apply Forall_app|].
  exists (bs :: groups). split_and!; [done|done|by constructor].
Qed.

Lemma decode_v1_chunks_inv chunks buf counts bs rest :
  Forall (Forall byte_ok) chunks → decode_v1_chunks chunks buf = (Ok (counts, bs), rest) →
  groups_of chunks counts bs.
Proof.
  intros Hb. revert buf counts bs rest. induction Hb as [|c chunks Hc _ IH]; intros buf counts bs rest Hp; simpl in Hp.
  { unfold ret in Hp. simplify_eq. apply groups_of_nil. }
  apply bind_Ok in Hp as ([n cs] & s1 & Hn & Hp). unfold lift in Hn. injection Hn as Hn <-.
  apply bind_Ok in Hp as (blocks & s2 & [Hs Hcs]%chunk_blocks_inv & Hp).
  apply bind_Ok in Hp as ([counts' bs'] & s3 & Hr%IH & Hp). unfold ret in Hp. simplify_eq.
  by eapply groups_of_cons.
Qed.

Lemma decode_v0_chunks_inv chunks counts bs :
  Forall (Forall byte_ok) chunks → decode_v0_chunks chunks = Ok (counts, bs) →
  groups_of chunks counts bs.
Proof.
  intros Hb. revert counts bs. induction Hb as [|c chunks Hc _ IH]; intros counts bs Hp; simpl in Hp.
  { simplify_eq. apply groups_of_nil. }
  inv_obind. destruct a as [n blocks]. inv_obind. destruct a as [counts' bs']. simplify_eq.
  match type of R with (?m).1 = _ => destruct m as [o s] eqn:Hn end. simpl in R. subst o.
  apply bind_Ok in Hn as ([n' cs] & s1 & Hn & Hp).
  apply bind_Ok in Hp as (blocks' & s2 & [Hs Hcs]%chunk_blocks_inv & Hp). unfold ret in Hp. simplify_eq.
  eapply groups_of_cons; [done|by rewrite Hn|done|done|by apply IH].
Qed.

Lemma groups_of_count chunks counts bs : groups_of chunks counts bs → sum_list counts = length bs.
Proof.
  intros (_ & _ & groups & -> & -> & _). induction groups as [|g groups IH]; [done|].
  simpl. rewrite length_app. by rewrite IH.
Qed.

(** ** The bytes of the inputs *)

Context `{!CodecBytes}.

Lemma heap_blob_bytes blob : Forall byte_ok blob → Forall byte_ok (heap_blob blob).
Proof.
  rewrite !Forall_lookup. intros Hb j x Hx. rewrite heap_blob_lookup in Hx. by eapply Hb.
Qed.

Lemma decompress_bytes data : Forall byte_ok data → Forall byte_ok (decompress_blob_data data).
Proof.
  intros Hd. unfold decompress_blob_data.
  assert (Forall byte_ok (ZSTD_MAGIC_NUMBER ++ data)) as Hz.
  { apply Forall_app. split; [|done]. repeat constructor; unfold byte_ok; lia. }
  assert (∀ bs, Some bs ∈ zstd_reads (ZSTD_MAGIC_NUMBER ++ data) → Forall byte_ok bs) as Hr
    by (intros bs; by apply zstd_bytes).
  induction (zstd_reads _) as [|[dst|] reads IH]; simpl; [constructor| |constructor].
  destruct (_ =? 0)%nat; [constructor|]. apply Forall_app. split; [apply Hr; by left|].
  apply IH. intros bs Hin. apply Hr. by right.
Qed.

(** The version, the parent header and the chunks of a commit are bytes. *)
Lemma try_decode_bytes calldata call :
  Forall byte_ok calldata → try_decode calldata = Some call →
  (∀ raw, parent_batch_header call = Some raw → byte_ok (call_version call) ∧ Forall byte_ok raw) ∧
  (∀ cs, chunks call = Some cs → Forall (Forall byte_ok) cs).
Proof.
  intros Hb. unfold try_decode. destruct (_ <? _)%nat; [done|].
  destruct (bool_decide _).
  { intros (c & (Hv & Hr & Hc)%commit_batch_bytes & ->)%fmap_Some; [|done].
    split; [by intros raw [= <-]|by intros cs [= <-]]. }
  destruct (bool_decide _).
  { intros (c & (Hv & Hr & Hc)%commit_batch_with_blob_proof_bytes & ->)%fmap_Some; [|done].
    split; [by intros raw [= <-]|by intros cs [= <-]]. }
  destruct (bool_decide _); [|done]. by intros (c & _ & ->)%fmap_Some.
Qed.

Lemma take_be_u64 buf z rest :
  Forall byte_ok buf → take_be (E := DecodingError) 8 buf = (Ok z, rest) → in_u64 z ∧ Forall byte_ok rest.
Proof. intros Hb (_ & Hz & ?)%take_be_inv; [|done]. split; [by apply u64_bytes|done]. Qed.

Lemma header_v0_popped buf h rest :
  Forall byte_ok buf → BatchHeaderV0_try_from_buf buf = (Ok h, rest) → in_u64 (h0_total_l1_message_popped h).
Proof. intros Hb Hp. unfold BatchHeaderV0_try_from_buf in Hp. inv_reads. by apply u64_bytes. Qed.
Lemma header_v1_popped buf h rest :
  Forall byte_ok buf → BatchHeaderV1_try_from_buf buf = (Ok h, rest) → in_u64 (h1_total_l1_message_popped h).
Proof. intros Hb Hp. unfold BatchHeaderV1_try_from_buf in Hp. inv_reads. by apply u64_bytes. Qed.
Lemma header_v3_popped buf h rest :
  Forall byte_ok buf → BatchHeaderV3_try_from_buf buf = (Ok h, rest) → in_u64 (h3_total_l1_message_popped h).
Proof. intros Hb Hp. unfold BatchHeaderV3_try_from_buf in Hp. inv_reads. by apply u64_bytes. Qed.

Lemma start_index_u64 raw i : Forall byte_ok raw → l1_message_start_index raw = Ok i → in_u64 i.
Proof.
  intros Hb. unfold l1_message_start_index.
  destruct (BatchHeader_try_from_buf raw) as [[h|?|] s] eqn:Hp; simpl; [|done..]. intros Hi.
  unfold BatchHeader_try_from_buf, bind at 1, get in Hp. destruct raw as [|v raw]; [done|].
  destruct (v =? 0); [|destruct (v <=? 2)];
    apply bind_Ok in Hp as (h' & s' & Hp & [= <- <-]); simpl in Hi; unfold expect in Hi; simplify_eq;
    [by eapply header_v0_popped|by eapply header_v1_popped|by eapply header_v3_popped].
Qed.

(** ** Versions 0 to 6 *)

(** A batch whose blocks are grouped as the chunks of its commit is well formed. *)
Lemma chunked_ok v calldata blob call cs raw start counts bs bm :
  get_codec_version calldata = Ok v → v < 7 →
  Forall byte_ok calldata → try_decode calldata = Some call → chunks call = Some cs →
  parent_batch_header call = Some raw → l1_message_start_index raw = Ok start →
  groups_of cs counts bs →
  decoded_ok calldata blob
    (mkBatch (call_version call) (Some counts) (mkPayloadData bs (InitialQueueIndex start) bm)).
Proof.
  intros Hver Hlt Hb Hcall Hcs Hraw Hstart Hg. pose proof (try_decode_bytes _ _ Hb Hcall) as [Hr _].
  destruct (Hr raw Hraw) as [Hv Hrb]. pose proof (groups_of_count _ _ _ Hg) as Hsum.
  destruct Hg as (Hs & Hf & groups & Hbs & Hcounts & He).
  unfold decoded_ok, batch_wf, widths_ok, as_encoded. split_and!; simpl; try done.
  - by eapply start_index_u64.
  - exists v. split_and!; [done..|]. by exists call, cs, groups.
Qed.

Lemma decode_chunks_in_blob_inv call off start cs buf b :
  Forall (Forall byte_ok) cs → decode_chunks_in_blob call off start cs buf = Ok b →
  ∃ counts bs bm, groups_of cs counts bs ∧
    b = mkBatch (call_version call) (Some counts) (mkPayloadData bs (InitialQueueIndex start) bm).
Proof.
  intros Hcs. unfold decode_chunks_in_blob. destruct (skip_chunk_table off buf) as [[]]; [|done..].
  destruct (skipped_l1_message_bitmap call) as [bm| |]; simpl; [|done..]. unfold decode_v1_chunk.
  destruct (decode_v1_chunks cs b0) as [[[counts bs]|?|] s] eqn:Hc; intros; simplify_eq/=.
  apply decode_v1_chunks_inv in Hc; [|done]. by exists counts, bs, bm.
Qed.

Lemma in_blob_ok v calldata blob call cs raw start off buf b :
  get_codec_version calldata = Ok v → v < 7 →
  Forall byte_ok calldata → try_decode calldata = Some call → chunks call = Some cs →
  parent_batch_header call = Some raw → l1_message_start_index raw = Ok start →
  decode_chunks_in_blob call off start cs buf = Ok b → decoded_ok calldata blob b.
Proof.
  intros Hver Hlt Hb Hcall Hcs Hraw Hstart Hd. pose proof (try_decode_bytes _ _ Hb Hcall) as [_ Hc].
  apply decode_chunks_in_blob_inv in Hd as (counts & bs & bm & Hg & ->); [|by apply Hc].
  by eapply chunked_ok.
Qed.

Lemma decode_v0_ok v calldata blob b :
  get_codec_version calldata = Ok v → v < 7 →
  Forall byte_ok calldata → decode_v0 calldata = Ok b → decoded_ok calldata blob b.
Proof.
  intros Hver Hlt Hb Hd. unfold decode_v0 in Hd. inv_obind. destruct a1 as [counts bs]. inv_obind. simplify_eq.
  pose proof (try_decode_bytes _ _ Hb R) as [_ Hc].
  eapply chunked_ok; [done..|]. apply decode_v0_chunks_inv; [by apply Hc|done].
Qed.

Lemma decode_v1_ok v calldata blob b :
  get_codec_version calldata = Ok v → v < 7 →
  Forall byte_ok calldata → decode_v1 calldata blob = Ok b → decoded_ok calldata (Some blob) b.
Proof. intros Hver Hlt Hb Hd. unfold decode_v1 in Hd. inv_obind. by eapply in_blob_ok. Qed.

Lemma decode_v2_ok v calldata blob b :
  get_codec_version calldata = Ok v → v < 7 →
  Forall byte_ok calldata → decode_v2 calldata blob = Ok b → decoded_ok calldata (Some blob) b.
Proof. intros Hver Hlt Hb Hd. unfold decode_v2 in Hd. inv_obind. by eapply in_blob_ok. Qed.

Lemma decode_v4_ok v calldata blob b :
  get_codec_version calldata = Ok v → v < 7 →
  Forall byte_ok calldata → decode_v4 calldata blob = Ok b → decoded_ok calldata (Some blob) b.
Proof.
  intros Hver Hlt Hb Hd. unfold decode_v4 in Hd. inv_obind. destruct (heap_blob blob); [done|]. by eapply in_blob_ok.
Qed.

(** ** Version 7 *)

Lemma v7_blocks_fields initial i cs buf bs rest :
  Forall (λ c, context_ok (BlockContext_from_v7 c 0)) cs → v7_blocks initial i cs buf = (Ok bs, rest) →
  Forall (λ b, fields_ok (context b)) bs.
Proof.
  intros Hcs. revert i buf bs. induction Hcs as [|c cs Hc _ IH]; intros i buf bs Hp; simpl in Hp; inv_reads.
  { done. }
  apply IH in R0. constructor; [|done]. split; [|exact Hc]. simpl.
  unfold in_u64, wrapping_add, u64_mod. apply Z.mod_pos_bound. lia.
Qed.

Lemma decode_v7_payload_ok buf p :
  Forall byte_ok buf → decode_v7_payload buf = Ok p →
  ∃ initial prev post rest,
    buf = encode_v7 initial p prev post ++ rest ∧ payload_wf initial p ∧ in_u64 initial ∧
    l1_message_queue_info p = Hashed prev post ∧ queue_info_ok (l1_message_queue_info p) ∧
    Forall (λ b, fields_ok (context b)) (pd_blocks p).
Proof.
  unfold decode_v7_payload. intros Hb Hd.
  destruct (decode_v7_payload_m buf) as [o rest] eqn:Hp. simpl in Hd. subst o.
  unfold decode_v7_payload_m in Hp. inv_reads.
  match goal with Hc : repeat_m _ BlockContextV7_try_from_buf ?b = (Ok ?l, _) |- _ =>
    assert (Forall (λ c, context_ok (BlockContext_from_v7 c 0)) l) as Hok by
      (eapply (repeat_m_Forall _ _ _ _ _ _ context_v7_fields); [|exact Hc]; done);
    apply (repeat_m_inv_bytes _ (λ c, encode_context_v7 (BlockContext_from_v7 c 0))) in Hc
      as (-> & Hn & _); [|apply context_v7_inv|done] end.
  match goal with Hv : v7_blocks _ _ _ _ = _ |- _ =>
    pose proof (v7_blocks_fields _ _ _ _ _ _ Hok Hv) as Hf;
    apply v7_blocks_inv in Hv as (-> & Hs & Hnum & He) end.
  pose proof (f_equal length He) as Hlen. rewrite !length_map, Hn in Hlen.
  eexists z2, z0, z1, _. split_and!; [|by split|by apply u64_bytes|done|by split|done].
  unfold encode_v7. simpl pd_blocks. rewrite He, Hlen, Z2Nat.id by lia. by rewrite <- !app_assoc.
Qed.

Lemma v7_envelope_inv (heap : Bytes) ver size c s :
  Forall byte_ok heap → v7_envelope heap = (Ok (ver, size, c), s) →
  byte_ok ver ∧ size = from_be (take 3 (drop 1 heap)) ∧ heap !! 4%nat = Some c.
Proof.
  intros Hb He. unfold v7_envelope in He. inv_reads.
  rewrite drop_app_length' by by rewrite length_be_bytes.
  rewrite take_app_length' by by rewrite length_be_bytes.
  rewrite from_be_be_bytes by done. split_and!; [done|done|].
  unfold Bytes. rewrite app_assoc, lookup_app_r by by rewrite length_app, !length_be_bytes.
  rewrite length_app, !length_be_bytes. cbn.
  change (256 ^ Z.of_nat 1) with 256 in *. change (256 ^ Z.of_nat 0) with 1.
  by rewrite Z.div_1_r, ?Z.mod_small.
Qed.

Lemma decode_v7_ok v calldata blob b :
  get_codec_version calldata = Ok v → 7 <= v →
  Forall byte_ok blob → decode_v7 blob = Ok b → decoded_ok calldata (Some blob) b.
Proof.
  intros Hver Hle Hb Hd. apply heap_blob_bytes in Hb. unfold decode_v7 in Hd. inv_obind.
  destruct a as [[ver size] c]. destruct (_ <? _)%nat; [done|].
  destruct (v7_envelope (heap_blob blob)) as [o s] eqn:He. simpl in R. subst o.
  destruct (v7_envelope_inv _ _ _ _ _ Hb He) as (Hv & Hsize & Hc).
  replace (if c =? 1 then _ else _) with (v7_payload blob) in Hd.
  2: { unfold v7_payload. by rewrite Hc, <- Hsize. }
  assert (Forall byte_ok (v7_payload blob)) as Hp.
  { unfold v7_payload. case_match; [apply decompress_bytes|]; by apply Forall_take, Forall_drop. }
  unfold decode_payload in Hd. destruct (decode_v7_payload (v7_payload blob)) as [p|?|] eqn:Hd'; simplify_eq/=.
  apply decode_v7_payload_ok in Hd' as (initial & prev & post & rest & He' & [Hs Hn] & Hi & Hq & Hqi & Hf); [|done].
  unfold decoded_ok, batch_wf, widths_ok, as_encoded. split_and!; simpl; try done.
  exists v. split_and!; [done..|]. by exists blob, initial, prev, post, rest.
Qed.

(** C32: every batch the decoder accepts, of any version, is well formed. Each block has the L2
    transactions its context counts, and the chunks, when there are chunks, partition the blocks.
    The version, the block numbers, the other fields of the contexts and the start of the L1 messages
    fit the widths of their types. The blocks are those the input encodes: up to version 6 each chunk
    of the calldata starts with the number of its blocks and, byte for byte, their contexts, numbers
    included; from version 7 on the payload of the blob, decompressed when its flag says so, starts
    with the encoding of the message queue hashes, the initial number and the blocks, which are
    numbered consecutively from it. *)
Theorem decode_wf calldata blob b :
  Forall byte_ok calldata → (∀ bl, blob = Some bl → Forall byte_ok bl) →
  decode calldata blob = Ok b → decoded_ok calldata blob b.
Proof.
  intros Hb Hbl Hd. unfold decode in Hd. inv_obind. rename a into v, R into Hv.
  repeat case_match; bool_to_prop; inv_obind; subst; try done;
    [eapply decode_v0_ok|eapply decode_v1_ok|eapply decode_v2_ok|eapply decode_v4_ok|eapply decode_v7_ok];
    by first [exact Hv|lia|auto].
Qed.
End Decoding.

(** ** Witnesses: a version 0 commit and a version 7 blob *)

Lemma byte_default (o : option Z) : (∀ b, o = Some b → byte_ok b) → byte_ok (default 0 o).
Proof. destruct o; simpl; [auto|]. intros _. unfold byte_ok. lia. Qed.

#[export] Instance toy_codec_bytes : CodecBytes (H := toy_libs).
Proof.
  split.
  - intros data bs Hd ->%list_elem_of_singleton%(inj Some). by apply Forall_drop.
  - intros data c Hd [= <-]. cbn [cb_version cb_parent_batch_header cb_chunks].
    split; [|split].
    + apply byte_default. intros b Hb. by eapply (Forall_lookup_1 byte_ok).
    + apply (Forall_replicate _ 89). unfold byte_ok. lia.
    + repeat constructor. by apply Forall_drop.
  - done.
Qed.

(** One block with one transaction, after the transaction's length. *)
Definition toy_v0_calldata : Bytes :=
  toy_calldata 0 ([1] ++ to_be_bytes (toy_context 5) ++ be_bytes 4 1 ++ [192]).
Definition toy_v0_batch : Batch :=
  mkBatch 0 (Some [1%nat])
    (mkPayloadData [mkL2Block [[192]] (toy_context 5)] (InitialQueueIndex 0) (Some [])).

Definition toy_v7_blob : Bytes :=
  toy_blob 10 ([7] ++ be_bytes 3 (Z.of_nat (length toy_v7_bytes)) ++ [0] ++ toy_v7_bytes).

Lemma decode_wf_witness :
  @decoded_ok toy_libs toy_v0_calldata None toy_v0_batch ∧
  @decoded_ok toy_libs (toy_calldata 7 []) (Some toy_v7_blob) (mkBatch 7 None (toy_payload 5)).
Proof.
  split; apply (@decode_wf toy_libs toy_codec_bytes); try done;
    try (by intros bl [= <-]; unfold byte_ok; apply (bool_decide_unpack _); vm_compute);
    try (unfold byte_ok; apply (bool_decide_unpack _); vm_compute; exact I);
    vm_compute; reflexivity.
Defined.
