(* ===== verification/DbModel.v ===== *)
(** * Database rows and state (crates/database/db/src/models, migration)

    The tables of the node's SQLite database as lists of rows, the conversions between rows and
    the node's types with their casts and panics, and the integrity invariant the migrations
    declare (keys, unique indexes, the foreign key from [l2_block] to [batch_commit]). *)

From Stdlib Require Import Ascii DecimalString DecimalPos DecimalN.
From S2P Require Import Prelude Sql Primitives.

(** ** Keys and errors *)

Inductive NotIncludedKey :=
| FinalizedWithBlockDepth (depth : Z)
| BlockDepth (depth : Z).

Inductive L1MessageKey :=
| QueueIndex (index : Z)
| QueueHash (h : B256)
| TransactionHash (h : B256)
| BlockNumber (n : Z)
| NotIncluded (k : NotIncludedKey).

Inductive DatabaseError :=
| DbErr (msg : string)
| SqlxError (msg : string)
| ParseSignatureError (msg : string)
| DbL1MessageNotFound (key : L1MessageKey)
| GenesisMismatch (configured stored : B256)
| GenesisMissing (configured : B256)
| GenesisAmbiguous (configured seeded : B256)
| CommitFailed
| RollbackFailed.

(** ** Decimal text: [u64::to_string] and [str::parse::<u64>]

    The parser accepts a leading plus sign, as Rust's does. *)

Definition u64_to_string (z : Z) : string := NilZero.string_of_uint (N.to_uint (Z.to_N z)).

Definition strip_plus (s : string) : string :=
  match s with String "+"%char s => s | _ => s end.

Definition parse_u64 (s : string) : option Z :=
  match NilZero.uint_of_string (strip_plus s) with
  | Some d => let z := Z.of_N (N.of_uint d) in if z <=? u64_max then Some z else None
  | None => None
  end.

Lemma to_uint_nonnil n : N.to_uint n ≠ Decimal.Nil.
Proof. destruct n; simpl; [done|]. apply DecimalPos.Unsigned.to_uint_nonnil. Qed.

Lemma strip_plus_digits d : strip_plus (NilZero.string_of_uint d) = NilZero.string_of_uint d.
Proof. by destruct d. Qed.

Lemma parse_u64_to_string z : in_u64 z → parse_u64 (u64_to_string z) = Some z.
Proof.
  unfold parse_u64, u64_to_string, in_u64, u64_max. intros Hz.
  rewrite strip_plus_digits, NilZero.usu by apply to_uint_nonnil.
  rewrite DecimalN.Unsigned.of_to, Z2N.id by lia.
  by rewrite (proj2 (Z.leb_le _ _)) by lia.
Qed.

Lemma parse_u64_range s n : parse_u64 s = Some n → in_u64 n.
Proof.
  unfold parse_u64, in_u64. destruct (NilZero.uint_of_string _) as [d|]; [|done]. cbv zeta.
  destruct (Z.leb_spec (Z.of_N (N.of_uint d)) u64_max) as [Hd|]; [|done]. intros [= <-].
  unfold u64_max in Hd. lia.
Qed.

(** ** Rows *)

Record BatchRow := mkBatchRow {
  br_index : Z;
  br_hash : B256;
  br_block_number : Z;
  br_block_timestamp : Z;
  br_calldata : Bytes;
  br_blob_hash : option B256;
  br_finalized_block_number : option Z;
  br_reverted_block_number : option Z;
  br_status : string
}.

Record L2Row := mkL2Row {
  lr_block_number : Z;
  lr_block_hash : B256;
  lr_batch_index : Z;
  lr_batch_hash : B256;
  lr_reverted : bool
}.

Record MsgRow := mkMsgRow {
  mr_queue_index : Z;
  mr_queue_hash : option B256;
  mr_hash : B256;
  mr_l1_block_number : Z;
  mr_gas_limit : string;
  mr_to : Address;
  mr_value : Z;
  mr_sender : Address;
  mr_input : Bytes;
  mr_l2_block_number : option Z;
  mr_skipped : bool
}.

#[global] Instance BatchRow_eq_dec : EqDecision BatchRow.
Proof. solve_decision. Defined.
#[global] Instance L2Row_eq_dec : EqDecision L2Row.
Proof. solve_decision. Defined.
#[global] Instance MsgRow_eq_dec : EqDecision MsgRow.
Proof. solve_decision. Defined.

(** ** The database *)

Record Db := mkDb {
  l1_block : gmap Z B256;
  batch_commit : list BatchRow;
  l2_block : list L2Row;
  l1_message : list MsgRow;
  metadata : gmap string string;
  block_signature : gmap B256 Signature
}.

Definition set_l1_block t (d : Db) : Db :=
  mkDb t (batch_commit d) (l2_block d) (l1_message d) (metadata d) (block_signature d).
Definition set_batch_commit t (d : Db) : Db :=
  mkDb (l1_block d) t (l2_block d) (l1_message d) (metadata d) (block_signature d).
Definition set_l2_block t (d : Db) : Db :=
  mkDb (l1_block d) (batch_commit d) t (l1_message d) (metadata d) (block_signature d).
Definition set_l1_message t (d : Db) : Db :=
  mkDb (l1_block d) (batch_commit d) (l2_block d) t (metadata d) (block_signature d).
Definition set_metadata t (d : Db) : Db :=
  mkDb (l1_block d) (batch_commit d) (l2_block d) (l1_message d) t (block_signature d).
Definition set_block_signature t (d : Db) : Db :=
  mkDb (l1_block d) (batch_commit d) (l2_block d) (l1_message d) (metadata d) t.

Definition DB (A : Type) : Type := M Db DatabaseError A.

(** The database as the migrations leave it: the genesis batch and block and the counters. *)
Definition genesis_batch_row : BatchRow :=
  {| br_index := 0; br_hash := 0; br_block_number := 0; br_block_timestamp := 0;
     br_calldata := []; br_blob_hash := None; br_finalized_block_number := Some 0;
     br_reverted_block_number := None; br_status := "finalized" |}.

Definition genesis_block_row (genesis_hash : B256) : L2Row :=
  {| lr_block_number := 0; lr_block_hash := genesis_hash; lr_batch_index := 0;
     lr_batch_hash := 0; lr_reverted := false |}.

Definition metadata_init : gmap string string :=
  <["l1_finalized_block" := "0"]> (<["l1_latest_block" := "0"]>
    (<["l2_head_block" := "0"]> {["l1_processed_block" := "0"]})).

Definition migrated (genesis_hash : B256) : Db :=
  {| l1_block := ∅; batch_commit := [genesis_batch_row];
     l2_block := [genesis_block_row genesis_hash]; l1_message := [];
     metadata := metadata_init; block_signature := ∅ |}.

(** ** Conversions *)

(** [From<BatchCommitData> for ActiveModel].  The [Unchanged(None)] columns are written as NULL by
    the insert statement. *)
Definition BatchRow_from {E} (b : BatchCommitData) : outcome E BatchRow :=
  obind (expect (try_i64 (bc_index b))) (λ index,
  obind (expect (try_i64 (bc_block_number b))) (λ bn,
  obind (expect (try_i64 (bc_block_timestamp b))) (λ ts,
  Ok {| br_index := index; br_hash := bc_hash b; br_block_number := bn;
        br_block_timestamp := ts; br_calldata := bc_calldata b;
        br_blob_hash := bc_blob_versioned_hash b; br_finalized_block_number := None;
        br_reverted_block_number := None; br_status := "committed" |}))).

Definition BatchCommitData_from_row (r : BatchRow) : BatchCommitData :=
  {| bc_hash := br_hash r; bc_index := as_u64 (br_index r);
     bc_block_number := as_u64 (br_block_number r);
     bc_block_timestamp := as_u64 (br_block_timestamp r); bc_calldata := br_calldata r;
     bc_blob_versioned_hash := br_blob_hash r;
     bc_finalized_block_number := as_u64 <$> br_finalized_block_number r;
     bc_reverted_block_number := as_u64 <$> br_reverted_block_number r |}.

Definition L2Row_from {E} (block : BlockInfo) (batch : BatchInfo) : outcome E L2Row :=
  obind (expect (try_i64 (number block))) (λ bn,
  obind (expect (try_i64 (b_index batch))) (λ index,
  Ok {| lr_block_number := bn; lr_block_hash := hash block; lr_batch_index := index;
        lr_batch_hash := b_hash batch; lr_reverted := false |})).

Definition row_block_info (r : L2Row) : BlockInfo :=
  {| number := as_u64 (lr_block_number r); hash := lr_block_hash r |}.
Definition row_batch_info (r : L2Row) : BatchInfo :=
  {| b_index := as_u64 (lr_batch_index r); b_hash := lr_batch_hash r |}.

Section Messages.
Context `{Chain}.

Definition MsgRow_from (m : L1MessageEnvelope) : MsgRow :=
  let t := transaction m in
  {| mr_queue_index := as_i64 (queue_index t); mr_queue_hash := queue_hash m;
     mr_hash := l1_tx_hash t; mr_l1_block_number := as_i64 (l1_block_number m);
     mr_gas_limit := u64_to_string (l1_gas_limit t); mr_to := l1_to t; mr_value := l1_value t;
     mr_sender := l1_sender t; mr_input := l1_input t;
     mr_l2_block_number := as_i64 <$> l2_block_number m; mr_skipped := false |}.

(** [From<Model> for L1MessageEnvelope]; a gas limit that is not a number panics. *)
Definition L1MessageEnvelope_from {E} (r : MsgRow) : outcome E L1MessageEnvelope :=
  obind (expect (parse_u64 (mr_gas_limit r))) (λ gas,
  Ok {| l1_block_number := as_u64 (mr_l1_block_number r);
        l2_block_number := as_u64 <$> mr_l2_block_number r; queue_hash := mr_queue_hash r;
        transaction :=
          {| queue_index := as_u64 (mr_queue_index r); l1_gas_limit := gas; l1_to := mr_to r;
             l1_value := mr_value r; l1_sender := mr_sender r; l1_input := mr_input r |} |}).

(** [map_l1_message_result]. *)
Fixpoint map_l1_message_result {E} (rows : list MsgRow) : outcome E (list L1MessageEnvelope) :=
  match rows with
  | [] => Ok []
  | r :: rows =>
      obind (L1MessageEnvelope_from r) (λ m,
      obind (map_l1_message_result rows) (λ ms, Ok (m :: ms)))
  end.

(** The ranges of Rust's types in an envelope. *)
Definition envelope_ok (m : L1MessageEnvelope) : Prop :=
  in_u64 (queue_index (transaction m)) ∧ in_u64 (l1_gas_limit (transaction m)) ∧
  in_u64 (l1_block_number m) ∧ (∀ n, l2_block_number m = Some n → in_u64 n).

Lemma fmap_as_u64_i64 o : (∀ n, o = Some n → in_u64 n) → as_u64 <$> (as_i64 <$> o) = o.
Proof. destruct o; simpl; intros; [|done]. by rewrite as_u64_as_i64 by auto. Qed.

(** an L1 message read back from its row is the message that was stored. *)
Theorem message_row_roundtrip E m :
  envelope_ok m → L1MessageEnvelope_from (E := E) (MsgRow_from m) = Ok m.
Proof.
  intros (? & ? & ? & ?). unfold L1MessageEnvelope_from, MsgRow_from. simpl.
  rewrite parse_u64_to_string by done. simpl.
  rewrite !as_u64_as_i64, fmap_as_u64_i64 by done. by destruct m as [[]].
Qed.
End Messages.

Lemma try_i64_as_u64 z i : 0 <= z → try_i64 z = Some i → as_u64 i = z.
Proof.
  unfold try_i64, i64_max. intros Hz. destruct (Z.leb_spec z (2 ^ 63 - 1)); intros; simplify_eq.
  apply as_u64_small. unfold in_u64. lia.
Qed.

(** a committed batch read back from its row is the batch that was stored, as a batch that is
    neither finalized nor reverted. *)
Theorem batch_row_roundtrip E b r :
  in_u64 (bc_index b) → in_u64 (bc_block_number b) → in_u64 (bc_block_timestamp b) →
  BatchRow_from (E := E) b = Ok r →
  br_status r = as_str Committed ∧
  BatchCommitData_from_row r =
    {| bc_hash := bc_hash b; bc_index := bc_index b; bc_block_number := bc_block_number b;
       bc_block_timestamp := bc_block_timestamp b; bc_calldata := bc_calldata b;
       bc_blob_versioned_hash := bc_blob_versioned_hash b;
       bc_finalized_block_number := None; bc_reverted_block_number := None |}.
Proof.
  unfold BatchRow_from, BatchCommitData_from_row, in_u64. intros [? _] [? _] [? _].
  destruct (try_i64 (bc_index b)) eqn:E1; simpl; [|done].
  destruct (try_i64 (bc_block_number b)) eqn:E2; simpl; [|done].
  destruct (try_i64 (bc_block_timestamp b)) eqn:E3; simpl; [|done].
  intros [= <-]. simpl.
  apply try_i64_as_u64 in E1, E2, E3; [|done..]. by rewrite E1, E2, E3.
Qed.

(** ** The integrity invariant *)

(** What the schema enforces: the unique keys of the tables that are lists, and of the L1 blocks the one
    on the hash; the keys of the maps are unique by construction.  A NULL queue hash is no duplicate. *)
Record schema_ok (d : Db) : Prop := {
  so_batch_key : NoDup (map br_hash (batch_commit d));
  so_block_key : NoDup (map (λ r, (lr_batch_hash r, lr_block_hash r)) (l2_block d));
  so_block_fk : ∀ r, r ∈ l2_block d → lr_batch_hash r ∈ map br_hash (batch_commit d);
  so_msg_key : NoDup (map mr_queue_index (l1_message d));
  so_msg_hash : NoDup (map mr_hash (l1_message d));
  so_msg_queue_hash : NoDup (omap mr_queue_hash (l1_message d));
  so_l1_block_hash : ∀ n1 n2 h, l1_block d !! n1 = Some h → l1_block d !! n2 = Some h → n1 = n2
}.

Lemma schema_ok_migrated g : schema_ok (migrated g).
Proof.
  split; simpl; try (by repeat constructor; try set_solver).
  all: try (apply NoDup_singleton || apply NoDup_nil_2).
  intros r Hr. apply list_elem_of_singleton in Hr as ->. simpl. set_solver.
Qed.
