(* ===== verification/DbOps.v ===== *)
(** * Database operations (crates/database/db/src/operations.rs)

    The read operations and the write operations of the node's database, one definition per
    method, in the order of the statements the method issues.  An operation is a computation in
    [DB]: it may fail with a [DatabaseError] or panic where the source does.  A statement
    fails where a key or reference of the schema refuses a row or a column does not fit the type it is
    read as; failures of the driver itself (I/O, busy database) are not produced here: the service layer
    of [DbService] covers them. *)

From S2P Require Import Prelude Sql Primitives DbModel.

(** [UnwindResult]. *)
Record UnwindResult := mkUnwindResult {
  ur_l1_block_number : Z;
  ur_queue_index : option Z;
  ur_l2_head_block_number : option Z;
  ur_l2_safe_block_info : option BlockInfo
}.

Section Ops.
Context `{SqlEngine} `{Chain}.

(** ** Reads *)

Definition get_batch_by_index (batch_index : Z) : DB (option BatchCommitData) :=
  let* index := lift (expect (try_i64 batch_index)) in
  let* d := get in
  ret (BatchCommitData_from_row <$>
         one (find (λ r, (br_index r =? index) && is_null (br_reverted_block_number r))
                   (batch_commit d))).

Definition get_batch_by_hash (batch_hash : B256) : DB (option BatchCommitData) :=
  let* d := get in
  ret (BatchCommitData_from_row <$>
         one (find (λ r, br_hash r =? batch_hash) (batch_commit d))).

(** [get_l1_block_info]: all rows by ascending block number. *)
Definition get_l1_block_info : DB (list BlockInfo) :=
  let* d := get in
  ret (map (λ '(n, h), {| number := as_u64 n; hash := h |})
           (order_by_asc (R := Z * B256) fst (scan (map_to_list (l1_block d))))).

Definition get_latest_indexed_event_l1_block_number : DB (option Z) :=
  let* d := get in
  let batches := find (λ r, 0 <? br_index r) (batch_commit d) in
  let latest_l1_message :=
    max_column (map (λ r, Some (mr_l1_block_number r)) (l1_message d)) in
  let max_block_number := max_column (map (λ r, Some (br_block_number r)) batches) in
  let max_finalized_block_number := max_column (map br_finalized_block_number batches) in
  let max_reverted_block_number := max_column (map br_reverted_block_number batches) in
  let latest_batch_event :=
    max_column [max_block_number; max_finalized_block_number; max_reverted_block_number] in
  ret (as_u64 <$> max_column [latest_l1_message; latest_batch_event]).

(** The four counters of the metadata table; a missing or malformed one panics. *)
Definition get_metadata (key : string) : DB Z :=
  let* d := get in
  let* value := lift (expect (metadata d !! key)) in
  lift (expect (parse_u64 value)).

Definition get_latest_l1_block_number : DB Z := get_metadata "l1_latest_block".
Definition get_finalized_l1_block_number : DB Z := get_metadata "l1_finalized_block".
Definition get_processed_l1_block_number : DB Z := get_metadata "l1_processed_block".
Definition get_l2_head_block_number : DB Z := get_metadata "l2_head_block".

(** The rows matching [p] by ascending queue index, at most [n] of them. *)
Definition select_messages (p : MsgRow → bool) (n : nat) : DB (list L1MessageEnvelope) :=
  let* d := get in
  lift (map_l1_message_result
          (take n (order_by_asc mr_queue_index (find p (l1_message d))))).

Definition not_included_upto (target : Z) (r : MsgRow) : bool :=
  (mr_l1_block_number r <=? as_i64 target) && is_null (mr_l2_block_number r) &&
  negb (mr_skipped r).

Definition get_n_l1_messages (start : option L1MessageKey) (n : nat) :
    DB (list L1MessageEnvelope) :=
  match start with
  | Some (QueueIndex queue_index) => select_messages (λ r, queue_index <=? mr_queue_index r) n
  | Some (TransactionHash h) =>
      let* d := get in
      let* record := lift (ok_or (DbL1MessageNotFound (TransactionHash h))
                             (one (find (λ r, mr_hash r =? h) (l1_message d)))) in
      select_messages (λ r, mr_queue_index record <=? mr_queue_index r) n
  | Some (QueueHash h) =>
      let* d := get in
      let* record := lift (ok_or (DbL1MessageNotFound (QueueHash h))
                             (one (find (λ r, is_not_null (mr_queue_hash r) &&
                                              null_eq (mr_queue_hash r) h) (l1_message d)))) in
      select_messages (λ r, mr_queue_index record <=? mr_queue_index r) n
  | Some (BlockNumber block_number) =>
      let* d := get in
      match one (order_by_desc2 (λ r, default 0 (mr_l2_block_number r)) mr_queue_index
                   (find (λ r, null_lt (mr_l2_block_number r) (as_i64 block_number))
                         (l1_message d))) with
      | Some record =>
          select_messages (λ r, (mr_queue_index record + 1 <=? mr_queue_index r) &&
                                negb (mr_skipped r)) n
      | None => select_messages (λ r, negb (mr_skipped r)) n
      end
  | Some (NotIncluded (FinalizedWithBlockDepth depth)) =>
      let* finalized_block_number := get_finalized_l1_block_number in
      match checked_sub finalized_block_number depth with
      | Some target => select_messages (not_included_upto target) n
      | None => ret []
      end
  | Some (NotIncluded (BlockDepth depth)) =>
      let* latest_block_number := get_latest_l1_block_number in
      match checked_sub latest_block_number depth with
      | Some target => select_messages (not_included_upto target) n
      | None => ret []
      end
  | None => select_messages (λ _, true) n
  end.

Definition get_l2_block_and_batch_info_by_hash (block_hash : B256) :
    DB (option (BlockInfo * BatchInfo)) :=
  let* d := get in
  ret ((λ r, (row_block_info r, row_batch_info r)) <$>
         one (find (λ r, lr_block_hash r =? block_hash) (l2_block d))).

Definition get_l2_block_info_by_number (block_number : Z) : DB (option BlockInfo) :=
  let* d := get in
  ret (row_block_info <$>
         one (find (λ r, lr_block_number r =? as_i64 block_number) (l2_block d))).

(** [batch_index] is never NULL in the schema, so the first filter selects every row. *)
Definition get_latest_safe_l2_info : DB (BlockInfo * BatchInfo) :=
  let* d := get in
  let* safe_block :=
    lift (expect (one (order_by_desc lr_block_number
                         (find (λ r, negb (lr_reverted r)) (l2_block d))))) in
  ret (row_block_info safe_block, row_batch_info safe_block).

Definition get_highest_block_for_batch_index (batch_index : Z) : DB (option BlockInfo) :=
  let* d := get in
  ret (row_block_info <$>
         one (order_by_desc lr_block_number
                (find (λ r, lr_batch_index r <=? batch_index) (l2_block d)))).

(** The index is read as an [i32]: the driver fails on one that does not fit. *)
Definition get_highest_block_for_batch_hash (batch_hash : B256) : DB (option BlockInfo) :=
  let* d := get in
  match one (find (λ r, br_hash r =? batch_hash) (batch_commit d)) with
  | Some batch =>
      let index := br_index batch in
      if (i32_min <=? index) && (index <=? i32_max) then get_highest_block_for_batch_index index
      else fail (DbErr "out of range integral type conversion attempted")
  | None => ret None
  end.

Definition get_signature (block_hash : B256) : DB (option Signature) :=
  let* d := get in ret (block_signature d !! block_hash).

(** ** Writes *)

(** [INSERT ... ON CONFLICT(block_number) DO UPDATE]: the hash of a row with the number is overwritten,
    and the statement fails when another number has the hash, which is unique. *)
Definition hash_taken (n : Z) (h : B256) (d : Db) : bool :=
  existsb (λ '(n', h'), negb (n' =? n) && (h' =? h)) (map_to_list (l1_block d)).
Definition upsert_l1_block (n : Z) (h : B256) : DB unit :=
  let* d := get in
  if hash_taken n h d then fail (DbErr "UNIQUE constraint failed: l1_block.block_hash")
  else modify (λ d, set_l1_block (<[n := h]> (l1_block d)) d).

Definition insert_l1_block_info (bi : BlockInfo) : DB unit :=
  let* finalized_l1_block_number := get_finalized_l1_block_number in
  if number bi <=? finalized_l1_block_number then ret tt else
  let* bn := lift (expect (try_i64 (number bi))) in
  upsert_l1_block bn (hash bi).

(** The rows of the numbers that are kept. *)
Definition filter_l1_blocks (keep : Z → Prop) `{∀ n, Decision (keep n)} : DB unit :=
  modify (λ d, set_l1_block (filter (λ '(n, _), keep n) (l1_block d)) d).

Definition remove_l1_block_info_leq (block_number : Z) : DB unit :=
  filter_l1_blocks (λ n, ¬ n <= as_i64 block_number).

Definition remove_l1_block_info_gt (block_number : Z) : DB unit :=
  filter_l1_blocks (λ n, ¬ as_i64 block_number < n).

(** [INSERT ... ON CONFLICT(hash) DO UPDATE]: the index, block, calldata, blob and finalization
    columns of an existing row are overwritten, its status and revert columns are kept. *)
Definition upsert_batch (new : BatchRow) (t : list BatchRow) : list BatchRow :=
  if is_in (br_hash new) (map br_hash t) then
    update_many (λ r, br_hash r =? br_hash new)
      (λ r, {| br_index := br_index new; br_hash := br_hash r;
               br_block_number := br_block_number new;
               br_block_timestamp := br_block_timestamp new;
               br_calldata := br_calldata new; br_blob_hash := br_blob_hash new;
               br_finalized_block_number := br_finalized_block_number new;
               br_reverted_block_number := br_reverted_block_number r;
               br_status := br_status r |}) t
  else t ++ [new].

Definition insert_batch (b : BatchCommitData) : DB unit :=
  let* row := lift (BatchRow_from b) in
  modify (λ d, set_batch_commit (upsert_batch row (batch_commit d)) d).

Definition set_finalized_col (v : option Z) (r : BatchRow) : BatchRow :=
  mkBatchRow (br_index r) (br_hash r) (br_block_number r) (br_block_timestamp r) (br_calldata r)
    (br_blob_hash r) v (br_reverted_block_number r) (br_status r).
Definition set_reverted_col (v : option Z) (r : BatchRow) : BatchRow :=
  mkBatchRow (br_index r) (br_hash r) (br_block_number r) (br_block_timestamp r) (br_calldata r)
    (br_blob_hash r) (br_finalized_block_number r) v (br_status r).
Definition set_status_col (v : BatchStatus) (r : BatchRow) : BatchRow :=
  mkBatchRow (br_index r) (br_hash r) (br_block_number r) (br_block_timestamp r) (br_calldata r)
    (br_blob_hash r) (br_finalized_block_number r) (br_reverted_block_number r) (as_str v).
Definition set_l2_reverted_col (v : bool) (r : L2Row) : L2Row :=
  mkL2Row (lr_block_number r) (lr_block_hash r) (lr_batch_index r) (lr_batch_hash r) v.

Definition update_batches (p : BatchRow → bool) (f : BatchRow → BatchRow) : DB unit :=
  modify (λ d, set_batch_commit (update_many p f (batch_commit d)) d).
Definition update_l2_blocks (p : L2Row → bool) (f : L2Row → L2Row) : DB unit :=
  modify (λ d, set_l2_block (update_many p f (l2_block d)) d).

Definition has_status (s : BatchStatus) (r : BatchRow) : bool := String.eqb (br_status r) (as_str s).

Definition delete_batch_finalization_gt_block_number (block_number : Z) : DB unit :=
  update_batches (λ r, null_gt (br_finalized_block_number r) (as_i64 block_number))
    (set_finalized_col None).

Definition set_batch_revert_block_number_for_batch_range
    (start_index end_index : Z) (bi : BlockInfo) : DB unit :=
  let* d := get in
  let batch_hashes :=
    map br_hash (find (λ r, (as_i64 start_index <=? br_index r) &&
                            (br_index r <=? as_i64 end_index) &&
                            is_null (br_reverted_block_number r)) (batch_commit d)) in
  update_batches (λ r, is_in (br_hash r) batch_hashes)
    (λ r, set_status_col Reverted (set_reverted_col (Some (as_i64 (number bi))) r)) ;;;
  update_l2_blocks (λ r, is_in (lr_batch_hash r) batch_hashes) (set_l2_reverted_col true).

Definition delete_batch_revert_gt_block_number (block_number : Z) : DB Z :=
  let* d := get in
  let batch_hashes :=
    map br_hash (find (λ r, null_gt (br_reverted_block_number r) (as_i64 block_number))
                      (batch_commit d)) in
  let num_batches := Z.of_nat (length batch_hashes) in
  update_batches (λ r, is_in (br_hash r) batch_hashes)
    (λ r, set_status_col Consolidated (set_reverted_col None r)) ;;;
  update_l2_blocks (λ r, is_in (lr_batch_hash r) batch_hashes) (set_l2_reverted_col false) ;;;
  ret num_batches.

Definition change_batch_processing_to_committed_status : DB unit :=
  update_batches (has_status Processing) (set_status_col Committed).

Definition update_batch_status (batch_hash : B256) (s : BatchStatus) : DB unit :=
  update_batches (λ r, br_hash r =? batch_hash) (set_status_col s).

Definition transition_batch_status (batch_hash : B256) (from to : BatchStatus) : DB bool :=
  let p := λ r, (br_hash r =? batch_hash) && has_status from r in
  let* d := get in
  let affected := rows_affected p (batch_commit d) in
  update_batches p (set_status_col to) ;;;
  ret (affected =? 1).

Definition finalize_batches_up_to_index (batch_index block_number : Z) : DB unit :=
  update_batches
    (λ r, (br_index r <=? batch_index) && is_null (br_finalized_block_number r) &&
          is_null (br_reverted_block_number r))
    (set_finalized_col (Some (as_i64 block_number))).

Definition put_metadata (key : string) (v : Z) : DB unit :=
  modify (λ d, set_metadata (<[key := u64_to_string v]> (metadata d)) d).

Definition set_latest_l1_block_number (n : Z) : DB unit := put_metadata "l1_latest_block" n.
Definition set_finalized_l1_block_number (n : Z) : DB unit :=
  remove_l1_block_info_leq n ;;; put_metadata "l1_finalized_block" n.
Definition set_processed_l1_block_number (n : Z) : DB unit := put_metadata "l1_processed_block" n.
Definition set_l2_head_block_number (n : Z) : DB unit := put_metadata "l2_head_block" n.

Definition finalize_consolidated_batches (finalized_l1_block_number : Z) :
    DB (option BlockInfo) :=
  let p := λ r, is_not_null (br_finalized_block_number r) &&
                null_lte (br_finalized_block_number r) finalized_l1_block_number &&
                has_status Consolidated r in
  let* d := get in
  match one (order_by_desc br_index (find p (batch_commit d))) with
  | Some batch =>
      let* finalized_block_info :=
        lift (expect (row_block_info <$>
                        one (order_by_desc lr_block_number
                               (find (λ r, lr_batch_hash r =? br_hash batch) (l2_block d))))) in
      update_batches p (set_status_col Finalized) ;;;
      ret (Some finalized_block_info)
  | None => ret None
  end.

(** The common body of the two [fetch_and_update_unprocessed_*] methods. *)
Definition fetch_and_update (conditions : BatchRow → bool) : DB (list BatchInfo) :=
  let* d := get in
  let batches :=
    map (λ r, {| b_index := as_u64 (br_index r); b_hash := br_hash r |})
        (order_by_asc br_index (find conditions (batch_commit d))) in
  update_batches conditions (set_status_col Processing) ;;;
  ret batches.

Definition fetch_and_update_unprocessed_finalized_batches (finalized_l1_block_number : Z) :
    DB (list BatchInfo) :=
  fetch_and_update
    (λ r, is_not_null (br_finalized_block_number r) &&
          null_lte (br_finalized_block_number r) finalized_l1_block_number &&
          has_status Committed r).

Definition fetch_and_update_unprocessed_committed_batches : DB (list BatchInfo) :=
  fetch_and_update (has_status Committed).

(** [DELETE FROM batch_commit]: the foreign key of [l2_block] cascades. *)
Definition delete_batches (p : BatchRow → bool) : DB Z :=
  let* d := get in
  let removed := map br_hash (List.filter p (batch_commit d)) in
  modify (λ d, set_batch_commit (delete_many p (batch_commit d)) d) ;;;
  modify (λ d, set_l2_block (delete_many (λ r, is_in (lr_batch_hash r) removed) (l2_block d)) d) ;;;
  ret (rows_affected p (batch_commit d)).

Definition delete_batches_gt_block_number (block_number : Z) : DB Z :=
  delete_batches (λ r, as_i64 block_number <? br_block_number r).
Definition delete_batches_gt_batch_index (batch_index : Z) : DB Z :=
  delete_batches (λ r, as_i64 batch_index <? br_index r).

(** [INSERT ... ON CONFLICT DO NOTHING]: any unique column of an existing row blocks the insert. *)
Definition msg_conflicts (new r : MsgRow) : bool :=
  (mr_queue_index r =? mr_queue_index new) || (mr_hash r =? mr_hash new) ||
  match mr_queue_hash new with Some h => null_eq (mr_queue_hash r) h | None => false end.

Definition insert_l1_message (m : L1MessageEnvelope) : DB unit :=
  let row := MsgRow_from m in
  modify (λ d, if existsb (msg_conflicts row) (l1_message d) then d
               else set_l1_message (l1_message d ++ [row]) d).

Definition set_skipped_col (r : MsgRow) : MsgRow :=
  mkMsgRow (mr_queue_index r) (mr_queue_hash r) (mr_hash r) (mr_l1_block_number r)
    (mr_gas_limit r) (mr_to r) (mr_value r) (mr_sender r) (mr_input r) (mr_l2_block_number r) true.
Definition set_l2_block_number_col (v : option Z) (r : MsgRow) : MsgRow :=
  mkMsgRow (mr_queue_index r) (mr_queue_hash r) (mr_hash r) (mr_l1_block_number r)
    (mr_gas_limit r) (mr_to r) (mr_value r) (mr_sender r) (mr_input r) v (mr_skipped r).

Definition update_messages (p : MsgRow → bool) (f : MsgRow → MsgRow) : DB unit :=
  modify (λ d, set_l1_message (update_many p f (l1_message d)) d).

Definition update_skipped_l1_messages (indexes : list Z) : DB unit :=
  update_messages (λ r, is_in (mr_queue_index r) (map as_i64 indexes)) set_skipped_col.

Definition delete_l1_messages_gt (l1_block_number : Z) : DB (list L1MessageEnvelope) :=
  let p := λ r, as_i64 l1_block_number <? mr_l1_block_number r in
  let* d := get in
  let removed_messages := find p (l1_message d) in
  modify (λ d, set_l1_message (delete_many p (l1_message d)) d) ;;;
  lift (map_l1_message_result removed_messages).

Definition prepare_l1_watcher_start_info : DB L1BlockStartupInfo :=
  change_batch_processing_to_committed_status ;;;
  let* l1_block_infos := get_l1_block_info in
  let* latest_l1_block_info := get_latest_indexed_event_l1_block_number in
  ret (L1BlockStartupInfo_new l1_block_infos latest_l1_block_info).

Definition delete_l2_blocks (p : L2Row → bool) : DB Z :=
  let* d := get in
  modify (λ d, set_l2_block (delete_many p (l2_block d)) d) ;;;
  ret (rows_affected p (l2_block d)).

Definition delete_l2_blocks_gt_block_number (block_number : Z) : DB Z :=
  delete_l2_blocks (λ r, as_i64 block_number <? lr_block_number r).
Definition delete_l2_blocks_gt_batch_index (batch_index : Z) : DB Z :=
  delete_l2_blocks (λ r, as_i64 batch_index <? lr_batch_index r).

(** One row of [INSERT ... ON CONFLICT(block_hash, batch_hash) DO UPDATE]. *)
Definition same_block_key (new r : L2Row) : bool :=
  (lr_block_hash r =? lr_block_hash new) && (lr_batch_hash r =? lr_batch_hash new).
Definition upsert_block (t : list L2Row) (new : L2Row) : list L2Row :=
  if existsb (same_block_key new) t then
    update_many (same_block_key new)
      (λ r, mkL2Row (lr_block_number new) (lr_block_hash r) (lr_batch_index new)
              (lr_batch_hash r) (lr_reverted r)) t
  else t ++ [new].

Fixpoint L2Rows_from {E} (blocks : list BlockInfo) (batch : BatchInfo) : outcome E (list L2Row) :=
  match blocks with
  | [] => Ok []
  | b :: blocks =>
      obind (L2Row_from b batch) (λ r,
      obind (L2Rows_from blocks batch) (λ rs, Ok (r :: rs)))
  end.

Definition insert_blocks (blocks : list BlockInfo) (batch : BatchInfo) : DB unit :=
  let* rows := lift (L2Rows_from blocks batch) in
  let* d := get in
  if negb (bool_decide (rows = [])) && negb (is_in (b_hash batch) (map br_hash (batch_commit d)))
  then fail (DbErr "FOREIGN KEY constraint failed")
  else modify (λ d, set_l2_block (foldl upsert_block (l2_block d) rows) d).

Definition insert_genesis_block (genesis_hash : B256) : DB unit :=
  insert_blocks [{| number := 0; hash := genesis_hash |}] {| b_index := 0; b_hash := 0 |}.

Definition delete_mismatched_genesis_blocks (genesis_hash : B256) : DB Z :=
  delete_l2_blocks (λ r, (lr_block_number r =? 0) && negb (lr_block_hash r =? genesis_hash)).

Definition reconcile_genesis_block (genesis_hash seeded_genesis : B256) : DB Z :=
  let* d := get in
  let stored_genesis_hashes :=
    map lr_block_hash (find (λ r, lr_block_number r =? 0) (l2_block d)) in
  match List.find (λ h, negb (h =? genesis_hash) && negb (h =? seeded_genesis))
          stored_genesis_hashes with
  | Some foreign => fail (GenesisMismatch genesis_hash foreign)
  | None =>
      let rows_above_genesis :=
        match one (find (λ r, 0 <? lr_block_number r) (l2_block d)) with
        | Some _ => true | None => false end in
      let* head := get_l2_head_block_number in
      if (0 <? head) || rows_above_genesis then
        if bool_decide (stored_genesis_hashes = []) then fail (GenesisMissing genesis_hash)
        else if negb (existsb (Z.eqb genesis_hash) stored_genesis_hashes) then
          fail (GenesisAmbiguous genesis_hash seeded_genesis)
        else delete_mismatched_genesis_blocks genesis_hash
      else
        let* removed := delete_mismatched_genesis_blocks genesis_hash in
        insert_genesis_block genesis_hash ;;;
        ret removed
  end.

Definition purge_l1_message_to_l2_block_mappings (block_number : option Z) : DB unit :=
  match block_number with
  | Some block_number =>
      update_messages (λ r, null_gte (mr_l2_block_number r) (as_i64 block_number))
        (set_l2_block_number_col None)
  | None =>
      let* safe := get_latest_safe_l2_info in
      update_messages (λ r, null_gt (mr_l2_block_number r) (as_i64 (number (fst safe))))
        (set_l2_block_number_col None)
  end.

(** The [CASE] of the bulk update: the number of the first block that includes the hash. *)
Fixpoint case_block (blocks : list L2BlockInfoWithL1Messages) (h : B256) : option Z :=
  match blocks with
  | [] => None
  | b :: blocks =>
      if is_in h (l1_messages b) then Some (as_i64 (number (block_info b)))
      else case_block blocks h
  end.

Definition update_l1_messages_with_l2_blocks (blocks : list L2BlockInfoWithL1Messages) : DB unit :=
  let all_hashes := concat (map l1_messages blocks) in
  if bool_decide (all_hashes = []) then ret tt else
  update_messages (λ r, is_in (mr_hash r) all_hashes)
    (λ r, set_l2_block_number_col (case_block blocks (mr_hash r)) r).

Definition update_l1_messages_from_l2_blocks (blocks : list L2BlockInfoWithL1Messages) : DB unit :=
  purge_l1_message_to_l2_block_mappings
    ((λ b, number (block_info b)) <$> head blocks) ;;;
  update_l1_messages_with_l2_blocks blocks.

Definition insert_batch_consolidation_outcome (outcome : BatchConsolidationOutcome) : DB unit :=
  let* head := lift (updated_l2_head outcome) in
  match head with
  | Some bi => set_l2_head_block_number (number bi)
  | None => ret tt
  end ;;;
  insert_blocks (map block_info (blocks outcome)) (batch_info outcome) ;;;
  update_l1_messages_with_l2_blocks (blocks outcome) ;;;
  update_skipped_l1_messages (skipped_l1_messages outcome) ;;;
  update_batch_status (b_hash (batch_info outcome)) (target_status outcome).

Definition executed (m : L1MessageEnvelope) : bool :=
  match l2_block_number m with Some _ => true | None => false end.

Definition unwind (l1_block_number : Z) : DB UnwindResult :=
  set_latest_l1_block_number l1_block_number ;;;
  remove_l1_block_info_gt l1_block_number ;;;
  let* batches_removed := delete_batches_gt_block_number l1_block_number in
  let* deleted_messages := delete_l1_messages_gt l1_block_number in
  delete_batch_finalization_gt_block_number l1_block_number ;;;
  let* batch_reverts_removed := delete_batch_revert_gt_block_number l1_block_number in
  let removed_executed_l1_messages :=
    order_by_asc (λ m, queue_index (transaction m)) (List.filter executed deleted_messages) in
  let* (queue_idx, l2_head_block_number) :=
    match head removed_executed_l1_messages with
    | Some msg =>
        let* n := lift (expect (l2_block_number msg)) in
        ret (Some (queue_index (transaction msg)), Some (saturating_sub n 1))
    | None => ret (None, None)
    end in
  let* l2_safe_block_info :=
    if (0 <? batches_removed) || (0 <? batch_reverts_removed) then
      let* safe := get_latest_safe_l2_info in ret (Some (fst safe))
    else ret None in
  match l2_head_block_number with
  | Some block_number =>
      purge_l1_message_to_l2_block_mappings (Some (saturating_add block_number 1)) ;;;
      set_l2_head_block_number block_number
  | None => ret tt
  end ;;;
  ret {| ur_l1_block_number := l1_block_number; ur_queue_index := queue_idx;
         ur_l2_head_block_number := l2_head_block_number;
         ur_l2_safe_block_info := l2_safe_block_info |}.

Definition insert_signatures (signatures : list (B256 * Signature)) : DB unit :=
  modify (λ d, set_block_signature
                 (foldl (λ m '(h, s), <[h := s]> m) (block_signature d) signatures) d).

Definition insert_signature (block_hash : B256) (signature : Signature) : DB unit :=
  modify (λ d, set_block_signature (<[block_hash := signature]> (block_signature d)) d).
End Ops.

#[global] Arguments get_n_l1_messages : simpl never.
