(* ===== verification/DbInvariant.v ===== *)
(** * The integrity invariant of the database

    [DbClosed] says which primitive statements an invariant of the database survives; every operation
    of [DbOps] then keeps it.  The integrity the schema declares is one such invariant: the keys of
    the tables stay unique and every L2 block belongs to a batch that exists.  The step relation
    [db_step] runs any write operation; integrity holds in every database reachable from a migrated
    one. *)

From S2P Require Import Prelude Sql Primitives DbModel DbOps.

Section Lists.
Context {R K : Type} `{EqDecision K}.
Implicit Types (key : R → K) (t : list R).

Lemma map_update_many key p f t :
  (∀ r, p r = true → key (f r) = key r) → map key (update_many p f t) = map key t.
Proof.
  intros Hf. unfold update_many. rewrite map_map. apply map_ext. intros r.
  destruct (p r) eqn:E; auto.
Qed.

Lemma elem_of_map_filter key p t k :
  k ∈ map key (List.filter p t) → ∃ r, r ∈ t ∧ p r = true ∧ key r = k.
Proof.
  rewrite list_elem_of_In, in_map_iff. intros (r & <- & Hr).
  apply list_elem_of_In, elem_of_where in Hr as []. eauto.
Qed.

Lemma elem_of_map key t k : k ∈ map key t ↔ ∃ r, r ∈ t ∧ key r = k.
Proof.
  rewrite list_elem_of_In, in_map_iff. split; intros (r & ? & ?); exists r;
    rewrite ?list_elem_of_In in *; done.
Qed.

Lemma NoDup_map_filter key p t : NoDup (map key t) → NoDup (map key (List.filter p t)).
Proof.
  induction t as [|r t IH]; simpl; [done|]. rewrite NoDup_cons. intros [Hr Ht].
  destruct (p r); simpl; [|by apply IH]. apply NoDup_cons. split; [|by apply IH].
  intros (r' & ? & _ & Hk)%elem_of_map_filter. apply Hr. rewrite elem_of_map. eauto.
Qed.

Lemma NoDup_map_snoc key t r :
  NoDup (map key t) → key r ∉ map key t → NoDup (map key (t ++ [r])).
Proof.
  intros Ht Hr. rewrite map_app. simpl. apply NoDup_app. split_and!; [done| |apply NoDup_singleton].
  intros k Hk ->%list_elem_of_singleton. done.
Qed.

(** A key that may be NULL. *)
Lemma omap_map_id {L} (key : R → option L) t : omap key t = omap (λ o, o) (map key t).
Proof. induction t as [|r t IH]; [done|]. simpl. destruct (key r); [f_equal|]; exact IH. Qed.

Lemma NoDup_omap_filter {L} (key : R → option L) p t : NoDup (omap key t) → NoDup (omap key (List.filter p t)).
Proof.
  induction t as [|r t IH]; simpl; [done|]. destruct (key r) as [k|] eqn:E.
  - rewrite NoDup_cons. intros [Hk Ht]. destruct (p r); simpl; [|by apply IH]. rewrite E. apply NoDup_cons.
    split; [|by apply IH]. intros (r' & Hr' & Hk')%list_elem_of_omap. apply Hk, list_elem_of_omap.
    exists r'. split; [|done]. by apply elem_of_where in Hr' as [].
  - intros Ht. destruct (p r); simpl; [rewrite E|]; by apply IH.
Qed.

(** With a unique key, a row is determined by it. *)
Lemma NoDup_map_inj key t r1 r2 :
  NoDup (map key t) → r1 ∈ t → r2 ∈ t → key r1 = key r2 → r1 = r2.
Proof.
  induction t as [|r t IH]; simpl; [by intros _ ?%not_elem_of_nil|].
  rewrite NoDup_cons, !elem_of_cons. intros [Hr Ht] [->|H1] [->|H2] Hk; auto.
  - exfalso. apply Hr. rewrite elem_of_map, Hk. eauto.
  - exfalso. apply Hr. rewrite elem_of_map, <- Hk. eauto.
Qed.
End Lists.

Section Closed.
Context `{SqlEngine} `{Chain}.

(** The columns of a row that L1 determines. *)
Definition batch_cols (r : BatchRow) :=
  (br_index r, br_hash r, br_block_number r, br_block_timestamp r, br_calldata r, br_blob_hash r).
Definition message_cols (r : MsgRow) :=
  (mr_queue_index r, mr_queue_hash r, mr_hash r, mr_l1_block_number r, mr_gas_limit r, mr_to r,
   mr_value r, mr_sender r, mr_input r).

(** An invariant that the primitive statements keep, when the batches and messages they insert are
    the ones it allows. *)
Class DbClosed (I : Db → Prop) := {
  from_batch : BatchCommitData → Prop;
  from_message : L1MessageEnvelope → Prop;
  update_batches_ok p f :
    (∀ r, batch_cols (f r) = batch_cols r) → preserves I (update_batches p f);
  update_l2_blocks_ok p f :
    (∀ r, (lr_batch_hash (f r), lr_block_hash (f r)) = (lr_batch_hash r, lr_block_hash r)) →
    preserves I (update_l2_blocks p f);
  update_messages_ok p f :
    (∀ r, message_cols (f r) = message_cols r) → preserves I (update_messages p f);
  put_metadata_ok k v : preserves I (put_metadata k v);
  upsert_l1_block_ok n h : preserves I (upsert_l1_block n h);
  filter_l1_blocks_ok (keep : Z → Prop) (dec : ∀ n, Decision (keep n)) :
    preserves I (@filter_l1_blocks keep dec);
  set_block_signature_ok f : preserves I (modify (λ d, set_block_signature (f d) d) : DB unit);
  insert_batch_ok b : from_batch b → preserves I (insert_batch b);
  delete_batches_ok p : preserves I (delete_batches p);
  delete_l2_blocks_ok p : preserves I (delete_l2_blocks p);
  insert_l1_message_ok m : from_message m → preserves I (insert_l1_message m);
  delete_l1_messages_gt_ok n : preserves I (delete_l1_messages_gt n);
  insert_blocks_ok bs batch : preserves I (insert_blocks bs batch)
}.

(** A computation that keeps the database. *)
Definition reads {A} (m : DB A) : Prop := ∀ d, (m d).2 = d.

Context {I : Db → Prop} `{!DbClosed I}.

Lemma reads_ok {A} (m : DB A) : reads m → preserves I m.
Proof. intros Hm d Hd. by rewrite Hm. Qed.

Lemma preserves_get {S E} (P : S → Prop) : preserves P (get : M S E S).
Proof. by intros s. Qed.

Hint Resolve preserves_get update_batches_ok update_l2_blocks_ok update_messages_ok
  put_metadata_ok upsert_l1_block_ok set_block_signature_ok : node.

Lemma get_metadata_reads k : reads (get_metadata k).
Proof.
  intros d. unfold get_metadata, bind, get, lift. simpl.
  destruct (metadata d !! k) as [v|]; simpl; [|done]. by destruct (parse_u64 v).
Qed.

Lemma get_latest_safe_reads : reads get_latest_safe_l2_info.
Proof.
  intros d. unfold get_latest_safe_l2_info, bind, get, lift. simpl.
  by destruct (expect _).
Qed.

Hint Resolve get_metadata_reads get_latest_safe_reads reads_ok : node.

Ltac solve_pres :=
  repeat first
    [ progress intros
    | solve [eauto 3 with node]
    | match goal with
      | |- preserves _ (bind _ _) => apply preserves_bind
      | |- preserves _ (update_batches _ _) => apply update_batches_ok; solve [auto]
      | |- preserves _ (update_l2_blocks _ _) => apply update_l2_blocks_ok; solve [auto]
      | |- preserves _ (update_messages _ _) => apply update_messages_ok; solve [auto]
      | |- preserves _ (match ?x with _ => _ end) => destruct x
      end ].

Lemma insert_l1_block_info_ok bi : preserves I (insert_l1_block_info bi).
Proof. unfold insert_l1_block_info, get_finalized_l1_block_number. solve_pres. Qed.

Lemma remove_l1_block_info_leq_ok n : preserves I (remove_l1_block_info_leq n).
Proof. apply filter_l1_blocks_ok. Qed.
Lemma remove_l1_block_info_gt_ok n : preserves I (remove_l1_block_info_gt n).
Proof. apply filter_l1_blocks_ok. Qed.

Hint Resolve insert_l1_block_info_ok remove_l1_block_info_leq_ok remove_l1_block_info_gt_ok
  insert_batch_ok delete_batches_ok delete_l2_blocks_ok insert_l1_message_ok
  delete_l1_messages_gt_ok insert_blocks_ok : node.

Lemma delete_finalization_ok n : preserves I (delete_batch_finalization_gt_block_number n).
Proof. by apply update_batches_ok. Qed.

Lemma set_revert_ok i j bi : preserves I (set_batch_revert_block_number_for_batch_range i j bi).
Proof. unfold set_batch_revert_block_number_for_batch_range. solve_pres. Qed.

Lemma delete_revert_ok n : preserves I (delete_batch_revert_gt_block_number n).
Proof. unfold delete_batch_revert_gt_block_number. solve_pres. Qed.

Lemma fetch_and_update_ok p : preserves I (fetch_and_update p).
Proof. unfold fetch_and_update. solve_pres. Qed.

Lemma finalize_consolidated_ok n : preserves I (finalize_consolidated_batches n).
Proof. unfold finalize_consolidated_batches. solve_pres. Qed.

Lemma transition_ok h a b : preserves I (transition_batch_status h a b).
Proof. unfold transition_batch_status. solve_pres. Qed.

Lemma update_status_ok h s : preserves I (update_batch_status h s).
Proof. by apply update_batches_ok. Qed.

Lemma finalize_upto_ok i n : preserves I (finalize_batches_up_to_index i n).
Proof. by apply update_batches_ok. Qed.

Lemma set_finalized_number_ok n : preserves I (set_finalized_l1_block_number n).
Proof. unfold set_finalized_l1_block_number. solve_pres. Qed.

Lemma update_skipped_ok l : preserves I (update_skipped_l1_messages l).
Proof. by apply update_messages_ok. Qed.

Lemma purge_ok n : preserves I (purge_l1_message_to_l2_block_mappings n).
Proof. unfold purge_l1_message_to_l2_block_mappings. solve_pres. Qed.

Lemma update_with_blocks_ok bs : preserves I (update_l1_messages_with_l2_blocks bs).
Proof. unfold update_l1_messages_with_l2_blocks. solve_pres. Qed.

Hint Resolve delete_finalization_ok set_revert_ok delete_revert_ok fetch_and_update_ok
  finalize_consolidated_ok transition_ok update_status_ok finalize_upto_ok
  set_finalized_number_ok update_skipped_ok purge_ok update_with_blocks_ok : node.

Lemma update_from_blocks_ok bs : preserves I (update_l1_messages_from_l2_blocks bs).
Proof. unfold update_l1_messages_from_l2_blocks. solve_pres. Qed.

Lemma insert_outcome_ok o : preserves I (insert_batch_consolidation_outcome o).
Proof. unfold insert_batch_consolidation_outcome, set_l2_head_block_number. solve_pres. Qed.

Lemma prepare_start_ok : preserves I prepare_l1_watcher_start_info.
Proof.
  unfold prepare_l1_watcher_start_info, change_batch_processing_to_committed_status,
    get_l1_block_info, get_latest_indexed_event_l1_block_number. solve_pres.
Qed.

Lemma reconcile_genesis_ok g s : preserves I (reconcile_genesis_block g s).
Proof.
  unfold reconcile_genesis_block, delete_mismatched_genesis_blocks, insert_genesis_block,
    get_l2_head_block_number. solve_pres.
Qed.

Lemma unwind_ok n : preserves I (unwind n).
Proof.
  unfold unwind, set_latest_l1_block_number, set_l2_head_block_number,
    delete_batches_gt_block_number. solve_pres.
Qed.

Hint Resolve update_from_blocks_ok insert_outcome_ok prepare_start_ok reconcile_genesis_ok
  unwind_ok : node.


Lemma get_n_l1_messages_state key n : reads (get_n_l1_messages key n).
Proof.
  intros d.
  unfold get_n_l1_messages, get_finalized_l1_block_number, get_latest_l1_block_number, get_metadata.
  destruct key as [[| | | |[]]|]; unfold bind, get, lift; try done;
    repeat (case_match; simplify_eq/=; try done).
Qed.

Lemma get_batch_by_index_state i : reads (get_batch_by_index i).
Proof.
  intros d. unfold get_batch_by_index, bind, lift, get, expect. by destruct (try_i64 i).
Qed.

Lemma insert_signature_ok h s : preserves I (insert_signature h s).
Proof. apply set_block_signature_ok. Qed.
End Closed.


#[export] Hint Resolve preserves_get put_metadata_ok get_metadata_reads get_latest_safe_reads reads_ok
  insert_l1_block_info_ok remove_l1_block_info_leq_ok remove_l1_block_info_gt_ok insert_batch_ok
  delete_batches_ok delete_l2_blocks_ok insert_l1_message_ok delete_l1_messages_gt_ok
  insert_blocks_ok delete_finalization_ok set_revert_ok delete_revert_ok fetch_and_update_ok
  finalize_consolidated_ok transition_ok update_status_ok finalize_upto_ok set_finalized_number_ok
  update_skipped_ok purge_ok update_with_blocks_ok update_from_blocks_ok insert_outcome_ok
  prepare_start_ok reconcile_genesis_ok unwind_ok get_n_l1_messages_state get_batch_by_index_state
  insert_signature_ok : node.

#[export] Hint Extern 0 (DbClosed _) => typeclasses eauto : node.
(** The invariants that allow everything, as the schema does. *)
#[export] Hint Extern 0 (from_batch _) => exact Logic.I : node.
#[export] Hint Extern 0 (from_message _) => exact Logic.I : node.

(** ** The integrity of the schema *)

Section Schema.
Context `{SqlEngine} `{Chain}.

(** Statements on tables the schema constrains through their keys only. *)
Lemma schema_ok_keys d d' :
  map br_hash (batch_commit d') = map br_hash (batch_commit d) →
  map (λ r, (lr_batch_hash r, lr_block_hash r)) (l2_block d') =
    map (λ r, (lr_batch_hash r, lr_block_hash r)) (l2_block d) →
  map mr_queue_index (l1_message d') = map mr_queue_index (l1_message d) →
  map mr_hash (l1_message d') = map mr_hash (l1_message d) →
  map mr_queue_hash (l1_message d') = map mr_queue_hash (l1_message d) →
  l1_block d' = l1_block d →
  schema_ok d → schema_ok d'.
Proof.
  intros Hb Hl Hq Hh Hqh Hl1 [? ? Hfk ? ? ? ?].
  split; rewrite ?Hb, ?Hl, ?Hq, ?Hh, ?Hl1; try done; [|by rewrite omap_map_id, Hqh, <- omap_map_id].
  intros r Hr. assert ((lr_batch_hash r, lr_block_hash r) ∈
    map (λ r, (lr_batch_hash r, lr_block_hash r)) (l2_block d)) as Hin.
  { rewrite <- Hl, elem_of_map. eauto. }
  apply elem_of_map in Hin as (r0 & Hr0 & Heq).
  assert (lr_batch_hash r0 = lr_batch_hash r) as <- by congruence. auto.
Qed.

Lemma schema_update_batches p f :
  (∀ r, batch_cols (f r) = batch_cols r) → preserves schema_ok (update_batches p f).
Proof.
  intros Hf. apply preserves_modify. intros d. apply schema_ok_keys; simpl; try done.
  apply map_update_many. intros r _. by injection (Hf r).
Qed.

Lemma schema_update_l2_blocks p f :
  (∀ r, (lr_batch_hash (f r), lr_block_hash (f r)) = (lr_batch_hash r, lr_block_hash r)) →
  preserves schema_ok (update_l2_blocks p f).
Proof.
  intros Hf. apply preserves_modify. intros d. apply schema_ok_keys; simpl; try done.
  apply (map_update_many (λ r, (lr_batch_hash r, lr_block_hash r))). auto.
Qed.

Lemma schema_update_messages p f :
  (∀ r, message_cols (f r) = message_cols r) →
  preserves schema_ok (update_messages p f).
Proof.
  intros Hf. apply preserves_modify. intros d.
  apply schema_ok_keys; simpl; try done; apply map_update_many; intros r _; by injection (Hf r).
Qed.

Lemma schema_put_metadata k v : preserves schema_ok (put_metadata k v).
Proof. apply preserves_modify. intros d. by apply schema_ok_keys. Qed.

Lemma hash_taken_false n h d n' :
  hash_taken n h d = false → l1_block d !! n' = Some h → n' = n.
Proof.
  intros Hf Hn. destruct (Z.eqb_spec n' n) as [|Hne]; [done|]. exfalso.
  rewrite <- not_true_iff_false in Hf. apply Hf. unfold hash_taken. rewrite existsb_exists.
  exists (n', h). rewrite <- list_elem_of_In, elem_of_map_to_list. split; [done|].
  rewrite Z.eqb_refl, (proj2 (Z.eqb_neq _ _)) by done. done.
Qed.

Lemma schema_upsert_l1_block n h : preserves schema_ok (upsert_l1_block n h).
Proof.
  intros d Hd. unfold upsert_l1_block, bind, get. simpl.
  destruct (hash_taken n h d) eqn:E; [done|]. simpl. pose proof (hash_taken_false n h d) as Ht.
  destruct Hd as [? ? ? ? ? ? Hl]. split; simpl; try done.
  intros n1 n2 h'. rewrite !lookup_insert. repeat case_decide; intros; simplify_eq; [done| | |by eauto];
    [symmetry|]; eauto.
Qed.

Lemma schema_filter_l1_blocks (keep : Z → Prop) (dec : ∀ n, Decision (keep n)) :
  preserves schema_ok (@filter_l1_blocks keep dec).
Proof.
  apply preserves_modify. intros d [? ? ? ? ? ? Hl]. split; simpl; try done.
  intros n1 n2 h [H1 _]%map_lookup_filter_Some [H2 _]%map_lookup_filter_Some. eauto.
Qed.

Lemma schema_set_block_signature f :
  preserves schema_ok (modify (λ d, set_block_signature (f d) d) : DB unit).
Proof. apply preserves_modify. intros d. by apply schema_ok_keys. Qed.

Lemma schema_insert_batch b : preserves schema_ok (insert_batch b).
Proof.
  unfold insert_batch. apply preserves_bind; [apply preserves_lift|]. intros row.
  apply preserves_modify. intros d Hd. unfold upsert_batch.
  destruct (is_in (br_hash row) (map br_hash (batch_commit d))) eqn:E.
  - revert Hd. apply schema_ok_keys; simpl; try done. by apply map_update_many.
  - destruct Hd as [? ? Hfk ? ? ? ?]. split; simpl; try done.
    + apply NoDup_map_snoc; [done|]. rewrite <- is_in_true. congruence.
    + intros r Hr. rewrite map_app, elem_of_app. left. auto.
Qed.

Lemma schema_delete_batches p : preserves schema_ok (delete_batches p).
Proof.
  intros d [Hk ? Hfk ? ? ? ?]. unfold delete_batches, bind, get, modify, ret. simpl.
  split; simpl; try done.
  - by apply NoDup_map_filter.
  - by apply NoDup_map_filter.
  - intros r. rewrite elem_of_delete_many. intros [Hr Hnot].
    destruct (proj1 (elem_of_map _ _ _) (Hfk r Hr)) as (b & Hb & Heq).
    rewrite elem_of_map. exists b. split; [|done]. rewrite elem_of_delete_many. split; [done|].
    destruct (p b) eqn:Hp; [|done]. rewrite <- not_true_iff_false in Hnot.
    exfalso. apply Hnot. rewrite is_in_true, elem_of_map. exists b.
    by rewrite elem_of_where.
Qed.

Lemma schema_delete_l2_blocks p : preserves schema_ok (delete_l2_blocks p).
Proof.
  intros d [? ? Hfk ? ? ? ?]. unfold delete_l2_blocks, bind, get, modify, ret. simpl.
  split; simpl; try done; [by apply NoDup_map_filter|].
  intros r. rewrite elem_of_delete_many. intros []. auto.
Qed.

Lemma schema_insert_l1_message m : preserves schema_ok (insert_l1_message m).
Proof.
  apply preserves_modify. intros d [? ? ? Hq Hh Hqh ?].
  destruct (existsb (msg_conflicts (MsgRow_from m)) (l1_message d)) eqn:E; [by split|].
  assert (∀ r, r ∈ l1_message d → msg_conflicts (MsgRow_from m) r = false) as Hno.
  { intros r Hr. destruct (msg_conflicts (MsgRow_from m) r) eqn:Hc; [|done].
    rewrite <- not_true_iff_false, existsb_exists in E. exfalso. apply E.
    exists r. by rewrite <- list_elem_of_In. }
  split; simpl; try done.
  - apply NoDup_map_snoc; [done|]. rewrite elem_of_map. intros (r & Hr & Heq).
    specialize (Hno r Hr). unfold msg_conflicts in Hno. bool_to_prop. congruence.
  - apply NoDup_map_snoc; [done|]. rewrite elem_of_map. intros (r & Hr & Heq).
    specialize (Hno r Hr). unfold msg_conflicts in Hno. bool_to_prop. congruence.
  - rewrite omap_app. apply NoDup_app. split_and!; [done| |].
    + intros h (r & Hr & Heq)%list_elem_of_omap (r' & ->%list_elem_of_singleton & Heq')%list_elem_of_omap.
      specialize (Hno r Hr). unfold msg_conflicts in Hno. rewrite Heq', Heq in Hno.
      apply orb_false_iff in Hno as [_ Hno]. simpl in Hno. by rewrite Z.eqb_refl in Hno.
    + simpl. destruct (queue_hash m); [apply NoDup_singleton|apply NoDup_nil_2].
Qed.

Lemma schema_delete_l1_messages_gt n : preserves schema_ok (delete_l1_messages_gt n).
Proof.
  unfold delete_l1_messages_gt. apply preserves_bind; [auto with node|]. intros d0.
  apply preserves_bind; [|auto with node].
  apply preserves_modify. intros d [? ? ? ? ? ? ?].
  split; simpl; try done; [by apply NoDup_map_filter..|by apply NoDup_omap_filter].
Qed.

Lemma upsert_block_ok d r :
  lr_batch_hash r ∈ map br_hash (batch_commit d) →
  schema_ok d → schema_ok (set_l2_block (upsert_block (l2_block d) r) d).
Proof.
  intros Hb Hd. unfold upsert_block.
  destruct (existsb (same_block_key r) (l2_block d)) eqn:E.
  - revert Hd. apply schema_ok_keys; simpl; try done.
    by apply (map_update_many (λ r, (lr_batch_hash r, lr_block_hash r))).
  - destruct Hd as [? ? Hfk ? ? ? ?]. split; simpl; try done.
    + apply (NoDup_map_snoc (λ r, (lr_batch_hash r, lr_block_hash r))); [done|].
      rewrite elem_of_map. intros (r' & Hr' & Heq).
      assert (lr_batch_hash r' = lr_batch_hash r ∧ lr_block_hash r' = lr_block_hash r)
        as [? ?] by (split; congruence).
      rewrite <- not_true_iff_false, existsb_exists in E. apply E. exists r'.
      rewrite <- list_elem_of_In. split; [done|]. unfold same_block_key.
      rewrite !(proj2 (Z.eqb_eq _ _)); auto.
    + intros r'. rewrite elem_of_app, list_elem_of_singleton. intros [?| ->]; auto.
Qed.

Lemma L2Rows_from_batch {E} bs batch rows r :
  L2Rows_from (E := E) bs batch = Ok rows → r ∈ rows → lr_batch_hash r = b_hash batch.
Proof.
  revert rows. induction bs as [|b bs IH]; simpl; intros rows.
  - intros [= <-] ?%not_elem_of_nil. done.
  - unfold L2Row_from. destruct (try_i64 (number b)); simpl; [|done].
    destruct (try_i64 (b_index batch)); simpl; [|done].
    destruct (L2Rows_from bs batch) as [rs|?|] eqn:Ers; simpl; [|done..].
    intros [= <-] [->|Hr]%elem_of_cons; [done|]. eauto.
Qed.

Lemma upsert_blocks_ok rows d :
  (∀ r, r ∈ rows → lr_batch_hash r ∈ map br_hash (batch_commit d)) →
  schema_ok d → schema_ok (set_l2_block (foldl upsert_block (l2_block d) rows) d).
Proof.
  revert d. induction rows as [|r rows IH]; intros d Hin Hd; simpl.
  - revert Hd. by apply schema_ok_keys.
  - set (d1 := set_l2_block (upsert_block (l2_block d) r) d).
    apply (IH d1); simpl.
    + intros r' Hr'. apply Hin. by right.
    + apply upsert_block_ok; [|done]. apply Hin. by left.
Qed.

Lemma schema_insert_blocks bs batch : preserves schema_ok (insert_blocks bs batch).
Proof.
  intros d Hd. unfold insert_blocks, bind at 1, lift.
  destruct (L2Rows_from bs batch) as [rows|?|] eqn:Erows; simpl; [|done..].
  unfold bind, get. simpl.
  destruct (negb (bool_decide (rows = [])) &&
            negb (is_in (b_hash batch) (map br_hash (batch_commit d)))) eqn:Efk; [done|].
  simpl. apply upsert_blocks_ok; [|done].
  intros r Hr. rewrite (L2Rows_from_batch _ _ _ _ Erows Hr). rewrite <- is_in_true.
  apply andb_false_iff in Efk as [E|E]; bool_to_prop; [|done]. subst.
  by apply not_elem_of_nil in Hr.
Qed.

#[export] Instance schema_closed : DbClosed schema_ok := {
  from_batch _ := True;
  from_message _ := True;
  update_batches_ok := schema_update_batches;
  update_l2_blocks_ok := schema_update_l2_blocks;
  update_messages_ok := schema_update_messages;
  put_metadata_ok := schema_put_metadata;
  upsert_l1_block_ok := schema_upsert_l1_block;
  filter_l1_blocks_ok := schema_filter_l1_blocks;
  set_block_signature_ok := schema_set_block_signature;
  delete_batches_ok := schema_delete_batches;
  delete_l2_blocks_ok := schema_delete_l2_blocks;
  delete_l1_messages_gt_ok := schema_delete_l1_messages_gt;
  insert_blocks_ok := schema_insert_blocks;
  insert_batch_ok b _ := schema_insert_batch b;
  insert_l1_message_ok m _ := schema_insert_l1_message m
}.
End Schema.

Section Reachable.
Context `{SqlEngine} `{Chain}.

(** One write operation of the database, run on its own; a failed statement leaves the database to
    the rollback of the transaction ([DbService]). *)
Inductive db_step : Db → Db → Prop :=
| db_insert_l1_block_info bi d : db_step d (insert_l1_block_info bi d).2
| db_remove_l1_block_info_leq n d : db_step d (remove_l1_block_info_leq n d).2
| db_remove_l1_block_info_gt n d : db_step d (remove_l1_block_info_gt n d).2
| db_insert_batch b d : db_step d (insert_batch b d).2
| db_finalize_batches i n d : db_step d (finalize_batches_up_to_index i n d).2
| db_set_metadata k n d : db_step d (put_metadata k n d).2
| db_set_finalized n d : db_step d (set_finalized_l1_block_number n d).2
| db_fetch_finalized n d : db_step d (fetch_and_update_unprocessed_finalized_batches n d).2
| db_fetch_committed d : db_step d (fetch_and_update_unprocessed_committed_batches d).2
| db_delete_batches p d : db_step d (delete_batches p d).2
| db_delete_finalization n d : db_step d (delete_batch_finalization_gt_block_number n d).2
| db_set_revert i j bi d : db_step d (set_batch_revert_block_number_for_batch_range i j bi d).2
| db_delete_revert n d : db_step d (delete_batch_revert_gt_block_number n d).2
| db_finalize_consolidated n d : db_step d (finalize_consolidated_batches n d).2
| db_processing_to_committed d : db_step d (change_batch_processing_to_committed_status d).2
| db_update_status h s d : db_step d (update_batch_status h s d).2
| db_transition h s t d : db_step d (transition_batch_status h s t d).2
| db_insert_l1_message m d : db_step d (insert_l1_message m d).2
| db_update_skipped l d : db_step d (update_skipped_l1_messages l d).2
| db_delete_messages n d : db_step d (delete_l1_messages_gt n d).2
| db_prepare_start d : db_step d (prepare_l1_watcher_start_info d).2
| db_delete_l2_blocks p d : db_step d (delete_l2_blocks p d).2
| db_insert_blocks bs b d : db_step d (insert_blocks bs b d).2
| db_update_messages_with bs d : db_step d (update_l1_messages_with_l2_blocks bs d).2
| db_reconcile_genesis g s d : db_step d (reconcile_genesis_block g s d).2
| db_update_messages bs d : db_step d (update_l1_messages_from_l2_blocks bs d).2
| db_purge n d : db_step d (purge_l1_message_to_l2_block_mappings n d).2
| db_insert_outcome o d : db_step d (insert_batch_consolidation_outcome o d).2
| db_unwind n d : db_step d (unwind n d).2
| db_insert_signatures l d : db_step d (insert_signatures l d).2
| db_insert_signature h s d : db_step d (insert_signature h s d).2.

(** C24: in every database reachable from a migrated one every unique key of the schema is unique (the
    hash of a batch, the batch and block hash of an L2 block, the queue index, the hash and the queue hash
    of an L1 message unless it is NULL, the hash of an L1 block, besides the keys of the maps), and every
    L2 block belongs to a stored batch, whatever operations ran and whether or not they failed. *)
Theorem reachable_schema_ok g d : rtc db_step (migrated g) d → schema_ok d.
Proof.
  intros Hr. pose proof (schema_ok_migrated g) as Hi. revert Hi.
  induction Hr as [|d1 d2 d3 Hs _ IH]; [done|]. intros Hi. apply IH. clear IH.
  destruct Hs; match goal with
    |- schema_ok (?m _).2 => cut (preserves schema_ok m); [by auto|] end; eauto with node.
  all: first [ by apply update_batches_ok | apply fetch_and_update_ok
             | apply set_block_signature_ok ].
Qed.
End Reachable.
