(* ===== verification/DbUnwind.v ===== *)
(** * Unwinding the database to an L1 block

    What [unwind] leaves behind (nothing indexed above the target block), what it keeps, what it
    reports, and that unwinding twice is unwinding once. *)

From S2P Require Import Prelude Sql Primitives DbModel DbOps DbInvariant.

Section Unwind.
Context `{SqlEngine} `{Chain}.

(** Nothing indexed from L1 lies above block [n]. *)
Record unwound (n : Z) (d : Db) : Prop := {
  uw_latest : metadata d !! "l1_latest_block" = Some (u64_to_string n);
  uw_l1_block : ∀ k h, l1_block d !! k = Some h → k <= as_i64 n;
  uw_batch : ∀ r, r ∈ batch_commit d → br_block_number r <= as_i64 n;
  uw_finalized : ∀ r v, r ∈ batch_commit d → br_finalized_block_number r = Some v → v <= as_i64 n;
  uw_reverted : ∀ r v, r ∈ batch_commit d → br_reverted_block_number r = Some v → v <= as_i64 n;
  uw_message : ∀ r, r ∈ l1_message d → mr_l1_block_number r <= as_i64 n
}.

(** The batch columns of [unwind]: finalizations and reverts above the target are undone. *)
Definition undo_finalization (n : Z) (r : BatchRow) : BatchRow :=
  if null_gt (br_finalized_block_number r) (as_i64 n) then set_finalized_col None r else r.
Definition undo_revert (n : Z) (r : BatchRow) : BatchRow :=
  if null_gt (br_reverted_block_number r) (as_i64 n)
  then set_status_col Consolidated (set_reverted_col None r) else r.

Definition unwound_batches (n : Z) (t : list BatchRow) : list BatchRow :=
  map (λ r, undo_revert n (undo_finalization n r))
      (delete_many (λ r, as_i64 n <? br_block_number r) t).

Definition unwound_messages (n : Z) (head : option Z) (t : list MsgRow) : list MsgRow :=
  let t := delete_many (λ r, as_i64 n <? mr_l1_block_number r) t in
  match head with
  | Some b => update_many (λ r, null_gte (mr_l2_block_number r) (as_i64 (saturating_add b 1)))
                (set_l2_block_number_col None) t
  | None => t
  end.

(** Undoing the reverts selects the rows by hash; with unique hashes these are the rows whose own
    revert lies above the target. *)
Lemma update_by_hash (p : BatchRow → bool) f t :
  NoDup (map br_hash t) →
  update_many (λ r, is_in (br_hash r) (map br_hash (find p t))) f t = update_many p f t.
Proof.
  intros Hk. unfold update_many. apply map_ext_in. intros r Hr%list_elem_of_In.
  destruct (p r) eqn:Hp.
  - rewrite (proj2 (is_in_true _ _)); [done|]. rewrite elem_of_map. exists r.
    by rewrite elem_of_find.
  - destruct (is_in _ _) eqn:Hin; [|done]. exfalso.
    rewrite is_in_true, elem_of_map in Hin. destruct Hin as (r' & Hr' & Heq).
    apply elem_of_find in Hr' as [Hr' Hp'].
    rewrite (NoDup_map_inj _ _ _ _ Hk Hr' Hr Heq) in Hp'. congruence.
Qed.

Lemma delete_messages_run n d o d' :
  delete_l1_messages_gt n d = (o, d') →
  d' = set_l1_message (delete_many (λ r, as_i64 n <? mr_l1_block_number r) (l1_message d)) d ∧
  o = map_l1_message_result (find (λ r, as_i64 n <? mr_l1_block_number r) (l1_message d)).
Proof. unfold delete_l1_messages_gt, bind, get, modify, lift. intros. by simplify_eq/=. Qed.

Lemma delete_revert_run n d o d' :
  NoDup (map br_hash (batch_commit d)) →
  delete_batch_revert_gt_block_number n d = (o, d') →
  batch_commit d' = map (undo_revert n) (batch_commit d) ∧
  l1_block d' = l1_block d ∧ l1_message d' = l1_message d ∧ metadata d' = metadata d ∧
  o = Ok (rows_affected (λ r, null_gt (br_reverted_block_number r) (as_i64 n)) (batch_commit d)).
Proof.
  intros Hk. unfold delete_batch_revert_gt_block_number, update_batches, update_l2_blocks,
    bind, get, modify, ret. intros Hrun. simplify_eq/=. split_and!; try done.
  - by rewrite update_by_hash.
  - unfold rows_affected, find. by rewrite length_map, scan_perm.
Qed.

Lemma delete_batches_run p d :
  delete_batches p d =
    (Ok (rows_affected p (batch_commit d)),
     set_l2_block (delete_many (λ r, is_in (lr_batch_hash r)
                                  (map br_hash (List.filter p (batch_commit d)))) (l2_block d))
       (set_batch_commit (delete_many p (batch_commit d)) d)).
Proof. done. Qed.

Lemma map_undo_finalization n t :
  update_many (λ r, null_gt (br_finalized_block_number r) (as_i64 n)) (set_finalized_col None) t =
  map (undo_finalization n) t.
Proof. done. Qed.

(** The database a successful unwind ends in, table by table. *)
Lemma unwind_tables n d r d' :
  NoDup (map br_hash (batch_commit d)) →
  unwind n d = (Ok r, d') →
  l1_block d' = filter (λ '(k, _), ¬ as_i64 n < k) (l1_block d) ∧
  batch_commit d' = unwound_batches n (batch_commit d) ∧
  l1_message d' = unwound_messages n (ur_l2_head_block_number r) (l1_message d) ∧
  metadata d' =
    match ur_l2_head_block_number r with
    | Some b => <["l2_head_block" := u64_to_string b]>
                  (<["l1_latest_block" := u64_to_string n]> (metadata d))
    | None => <["l1_latest_block" := u64_to_string n]> (metadata d)
    end ∧
  ur_l1_block_number r = n.
Proof.
  intros Hk Hrun. unfold unwind in Hrun.
  apply bind_Ok in Hrun as ([] & d1 & E1 & Hrun). unfold set_latest_l1_block_number, put_metadata, modify in E1.
  injection E1 as <-.
  apply bind_Ok in Hrun as ([] & d2 & E2 & Hrun).
  unfold remove_l1_block_info_gt, filter_l1_blocks, modify in E2. simplify_eq/=.
  apply bind_Ok in Hrun as (removed & d3 & E3 & Hrun).
  unfold delete_batches_gt_block_number in E3. rewrite delete_batches_run in E3. simplify_eq/=.
  apply bind_Ok in Hrun as (msgs & d4 & E4 & Hrun).
  apply delete_messages_run in E4 as [-> Hmsgs]. simpl in *.
  apply bind_Ok in Hrun as ([] & d5 & E5 & Hrun).
  unfold delete_batch_finalization_gt_block_number, update_batches, modify in E5. simplify_eq/=.
  rewrite map_undo_finalization in Hrun.
  apply bind_Ok in Hrun as (reverts & d6 & E6 & Hrun).
  apply delete_revert_run in E6 as (Hb & Hl1 & Hm & Hmeta & _); simpl in *.
  2:{ rewrite map_map. erewrite map_ext; [by apply NoDup_map_filter|].
      intros x. unfold undo_finalization. by destruct (null_gt _ _). }
  apply bind_Ok in Hrun as ([q h] & d7 & E7 & Hrun).
  assert (d7 = d6) as ->.
  { clear - E7. destruct (head _) as [m|]; [|by injection E7].
    unfold bind, lift, ret in E7. destruct (l2_block_number m); simpl in E7; by simplify_eq. }
  apply bind_Ok in Hrun as (s & d8 & E8 & Hrun).
  assert (d8 = d6) as ->.
  { clear - E8. destruct (_ || _); [|by injection E8].
    apply bind_Ok in E8 as (s' & d' & E & E8). pose proof (get_latest_safe_reads d6) as Hs.
    rewrite E in Hs. injection E8. simpl in Hs. congruence. }
  clear E7 E8. unfold unwound_batches, unwound_messages.
  destruct h as [b|]; unfold bind, ret, purge_l1_message_to_l2_block_mappings, update_messages,
    set_l2_head_block_number, put_metadata, modify in Hrun; simplify_eq/=;
    rewrite Hb, Hl1, Hm, Hmeta, map_map; done.
Qed.

Lemma undo_columns n r :
  br_hash (undo_revert n (undo_finalization n r)) = br_hash r ∧
  br_block_number (undo_revert n (undo_finalization n r)) = br_block_number r.
Proof. unfold undo_revert, undo_finalization. by repeat case_match. Qed.

Lemma undo_finalized n r v :
  br_finalized_block_number (undo_revert n (undo_finalization n r)) = Some v → v <= as_i64 n.
Proof.
  unfold undo_revert, undo_finalization, null_gt. repeat (case_match; simpl in * );
    intros; simplify_eq/=; bool_to_prop; lia.
Qed.

Lemma undo_reverted n r v :
  br_reverted_block_number (undo_revert n (undo_finalization n r)) = Some v → v <= as_i64 n.
Proof.
  unfold undo_revert. destruct (null_gt _ _) eqn:E; simpl; [done|]. intros Hv. rewrite Hv in E.
  simpl in E. bool_to_prop. lia.
Qed.

Lemma undo_same n r :
  null_gt (br_finalized_block_number r) (as_i64 n) = false →
  null_gt (br_reverted_block_number r) (as_i64 n) = false →
  undo_revert n (undo_finalization n r) = r.
Proof. unfold undo_revert, undo_finalization. intros Hf Hr. rewrite Hf. by rewrite Hr. Qed.

Lemma elem_of_unwound_messages n h t r :
  r ∈ unwound_messages n h t →
  mr_l1_block_number r <= as_i64 n.
Proof.
  unfold unwound_messages. destruct h as [b|].
  - rewrite elem_of_update_many. intros (r0 & Hr0 & ->).
    apply elem_of_delete_many in Hr0 as [_ Hn]. bool_to_prop.
    by destruct (null_gte _ _).
  - rewrite elem_of_delete_many. intros [_ ?]. by bool_to_prop.
Qed.

Lemma unwind_clears n d r d' :
  schema_ok d → unwind n d = (Ok r, d') → unwound n d'.
Proof.
  intros Hd Hrun. destruct (unwind_tables _ _ _ _ (so_batch_key _ Hd) Hrun)
    as (Hl1 & Hb & Hm & Hmeta & _).
  split.
  - rewrite Hmeta. destruct (ur_l2_head_block_number r).
    + rewrite lookup_insert_ne by done. by rewrite lookup_insert_eq.
    + by rewrite lookup_insert_eq.
  - intros k h. rewrite Hl1, map_lookup_filter_Some. intros [_ ?]. lia.
  - intros b. rewrite Hb. unfold unwound_batches. rewrite elem_of_map.
    intros (b0 & Hb0 & <-). apply elem_of_delete_many in Hb0 as [_ ?].
    rewrite (proj2 (undo_columns n b0)). by bool_to_prop.
  - intros b v. rewrite Hb. unfold unwound_batches. rewrite elem_of_map.
    intros (b0 & _ & <-). apply undo_finalized.
  - intros b v. rewrite Hb. unfold unwound_batches. rewrite elem_of_map.
    intros (b0 & _ & <-). apply undo_reverted.
  - intros m. rewrite Hm. apply elem_of_unwound_messages.
Qed.

(** C23: after a successful unwind to L1 block [n] no block, batch, finalization, revert or message
    above [n] is left, and [n] is recorded as the latest L1 block. *)
Theorem unwind_unwound n d r d' :
  schema_ok d → unwind n d = (Ok r, d') → unwound n d'.
Proof. apply unwind_clears. Qed.

(** an unwind keeps every batch committed at or below its target whose finalization and revert
    are not above it, unchanged, and every L1 message at or below it, up to the link to an L2
    block that the unwind removes. *)
Theorem unwind_keeps n d r d' :
  schema_ok d → unwind n d = (Ok r, d') →
  (∀ b, b ∈ batch_commit d → br_block_number b <= as_i64 n →
     null_gt (br_finalized_block_number b) (as_i64 n) = false →
     null_gt (br_reverted_block_number b) (as_i64 n) = false → b ∈ batch_commit d') ∧
  (∀ m, m ∈ l1_message d → mr_l1_block_number m <= as_i64 n →
     m ∈ l1_message d' ∨ set_l2_block_number_col None m ∈ l1_message d').
Proof.
  intros Hd Hrun. destruct (unwind_tables _ _ _ _ (so_batch_key _ Hd) Hrun)
    as (_ & Hb & Hm & _). split.
  - intros b Hin Hn Hf Hr. rewrite Hb. unfold unwound_batches. rewrite elem_of_map.
    exists b. split; [|by apply undo_same]. apply elem_of_delete_many. split; [done|].
    by apply Z.ltb_ge.
  - intros m Hin Hn. rewrite Hm. unfold unwound_messages.
    assert (m ∈ delete_many (λ r, as_i64 n <? mr_l1_block_number r) (l1_message d)) as Hk.
    { apply elem_of_delete_many. split; [done|]. by apply Z.ltb_ge. }
    destruct (ur_l2_head_block_number r) as [b|]; [|by left].
    destruct (null_gte (mr_l2_block_number m) (as_i64 (saturating_add b 1))) eqn:E; [right|left];
      apply elem_of_update_many; exists m; by rewrite E.
Qed.

Lemma nothing_above n (t : list BatchRow) :
  (∀ r v, r ∈ t → br_finalized_block_number r = Some v → v <= as_i64 n) →
  (∀ r v, r ∈ t → br_reverted_block_number r = Some v → v <= as_i64 n) →
  ∀ r, r ∈ t → null_gt (br_finalized_block_number r) (as_i64 n) = false ∧
               null_gt (br_reverted_block_number r) (as_i64 n) = false.
Proof.
  intros Hf Hr r Hin. unfold null_gt.
  split; (case_match; [apply Z.ltb_ge; eauto|done]).
Qed.

Lemma delete_revert_noop n d :
  (∀ r, r ∈ batch_commit d → null_gt (br_reverted_block_number r) (as_i64 n) = false) →
  delete_batch_revert_gt_block_number n d = (Ok 0, d).
Proof.
  intros Hr. unfold delete_batch_revert_gt_block_number, update_batches, update_l2_blocks,
    bind, get, modify, ret. rewrite (find_nil _ _ Hr). simpl.
  rewrite !update_many_id by done. by destruct d.
Qed.

Lemma delete_batches_noop p d :
  (∀ r, r ∈ batch_commit d → p r = false) → delete_batches p d = (Ok 0, d).
Proof.
  intros Hp. rewrite delete_batches_run, (proj1 (rows_affected_0 _ _) Hp).
  rewrite (delete_many_id _ (batch_commit d)) by done.
  assert (List.filter p (batch_commit d) = []) as ->.
  { destruct (List.filter p (batch_commit d)) as [|r l] eqn:E; [done|].
    assert (r ∈ List.filter p (batch_commit d)) as Hr by (rewrite E; by left).
    apply elem_of_where in Hr as [Hr Ht]. by rewrite Hp in Ht. }
  simpl. rewrite delete_many_id by done. by destruct d.
Qed.

Lemma delete_messages_noop n d :
  (∀ r, r ∈ l1_message d → mr_l1_block_number r <= as_i64 n) →
  delete_l1_messages_gt n d = (Ok [], d).
Proof.
  intros Hm. unfold delete_l1_messages_gt, bind, get, modify, lift.
  assert (∀ r, r ∈ l1_message d → (as_i64 n <? mr_l1_block_number r) = false) as Hp.
  { intros r Hr. by apply Z.ltb_ge, Hm. }
  rewrite (find_nil _ _ Hp), delete_many_id by done. by destruct d.
Qed.

(** Unwinding a database that holds nothing above the target changes nothing and reports no
    reorganisation of the L2 chain. *)
Lemma unwind_noop n d :
  unwound n d → unwind n d = (Ok (mkUnwindResult n None None None), d).
Proof.
  intros [Hlatest Hl1 Hb Hf Hr Hm]. unfold unwind.
  assert (set_latest_l1_block_number n d = (Ok tt, d)) as E1.
  { unfold set_latest_l1_block_number, put_metadata, modify. rewrite insert_id by done.
    by destruct d. }
  assert (remove_l1_block_info_gt n d = (Ok tt, d)) as E2.
  { unfold remove_l1_block_info_gt, filter_l1_blocks, modify. rewrite map_filter_id; [by destruct d|].
    intros k h Hk. specialize (Hl1 _ _ Hk). lia. }
  pose proof (nothing_above n (batch_commit d) Hf Hr) as Hnone.
  assert (delete_batch_finalization_gt_block_number n d = (Ok tt, d)) as E3.
  { unfold delete_batch_finalization_gt_block_number, update_batches, modify.
    rewrite update_many_id; [by destruct d|]. intros r Hin. by apply Hnone. }
  unfold bind at 1. rewrite E1. unfold bind at 1. rewrite E2.
  unfold bind at 1. unfold delete_batches_gt_block_number.
  rewrite delete_batches_noop by (intros r Hin; by apply Z.ltb_ge, Hb).
  unfold bind at 1. rewrite delete_messages_noop by done.
  unfold bind at 1. rewrite E3.
  unfold bind at 1. rewrite delete_revert_noop by (intros r Hin; by apply Hnone).
  done.
Qed.

(** unwinding is idempotent: a second unwind to the same block, as after a crash between the
    commit and the handling of its result, changes nothing and reports nothing. *)
Theorem unwind_idempotent n d r d' :
  schema_ok d → unwind n d = (Ok r, d') →
  unwind n d' = (Ok (mkUnwindResult n None None None), d').
Proof. intros Hd Hrun. by eapply unwind_noop, unwind_clears. Qed.
End Unwind.
