(* ===== verification/DbProps.v ===== *)
(** * Functional properties of the database operations

    Batch scheduling (each committed batch is handed out once, in index order), the selection of
    L1 messages, the safe block, finalization, the genesis reconciliation, and what a revert that
    is undone leaves behind. *)

From S2P Require Import Prelude Sql Primitives DbModel DbOps DbInvariant.

Section Props.
Context `{SqlEngine} `{Chain}.

Lemma as_str_inj s t : as_str s = as_str t → s = t.
Proof. by destruct s, t. Qed.

Lemma has_status_eq s r : has_status s r = true ↔ br_status r = as_str s.
Proof. unfold has_status. apply String.eqb_eq. Qed.

Lemma has_status_set s t r : has_status s (set_status_col t r) = bool_decide (s = t).
Proof.
  destruct (decide (s = t)) as [->|Hne].
  - rewrite bool_decide_true by done. by apply has_status_eq.
  - rewrite bool_decide_false by done. apply not_true_iff_false. rewrite has_status_eq.
    simpl. intros Heq. by apply Hne, as_str_inj.
Qed.

(** ** Batch scheduling *)

Definition info_of_row (r : BatchRow) : BatchInfo :=
  {| b_index := as_u64 (br_index r); b_hash := br_hash r |}.

Lemma fetch_and_update_run p d :
  fetch_and_update p d =
    (Ok (map info_of_row (order_by_asc br_index (find p (batch_commit d)))),
     set_batch_commit (update_many p (set_status_col Processing) (batch_commit d)) d).
Proof. done. Qed.

Lemma fetch_and_update_once p d :
  (∀ r, p (set_status_col Processing r) = false) →
  ∀ l d', fetch_and_update p d = (Ok l, d') → fetch_and_update p d' = (Ok [], d').
Proof.
  intros Hp l d' Hrun. rewrite fetch_and_update_run in Hrun. injection Hrun as _ <-.
  assert (∀ r, r ∈ update_many p (set_status_col Processing) (batch_commit d) → p r = false)
    as Hnone.
  { intros r. rewrite elem_of_update_many. intros (r0 & _ & ->). by destruct (p r0) eqn:E. }
  rewrite fetch_and_update_run. simpl. rewrite (find_nil _ _ Hnone), update_many_id by done.
  done.
Qed.

(** fetching the committed batches returns exactly the batches in status [committed], in
    ascending index order, and moves them to [processing]; a second fetch returns nothing, so a
    batch is handed to the derivation pipeline once. *)
Theorem fetch_committed_spec d l d' :
  fetch_and_update_unprocessed_committed_batches d = (Ok l, d') →
  (∃ rows, l = map info_of_row rows ∧ StronglySorted (asc br_index) rows ∧
     rows ≡ₚ List.filter (has_status Committed) (batch_commit d)) ∧
  batch_commit d' =
    map (λ r, if has_status Committed r then set_status_col Processing r else r) (batch_commit d) ∧
  fetch_and_update_unprocessed_committed_batches d' = (Ok [], d').
Proof.
  intros Hrun. unfold fetch_and_update_unprocessed_committed_batches in *. split_and!.
  - rewrite fetch_and_update_run in Hrun. injection Hrun as <- _.
    eexists. split; [done|]. split; [apply order_by_asc_sorted|].
    unfold order_by_asc, find. by rewrite merge_sort_Permutation, scan_perm.
  - rewrite fetch_and_update_run in Hrun. by injection Hrun as _ <-.
  - eapply fetch_and_update_once; [|done]. intros r. by rewrite has_status_set.
Qed.

(** fetching the finalized batches at L1 block [n] returns, in index order, exactly the
    committed batches whose finalization is at or below [n], once. *)
Theorem fetch_finalized_spec n d l d' :
  fetch_and_update_unprocessed_finalized_batches n d = (Ok l, d') →
  (∀ b, b ∈ l ↔ ∃ r v, r ∈ batch_commit d ∧ info_of_row r = b ∧
     br_status r = as_str Committed ∧ br_finalized_block_number r = Some v ∧ v <= n) ∧
  fetch_and_update_unprocessed_finalized_batches n d' = (Ok [], d').
Proof.
  intros Hrun. unfold fetch_and_update_unprocessed_finalized_batches in *. split.
  - rewrite fetch_and_update_run in Hrun. injection Hrun as <- _. intros b.
    rewrite elem_of_map. split.
    + intros (r & Hr & <-). rewrite elem_of_order_by_asc, elem_of_find in Hr.
      destruct Hr as [Hr Hp]. destruct (br_finalized_block_number r) as [v|] eqn:Ev;
        simpl in Hp; [|done]. bool_to_prop. exists r, v. by rewrite <- has_status_eq.
    + intros (r & v & Hr & <- & Hs & Ev & Hv). exists r. split; [|done].
      rewrite elem_of_order_by_asc, elem_of_find. split; [done|]. rewrite Ev. simpl.
      rewrite (proj2 (has_status_eq _ _) Hs), (proj2 (Z.leb_le _ _) Hv). done.
  - eapply fetch_and_update_once; [|done]. intros r. rewrite has_status_set. simpl.
    by rewrite andb_false_r.
Qed.

(** ** The safe block *)

(** the safe block is a stored block of a batch that is not reverted, the highest one. *)
Theorem latest_safe_highest d bi ba d' :
  get_latest_safe_l2_info d = (Ok (bi, ba), d') →
  d' = d ∧ ∃ r, r ∈ l2_block d ∧ lr_reverted r = false ∧ row_block_info r = bi ∧
    row_batch_info r = ba ∧
    ∀ r', r' ∈ l2_block d → lr_reverted r' = false → lr_block_number r' <= lr_block_number r.
Proof.
  unfold get_latest_safe_l2_info, bind, get, lift, ret, expect. simpl.
  destruct (one _) as [r|] eqn:Hone; [|done]. intros [= <- <- <-]. split; [done|].
  apply one_desc in Hone as (Hr & Hp & Hmax). exists r. split_and!; try done.
  - by apply negb_true_iff.
  - intros r' Hr' Hn. apply Hmax; [done|]. by rewrite Hn.
Qed.

(** ** Selection of L1 messages *)

Lemma map_l1_message_result_map {E} rows ms :
  map_l1_message_result (E := E) rows = Ok ms →
  Forall2 (λ r m, L1MessageEnvelope_from (E := E) r = Ok m) rows ms.
Proof.
  revert ms. induction rows as [|r rows IH]; simpl; intros ms.
  - intros [= <-]. constructor.
  - destruct (L1MessageEnvelope_from r) as [m|?|] eqn:Er; simpl; [|done..].
    destruct (map_l1_message_result rows) as [ms'|?|]; simpl; [|done..].
    intros [= <-]. constructor; auto.
Qed.

(** The selected rows are the [n] smallest matching ones by queue index, in order. *)
Definition smallest (p : MsgRow → bool) (n : nat) (t rows : list MsgRow) : Prop :=
  (length rows ≤ n)%nat ∧ StronglySorted (asc mr_queue_index) rows ∧
  (NoDup (map mr_queue_index t) → NoDup (map mr_queue_index rows)) ∧
  (∀ r, r ∈ rows → r ∈ t ∧ p r = true) ∧
  (∀ r r', r ∈ t → p r = true → r ∉ rows → r' ∈ rows → mr_queue_index r' <= mr_queue_index r) ∧
  (∀ r, r ∈ t → p r = true → (length rows < n)%nat → r ∈ rows).

Lemma StronglySorted_app_le {A} (R : A → A → Prop) l1 l2 :
  StronglySorted R (l1 ++ l2) →
  StronglySorted R l1 ∧ ∀ x y, x ∈ l1 → y ∈ l2 → R x y.
Proof.
  induction l1 as [|a l1 IH]; simpl; intros Hs.
  - split; [constructor|]. by intros x y ?%not_elem_of_nil.
  - inversion Hs as [|? ? Hs' Hall]; subst. destruct (IH Hs') as [H1 H2].
    rewrite Forall_forall in Hall. split.
    + constructor; [done|]. apply Forall_forall. intros x Hx. apply Hall.
      rewrite elem_of_app. by left.
    + intros x y [->|Hx]%elem_of_cons Hy; [|by apply H2]. apply Hall. rewrite elem_of_app. by right.
Qed.

Lemma take_smallest p n t : smallest p n t (take n (order_by_asc mr_queue_index (find p t))).
Proof.
  set (l := order_by_asc mr_queue_index (find p t)).
  assert (∀ r, r ∈ l ↔ r ∈ t ∧ p r = true) as Hl.
  { intros r. unfold l. by rewrite elem_of_order_by_asc, elem_of_find. }
  pose proof (order_by_asc_sorted mr_queue_index (find p t)) as Hs. fold l in Hs.
  rewrite <- (take_drop n l) in Hs. apply StronglySorted_app_le in Hs as [Hs Hle].
  split_and!.
  - rewrite length_take. lia.
  - done.
  - intros Hnd. assert (NoDup (map mr_queue_index l)) as Hndl.
    { unfold l, order_by_asc, find. rewrite merge_sort_Permutation, scan_perm.
      by apply NoDup_map_filter. }
    rewrite <- (take_drop n l), map_app in Hndl. by apply NoDup_app in Hndl as [? _].
  - intros r Hr. apply Hl. rewrite <- (take_drop n l), elem_of_app. by left.
  - intros r r' Hr Hp Hnot Hr'. apply Hle; [done|].
    assert (r ∈ l) as Hin by (by apply Hl).
    rewrite <- (take_drop n l), elem_of_app in Hin. by destruct Hin.
  - intros r Hr Hp Hlen. rewrite length_take in Hlen.
    rewrite take_ge by lia. by apply Hl.
Qed.

Lemma select_messages_spec p n d ms d' :
  select_messages p n d = (Ok ms, d') →
  d' = d ∧ ∃ rows, smallest p n (l1_message d) rows ∧
    Forall2 (λ r m, L1MessageEnvelope_from (E := DatabaseError) r = Ok m) rows ms.
Proof.
  unfold select_messages, bind, get, lift. intros [= Hms <-]. split; [done|].
  eexists. split; [apply take_smallest|]. by apply map_l1_message_result_map.
Qed.

(** asking for [n] messages from a queue index returns the stored messages with the [n] smallest
    indices at or above it, in queue order. *)
Theorem get_n_l1_messages_from_index q n d ms d' :
  get_n_l1_messages (Some (QueueIndex q)) n d = (Ok ms, d') →
  d' = d ∧ ∃ rows, smallest (λ r, q <=? mr_queue_index r) n (l1_message d) rows ∧
    Forall2 (λ r m, L1MessageEnvelope_from (E := DatabaseError) r = Ok m) rows ms.
Proof. apply select_messages_spec. Qed.

(** The first message a block at [bn] may include: the one after the last message included below
    [bn], skipped messages left out. *)
Definition next_for_block (bn : Z) (t : list MsgRow) (r : MsgRow) : Prop :=
  mr_skipped r = false ∧
  ∀ r0, r0 ∈ t → null_lt (mr_l2_block_number r0) (as_i64 bn) = true →
    (∀ r1, r1 ∈ t → null_lt (mr_l2_block_number r1) (as_i64 bn) = true →
       default 0 (mr_l2_block_number r1) < default 0 (mr_l2_block_number r0) ∨
       (default 0 (mr_l2_block_number r1) = default 0 (mr_l2_block_number r0) ∧
        mr_queue_index r1 <= mr_queue_index r0)) →
    mr_queue_index r0 < mr_queue_index r.

(** the messages the node expects in the L2 blocks from [bn] on are the unskipped messages after
    the last one included below [bn], the [n] smallest of them in queue order. *)
Theorem get_n_l1_messages_from_block bn n d ms d' :
  get_n_l1_messages (Some (BlockNumber bn)) n d = (Ok ms, d') →
  d' = d ∧ ∃ p rows, smallest p n (l1_message d) rows ∧
    (∀ r, r ∈ l1_message d → p r = true ↔ next_for_block bn (l1_message d) r) ∧
    Forall2 (λ r m, L1MessageEnvelope_from (E := DatabaseError) r = Ok m) rows ms.
Proof.
  unfold get_n_l1_messages; cbv beta iota; unfold bind at 1, get.
  set (sel := λ r, null_lt (mr_l2_block_number r) (as_i64 bn)).
  set (blk := λ r, default 0 (mr_l2_block_number r)).
  destruct (one (order_by_desc2 blk mr_queue_index (find sel (l1_message d)))) as [r0|] eqn:E;
    intros Hrun; apply select_messages_spec in Hrun as (-> & rows & Hs & Hms); (split; [done|]).
  - pose proof (sorted_head _ _ _ (order_by_desc2_sorted blk mr_queue_index _) E) as Hmax.
    pose proof (one_elem _ _ E) as Hin.
    rewrite elem_of_order_by_desc2, elem_of_find in Hin. destruct Hin as [Hr0 Hp0].
    eexists _, rows. split; [done|]. split; [|done]. intros r Hr. unfold next_for_block.
    rewrite andb_true_iff, negb_true_iff, Z.leb_le. split.
    + intros [Hq Hsk]. split; [done|]. intros r2 Hr2 Hsel2 Hmax2.
      destruct (Hmax2 r0 Hr0 Hp0) as [Hlt|[Heq Hle]];
        (destruct (Hmax r2) as [->|Hd];
          [by rewrite elem_of_order_by_desc2, elem_of_find|lia|]);
        unfold desc2, blk in Hd; lia.
    + intros [Hsk Hall]. split; [|done]. enough (mr_queue_index r0 < mr_queue_index r) by lia.
      apply Hall; [done..|]. intros r1 Hr1 Hp1.
      destruct (Hmax r1) as [->|Hd]; [by rewrite elem_of_order_by_desc2, elem_of_find|lia|].
      unfold desc2, blk in Hd. lia.
  - eexists _, rows. split; [done|]. split; [|done]. intros r Hr. unfold next_for_block.
    rewrite negb_true_iff. split; [|by intros []]. intros Hsk. split; [done|].
    intros r0 Hr0 Hsel. exfalso.
    apply one_None in E. assert (r0 ∈ order_by_desc2 blk mr_queue_index (find sel (l1_message d)))
      as Hin by (by rewrite elem_of_order_by_desc2, elem_of_find).
    rewrite E in Hin. by apply not_elem_of_nil in Hin.
Qed.

(** ** Genesis reconciliation *)

Lemma delete_l2_blocks_run p d :
  delete_l2_blocks p d = (Ok (rows_affected p (l2_block d)), set_l2_block (delete_many p (l2_block d)) d).
Proof. done. Qed.

Lemma insert_genesis_run g d o d' :
  insert_genesis_block g d = (o, d') →
  o = Ok tt ∧ d' = set_l2_block (upsert_block (l2_block d) (genesis_block_row g)) d ∨
  o = Err (DbErr "FOREIGN KEY constraint failed") ∧ d' = d.
Proof.
  unfold insert_genesis_block, insert_blocks, bind, lift, get, modify, fail. simpl.
  destruct (is_in 0 _); simpl; intros; simplify_eq; auto.
Qed.

Lemma upsert_genesis_height0 g t r :
  r ∈ upsert_block t (genesis_block_row g) → lr_block_number r = 0 →
  (∀ r0, r0 ∈ t → lr_block_number r0 = 0 → lr_block_hash r0 = g) → lr_block_hash r = g.
Proof.
  unfold upsert_block. destruct (existsb _ t).
  - rewrite elem_of_update_many. intros (r0 & Hr0 & ->) Hn Hall.
    destruct (same_block_key _ r0) eqn:E; [|by apply Hall].
    unfold same_block_key in E. bool_to_prop. done.
  - rewrite elem_of_app, list_elem_of_singleton. intros [Hr| ->] Hn Hall; [by apply Hall|done].
Qed.

Lemma upsert_genesis_present g t :
  ∃ r, r ∈ upsert_block t (genesis_block_row g) ∧ lr_block_number r = 0 ∧ lr_block_hash r = g.
Proof.
  unfold upsert_block. destruct (existsb _ t) eqn:E.
  - apply existsb_exists in E as (r & Hr & Hk). eexists. split.
    + apply elem_of_update_many. exists r. split; [by apply list_elem_of_In|done].
    + rewrite Hk. simpl. unfold same_block_key in Hk. bool_to_prop. done.
  - exists (genesis_block_row g). rewrite elem_of_app, list_elem_of_singleton. auto.
Qed.

Definition genesis_of (g : B256) (d : Db) : Prop :=
  (∃ r, r ∈ l2_block d ∧ lr_block_number r = 0 ∧ lr_block_hash r = g) ∧
  ∀ r, r ∈ l2_block d → lr_block_number r = 0 → lr_block_hash r = g.

Lemma mismatched_gone g t r :
  r ∈ delete_many (λ r, (lr_block_number r =? 0) && negb (lr_block_hash r =? g)) t →
  lr_block_number r = 0 → lr_block_hash r = g.
Proof.
  rewrite elem_of_delete_many. intros [_ Hp] Hn. rewrite Hn in Hp. simpl in Hp. by bool_to_prop.
Qed.

(** when the start-up reconciliation succeeds, the database carries this chain's genesis block
    at height 0 and no other one. *)
Theorem reconcile_genesis_sound g seeded d n d' :
  reconcile_genesis_block g seeded d = (Ok n, d') → genesis_of g d'.
Proof.
  unfold reconcile_genesis_block. intros Hrun.
  apply bind_Ok in Hrun as (d0 & d1 & E & Hrun). injection E as <- <-.
  destruct (List.find _ _) as [f|]; [done|].
  apply bind_Ok in Hrun as (head & d1 & E & Hrun).
  pose proof (get_metadata_reads "l2_head_block" d) as Hm.
  unfold get_l2_head_block_number in E. rewrite E in Hm. simpl in Hm. subst d1. clear E.
  destruct (_ || _).
  - destruct (bool_decide _) eqn:Enil; [done|].
    destruct (negb (existsb _ _)) eqn:Eex; [done|].
    unfold delete_mismatched_genesis_blocks in Hrun. rewrite delete_l2_blocks_run in Hrun.
    injection Hrun as _ <-. split; simpl.
    + bool_to_prop. apply existsb_exists in Eex as (h & Hh & Heq). apply Z.eqb_eq in Heq as <-.
      apply list_elem_of_In, elem_of_map in Hh as (r & Hr & Heq).
      apply elem_of_find in Hr as [Hr Hz]. exists r. bool_to_prop. split_and!; try done.
      apply elem_of_delete_many. split; [done|]. by rewrite Heq, Z.eqb_refl, andb_false_r.
    + intros r. apply mismatched_gone.
  - apply bind_Ok in Hrun as (removed & d1 & E & Hrun).
    unfold delete_mismatched_genesis_blocks in E. rewrite delete_l2_blocks_run in E.
    injection E as <- <-.
    apply bind_Ok in Hrun as ([] & d2 & E & Hrun). injection Hrun as _ <-.
    apply insert_genesis_run in E as [[_ ->]|[? _]]; [|done]. split; simpl.
    + apply upsert_genesis_present.
    + intros r Hr Hn. eapply upsert_genesis_height0; [done..|]. intros r0. apply mismatched_gone.
Qed.

(** a database that holds another chain's block at height 0 is refused, fresh or populated, and
    left as it is. *)
Theorem reconcile_genesis_foreign g seeded d r :
  r ∈ l2_block d → lr_block_number r = 0 → lr_block_hash r ≠ g → lr_block_hash r ≠ seeded →
  ∃ f, reconcile_genesis_block g seeded d = (Err (GenesisMismatch g f), d) ∧ f ≠ g ∧ f ≠ seeded.
Proof.
  intros Hr Hn Hg Hs. unfold reconcile_genesis_block, bind at 1, get.
  destruct (List.find _ _) as [f|] eqn:E.
  - apply List.find_some in E as [_ E]. bool_to_prop. by exists f.
  - eapply List.find_none in E; [|apply list_elem_of_In, elem_of_map; exists r; split;
      [by apply elem_of_find; rewrite Hn|done]].
    simpl in E. rewrite !(proj2 (Z.eqb_neq _ _)) in E by done. done.
Qed.

(** a populated database is never given a genesis block it did not have: without one, or with
    the shared migration seed only, the reconciliation fails and changes nothing. *)
Theorem reconcile_genesis_populated g seeded d r o d' :
  r ∈ l2_block d → 0 < lr_block_number r →
  (∀ r', r' ∈ l2_block d → lr_block_number r' = 0 → lr_block_hash r' ≠ g) →
  reconcile_genesis_block g seeded d = (o, d') → d' = d ∧ ∀ n, o ≠ Ok n.
Proof.
  intros Hr Hn Hno. unfold reconcile_genesis_block, bind at 1, get.
  destruct (List.find _ _) as [f|]; [unfold fail; intros; by simplify_eq|].
  unfold bind. pose proof (get_metadata_reads "l2_head_block" d) as Hm.
  unfold get_l2_head_block_number.
  destruct (get_metadata "l2_head_block" d) as [[head|?|] d1]; simpl in Hm; subst d1;
    [|intros; by simplify_eq..].
  destruct (one (find (λ r0, 0 <? lr_block_number r0) (l2_block d))) as [r1|] eqn:Eone.
  2:{ apply one_None in Eone. exfalso.
      assert (r ∈ find (λ r0, 0 <? lr_block_number r0) (l2_block d)) as Hin
        by (apply elem_of_find; by rewrite (proj2 (Z.ltb_lt _ _))).
      rewrite Eone in Hin. by apply not_elem_of_nil in Hin. }
  rewrite orb_true_r. destruct (bool_decide _); [unfold fail; intros; by simplify_eq|].
  destruct (existsb _ _) eqn:Eex; [|unfold fail; intros; by simplify_eq/=].
  exfalso. apply existsb_exists in Eex as (h & Hh & Heq). apply Z.eqb_eq in Heq as <-.
  apply list_elem_of_In, elem_of_map in Hh as (r2 & Hr2 & Heq).
  apply elem_of_find in Hr2 as [Hr2 Hz]. bool_to_prop. by apply (Hno r2).
Qed.
End Props.
