(* ===== verification/DbService.v ===== *)
(** * The database service (crates/database/db/src/service, transaction.rs)

    Transactions around the operations of [DbOps], and the retry loop around transactions.  The
    failures of the SQLite driver (a busy database, a failed commit) come from the environment:
    an [Io] value says how the driver behaves in one attempt. *)

From S2P Require Import Prelude Sql Primitives DbModel DbOps.

(** [CanRetry]: whether an error may be retried. *)
Class CanRetry (E : Type) := can_retry : E → bool.

#[global] Instance DatabaseError_can_retry : CanRetry DatabaseError := λ e,
  match e with DbErr _ | SqlxError _ => true | _ => false end.

(** [DatabaseServiceError]: errors a database error converts into. *)
Class FromDatabaseError (E : Type) := from_db : DatabaseError → E.
#[global] Instance from_db_id : FromDatabaseError DatabaseError := λ e, e.

(** How the driver behaves during one attempt: the error of [begin], [commit] or [rollback]. *)
Record Io := mkIo {
  io_begin : option DatabaseError;
  io_commit : option DatabaseError;
  io_rollback : option DatabaseError
}.
Definition io_ok : Io := mkIo None None None.

Inductive DatabaseQuery (T Err : Type) :=
| Read (f : M Db Err T)
| Write (f : M Db Err T).
Arguments Read {T Err} f.
Arguments Write {T Err} f.

Section Service.
Context {E : Type} `{FromDatabaseError E} `{CanRetry E}.

(** [DatabaseService::call] of [Arc<DatabaseInner>]: one transaction.  A transaction that is
    dropped (after a read, or when the query panics) is rolled back. *)
Definition call {T} (io : Io) (req : DatabaseQuery T E) (d : Db) : outcome E T * Db :=
  match io_begin io with
  | Some e => (Err (from_db e), d)
  | None =>
      match req with
      | Read f => ((f d).1, d)
      | Write f =>
          match f d with
          | (Ok a, d') =>
              match io_commit io with
              | None => (Ok a, d')
              | Some e => (Err (from_db e), d)
              end
          | (Err e, _) =>
              match io_rollback io with
              | None => (Err e, d)
              | Some e' => (Err (from_db e'), d)
              end
          | (Panic, _) => (Panic, d)
          end
      end
  end.

(** [Retry]: the number of retries (unlimited when [None]) and the delay policy. *)
Record Retry := mkRetry {
  max_retries : option nat;
  initial_delay_ms : Z;
  exponential_backoff : bool
}.

Definition new_with_default_config : Retry := mkRetry None 50 false.

(** [2_u64.pow(k)] for a [u32] exponent, with the wrap-around of the release profile. *)
Definition wrapping_pow2 (k : Z) : Z := if k <? 64 then 2 ^ k else 0.

Definition delay_ms (r : Retry) (attempt : nat) : Z :=
  if exponential_backoff r
  then (initial_delay_ms r * wrapping_pow2 ((Z.of_nat attempt - 1) mod 2 ^ 32)) mod u64_mod
  else initial_delay_ms r.

(** [Retry::call]: the loop, with the driver's behaviour in each attempt and at most [fuel]
    attempts.  The result carries the delays slept; [None] means the loop is still running. *)
Fixpoint retry_loop {T} (r : Retry) (ios : nat → Io) (req : DatabaseQuery T E)
    (fuel attempt : nat) (d : Db) : option (outcome E T * Db * list Z) :=
  match fuel with
  | O => None
  | S fuel =>
      match call (ios attempt) req d with
      | (Ok a, d') => Some (Ok a, d', [])
      | (Panic, d') => Some (Panic, d', [])
      | (Err error, d') =>
          if negb (can_retry error) then Some (Err error, d', [])
          else if match max_retries r with
                  | Some m => Nat.leb m attempt
                  | None => false
                  end then Some (Err error, d', [])
          else
            match retry_loop r ios req fuel (S attempt) d' with
            | Some (o, d'', delays) => Some (o, d'', delay_ms r attempt :: delays)
            | None => None
            end
      end
  end.

Definition retry_call {T} (r : Retry) (ios : nat → Io) (req : DatabaseQuery T E)
    (fuel : nat) (d : Db) : option (outcome E T * Db * list Z) :=
  retry_loop r ios req fuel 0 d.

(** ** Properties *)

Lemma call_atomic {T} io (req : DatabaseQuery T E) d o d' :
  call io req d = (o, d') →
  d' = d ∨ ∃ f a, req = Write f ∧ f d = (Ok a, d') ∧ o = Ok a.
Proof.
  unfold call. destruct (io_begin io); [intros; simplify_eq; auto|].
  destruct req as [f|f]; [intros; simplify_eq; auto|].
  destruct (f d) as [[a|e|] d1] eqn:Ef; [destruct (io_commit io)|destruct (io_rollback io)|];
    intros; simplify_eq; eauto 6.
Qed.

Lemma call_ok {T} io (req : DatabaseQuery T E) d a d' :
  call io req d = (Ok a, d') →
  match req with Read f => (f d).1 = Ok a ∧ d' = d | Write f => f d = (Ok a, d') end.
Proof.
  unfold call. destruct (io_begin io); [done|]. destruct req as [f|f].
  - by intros [= -> ->].
  - destruct (f d) as [[a'|e|] d1] eqn:Ef; [destruct (io_commit io)|destruct (io_rollback io)|];
      intros; by simplify_eq.
Qed.

Lemma call_err {T} io (req : DatabaseQuery T E) d o d' :
  call io req d = (o, d') → is_ok o = false → d' = d.
Proof. intros Hc Ho. apply call_atomic in Hc as [->|(f & a & _ & _ & ->)]; done. Qed.

(** a write reaches the database as a whole or not at all, through any number of retries: the
    database changes only to the state of one complete run of the query on the initial database,
    whose result is returned. *)
Theorem retry_atomic {T} r ios (f : M Db E T) fuel d o d' delays :
  retry_call r ios (Write f) fuel d = Some (o, d', delays) →
  (∃ a, o = Ok a ∧ f d = (Ok a, d')) ∨ (is_ok o = false ∧ d' = d).
Proof.
  unfold retry_call. generalize 0%nat as attempt. revert delays o d'.
  induction fuel as [|fuel IH]; intros delays o d' attempt; simpl; [done|].
  destruct (call (ios attempt) (Write f) d) as [[a|e|] d1] eqn:Ec.
  - intros; simplify_eq. left. apply call_ok in Ec. eauto.
  - pose proof (call_err _ _ _ _ _ Ec eq_refl) as ->.
    destruct (negb (can_retry e)); [intros; simplify_eq; auto|].
    destruct (match max_retries r with Some m => Nat.leb m attempt | None => false end);
      [intros; simplify_eq; auto|].
    destruct (retry_loop r ios (Write f) fuel (S attempt) d) as [[[o1 d1] ds]|] eqn:El; [|done].
    intros; simplify_eq. eauto.
  - pose proof (call_err _ _ _ _ _ Ec eq_refl) as ->. intros; simplify_eq. auto.
Qed.

(** with a bounded number of retries the loop returns after at most [m + 1] attempts. *)
Theorem retry_bounded_returns {T} r m ios (req : DatabaseQuery T E) d :
  max_retries r = Some m → is_Some (retry_call r ios req (S m) d).
Proof.
  intros Hm. unfold retry_call.
  assert (∀ k attempt d, (m - attempt < k)%nat → is_Some (retry_loop r ios req k attempt d)) as Hk.
  { clear d. induction k as [|k IH]; intros attempt d Hlt; [lia|]. simpl.
    destruct (call (ios attempt) req d) as [[a|e|] d1]; [by eexists| |by eexists].
    destruct (negb (can_retry e)); [by eexists|]. rewrite Hm.
    destruct (Nat.leb_spec m attempt); [by eexists|].
    destruct (IH (S attempt) d1) as [[[o d2] ds] ->]; [lia|by eexists]. }
  apply Hk. lia.
Qed.

(** a query that fails [k] times with retryable errors and then succeeds returns that success,
    having run once on the initial database, after [k] delays. *)
Theorem retry_transient {T} r ios (f : M Db E T) k d a d' :
  max_retries r = None →
  (∀ i, (i < k)%nat → ∃ e, io_begin (ios i) = Some e ∧ can_retry (from_db e) = true) →
  ios k = io_ok → f d = (Ok a, d') →
  retry_call r ios (Write f) (S k) d = Some (Ok a, d', map (delay_ms r) (seq 0 k)).
Proof.
  intros Hm Hfail Hok Hf. unfold retry_call.
  assert (∀ n i, (i + n = k)%nat →
    retry_loop r ios (Write f) (S n) i d = Some (Ok a, d', map (delay_ms r) (seq i n))) as Hi.
  { induction n as [|n IH]; intros i Hi.
    - rewrite Nat.add_0_r in Hi. subst i. simpl. rewrite Hok. unfold call. simpl. by rewrite Hf.
    - change (retry_loop r ios (Write f) (S (S n)) i d) with
        (match call (ios i) (Write f) d with
         | (Ok a, d') => Some (Ok a, d', [])
         | (Panic, d') => Some (Panic, d', [])
         | (Err error, d') =>
             if negb (can_retry error) then Some (Err error, d', [])
             else if match max_retries r with
                     | Some m => Nat.leb m i | None => false end then Some (Err error, d', [])
             else match retry_loop r ios (Write f) (S n) (S i) d' with
                  | Some (o, d'', delays) => Some (o, d'', delay_ms r i :: delays)
                  | None => None
                  end
         end).
      destruct (Hfail i) as (e & He & Hr); [lia|]. unfold call. rewrite He, Hr, Hm. simpl negb.
      cbv iota. rewrite IH by lia. done. }
  by apply Hi.
Qed.

(** A query that always fails with a retryable error keeps the default configuration retrying. *)
Lemma retry_forever {T} r ios (req : DatabaseQuery T E) d :
  max_retries r = None →
  (∀ i, ∃ e, call (ios i) req d = (Err e, d) ∧ can_retry e = true) →
  ∀ fuel, retry_call r ios req fuel d = None.
Proof.
  intros Hm Hfail fuel. unfold retry_call. generalize 0%nat as i.
  induction fuel as [|fuel IH]; intros i; simpl; [done|].
  destruct (Hfail i) as (e & -> & Hr). by rewrite Hr, Hm, IH.
Qed.
End Service.

Section Permanent.
Context `{SqlEngine} `{Chain}.

(** a permanent failure is retried for ever.  Storing blocks of a batch the database does not
    hold violates the foreign key, which is reported as a driver error, and every driver error
    counts as transient: with the default configuration the call never returns. *)
Theorem foreign_key_failure_never_returns b bs batch d fuel :
  try_i64 (number b) ≠ None → try_i64 (b_index batch) ≠ None → (∀ b', b' ∈ bs → try_i64 (number b') ≠ None) →
  b_hash batch ∉ map br_hash (batch_commit d) →
  retry_call new_with_default_config (λ _, io_ok) (Write (insert_blocks (b :: bs) batch)) fuel d = None.
Proof.
  intros Hb Hi Hbs Hno. apply retry_forever; [done|]. intros _.
  exists (DbErr "FOREIGN KEY constraint failed"). split; [|done].
  assert (∀ l, (∀ b', b' ∈ l → try_i64 (number b') ≠ None) →
    ∃ rows, L2Rows_from (E := DatabaseError) l batch = Ok rows ∧ length rows = length l) as Hrows.
  { induction l as [|x l IH]; intros Hl; simpl; [by exists []|].
    destruct IH as (rows & -> & Hlen); [intros; apply Hl; by right|].
    unfold L2Row_from. destruct (try_i64 (number x)) eqn:Ex; [|by destruct (Hl x); [left|]].
    destruct (try_i64 (b_index batch)); [|done]. simpl. eexists. split; [done|]. simpl. lia. }
  destruct (Hrows (b :: bs)) as (rows & Hr & Hlen);
    [by intros b' [->|Hb']%elem_of_cons; [|by apply Hbs]|].
  unfold call, io_ok, insert_blocks. cbn [io_begin]. unfold bind at 1, lift. rewrite Hr.
  unfold bind, get. destruct rows as [|r rows]; [done|].
  rewrite bool_decide_false by done.
  assert (is_in (b_hash batch) (map br_hash (batch_commit d)) = false) as Hf.
  { apply not_true_iff_false. by rewrite is_in_true. }
  cbn. rewrite Hf. done.
Qed.
End Permanent.
