(* ===== verification/Database.v ===== *)
(** * The node's database handle (crates/database/db/src/db.rs)

    [Database] offers every operation of [DbOps] as a call of its own: one transaction, run through
    the retry service of [DbService].  The components of the node share this handle, so the
    theorems here say what a client of the handle may rely on, whatever the SQLite driver does.
    The two queries on the table of block data hints are in [Pipeline], with that table. *)

From S2P Require Import Prelude Sql Primitives DbModel DbOps DbInvariant DbService.

(** A call in progress: the driver's behaviour in each attempt, a bound on the attempts, and the
    database; [None] when the bound is reached before the call returns. *)
Definition Call (T : Type) : Type :=
  (nat → Io) → nat → Db → option (outcome DatabaseError T * Db * list Z).

(** [Database::tx] and [Database::tx_mut], on the configuration [Database::new] chooses. *)
Definition Database_tx {T} (f : M Db DatabaseError T) : Call T := λ ios fuel d,
  retry_call new_with_default_config ios (Read f) fuel d.
Definition Database_tx_mut {T} (f : M Db DatabaseError T) : Call T := λ ios fuel d,
  retry_call new_with_default_config ios (Write f) fuel d.

Section Methods.
Context `{SqlEngine} `{Chain}.

(** ** [impl DatabaseWriteOperations for Database] *)

Definition Database_insert_l1_block_info (block_info : BlockInfo) : Call unit :=
  Database_tx_mut (insert_l1_block_info block_info).

Definition Database_remove_l1_block_info_leq (block_info : Z) : Call unit :=
  Database_tx_mut (remove_l1_block_info_leq block_info).

Definition Database_remove_l1_block_info_gt (block_info : Z) : Call unit :=
  Database_tx_mut (remove_l1_block_info_gt block_info).

Definition Database_delete_batch_finalization_gt_block_number (block_number : Z) : Call unit :=
  Database_tx_mut (delete_batch_finalization_gt_block_number block_number).

Definition Database_set_batch_revert_block_number_for_batch_range (start_index : Z) (end_index : Z) (block_info : BlockInfo) :
    Call unit :=
  Database_tx_mut (set_batch_revert_block_number_for_batch_range start_index end_index block_info).

Definition Database_delete_batch_revert_gt_block_number (block_number : Z) : Call Z :=
  Database_tx_mut (delete_batch_revert_gt_block_number block_number).

Definition Database_finalize_consolidated_batches (finalized_l1_block_number : Z) :
    Call (option BlockInfo) :=
  Database_tx_mut (finalize_consolidated_batches finalized_l1_block_number).

Definition Database_change_batch_processing_to_committed_status : Call unit :=
  Database_tx_mut change_batch_processing_to_committed_status.

Definition Database_update_batch_status (batch_hash : B256) (status : BatchStatus) : Call unit :=
  Database_tx_mut (update_batch_status batch_hash status).

Definition Database_transition_batch_status (batch_hash : B256) (from : BatchStatus) (to : BatchStatus) :
    Call bool :=
  Database_tx_mut (transition_batch_status batch_hash from to).

Definition Database_insert_batch (batch_commit : BatchCommitData) : Call unit :=
  Database_tx_mut (insert_batch batch_commit).

Definition Database_finalize_batches_up_to_index (batch_index : Z) (block_number : Z) : Call unit :=
  Database_tx_mut (finalize_batches_up_to_index batch_index block_number).

Definition Database_set_latest_l1_block_number (block_number : Z) : Call unit :=
  Database_tx_mut (set_latest_l1_block_number block_number).

Definition Database_set_finalized_l1_block_number (block_number : Z) : Call unit :=
  Database_tx_mut (set_finalized_l1_block_number block_number).

Definition Database_set_processed_l1_block_number (block_number : Z) : Call unit :=
  Database_tx_mut (set_processed_l1_block_number block_number).

Definition Database_set_l2_head_block_number (number : Z) : Call unit :=
  Database_tx_mut (set_l2_head_block_number number).

Definition Database_fetch_and_update_unprocessed_finalized_batches (finalized_l1_block_number : Z) :
    Call (list BatchInfo) :=
  Database_tx_mut (fetch_and_update_unprocessed_finalized_batches finalized_l1_block_number).

Definition Database_fetch_and_update_unprocessed_committed_batches : Call (list BatchInfo) :=
  Database_tx_mut fetch_and_update_unprocessed_committed_batches.

Definition Database_delete_batches_gt_block_number (block_number : Z) : Call Z :=
  Database_tx_mut (delete_batches_gt_block_number block_number).

Definition Database_delete_batches_gt_batch_index (batch_index : Z) : Call Z :=
  Database_tx_mut (delete_batches_gt_batch_index batch_index).

Definition Database_insert_l1_message (l1_message : L1MessageEnvelope) : Call unit :=
  Database_tx_mut (insert_l1_message l1_message).

Definition Database_update_skipped_l1_messages (indexes : list Z) : Call unit :=
  Database_tx_mut (update_skipped_l1_messages indexes).

Definition Database_delete_l1_messages_gt (l1_block_number : Z) : Call (list L1MessageEnvelope) :=
  Database_tx_mut (delete_l1_messages_gt l1_block_number).

Definition Database_prepare_l1_watcher_start_info : Call L1BlockStartupInfo :=
  Database_tx_mut prepare_l1_watcher_start_info.

Definition Database_delete_l2_blocks_gt_block_number (block_number : Z) : Call Z :=
  Database_tx_mut (delete_l2_blocks_gt_block_number block_number).

Definition Database_delete_l2_blocks_gt_batch_index (batch_index : Z) : Call Z :=
  Database_tx_mut (delete_l2_blocks_gt_batch_index batch_index).

Definition Database_insert_blocks (blocks : list BlockInfo) (batch_info : BatchInfo) : Call unit :=
  Database_tx_mut (insert_blocks blocks batch_info).

Definition Database_insert_genesis_block (genesis_hash : B256) : Call unit :=
  Database_tx_mut (insert_genesis_block genesis_hash).

Definition Database_delete_mismatched_genesis_blocks (genesis_hash : B256) : Call Z :=
  Database_tx_mut (delete_mismatched_genesis_blocks genesis_hash).

Definition Database_reconcile_genesis_block (genesis_hash : B256) (seeded_genesis : B256) :
    Call Z :=
  Database_tx_mut (reconcile_genesis_block genesis_hash seeded_genesis).

Definition Database_update_l1_messages_from_l2_blocks (blocks : list L2BlockInfoWithL1Messages) :
    Call unit :=
  Database_tx_mut (update_l1_messages_from_l2_blocks blocks).

Definition Database_update_l1_messages_with_l2_blocks (blocks : list L2BlockInfoWithL1Messages) :
    Call unit :=
  Database_tx_mut (update_l1_messages_with_l2_blocks blocks).

Definition Database_purge_l1_message_to_l2_block_mappings (block_number : option Z) : Call unit :=
  Database_tx_mut (purge_l1_message_to_l2_block_mappings block_number).

Definition Database_insert_batch_consolidation_outcome (outcome : BatchConsolidationOutcome) :
    Call unit :=
  Database_tx_mut (insert_batch_consolidation_outcome outcome).

Definition Database_unwind (l1_block_number : Z) : Call UnwindResult :=
  Database_tx_mut (unwind l1_block_number).

Definition Database_insert_signatures (signatures : list (B256 * Signature)) : Call unit :=
  Database_tx_mut (insert_signatures signatures).

Definition Database_insert_signature (block_hash : B256) (signature : Signature) : Call unit :=
  Database_tx_mut (insert_signature block_hash signature).

(** ** [impl DatabaseReadOperations for Database] *)

Definition Database_get_batch_by_index (batch_index : Z) : Call (option BatchCommitData) :=
  Database_tx (get_batch_by_index batch_index).

Definition Database_get_batch_by_hash (batch_hash : B256) : Call (option BatchCommitData) :=
  Database_tx (get_batch_by_hash batch_hash).

Definition Database_get_latest_indexed_event_l1_block_number : Call (option Z) :=
  Database_tx get_latest_indexed_event_l1_block_number.

Definition Database_get_l1_block_info : Call (list BlockInfo) :=
  Database_tx get_l1_block_info.

Definition Database_get_latest_l1_block_number : Call Z :=
  Database_tx get_latest_l1_block_number.

Definition Database_get_finalized_l1_block_number : Call Z :=
  Database_tx get_finalized_l1_block_number.

Definition Database_get_processed_l1_block_number : Call Z :=
  Database_tx get_processed_l1_block_number.

Definition Database_get_l2_head_block_number : Call Z :=
  Database_tx get_l2_head_block_number.

Definition Database_get_n_l1_messages (start : option L1MessageKey) (n : nat) :
    Call (list L1MessageEnvelope) :=
  Database_tx (get_n_l1_messages start n).

Definition Database_get_l2_block_and_batch_info_by_hash (block_hash : B256) :
    Call (option (BlockInfo * BatchInfo)) :=
  Database_tx (get_l2_block_and_batch_info_by_hash block_hash).

Definition Database_get_l2_block_info_by_number (block_number : Z) : Call (option BlockInfo) :=
  Database_tx (get_l2_block_info_by_number block_number).

Definition Database_get_latest_safe_l2_info : Call (BlockInfo * BatchInfo) :=
  Database_tx get_latest_safe_l2_info.

Definition Database_get_highest_block_for_batch_hash (batch_hash : B256) :
    Call (option BlockInfo) :=
  Database_tx (get_highest_block_for_batch_hash batch_hash).

Definition Database_get_highest_block_for_batch_index (batch_index : Z) : Call (option BlockInfo) :=
  Database_tx (get_highest_block_for_batch_index batch_index).

Definition Database_get_signature (block_hash : B256) : Call (option Signature) :=
  Database_tx (get_signature block_hash).

(** ** The two interfaces, as data *)

Inductive DatabaseWriteOperations : Type → Type :=
| InsertL1BlockInfo (block_info : BlockInfo) : DatabaseWriteOperations unit
| RemoveL1BlockInfoLeq (block_info : Z) : DatabaseWriteOperations unit
| RemoveL1BlockInfoGt (block_info : Z) : DatabaseWriteOperations unit
| DeleteBatchFinalizationGtBlockNumber (block_number : Z) : DatabaseWriteOperations unit
| SetBatchRevertBlockNumberForBatchRange (start_index : Z) (end_index : Z) (block_info : BlockInfo) : DatabaseWriteOperations unit
| DeleteBatchRevertGtBlockNumber (block_number : Z) : DatabaseWriteOperations Z
| FinalizeConsolidatedBatches (finalized_l1_block_number : Z) : DatabaseWriteOperations (option BlockInfo)
| ChangeBatchProcessingToCommittedStatus : DatabaseWriteOperations unit
| UpdateBatchStatus (batch_hash : B256) (status : BatchStatus) : DatabaseWriteOperations unit
| TransitionBatchStatus (batch_hash : B256) (from : BatchStatus) (to : BatchStatus) : DatabaseWriteOperations bool
| InsertBatch (batch_commit : BatchCommitData) : DatabaseWriteOperations unit
| FinalizeBatchesUpToIndex (batch_index : Z) (block_number : Z) : DatabaseWriteOperations unit
| SetLatestL1BlockNumber (block_number : Z) : DatabaseWriteOperations unit
| SetFinalizedL1BlockNumber (block_number : Z) : DatabaseWriteOperations unit
| SetProcessedL1BlockNumber (block_number : Z) : DatabaseWriteOperations unit
| SetL2HeadBlockNumber (number : Z) : DatabaseWriteOperations unit
| FetchAndUpdateUnprocessedFinalizedBatches (finalized_l1_block_number : Z) : DatabaseWriteOperations (list BatchInfo)
| FetchAndUpdateUnprocessedCommittedBatches : DatabaseWriteOperations (list BatchInfo)
| DeleteBatchesGtBlockNumber (block_number : Z) : DatabaseWriteOperations Z
| DeleteBatchesGtBatchIndex (batch_index : Z) : DatabaseWriteOperations Z
| InsertL1Message (l1_message : L1MessageEnvelope) : DatabaseWriteOperations unit
| UpdateSkippedL1Messages (indexes : list Z) : DatabaseWriteOperations unit
| DeleteL1MessagesGt (l1_block_number : Z) : DatabaseWriteOperations (list L1MessageEnvelope)
| PrepareL1WatcherStartInfo : DatabaseWriteOperations L1BlockStartupInfo
| DeleteL2BlocksGtBlockNumber (block_number : Z) : DatabaseWriteOperations Z
| DeleteL2BlocksGtBatchIndex (batch_index : Z) : DatabaseWriteOperations Z
| InsertBlocks (blocks : list BlockInfo) (batch_info : BatchInfo) : DatabaseWriteOperations unit
| InsertGenesisBlock (genesis_hash : B256) : DatabaseWriteOperations unit
| DeleteMismatchedGenesisBlocks (genesis_hash : B256) : DatabaseWriteOperations Z
| ReconcileGenesisBlock (genesis_hash : B256) (seeded_genesis : B256) : DatabaseWriteOperations Z
| UpdateL1MessagesFromL2Blocks (blocks : list L2BlockInfoWithL1Messages) : DatabaseWriteOperations unit
| UpdateL1MessagesWithL2Blocks (blocks : list L2BlockInfoWithL1Messages) : DatabaseWriteOperations unit
| PurgeL1MessageToL2BlockMappings (block_number : option Z) : DatabaseWriteOperations unit
| InsertBatchConsolidationOutcome (outcome : BatchConsolidationOutcome) : DatabaseWriteOperations unit
| Unwind (l1_block_number : Z) : DatabaseWriteOperations UnwindResult
| InsertSignatures (signatures : list (B256 * Signature)) : DatabaseWriteOperations unit
| InsertSignature (block_hash : B256) (signature : Signature) : DatabaseWriteOperations unit.

Inductive DatabaseReadOperations : Type → Type :=
| GetBatchByIndex (batch_index : Z) : DatabaseReadOperations (option BatchCommitData)
| GetBatchByHash (batch_hash : B256) : DatabaseReadOperations (option BatchCommitData)
| GetLatestIndexedEventL1BlockNumber : DatabaseReadOperations (option Z)
| GetL1BlockInfo : DatabaseReadOperations (list BlockInfo)
| GetLatestL1BlockNumber : DatabaseReadOperations Z
| GetFinalizedL1BlockNumber : DatabaseReadOperations Z
| GetProcessedL1BlockNumber : DatabaseReadOperations Z
| GetL2HeadBlockNumber : DatabaseReadOperations Z
| GetNL1Messages (start : option L1MessageKey) (n : nat) : DatabaseReadOperations (list L1MessageEnvelope)
| GetL2BlockAndBatchInfoByHash (block_hash : B256) : DatabaseReadOperations (option (BlockInfo * BatchInfo))
| GetL2BlockInfoByNumber (block_number : Z) : DatabaseReadOperations (option BlockInfo)
| GetLatestSafeL2Info : DatabaseReadOperations (BlockInfo * BatchInfo)
| GetHighestBlockForBatchHash (batch_hash : B256) : DatabaseReadOperations (option BlockInfo)
| GetHighestBlockForBatchIndex (batch_index : Z) : DatabaseReadOperations (option BlockInfo)
| GetSignature (block_hash : B256) : DatabaseReadOperations (option Signature).

Definition Database_write {T} (o : DatabaseWriteOperations T) : Call T :=
  match o with
  | InsertL1BlockInfo block_info => Database_insert_l1_block_info block_info
  | RemoveL1BlockInfoLeq block_info => Database_remove_l1_block_info_leq block_info
  | RemoveL1BlockInfoGt block_info => Database_remove_l1_block_info_gt block_info
  | DeleteBatchFinalizationGtBlockNumber block_number => Database_delete_batch_finalization_gt_block_number block_number
  | SetBatchRevertBlockNumberForBatchRange start_index end_index block_info => Database_set_batch_revert_block_number_for_batch_range start_index end_index block_info
  | DeleteBatchRevertGtBlockNumber block_number => Database_delete_batch_revert_gt_block_number block_number
  | FinalizeConsolidatedBatches finalized_l1_block_number => Database_finalize_consolidated_batches finalized_l1_block_number
  | ChangeBatchProcessingToCommittedStatus => Database_change_batch_processing_to_committed_status
  | UpdateBatchStatus batch_hash status => Database_update_batch_status batch_hash status
  | TransitionBatchStatus batch_hash from to => Database_transition_batch_status batch_hash from to
  | InsertBatch batch_commit => Database_insert_batch batch_commit
  | FinalizeBatchesUpToIndex batch_index block_number => Database_finalize_batches_up_to_index batch_index block_number
  | SetLatestL1BlockNumber block_number => Database_set_latest_l1_block_number block_number
  | SetFinalizedL1BlockNumber block_number => Database_set_finalized_l1_block_number block_number
  | SetProcessedL1BlockNumber block_number => Database_set_processed_l1_block_number block_number
  | SetL2HeadBlockNumber number => Database_set_l2_head_block_number number
  | FetchAndUpdateUnprocessedFinalizedBatches finalized_l1_block_number => Database_fetch_and_update_unprocessed_finalized_batches finalized_l1_block_number
  | FetchAndUpdateUnprocessedCommittedBatches => Database_fetch_and_update_unprocessed_committed_batches
  | DeleteBatchesGtBlockNumber block_number => Database_delete_batches_gt_block_number block_number
  | DeleteBatchesGtBatchIndex batch_index => Database_delete_batches_gt_batch_index batch_index
  | InsertL1Message l1_message => Database_insert_l1_message l1_message
  | UpdateSkippedL1Messages indexes => Database_update_skipped_l1_messages indexes
  | DeleteL1MessagesGt l1_block_number => Database_delete_l1_messages_gt l1_block_number
  | PrepareL1WatcherStartInfo => Database_prepare_l1_watcher_start_info
  | DeleteL2BlocksGtBlockNumber block_number => Database_delete_l2_blocks_gt_block_number block_number
  | DeleteL2BlocksGtBatchIndex batch_index => Database_delete_l2_blocks_gt_batch_index batch_index
  | InsertBlocks blocks batch_info => Database_insert_blocks blocks batch_info
  | InsertGenesisBlock genesis_hash => Database_insert_genesis_block genesis_hash
  | DeleteMismatchedGenesisBlocks genesis_hash => Database_delete_mismatched_genesis_blocks genesis_hash
  | ReconcileGenesisBlock genesis_hash seeded_genesis => Database_reconcile_genesis_block genesis_hash seeded_genesis
  | UpdateL1MessagesFromL2Blocks blocks => Database_update_l1_messages_from_l2_blocks blocks
  | UpdateL1MessagesWithL2Blocks blocks => Database_update_l1_messages_with_l2_blocks blocks
  | PurgeL1MessageToL2BlockMappings block_number => Database_purge_l1_message_to_l2_block_mappings block_number
  | InsertBatchConsolidationOutcome outcome => Database_insert_batch_consolidation_outcome outcome
  | Unwind l1_block_number => Database_unwind l1_block_number
  | InsertSignatures signatures => Database_insert_signatures signatures
  | InsertSignature block_hash signature => Database_insert_signature block_hash signature
  end.

Definition Database_read {T} (o : DatabaseReadOperations T) : Call T :=
  match o with
  | GetBatchByIndex batch_index => Database_get_batch_by_index batch_index
  | GetBatchByHash batch_hash => Database_get_batch_by_hash batch_hash
  | GetLatestIndexedEventL1BlockNumber => Database_get_latest_indexed_event_l1_block_number
  | GetL1BlockInfo => Database_get_l1_block_info
  | GetLatestL1BlockNumber => Database_get_latest_l1_block_number
  | GetFinalizedL1BlockNumber => Database_get_finalized_l1_block_number
  | GetProcessedL1BlockNumber => Database_get_processed_l1_block_number
  | GetL2HeadBlockNumber => Database_get_l2_head_block_number
  | GetNL1Messages start n => Database_get_n_l1_messages start n
  | GetL2BlockAndBatchInfoByHash block_hash => Database_get_l2_block_and_batch_info_by_hash block_hash
  | GetL2BlockInfoByNumber block_number => Database_get_l2_block_info_by_number block_number
  | GetLatestSafeL2Info => Database_get_latest_safe_l2_info
  | GetHighestBlockForBatchHash batch_hash => Database_get_highest_block_for_batch_hash batch_hash
  | GetHighestBlockForBatchIndex batch_index => Database_get_highest_block_for_batch_index batch_index
  | GetSignature block_hash => Database_get_signature block_hash
  end.
End Methods.

(** ** What the handle promises *)

Section Refinement.
Context `{SqlEngine} `{Chain}.

(** The specification of a call: one transaction on the current database. *)
Definition transaction {T} (q : DatabaseQuery T DatabaseError) (d : Db) :
    outcome DatabaseError T * Db :=
  match q with
  | Read f => ((f d).1, d)
  | Write f => match f d with (Ok a, d') => (Ok a, d') | (o, _) => (o, d) end
  end.

(** The errors of the driver itself are [DbErr]s ([begin], [commit] and [rollback] convert them with
    the question mark operator), so they count as transient. *)
Definition driver (io : Io) : Prop :=
  Forall (λ e, can_retry e = true)
    (option_list (io_begin io) ++ option_list (io_commit io) ++ option_list (io_rollback io)).

(** Operations that may be asked of the handle, and what a client observes of a series of them. *)
Inductive Request :=
| WriteRequest {T} (w : DatabaseWriteOperations T)
| ReadRequest {T} (r : DatabaseReadOperations T).

Definition Answer : Type := {T : Type & outcome DatabaseError T}.
Definition answer {T} (o : outcome DatabaseError T) : Answer := existT T o.

Definition serve (q : Request) (ios : nat → Io) (fuel : nat) (d : Db) : option (Answer * Db) :=
  match q with
  | WriteRequest w => (λ '(o, d', _), (answer o, d')) <$> Database_write w ios fuel d
  | ReadRequest r => (λ '(o, d', _), (answer o, d')) <$> Database_read r ios fuel d
  end.

Fixpoint serve_all (qs : list (Request * (nat → Io) * nat)) (d : Db) : option (list Answer * Db) :=
  match qs with
  | [] => Some ([], d)
  | (q, ios, fuel) :: qs =>
      match serve q ios fuel d with
      | Some (a, d) => (λ '(answers, d), (a :: answers, d)) <$> serve_all qs d
      | None => None
      end
  end.

(** The operation behind a request, run once on the database. *)
Definition write_query {T} (w : DatabaseWriteOperations T) : M Db DatabaseError T :=
  match w with
  | InsertL1BlockInfo block_info => insert_l1_block_info block_info
  | RemoveL1BlockInfoLeq block_info => remove_l1_block_info_leq block_info
  | RemoveL1BlockInfoGt block_info => remove_l1_block_info_gt block_info
  | DeleteBatchFinalizationGtBlockNumber block_number => delete_batch_finalization_gt_block_number block_number
  | SetBatchRevertBlockNumberForBatchRange start_index end_index block_info => set_batch_revert_block_number_for_batch_range start_index end_index block_info
  | DeleteBatchRevertGtBlockNumber block_number => delete_batch_revert_gt_block_number block_number
  | FinalizeConsolidatedBatches finalized_l1_block_number => finalize_consolidated_batches finalized_l1_block_number
  | ChangeBatchProcessingToCommittedStatus => change_batch_processing_to_committed_status
  | UpdateBatchStatus batch_hash status => update_batch_status batch_hash status
  | TransitionBatchStatus batch_hash from to => transition_batch_status batch_hash from to
  | InsertBatch batch_commit => insert_batch batch_commit
  | FinalizeBatchesUpToIndex batch_index block_number => finalize_batches_up_to_index batch_index block_number
  | SetLatestL1BlockNumber block_number => set_latest_l1_block_number block_number
  | SetFinalizedL1BlockNumber block_number => set_finalized_l1_block_number block_number
  | SetProcessedL1BlockNumber block_number => set_processed_l1_block_number block_number
  | SetL2HeadBlockNumber number => set_l2_head_block_number number
  | FetchAndUpdateUnprocessedFinalizedBatches finalized_l1_block_number => fetch_and_update_unprocessed_finalized_batches finalized_l1_block_number
  | FetchAndUpdateUnprocessedCommittedBatches => fetch_and_update_unprocessed_committed_batches
  | DeleteBatchesGtBlockNumber block_number => delete_batches_gt_block_number block_number
  | DeleteBatchesGtBatchIndex batch_index => delete_batches_gt_batch_index batch_index
  | InsertL1Message l1_message => insert_l1_message l1_message
  | UpdateSkippedL1Messages indexes => update_skipped_l1_messages indexes
  | DeleteL1MessagesGt l1_block_number => delete_l1_messages_gt l1_block_number
  | PrepareL1WatcherStartInfo => prepare_l1_watcher_start_info
  | DeleteL2BlocksGtBlockNumber block_number => delete_l2_blocks_gt_block_number block_number
  | DeleteL2BlocksGtBatchIndex batch_index => delete_l2_blocks_gt_batch_index batch_index
  | InsertBlocks blocks batch_info => insert_blocks blocks batch_info
  | InsertGenesisBlock genesis_hash => insert_genesis_block genesis_hash
  | DeleteMismatchedGenesisBlocks genesis_hash => delete_mismatched_genesis_blocks genesis_hash
  | ReconcileGenesisBlock genesis_hash seeded_genesis => reconcile_genesis_block genesis_hash seeded_genesis
  | UpdateL1MessagesFromL2Blocks blocks => update_l1_messages_from_l2_blocks blocks
  | UpdateL1MessagesWithL2Blocks blocks => update_l1_messages_with_l2_blocks blocks
  | PurgeL1MessageToL2BlockMappings block_number => purge_l1_message_to_l2_block_mappings block_number
  | InsertBatchConsolidationOutcome outcome => insert_batch_consolidation_outcome outcome
  | Unwind l1_block_number => unwind l1_block_number
  | InsertSignatures signatures => insert_signatures signatures
  | InsertSignature block_hash signature => insert_signature block_hash signature
  end.

Definition read_query {T} (r : DatabaseReadOperations T) : M Db DatabaseError T :=
  match r with
  | GetBatchByIndex batch_index => get_batch_by_index batch_index
  | GetBatchByHash batch_hash => get_batch_by_hash batch_hash
  | GetLatestIndexedEventL1BlockNumber => get_latest_indexed_event_l1_block_number
  | GetL1BlockInfo => get_l1_block_info
  | GetLatestL1BlockNumber => get_latest_l1_block_number
  | GetFinalizedL1BlockNumber => get_finalized_l1_block_number
  | GetProcessedL1BlockNumber => get_processed_l1_block_number
  | GetL2HeadBlockNumber => get_l2_head_block_number
  | GetNL1Messages start n => get_n_l1_messages start n
  | GetL2BlockAndBatchInfoByHash block_hash => get_l2_block_and_batch_info_by_hash block_hash
  | GetL2BlockInfoByNumber block_number => get_l2_block_info_by_number block_number
  | GetLatestSafeL2Info => get_latest_safe_l2_info
  | GetHighestBlockForBatchHash batch_hash => get_highest_block_for_batch_hash batch_hash
  | GetHighestBlockForBatchIndex batch_index => get_highest_block_for_batch_index batch_index
  | GetSignature block_hash => get_signature block_hash
  end.

Definition specified (q : Request) (d : Db) : Answer * Db :=
  match q with
  | WriteRequest w => let (o, d') := transaction (Write (write_query w)) d in (answer o, d')
  | ReadRequest r => let (o, d') := transaction (Read (read_query r)) d in (answer o, d')
  end.

Fixpoint specified_all (qs : list Request) (d : Db) : list Answer * Db :=
  match qs with
  | [] => ([], d)
  | q :: qs => let (a, d) := specified q d in let (answers, d) := specified_all qs d in (a :: answers, d)
  end.

Lemma driver_retries io e :
  driver io → io_begin io = Some e ∨ io_commit io = Some e ∨ io_rollback io = Some e →
  can_retry e = true.
Proof.
  unfold driver. rewrite !Forall_app. intros (H1 & H2 & H3) He.
  destruct He as [E|[E|E]];
    [rewrite E in H1; by inversion H1|rewrite E in H2; by inversion H2|
     rewrite E in H3; by inversion H3].
Qed.

(** An attempt either performs the transaction or fails with a transient error and no effect. *)
Lemma call_cases {T} io (q : DatabaseQuery T DatabaseError) d :
  driver io →
  call io q d = transaction q d ∨ ∃ e, call io q d = (Err e, d) ∧ can_retry e = true.
Proof.
  intros Hio. unfold call, transaction.
  pose proof (λ e, driver_retries io e Hio) as Hr.
  destruct (io_begin io) as [e|]; [right; exists e; split; auto|].
  destruct q as [f|f]; [by left|].
  destruct (f d) as [[a|e|] d']; [destruct (io_commit io) as [e|]|destruct (io_rollback io) as [e'|]|];
    first [by left | right; eexists; split; [reflexivity|by apply Hr; auto]].
Qed.

Lemma retry_transaction {T} ios (q : DatabaseQuery T DatabaseError) fuel i d o d' delays :
  (∀ i, driver (ios i)) →
  retry_loop new_with_default_config ios q fuel i d = Some (o, d', delays) →
  (o, d') = transaction q d.
Proof.
  intros Hio. revert i delays. induction fuel as [|fuel IH]; intros i delays; simpl; [done|].
  destruct (call_cases (ios i) q d (Hio i)) as [->|(e & -> & Hr)].
  - destruct (transaction q d) as [[a|e|] d1] eqn:E; [by intros; simplify_eq| |by intros; simplify_eq].
    destruct (negb (can_retry e)); [by intros; simplify_eq|].
    assert (d1 = d) as ->.
    { unfold transaction in E. destruct q as [f|f]; [by simplify_eq|].
      destruct (f d) as [[] ?]; by simplify_eq. }
    destruct (retry_loop _ ios q fuel (S i) d) as [[[o1 d2] ds]|] eqn:El; [|done].
    intros; simplify_eq. by eapply IH.
  - rewrite Hr. simpl. destruct (retry_loop _ ios q fuel (S i) d) as [[[o1 d2] ds]|] eqn:El; [|done].
    intros; simplify_eq. by eapply IH.
Qed.

Lemma Database_write_query {T} (w : DatabaseWriteOperations T) :
  Database_write w = Database_tx_mut (write_query w).
Proof. by destruct w. Qed.

Lemma Database_read_query {T} (r : DatabaseReadOperations T) :
  Database_read r = Database_tx (read_query r).
Proof. by destruct r. Qed.

Lemma serve_specified q ios fuel d a d' :
  (∀ i, driver (ios i)) → serve q ios fuel d = Some (a, d') → (a, d') = specified q d.
Proof.
  intros Hio. destruct q as [T w|T r]; simpl;
    rewrite ?Database_write_query, ?Database_read_query; intros Hs;
    apply fmap_Some in Hs as ([[o d1] ds] & Hs & [= -> ->]);
    apply (retry_transaction _ _ _ _ _ _ _ _ Hio) in Hs; simpl in *;
    first [by rewrite <- Hs | by injection Hs as -> ->].
Qed.

Lemma write_query_ok {T} (w : DatabaseWriteOperations T) : preserves schema_ok (write_query w).
Proof.
  destruct w; simpl; eauto with node;
    unfold set_latest_l1_block_number, set_processed_l1_block_number, set_l2_head_block_number,
      delete_batches_gt_block_number, delete_batches_gt_batch_index, insert_genesis_block,
      delete_l2_blocks_gt_block_number, delete_l2_blocks_gt_batch_index,
      delete_mismatched_genesis_blocks; eauto with node;
    first [ by apply update_batches_ok | apply fetch_and_update_ok | apply set_block_signature_ok ].
Qed.

Lemma specified_ok q d : schema_ok d → schema_ok (specified q d).2.
Proof.
  intros Hd. destruct q as [T w|T r]; simpl; [|done].
  pose proof (write_query_ok w d Hd) as Hw.
  destruct (write_query w d) as [[a|e|] d']; done.
Qed.

(** A request whose driver recovers is answered. *)
Lemma retry_returns {T} ios (q : DatabaseQuery T DatabaseError) d :
  (∀ i, driver (ios i)) →
  (∀ e, (transaction q d).1 = Err e → can_retry e = false) →
  ∀ n i fuel, ios (i + n)%nat = io_ok → (n < fuel)%nat →
  ∃ delays, retry_loop new_with_default_config ios q fuel i d =
    Some ((transaction q d).1, (transaction q d).2, delays).
Proof.
  intros Hio Hperm. assert (∀ i, call (ios i) q d = transaction q d →
    ∀ fuel, retry_loop new_with_default_config ios q (S fuel) i d =
      Some ((transaction q d).1, (transaction q d).2, [])) as Hdone.
  { intros i Hc fuel. simpl. rewrite Hc. destruct (transaction q d) as [[a|e|] d']; try done.
    by rewrite (Hperm e eq_refl). }
  induction n as [|n IH]; intros i [|fuel] Hi Hf; try lia.
  - exists []. apply Hdone. rewrite Nat.add_0_r in Hi. rewrite Hi. unfold call, transaction.
    simpl. destruct q as [f|f]; [done|]. by destruct (f d) as [[] ?].
  - destruct (call_cases (ios i) q d (Hio i)) as [Hc|(e & Hc & Hr)]; [exists []; by apply Hdone|].
    destruct (IH (S i) fuel) as [delays Hl]; [by rewrite <- Nat.add_succ_comm in Hi|lia|].
    exists (delay_ms new_with_default_config i :: delays).
    simpl. rewrite Hc, Hr. simpl. by rewrite Hl.
Qed.

Definition settled (a : Answer) : Prop :=
  match projT2 a with Err e => can_retry e = false | _ => True end.

(** A request is answered once the driver recovers: if the attempt number [k] meets a working
    driver, and the operation itself does not fail with an error that counts as transient, then
    [k + 1] attempts give the operation's answer. *)
Lemma serve_answers q ios k d :
  (∀ i, driver (ios i)) → ios k = io_ok → settled (specified q d).1 →
  ∀ fuel, (k < fuel)%nat → serve q ios fuel d = Some (specified q d).
Proof.
  intros Hio Hk Hs fuel Hf. destruct q as [T w|T r]; simpl in *;
    rewrite ?Database_write_query, ?Database_read_query;
    unfold Database_tx_mut, Database_tx, retry_call.
  - destruct (retry_returns ios (Write (write_query w)) d Hio) with k 0%nat fuel as [ds ->];
      [|done..|]; simpl in *; [|by destruct (write_query w d) as [[] ?]].
    intros e He. unfold settled in Hs. destruct (write_query w d) as [[a|e'|] d']; simpl in *;
      by simplify_eq.
  - destruct (retry_returns ios (Read (read_query r)) d Hio) with k 0%nat fuel as [ds ->];
      [|done..]. simpl in *. intros e He. unfold settled in Hs. simpl in Hs. by rewrite He in Hs.
Qed.

(** The driver of a request works in an attempt that the bound on the attempts allows. *)
Definition recovers (q : Request * (nat → Io) * nat) : Prop :=
  let '(_, ios, fuel) := q in ∃ k, ios k = io_ok ∧ (k < fuel)%nat.

(** No request of the series fails, on the database it finds, with an error that counts as transient
    (see [foreign_key_failure_never_returns]). *)
Fixpoint all_settled (qs : list Request) (d : Db) : Prop :=
  match qs with
  | [] => True
  | q :: qs => settled (specified q d).1 ∧ all_settled qs (specified q d).2
  end.

(** C25: the database handle refines a server that runs each request as one transaction, in order,
    on the database the previous one left.  Whatever the driver does in whatever attempt, a request
    that is answered is answered with what its operation returns on the current database; a write
    that succeeds takes effect exactly once, a failed one and a read not at all; and the integrity
    of the schema is kept throughout.  And every request is answered as soon as the driver recovers:
    when it works in one of the attempts of each request, and no operation fails with an error that
    counts as transient, the whole series is answered as specified. *)
Theorem database_refines qs d :
  Forall (λ '(_, ios, _), ∀ i : nat, driver (ios i)) qs →
  let requests := map (λ '(q, _, _), q) qs in
  (∀ answers d', serve_all qs d = Some (answers, d') →
     (answers, d') = specified_all requests d ∧ (schema_ok d → schema_ok d')) ∧
  (Forall recovers qs → all_settled requests d → serve_all qs d = Some (specified_all requests d)).
Proof.
  intros Hios. cbv zeta. revert d. induction Hios as [|[[q ios] fuel] qs Hio _ IH]; intros d;
    cbn [serve_all specified_all all_settled map].
  { split; [by intros answers d' [= <- <-]|done]. }
  split.
  - intros answers d'. destruct (serve q ios fuel d) as [[a d1]|] eqn:Eq; [|done].
    apply (serve_specified _ _ _ _ _ _ Hio) in Eq. rewrite <- Eq. intros Hs.
    apply fmap_Some in Hs as ([answers' d2] & Hs & [= -> ->]).
    destruct (proj1 (IH d1) _ _ Hs) as [<- Hok]. split; [done|]. intros Hd. apply Hok.
    change d1 with (a, d1).2. rewrite Eq. by apply specified_ok.
  - intros [(k & Hk & Hf) Hrec]%Forall_cons [Hset Hall].
    rewrite (serve_answers q ios k d Hio Hk Hset fuel Hf).
    destruct (specified q d) as [a d1]. simpl in Hall.
    rewrite (proj2 (IH d1) Hrec Hall). by destruct (specified_all _ d1).
Qed.

End Refinement.
