(* ===== verification/DbPool.v ===== *)
(** * Concurrent transactions (crates/database/db/src/db.rs, transaction.rs)

    [DatabaseInner] shares one SQLite file between the tasks of the node: a mutex lets one write
    transaction run at a time and a semaphore limits the read transactions to all connections of the
    pool but one.  A guard or a permit lives as long as its transaction.  The transactions of any
    number of clients interleave here statement by statement.  SQLite in WAL mode gives a
    transaction the database committed last when its first statement runs, and a commit replaces
    the database, which no other process writes; a transaction whose [begin], [commit] or [rollback] fails, or whose query fails
    with a transient error, has no effect and is tried again, as [DbService] says.  The theorem lets
    every other file run a transaction as one step on the database. *)

From S2P Require Import Prelude Sql Primitives DbModel DbOps DbInvariant DbService Database.

Definition MAX_CONNECTIONS : nat := 6.
(** One connection is reserved for write transactions. *)
Definition read_connection_limit : nat := MAX_CONNECTIONS - 1.

Definition Client : Type := nat.

Section Pool.
Context `{SqlEngine} `{Chain}.

(** What a client waits for.  A transaction has its snapshot from its first statement on. *)
Inductive Phase :=
| Waiting (q : Request)
| InTx (q : Request) (snapshot : option Db)
| InTxMut (q : Request) (snapshot : option Db).

Record DatabaseInner := mkInner {
  connection : Db;
  write_lock : option Client;
  read_locks : nat;
  clients : gmap Client Phase
}.

(** [new_sqlite_with_pool_options], on a migrated file. *)
Definition DatabaseInner_new (d : Db) : DatabaseInner := mkInner d None read_connection_limit ∅.

Definition is_write (q : Request) : bool := match q with WriteRequest _ => true | ReadRequest _ => false end.

(** The answer of the query on a snapshot is final; a transient error is retried. *)
Definition final (a : Answer) : bool :=
  match projT2 a with Err e => negb (can_retry e) | _ => true end.

Inductive Event := Invoked (t : Client) (q : Request) | Answered (t : Client) (a : Answer).

Definition with_phase (t : Client) (p : Phase) (i : DatabaseInner) : DatabaseInner :=
  mkInner (connection i) (write_lock i) (read_locks i) (<[t := p]> (clients i)).
Definition done_with (t : Client) (i : DatabaseInner) : DatabaseInner :=
  mkInner (connection i) (write_lock i) (read_locks i) (delete t (clients i)).
(** [TXMut::commit] of a transaction that has turned its snapshot into [d]. *)
Definition commit_tx (d : Db) (i : DatabaseInner) : DatabaseInner :=
  mkInner d (write_lock i) (read_locks i) (clients i).
(** The permit and the guard, when their transaction ends. *)
Definition release_permit (i : DatabaseInner) : DatabaseInner :=
  mkInner (connection i) (write_lock i) (S (read_locks i)) (clients i).
Definition release_guard (i : DatabaseInner) : DatabaseInner :=
  mkInner (connection i) None (read_locks i) (clients i).

Inductive pool_step : list Event → DatabaseInner → DatabaseInner → Prop :=
| pool_invoke t q i :
    clients i !! t = None → pool_step [Invoked t q] i (with_phase t (Waiting q) i)
| pool_tx t q d l r cs :
    cs !! t = Some (Waiting q) → is_write q = false →
    pool_step [] (mkInner d l (S r) cs) (mkInner d l r (<[t := InTx q None]> cs))
| pool_tx_mut t q d r cs :
    cs !! t = Some (Waiting q) → is_write q = true →
    pool_step [] (mkInner d None r cs) (mkInner d (Some t) r (<[t := InTxMut q None]> cs))
| pool_read_snapshot t q i :
    clients i !! t = Some (InTx q None) →
    pool_step [] i (with_phase t (InTx q (Some (connection i))) i)
| pool_write_snapshot t q i :
    clients i !! t = Some (InTxMut q None) →
    pool_step [] i (with_phase t (InTxMut q (Some (connection i))) i)
| pool_read_ends t q s i :
    clients i !! t = Some (InTx q (Some s)) → final (specified q s).1 = true →
    pool_step [Answered t (specified q s).1] i (release_permit (done_with t i))
| pool_write_ends t q s i :
    clients i !! t = Some (InTxMut q (Some s)) → final (specified q s).1 = true →
    pool_step [Answered t (specified q s).1] i
      (release_guard (done_with t (commit_tx (specified q s).2 i)))
| pool_read_retries t q s i :
    clients i !! t = Some (InTx q s) → pool_step [] i (release_permit (with_phase t (Waiting q) i))
| pool_write_retries t q s i :
    clients i !! t = Some (InTxMut q s) → pool_step [] i (release_guard (with_phase t (Waiting q) i)).

(** A run, with what the clients see of it. *)
Inductive traces {S} (step : list Event → S → S → Prop) : list Event → S → S → Prop :=
| traces_nil i : traces step [] i i
| traces_step es es' i1 i2 i3 : traces step es i1 i2 → step es' i2 i3 → traces step (es ++ es') i1 i3.

Lemma traces_one {S} (step : list Event → S → S → Prop) es i1 i2 : step es i1 i2 → traces step es i1 i2.
Proof. intros Hs. apply (traces_step step [] es i1 i1 i2); [constructor|done]. Qed.

Lemma traces_trans {S} (step : list Event → S → S → Prop) es es' i1 i2 i3 :
  traces step es i1 i2 → traces step es' i2 i3 → traces step (es ++ es') i1 i3.
Proof.
  intros H1 H2. revert H1. induction H2 as [i|es1 es2 i1' i2' i3' H2 IH Hs]; intros H1.
  - by rewrite (right_id_L [] (++)).
  - rewrite (assoc_L (++)). eapply traces_step; eauto.
Qed.

Definition pool_run : list Event → DatabaseInner → DatabaseInner → Prop := traces pool_step.

(** ** The locks *)

Definition is_reading (p : Phase) : bool := match p with InTx _ _ => true | _ => false end.
Definition reading (cs : gmap Client Phase) : nat := size (filter (λ p, is_reading p.2 = true) cs).
Definition readers (i : DatabaseInner) : nat := reading (clients i).

(** The connections its transactions hold. *)
Definition connections_used (i : DatabaseInner) : nat :=
  (readers i + match write_lock i with Some _ => 1 | None => 0 end)%nat.

(** The mutex is held by the client that writes, whose snapshot nobody has replaced since; a permit
    is taken per read transaction. *)
Record pool_ok (i : DatabaseInner) : Prop := {
  po_lock t : write_lock i = Some t ↔ ∃ q s, clients i !! t = Some (InTxMut q s);
  po_snapshot t q s : clients i !! t = Some (InTxMut q (Some s)) → s = connection i;
  po_kind t q s : clients i !! t = Some (InTxMut q s) → is_write q = true;
  po_kind_read t q s : clients i !! t = Some (InTx q s) → is_write q = false;
  po_permits : (read_locks i + readers i = read_connection_limit)%nat
}.

Definition counted (p : option Phase) : nat := match p with Some (InTx _ _) => 1 | _ => 0 end.

Lemma reading_delete t cs : (reading (delete t cs) + counted (cs !! t) = reading cs)%nat.
Proof.
  unfold reading. rewrite map_filter_delete.
  destruct (cs !! t) as [p|] eqn:Ht; simpl.
  - destruct (is_reading p) eqn:Hp.
    + assert (filter (λ p, is_reading p.2 = true) cs !! t = Some p) as Hf
        by (by apply map_lookup_filter_Some).
      rewrite map_size_delete_Some by (by eexists).
      assert (size (filter (λ p, is_reading p.2 = true) cs) ≠ 0%nat).
      { apply map_size_non_empty_iff. intros He. by rewrite He, lookup_empty in Hf. }
      destruct p; simpl in *; done || lia.
    + rewrite delete_id by (apply map_lookup_filter_None; right; intros p' Hp'; simplify_eq; simpl; congruence).
      destruct p; simpl in *; done || lia.
  - rewrite delete_id by (apply map_lookup_filter_None; by left). lia.
Qed.

Lemma reading_insert t p cs :
  (reading (<[t := p]> cs) + counted (cs !! t) = reading cs + counted (Some p))%nat.
Proof.
  pose proof (reading_delete t (<[t := p]> cs)) as Hd. pose proof (reading_delete t cs) as Hd'.
  rewrite lookup_insert_eq, delete_insert_eq in Hd. lia.
Qed.

Lemma pool_ok_new d : pool_ok (DatabaseInner_new d).
Proof.
  split; unfold readers, reading; simpl.
  - intros t. split; [done|]. intros (q & s & Ht). by rewrite lookup_empty in Ht.
  - intros t q s Ht. by rewrite lookup_empty in Ht.
  - intros t q s Ht. by rewrite lookup_empty in Ht.
  - intros t q s Ht. by rewrite lookup_empty in Ht.
  - by rewrite map_filter_empty, map_size_empty.
Qed.

(** Looks a client up in the clients of the next state. *)
Ltac find_client :=
  repeat match goal with
  | Hx : <[_ := _]> _ !! _ = Some _ |- _ => apply lookup_insert_Some in Hx as [[? ?]|[? ?]]; simplify_eq
  | Hx : delete _ _ !! _ = Some _ |- _ => apply lookup_delete_Some in Hx as [? ?]
  end.

(** The holder of the mutex when no client becomes or ceases to be a writer. *)
Lemma lock_same (cs : gmap Client Phase) l t p :
  (∀ t, l = Some t ↔ ∃ q s, cs !! t = Some (InTxMut q s)) →
  (∀ q s, cs !! t ≠ Some (InTxMut q s)) → (∀ q s, p ≠ InTxMut q s) →
  ∀ t', l = Some t' ↔ ∃ q s, <[t := p]> cs !! t' = Some (InTxMut q s).
Proof.
  intros Hl Ht Hp t'. rewrite Hl. split; intros (q & s & Hq); exists q, s.
  - rewrite lookup_insert_ne; [done|]. intros <-. by apply Ht in Hq.
  - find_client; [by exfalso; eapply Hp|done].
Qed.

(** The mutex and the writers agree when the writer [t] steps within its transaction. *)
Lemma lock_stays (cs : gmap Client Phase) l t q s0 s1 :
  (∀ t, l = Some t ↔ ∃ q s, cs !! t = Some (InTxMut q s)) → cs !! t = Some (InTxMut q s0) →
  ∀ t', l = Some t' ↔ ∃ q' s, <[t := InTxMut q s1]> cs !! t' = Some (InTxMut q' s).
Proof.
  intros Hl Ht t'. rewrite Hl. split; intros (q' & s & Hq).
  - destruct (decide (t' = t)) as [->|Hne]; [exists q, s1; by rewrite lookup_insert_eq|].
    exists q', s. by rewrite lookup_insert_ne.
  - find_client; eauto.
Qed.

(** Nobody writes when the writer leaves. *)
Lemma lock_freed (cs cs' : gmap Client Phase) l t q s0 :
  (∀ t, l = Some t ↔ ∃ q s, cs !! t = Some (InTxMut q s)) → cs !! t = Some (InTxMut q s0) →
  (∀ t' p, cs' !! t' = Some p → t' ≠ t ∧ cs !! t' = Some p ∨ t' = t ∧ ∀ q s, p ≠ InTxMut q s) →
  ∀ t', None = Some t' ↔ ∃ q s, cs' !! t' = Some (InTxMut q s).
Proof.
  intros Hl Ht Hcs t'. split; [done|]. intros (q' & s & Hq). exfalso.
  assert (l = Some t) as Hlt by (apply Hl; eauto).
  destruct (Hcs _ _ Hq) as [[Hne Hq']|[-> Hp]]; [|by eapply Hp].
  assert (l = Some t') by (apply Hl; eauto). congruence.
Qed.

Lemma pool_ok_step es i i' : pool_step es i i' → pool_ok i → pool_ok i'.
Proof.
  intros Hs [Hl Hsn Hk Hkr Hp]. unfold readers in Hp.
  destruct Hs as [t q i Ht|t q d l r cs Ht Hq|t q d r cs Ht Hq|t q i Ht|t q i Ht|t q s i Ht Hfin|
    t q s i Ht Hfin|t q s i Ht|t q s i Ht]; (split; unfold readers; simpl in *).
  all: try (intros t' q' s' Hx; find_client; eauto; done).
  all: try (match goal with |- context [reading (<[?t := ?p]> ?cs)] => pose proof (reading_insert t p cs) as Hi
            | |- context [reading (delete ?t ?cs)] => pose proof (reading_delete t cs) as Hi end;
            rewrite Ht in Hi; simpl in Hi; lia).
  - apply lock_same; [done|by rewrite Ht|done].
  - apply lock_same; [done|by rewrite Ht|done].
  - intros t'. split.
    + intros [= <-]. exists q, None. by rewrite lookup_insert_eq.
    + intros (q' & s & Hx). find_client; [done|]. exfalso. assert (None = Some t') by (apply Hl; eauto). done.
  - apply lock_same; [done|by rewrite Ht|done].
  - exact (lock_stays (clients i) _ t q None _ Hl Ht).
  - intros t'. rewrite Hl. split; intros (q' & s' & Hx); exists q', s'; [|by find_client].
    rewrite lookup_delete_ne; [done|]. intros <-. congruence.
  - eapply lock_freed; [done|exact Ht|]. intros t' p Hx. find_client. by left.
  - intros t' q' s' Hx. find_client. exfalso.
    assert (write_lock i = Some t) by (apply Hl; eauto). assert (write_lock i = Some t') by (apply Hl; eauto).
    congruence.
  - apply lock_same; [done|by rewrite Ht|done].
  - eapply lock_freed; [done|exact Ht|]. intros t' p Hx. find_client; [by right|by left].
Qed.

Lemma pool_ok_run es i i' : pool_run es i i' → pool_ok i → pool_ok i'.
Proof. induction 1; eauto using pool_ok_step. Qed.

(** The connections its transactions hold never exceed those of the pool, so [begin] does not wait
    for one. *)
Lemma connections_bounded i : pool_ok i → (connections_used i <= MAX_CONNECTIONS)%nat.
Proof.
  intros [_ _ _ _ Hp]. unfold connections_used, read_connection_limit in *.
  destruct (write_lock i); unfold MAX_CONNECTIONS in *; lia.
Qed.

(** ** The atomic database *)

(** A server without transactions: a request takes effect in one step, somewhere between the call
    and the answer. *)
Inductive Pending := Asked (q : Request) | Done (a : Answer).
Record Atomic := mkAtomic { atomic_db : Db; pending : gmap Client Pending }.

Inductive atomic_step : list Event → Atomic → Atomic → Prop :=
| atomic_invoke t q d ps :
    ps !! t = None → atomic_step [Invoked t q] (mkAtomic d ps) (mkAtomic d (<[t := Asked q]> ps))
| atomic_serve t q d ps :
    ps !! t = Some (Asked q) → final (specified q d).1 = true →
    atomic_step [] (mkAtomic d ps) (mkAtomic (specified q d).2 (<[t := Done (specified q d).1]> ps))
| atomic_return t a d ps :
    ps !! t = Some (Done a) → atomic_step [Answered t a] (mkAtomic d ps) (mkAtomic d (delete t ps)).

(** What the atomic database has done for a client of the pool.  A read has taken effect when it
    had its snapshot, unless it is still going to fail: [decided] says which reads have. *)
Definition progress (decided : Client → bool) (t : Client) (p : Phase) : Pending :=
  match p with
  | Waiting q | InTxMut q _ | InTx q None => Asked q
  | InTx q (Some s) => if decided t && final (specified q s).1 then Done (specified q s).1 else Asked q
  end.
Definition atomic_view (decided : Client → bool) (i : DatabaseInner) : Atomic :=
  mkAtomic (connection i) (map_imap (λ t p, Some (progress decided t p)) (clients i)).

Lemma view_lookup dec (cs : gmap Client Phase) t :
  map_imap (λ t p, Some (progress dec t p)) cs !! t = progress dec t <$> cs !! t.
Proof. rewrite map_lookup_imap. by destruct (cs !! t). Qed.

Lemma view_insert dec t p (cs : gmap Client Phase) :
  map_imap (λ t p, Some (progress dec t p)) (<[t := p]> cs) =
  <[t := progress dec t p]> (map_imap (λ t p, Some (progress dec t p)) cs).
Proof.
  apply map_eq. intros t'. rewrite view_lookup.
  destruct (decide (t' = t)) as [->|Hne]; [by rewrite !lookup_insert_eq|].
  by rewrite !lookup_insert_ne, view_lookup by done.
Qed.

Lemma view_delete dec t (cs : gmap Client Phase) :
  map_imap (λ t p, Some (progress dec t p)) (delete t cs) =
  delete t (map_imap (λ t p, Some (progress dec t p)) cs).
Proof.
  apply map_eq. intros t'. rewrite view_lookup.
  destruct (decide (t' = t)) as [->|Hne]; [by rewrite !lookup_delete_eq|].
  by rewrite !lookup_delete_ne, view_lookup by done.
Qed.

(** Replacing the phase of a client by one that looks the same. *)
Lemma view_same dec t p p' (cs : gmap Client Phase) :
  cs !! t = Some p → progress dec t p' = progress dec t p →
  map_imap (λ t p, Some (progress dec t p)) (<[t := p']> cs) = map_imap (λ t p, Some (progress dec t p)) cs.
Proof. intros Ht Hp. rewrite view_insert, Hp, insert_id; [done|]. by rewrite view_lookup, Ht. Qed.

(** Deciding otherwise about one client changes only what is seen of it. *)
Lemma view_delete_decide dec dec' t (cs : gmap Client Phase) :
  (∀ t', t' ≠ t → dec' t' = dec t') →
  delete t (map_imap (λ t p, Some (progress dec t p)) cs) = delete t (map_imap (λ t p, Some (progress dec' t p)) cs).
Proof.
  intros Hd. apply map_eq. intros t'.
  destruct (decide (t' = t)) as [->|Hne]; [by rewrite !lookup_delete_eq|].
  rewrite !lookup_delete_ne, !view_lookup by done.
  destruct (cs !! t') as [[q|q [s|]|q s]|]; simpl; [done|by rewrite Hd|done..].
Qed.

Lemma view_insert_decide dec dec' t p (cs : gmap Client Phase) :
  (∀ t', t' ≠ t → dec' t' = dec t') →
  map_imap (λ t p, Some (progress dec t p)) (<[t := p]> cs) =
  <[t := progress dec t p]> (map_imap (λ t p, Some (progress dec' t p)) cs).
Proof.
  intros Hd. rewrite view_insert, <- insert_delete_eq, <- (insert_delete_eq (map_imap _ cs)).
  by rewrite (view_delete_decide dec dec').
Qed.

Lemma read_specified q d : is_write q = false → (specified q d).2 = d.
Proof. by destruct q. Qed.

Definition decide_as (t : Client) (b : bool) (dec : Client → bool) : Client → bool :=
  λ t', if decide (t' = t) then b else dec t'.

Lemma decide_as_same t b dec : decide_as t b dec t = b.
Proof. unfold decide_as. by rewrite decide_True. Qed.
Lemma decide_as_other t b dec t' : t' ≠ t → decide_as t b dec t' = dec t'.
Proof. intros. unfold decide_as. by rewrite decide_False. Qed.

(** A request that takes effect when its answer is sent. *)
Lemma served_at_once t q d (ps : gmap Client Pending) :
  ps !! t = Some (Asked q) → final (specified q d).1 = true →
  traces atomic_step [Answered t (specified q d).1] (mkAtomic d ps) (mkAtomic (specified q d).2 (delete t ps)).
Proof.
  intros Ht Hfin. apply (traces_trans _ [] [_] _ _ _ (traces_one _ _ _ _ (atomic_serve _ _ _ _ Ht Hfin))).
  rewrite <- (delete_insert_eq ps t (Done (specified q d).1)). apply traces_one, atomic_return.
  by rewrite lookup_insert_eq.
Qed.

(** A step of the pool, seen by the atomic database from the decisions that explain it. *)
Lemma pool_step_atomic es i i' dec :
  pool_ok i → pool_step es i i' →
  ∃ dec', traces atomic_step es (atomic_view dec' i) (atomic_view dec i').
Proof.
  intros Hok Hs. pose proof Hok as [Hl Hsn Hk Hkr Hp]. unfold atomic_view.
  destruct Hs as [t q i Ht|t q d l r cs Ht Hq|t q d r cs Ht Hq|t q i Ht|t q i Ht|t q s i Ht Hfin|
    t q s i Ht Hfin|t q s i Ht|t q s i Ht]; cbn [connection clients with_phase done_with commit_tx release_permit release_guard] in *.
  - exists dec. rewrite view_insert. apply traces_one, atomic_invoke. by rewrite view_lookup, Ht.
  - exists dec. rewrite (view_same _ _ _ _ _ Ht); [constructor|done].
  - exists dec. rewrite (view_same _ _ _ _ _ Ht); [constructor|done].
  - destruct (dec t && final (specified q (connection i)).1) eqn:Hd.
    + exists dec. apply andb_true_iff in Hd as [Hd Hfin]. rewrite view_insert. cbn [progress]. rewrite Hd, Hfin. simpl.
      rewrite <- (read_specified q (connection i)) at 2 by eauto.
      apply traces_one, atomic_serve; [by rewrite view_lookup, Ht|done].
    + exists dec. rewrite (view_same _ _ _ _ _ Ht); [constructor|]. cbn [progress]. by rewrite Hd.
  - exists dec. rewrite (view_same _ _ _ _ _ Ht); [constructor|done].
  - exists (decide_as t true dec). rewrite view_delete.
    apply traces_one. rewrite (view_delete_decide dec (decide_as t true dec)) by (intros; by rewrite decide_as_other).
    apply atomic_return. rewrite view_lookup, Ht. simpl. by rewrite decide_as_same, Hfin.
  - exists dec. rewrite view_delete. pose proof (Hsn _ _ _ Ht) as ->.
    apply served_at_once; [by rewrite view_lookup, Ht|done].
  - exists (decide_as t false dec).
    rewrite (view_insert_decide dec (decide_as t false dec)) by (intros; by rewrite decide_as_other).
    rewrite (insert_id _ t); [constructor|]. rewrite view_lookup, Ht. destruct s; simpl; [by rewrite decide_as_same|done].
  - exists dec. rewrite (view_same _ _ _ _ _ Ht); [constructor|done].
Qed.

(** C26: a client of the pool cannot tell it from a database that serves every request at once, in one
    step between the call and the answer: whatever transactions interleave and are retried, what
    the clients see is a run of the atomic database, which ends with the data the pool ends with,
    and the transactions never hold more connections than the pool has. *)
Theorem pool_linearizable d es i :
  pool_run es (DatabaseInner_new d) i →
  (∃ ps, traces atomic_step es (mkAtomic d ∅) (mkAtomic (connection i) ps) ∧
    ∀ t, clients i !! t = None ↔ ps !! t = None) ∧
  (connections_used i <= MAX_CONNECTIONS)%nat.
Proof.
  intros Hr. split; [|eauto using connections_bounded, pool_ok_run, pool_ok_new].
  exists (pending (atomic_view (λ _, false) i)). split.
  - change (traces atomic_step es (mkAtomic d ∅) (atomic_view (λ _, false) i)).
    generalize (λ _ : Client, false) as dec.
    remember (DatabaseInner_new d) as i0 eqn:Hi0. induction Hr as [i0|es es' i0 i1 i2 Hr IH Hs]; intros dec; subst.
    + unfold atomic_view. simpl. rewrite map_imap_empty. constructor.
    + destruct (pool_step_atomic _ _ _ dec (pool_ok_run _ _ _ Hr (pool_ok_new d)) Hs) as [dec' Ht].
      eapply traces_trans; [|exact Ht]. by apply IH.
  - intros t. cbn [pending atomic_view]. rewrite view_lookup. by destruct (clients i !! t).
Qed.
End Pool.
