(* ===== verification/ConcreteDb.v ===== *)
(** * A concrete database

    A small populated database on which the theorems about the storage layer are instantiated:
    the genesis batch, a consolidated batch, and one committed and one finalized batch above them,
    with the blocks and L1 messages they brought. *)

From S2P Require Import Prelude Sql Primitives BigEndian Codec Engine Concrete DbModel DbOps.
From S2P Require Import DbInvariant DbUnwind DbProps DbService Database DbPool.

#[local] Existing Instances stored_order toy_chain.

Definition batch_row (i h l1 : Z) (fin : option Z) (status : string) : BatchRow :=
  mkBatchRow i h l1 0 [] None fin None status.

Definition block_row (n : Z) (batch h : Z) : L2Row := mkL2Row n (100 + n) batch h false.

Definition message_row (i l1 : Z) (l2 : option Z) : MsgRow :=
  mkMsgRow i None (10000 + i) l1 "40" 0 0 0 [] l2 false.

(** Batches 1 and 2 at the L1 blocks 20 and 30, batch 3 at 40; messages 1 and 2 in the blocks 2 and 3. *)
Definition small_db : Db :=
  set_metadata (<["l1_latest_block" := "45"]> metadata_init)
    (set_l1_message [message_row 0 15 (Some 1); message_row 1 25 (Some 2); message_row 2 35 (Some 3)]
      (set_l2_block [genesis_block_row 100; block_row 1 1 11; block_row 2 2 12]
        (set_batch_commit
           [genesis_batch_row; batch_row 1 11 20 (Some 44) "finalized"; batch_row 2 12 30 None "consolidated";
            batch_row 3 13 40 None "committed"] (migrated 100)))).

Lemma small_db_ok : schema_ok small_db.
Proof.
  split; try (apply (bool_decide_unpack _); vm_compute; exact I).
  - apply Forall_forall. apply (bool_decide_unpack _). vm_compute. exact I.
  - intros n1 n2 h Hn. discriminate Hn.
Qed.

Definition batch_3 : BatchInfo := mkBatchInfo 3 13.

Lemma fetch_committed_spec_witness :
  (fetch_and_update_unprocessed_committed_batches small_db).1 = Ok [batch_3] ∧
  fetch_and_update_unprocessed_committed_batches
    (fetch_and_update_unprocessed_committed_batches small_db).2 =
  (Ok [], (fetch_and_update_unprocessed_committed_batches small_db).2).
Proof.
  split; [vm_compute; reflexivity|].
  refine (proj2 (proj2 (fetch_committed_spec small_db [batch_3] _ _))).
  vm_compute. reflexivity.
Defined.

Definition block_2 : BlockInfo := {| number := 2; hash := 102 |}.

Lemma latest_safe_highest_witness :
  ∃ r, r ∈ l2_block small_db ∧ row_block_info r = block_2 ∧
    ∀ r', r' ∈ l2_block small_db → lr_reverted r' = false → lr_block_number r' <= lr_block_number r.
Proof.
  assert (get_latest_safe_l2_info small_db = (Ok (block_2, mkBatchInfo 2 12), small_db)) as Hrun
    by (vm_compute; reflexivity).
  destruct (latest_safe_highest small_db block_2 (mkBatchInfo 2 12) small_db Hrun)
    as (_ & r & Hr & _ & Hi & _ & Hmax).
  by exists r.
Defined.

(** The next message for block 2 is message 1, the one after message 0 of block 1. *)
Definition next_message : DB (list L1MessageEnvelope) := get_n_l1_messages (Some (BlockNumber 2)) 1.
Definition message_1 : L1MessageEnvelope :=
  mkL1MessageEnvelope (mkTxL1Message 1 40 0 0 0 []) 25 (Some 2) None.

Lemma get_n_l1_messages_from_block_witness :
  ∃ p rows, smallest p 1 (l1_message small_db) rows ∧
    (∀ r, r ∈ l1_message small_db → p r = true ↔ next_for_block 2 (l1_message small_db) r) ∧
    Forall2 (λ r m, L1MessageEnvelope_from (E := DatabaseError) r = Ok m) rows [message_1].
Proof.
  refine (proj2 (get_n_l1_messages_from_block 2 1 small_db [message_1] small_db _)).
  vm_compute. reflexivity.
Defined.

Lemma reconcile_genesis_foreign_witness :
  ∃ f, reconcile_genesis_block 300 301 small_db = (Err (GenesisMismatch 300 f), small_db) ∧
    f ≠ 300 ∧ f ≠ 301.
Proof.
  apply (reconcile_genesis_foreign 300 301 small_db (genesis_block_row 100));
    [left|reflexivity|vm_compute; discriminate..].
Defined.

(** The hash of an L1 block is unique: a second number cannot take it. *)
Definition l1_block_50 : Db := (insert_l1_block_info {| number := 50; hash := 7 |} small_db).2.
Example same_hash_refused :
  insert_l1_block_info {| number := 51; hash := 7 |} l1_block_50 =
    (Err (DbErr "UNIQUE constraint failed: l1_block.block_hash"), l1_block_50).
Proof. vm_compute. reflexivity. Qed.

(** An index above the range of the [i32] it is read as is an error. *)
Example wide_index_refused :
  (get_highest_block_for_batch_hash 11
     (set_batch_commit [batch_row (2 ^ 31) 11 20 None "committed"] small_db)).1 =
    Err (DbErr "out of range integral type conversion attempted").
Proof. vm_compute. reflexivity. Qed.

Lemma reachable_schema_ok_witness :
  schema_ok (insert_signature 5 6 (insert_l1_block_info {| number := 51; hash := 7 |}
    (insert_l1_block_info {| number := 50; hash := 7 |} (migrated 100)).2).2).2.
Proof.
  apply (reachable_schema_ok 100). eapply rtc_l; [apply (db_insert_l1_block_info {| number := 50; hash := 7 |})|].
  eapply rtc_l; [apply (db_insert_l1_block_info {| number := 51; hash := 7 |})|].
  apply rtc_once. apply (db_insert_signature 5 6).
Defined.

(** ** Unwinding *)

(** A reorg to L1 block 25 takes the batches 2 and 3 and the message 2. *)
Definition unwound_db : Db := (unwind 25 small_db).2.
Definition unwind_answer : UnwindResult :=
  mkUnwindResult 25 (Some 2) (Some 2) (Some {| number := 1; hash := 101 |}).

Lemma unwind_small : unwind 25 small_db = (Ok unwind_answer, unwound_db).
Proof. vm_compute. reflexivity. Qed.

Lemma unwind_unwound_witness : unwound 25 unwound_db.
Proof. exact (unwind_unwound 25 small_db unwind_answer unwound_db small_db_ok unwind_small). Defined.

Lemma unwind_keeps_witness :
  batch_row 1 11 20 (Some 44) "finalized" ∉ batch_commit unwound_db ∧
  genesis_batch_row ∈ batch_commit unwound_db.
Proof.
  split; [apply (bool_decide_unpack _); vm_compute; exact I|].
  apply (proj1 (unwind_keeps 25 small_db unwind_answer unwound_db small_db_ok unwind_small));
    [left|vm_compute; discriminate|reflexivity..].
Defined.

Lemma unwind_idempotent_witness :
  unwind 25 unwound_db = (Ok (mkUnwindResult 25 None None None), unwound_db).
Proof. exact (unwind_idempotent 25 small_db unwind_answer unwound_db small_db_ok unwind_small). Defined.

(** ** Retries *)

(** The driver is busy in the first two attempts. *)
Definition busy_twice (attempt : nat) : Io :=
  if Nat.ltb attempt 2 then mkIo (Some (DbErr "database is locked")) None None else io_ok.

Definition retried := retry_call new_with_default_config busy_twice (Write (unwind 25)) 3 small_db.

Lemma retry_atomic_witness :
  ∃ d, retried = Some (Ok unwind_answer, d, [50; 50]) ∧ unwind 25 small_db = (Ok unwind_answer, d).
Proof.
  assert (retried = Some (Ok unwind_answer, unwound_db, [50; 50])) as Hrun by (vm_compute; reflexivity).
  exists unwound_db. split; [exact Hrun|].
  destruct (retry_atomic new_with_default_config busy_twice (unwind 25) 3 small_db
              (Ok unwind_answer) unwound_db [50; 50] Hrun) as [(a & Ha & Hf)|[Hno _]].
  - by injection Ha as <-.
  - discriminate Hno.
Defined.

Lemma foreign_key_failure_never_returns_witness :
  retry_call new_with_default_config (λ _, io_ok)
    (Write (insert_blocks [block_2] (mkBatchInfo 7 77))) 1000 small_db = None.
Proof.
  apply (foreign_key_failure_never_returns block_2 [] (mkBatchInfo 7 77) small_db 1000).
  - discriminate.
  - discriminate.
  - intros b Hb. by apply not_elem_of_nil in Hb.
  - apply (bool_decide_unpack _). vm_compute. exact I.
Defined.

(** A client's session: an unwind while the database is busy twice, then two reads. *)
Definition client_session : list (Request * (nat → Io) * nat) :=
  [(WriteRequest (Unwind 25), busy_twice, 3%nat);
   (ReadRequest GetLatestSafeL2Info, λ _, io_ok, 1%nat);
   (ReadRequest (GetBatchByIndex 3), busy_twice, 5%nat)].

Lemma busy_twice_driver i : driver (busy_twice i).
Proof. unfold driver, busy_twice. destruct i as [|[|i]]; simpl; by repeat constructor. Qed.

Lemma client_session_drivers : Forall (λ '(_, ios, _), ∀ i : nat, driver (ios i)) client_session.
Proof. repeat constructor; intros i; first [apply busy_twice_driver | apply Forall_nil_2]. Qed.

Lemma database_refines_witness :
  serve_all client_session small_db =
    Some (specified_all (map (λ '(q, _, _), q) client_session) small_db) ∧
  ∃ d', (specified_all (map (λ '(q, _, _), q) client_session) small_db).2 = d' ∧ schema_ok d'.
Proof.
  destruct (database_refines client_session small_db client_session_drivers) as [Hsafe Hlive].
  assert (serve_all client_session small_db =
    Some (specified_all (map (λ '(q, _, _), q) client_session) small_db)) as Hs.
  { apply Hlive.
    - repeat apply Forall_cons_2; [exists 2%nat|exists 0%nat|exists 2%nat|apply Forall_nil_2];
        (split; [reflexivity|lia]).
    - vm_compute. repeat split. }
  split; [exact Hs|]. rewrite (surjective_pairing (specified_all _ _)) in Hs.
  destruct (Hsafe _ _ Hs) as [_ Hok]. eexists. split; [reflexivity|apply Hok, small_db_ok].
Defined.

(** Two clients: the first reads the safe block, and is answered after the second, which unwinds
    the chain meanwhile. *)
Definition reads_safe : Request := ReadRequest GetLatestSafeL2Info.
Definition unwinds : Request := WriteRequest (Unwind 25).

Definition overlapping_clients (p : Phase) (p' : Phase) : gmap Client Phase := <[2%nat := p']> {[1%nat := p]}.

Definition overlapped : DatabaseInner :=
  release_permit (done_with 1%nat (release_guard (done_with 2%nat
    (mkInner (specified unwinds small_db).2 (Some 2%nat) 4
       (overlapping_clients (InTx reads_safe (Some small_db)) (InTxMut unwinds (Some small_db))))))).

Definition overlapping_events : list Event :=
  [Invoked 1%nat reads_safe; Invoked 2%nat unwinds; Answered 2%nat (specified unwinds small_db).1;
   Answered 1%nat (specified reads_safe small_db).1].

Lemma overlapping_run : pool_run overlapping_events (DatabaseInner_new small_db) overlapped.
Proof.
  assert (∀ es i1 i2 i3, pool_run es i1 i2 → pool_step [] i2 i3 → pool_run es i1 i3) as Hsilent.
  { intros es i1 i2 i3 Hr Hs. rewrite <- (right_id_L [] (++) es). by eapply traces_step. }
  set (reader1 := {[1%nat := Waiting reads_safe]} : gmap Client Phase).
  apply (traces_step _ [Invoked 1%nat reads_safe; Invoked 2%nat unwinds; Answered 2%nat (specified unwinds small_db).1]
    [_] _ (release_guard (done_with 2%nat (mkInner (specified unwinds small_db).2 (Some 2%nat) 4
       (overlapping_clients (InTx reads_safe (Some small_db)) (InTxMut unwinds (Some small_db))))))).
  2: { apply pool_read_ends; [reflexivity|by vm_compute]. }
  apply (traces_step _ [Invoked 1%nat reads_safe; Invoked 2%nat unwinds] [_] _
    (mkInner small_db (Some 2%nat) 4
       (overlapping_clients (InTx reads_safe (Some small_db)) (InTxMut unwinds (Some small_db))))).
  2: { apply (pool_write_ends 2%nat unwinds small_db); [reflexivity|by vm_compute]. }
  eapply Hsilent; [|exact (pool_write_snapshot 2%nat unwinds (mkInner small_db (Some 2%nat) 4
    (overlapping_clients (InTx reads_safe (Some small_db)) (InTxMut unwinds None))) eq_refl)].
  eapply Hsilent; [|exact (pool_tx_mut 2%nat unwinds small_db 4
    (overlapping_clients (InTx reads_safe (Some small_db)) (Waiting unwinds)) eq_refl eq_refl)].
  apply (traces_step _ [Invoked 1%nat reads_safe] [Invoked 2%nat unwinds] _
    (mkInner small_db None 4 {[1%nat := InTx reads_safe (Some small_db)]})).
  2: { apply (pool_invoke 2%nat unwinds (mkInner small_db None 4 _)). reflexivity. }
  eapply Hsilent; [|exact (pool_read_snapshot 1%nat reads_safe (mkInner small_db None 4
    {[1%nat := InTx reads_safe None]}) eq_refl)].
  eapply Hsilent; [|exact (pool_tx 1%nat reads_safe small_db None 4 reader1 eq_refl eq_refl)].
  apply traces_one. apply (pool_invoke 1%nat reads_safe (DatabaseInner_new small_db)). reflexivity.
Qed.

Lemma pool_linearizable_witness :
  ∃ ps, traces atomic_step overlapping_events (mkAtomic small_db ∅) (mkAtomic (specified unwinds small_db).2 ps).
Proof.
  destruct (pool_linearizable small_db overlapping_events overlapped overlapping_run) as [[ps [Ht _]] _].
  exists ps. exact Ht.
Defined.
