(* ===== verification/World.v ===== *)
(** * The node's resources and the outside world

    The engine driver and the database are the two resources the sequencer and the orchestrator
    share.  [Env] holds both; [on_engine], [on_client] and [on_database] run a computation of one
    of them, the last one as a transaction. *)

From S2P Require Import Prelude Sql Primitives Engine DbModel DbOps DbInvariant.

Record Env (W : Type) := mkEnv { engine : Engine W; database : Db }.
Arguments mkEnv {W} _ _.
Arguments engine {W} _.
Arguments database {W} _.

(** A call of the database: a transaction that rolls back when it fails. *)
Definition tx_mut {S E T} (m : M S E T) : M S E T :=
  λ s, match m s with
       | (Ok a, s') => (Ok a, s')
       | (Err e, _) => (Err e, s)
       | (Panic, _) => (Panic, s)
       end.

Section World.
Context {W : Type}.

Definition on_engine {F T E} (f : E → F) (m : M (Engine W) E T) : M (Env W) F T :=
  zoom engine (λ e s, mkEnv e (database s)) (map_err f m).

(** A request of another service, which shares the outside world with the engine. *)
Definition on_client {F T E} (f : E → F) (m : M W E T) : M (Env W) F T :=
  on_engine f (zoom client (λ w e, mkEngine (fcs e) w) m).

Definition on_database {F T E} (f : E → F) (m : M Db E T) : M (Env W) F T :=
  zoom database (λ d s, mkEnv (engine s) d) (map_err f (tx_mut m)).
End World.

(** ** Lemmas on the resources *)

Section WorldLemmas.
Context `{SqlEngine} `{Chain} `{!EngineApi W}.
Implicit Types env : Env W.

Lemma tx_mut_Ok {S E T} (m : M S E T) s a s' : tx_mut m s = (Ok a, s') → m s = (Ok a, s').
Proof. unfold tx_mut. destruct (m s) as [[]]; intros; by simplify_eq. Qed.

Lemma on_engine_Ok {F T E} (f : E → F) (m : M (Engine W) E T) env a env' :
  on_engine f m env = (Ok a, env') →
  m (engine env) = (Ok a, engine env') ∧ database env' = database env.
Proof.
  unfold on_engine, zoom, map_err. destruct (m (engine env)) as [[]]; simpl; intros; by simplify_eq.
Qed.

Lemma on_database_Ok {F T} (f : DatabaseError → F) (m : DB T) env a env' :
  on_database f m env = (Ok a, env') →
  tx_mut m (database env) = (Ok a, database env') ∧ engine env' = engine env.
Proof.
  unfold on_database, zoom, map_err. destruct (tx_mut m _) as [[]]; simpl; intros; by simplify_eq.
Qed.

Lemma on_database_failed {F T} (f : DatabaseError → F) (m : DB T) env o env' :
  on_database f m env = (o, env') → is_ok o = false → env' = env.
Proof.
  unfold on_database, zoom, map_err, tx_mut.
  destruct (m (database env)) as [[]]; simpl; intros; simplify_eq/=; by destruct env.
Qed.

(** The database is [d0] and the engine kept the fork choice rules since [f0]. *)
Definition attempt_inv (d0 : Db) (f0 : ForkchoiceState) (env : Env W) : Prop :=
  database env = d0 ∧ fcs_inv f0 (engine env).

Lemma on_engine_inv {F T E} d0 f0 (f : E → F) (m : M (Engine W) E T) :
  preserves (fcs_inv f0) m → preserves (attempt_inv d0 f0) (on_engine f m).
Proof.
  intros Hm env [Hd Hi]. unfold on_engine, zoom, map_err. specialize (Hm _ Hi).
  by destruct (m (engine env)).
Qed.

Lemma on_client_inv {F T E} d0 f0 (f : E → F) (m : M W E T) :
  preserves (attempt_inv d0 f0) (on_client f m).
Proof.
  intros env [Hd Hi]. unfold on_client, on_engine, zoom, map_err.
  destruct (m (client (engine env))) as [[]]; done.
Qed.

Lemma on_database_reads_inv {F T} d0 f0 (f : DatabaseError → F) (m : DB T) :
  reads m → preserves (attempt_inv d0 f0) (on_database f m).
Proof.
  intros Hm env [Hd Hi]. unfold on_database, zoom, map_err, tx_mut.
  specialize (Hm (database env)). destruct (m (database env)) as [[]]; simpl in *; subst; by split.
Qed.

Lemma engine_same_inv {E T} f0 (m : M (Engine W) E T) :
  (∀ e, fcs (m e).2 = fcs e) → preserves (fcs_inv f0) m.
Proof. intros Hm e He. eapply fcs_inv_same; [apply Hm|done]. Qed.

End WorldLemmas.
