(* ===== verification/Sequencer.v ===== *)
(** * The sequencer (crates/sequencer/src)

    The block building job of the sequencer: the request of a payload with the L1 messages that
    fit, its retrieval, validation and adoption, the recovery from payloads that fail to build
    (lib.rs), and the L1 message inclusion modes (config.rs).  Timers are tokio's: the class
    [Timers] gives the interval and the sleep as functions of the clock. *)

From S2P Require Import Prelude Sql Primitives Engine DbModel DbOps World.

(** ** Configuration (config.rs) *)

Inductive L1MessageInclusionMode :=
| ModeBlockDepth (depth : Z)
| ModeFinalizedWithBlockDepth (depth : Z).

Definition L1MessageInclusionMode_default : L1MessageInclusionMode := ModeFinalizedWithBlockDepth 2.

(** [str::strip_prefix] and [str::eq_ignore_ascii_case]. *)
Fixpoint strip_prefix (pre s : string) : option string :=
  match pre, s with
  | EmptyString, _ => Some s
  | String a pre, String b s => if Ascii.eqb a b then strip_prefix pre s else None
  | String _ _, EmptyString => None
  end.

Definition ascii_lower (c : Ascii.ascii) : Ascii.ascii :=
  let n := Ascii.nat_of_ascii c in
  if (65 <=? n)%nat && (n <=? 90)%nat then Ascii.ascii_of_nat (n + 32) else c.

Fixpoint eq_ignore_ascii_case (a b : string) : bool :=
  match a, b with
  | EmptyString, EmptyString => true
  | String x a, String y b => Ascii.eqb (ascii_lower x) (ascii_lower y) && eq_ignore_ascii_case a b
  | _, _ => false
  end.

Definition parse_depth (what rest : string) (mode : Z → L1MessageInclusionMode) :
    outcome string L1MessageInclusionMode :=
  match parse_u64 rest with
  | Some n => Ok (mode n)
  | None => Err ("Expected a valid number after '" +:+ what +:+ "', got '" +:+ rest +:+ "'")%string
  end.

Definition L1MessageInclusionMode_from_str (s : string) : outcome string L1MessageInclusionMode :=
  match strip_prefix "finalized:" s with
  | Some rest => parse_depth "finalized:" rest ModeFinalizedWithBlockDepth
  | None =>
      if eq_ignore_ascii_case s "finalized" then Ok (ModeFinalizedWithBlockDepth 0)
      else match strip_prefix "depth:" s with
           | Some rest => parse_depth "depth:" rest ModeBlockDepth
           | None => Err "Expected 'finalized' or 'depth:{number}' (e.g. 'depth:10')"%string
           end
  end.

Definition L1MessageInclusionMode_fmt (m : L1MessageInclusionMode) : string :=
  match m with
  | ModeFinalizedWithBlockDepth depth => ("finalized:" +:+ u64_to_string depth)%string
  | ModeBlockDepth depth => ("depth:" +:+ u64_to_string depth)%string
  end.

Definition L1MessageKey_from_mode (m : L1MessageInclusionMode) : L1MessageKey :=
  match m with
  | ModeFinalizedWithBlockDepth depth => NotIncluded (FinalizedWithBlockDepth depth)
  | ModeBlockDepth depth => NotIncluded (BlockDepth depth)
  end.

Record PayloadBuildingConfig := mkPayloadBuilding {
  block_gas_limit : Z;
  max_l1_messages_per_block : Z;
  l1_message_inclusion_mode : L1MessageInclusionMode
}.

Record SequencerConfig := mkSequencerConfig {
  fee_recipient : Address;
  auto_start : bool;
  payload_building_config : PayloadBuildingConfig;
  block_time : Z;
  payload_building_duration : Z;
  allow_empty_blocks : bool
}.

(** ** Errors and events (error.rs, event.rs) *)

Inductive L1ProviderError :=
| BeaconProvider (msg : string)
| S3Provider (msg : string)
| BlobValidation (msg : string)
| InvalidBlockTimestamp (genesis provided : Z)
| L1ProviderDatabase (e : DatabaseError)
| L1ProviderRpc (msg : string)
| L1ProviderOther (msg : string).

Inductive SequencerError :=
| SequencerDatabaseError (e : DatabaseError)
| SequencerEngineError (e : EngineError)
| MissingPayloadId
| InvalidPayload (bi : BlockInfo) (latest_valid : option B256) (validation_error : string)
| PayloadError
| FcuNotValid
| L1MessageProviderError (e : L1ProviderError)
| NonContiguousL1Messages (got expected : Z).

Inductive SequencerEvent :=
| NewSlot
| PayloadReady (pid : PayloadId).

(** ** Recovery from failed builds *)

Record L1MessageBuildRecovery := mkRecovery {
  limit : option (BlockInfo * Z);
  pending_request : option (PayloadId * BlockInfo * Z)
}.

Definition Recovery_default : L1MessageBuildRecovery := mkRecovery None None.

Definition reset_for_parent (parent : BlockInfo) (r : L1MessageBuildRecovery) :
    L1MessageBuildRecovery :=
  match limit r with
  | Some (limit_parent, _) =>
      if bool_decide (limit_parent = parent) then r else mkRecovery None (pending_request r)
  | None => r
  end.

Definition max_messages (parent : BlockInfo) (configured : Z) (r : L1MessageBuildRecovery) :
    Z * L1MessageBuildRecovery :=
  let r := reset_for_parent parent r in
  (match limit r with Some (_, l) => Z.min configured l | None => configured end, r).

Definition record_request (pid : PayloadId) (parent : BlockInfo) (message_count : Z)
    (r : L1MessageBuildRecovery) : L1MessageBuildRecovery :=
  mkRecovery (limit r) (Some (pid, parent, message_count)).

Definition cancel_request (r : L1MessageBuildRecovery) : L1MessageBuildRecovery :=
  mkRecovery (limit r) None.

Definition record_result (pid : PayloadId) (parent : BlockInfo) (succeeded : bool)
    (r : L1MessageBuildRecovery) : option Z * L1MessageBuildRecovery :=
  let r := reset_for_parent parent r in
  match pending_request r with
  | None => (None, r)
  | Some (request_id, request_parent, count) =>
      if negb (request_id =? pid) then (None, r)
      else
        let r := cancel_request r in
        if negb (bool_decide (request_parent = parent)) then (None, r)
        else if succeeded then (None, mkRecovery None (pending_request r))
        else if 1 <? count then
          let l := count / 2 in (Some l, mkRecovery (Some (parent, l)) (pending_request r))
        else (None, r)
  end.

(** ** Timers and payload conversions of the third-party crates *)

Class Timers := {
  Interval : Type;
  Sleep : Type;
  interval : Z → Z → Interval;               (* period, now *)
  poll_tick : Z → Interval → bool * Interval; (* now *)
  sleep : Z → Z → Sleep;                      (* duration, now *)
  poll_sleep : Z → Sleep → bool * Sleep       (* now *)
}.

(** [try_into_block_with_sidecar] and [ExecutionPayloadV1::from_block_slow]. *)
Class PayloadConversion `{Chain} := {
  try_into_block : ExecutionPayloadV1 → option DogeosBlock;
  from_block_slow : DogeosBlock → ExecutionPayloadV1
}.

Definition DEFAULT_BLOCK_DIFFICULTY : Z := 1.

Definition set_difficulty (d : Z) (h : Header) : Header :=
  {| parent_hash := parent_hash h; ommers_hash := ommers_hash h; beneficiary := beneficiary h;
     state_root := state_root h; transactions_root := transactions_root h;
     receipts_root := receipts_root h; logs_bloom := logs_bloom h; difficulty := d;
     h_number := h_number h; gas_limit := gas_limit h; gas_used := gas_used h;
     timestamp := timestamp h; extra_data := extra_data h; mix_hash := mix_hash h;
     nonce := nonce h; base_fee_per_gas := base_fee_per_gas h |}.

(** ** The sequencer (lib.rs) *)

Section Sequencer.
Context `{SqlEngine} `{Chain} `{!PayloadConversion} `{Timers} `{!EngineApi W}.

(** The future of a job sleeps from its first poll on and then yields the payload id. *)
Record PayloadBuildingJob := mkJob {
  parent : BlockInfo;
  l1_origin : option Z;
  job_payload_id : PayloadId;
  job_duration : Z;
  job_sleep : option Sleep
}.

Record Sequencer := mkSequencer {
  config : SequencerConfig;
  trigger : option Interval;
  payload_building_job : option PayloadBuildingJob;
  l1_message_recovery : L1MessageBuildRecovery
}.

(** [delayed_interval]: tokio refuses an interval without a period. *)
Definition delayed_interval {E} (period now : Z) : outcome E Interval :=
  if period =? 0 then Panic else Ok (interval period now).

Definition Sequencer_new {E} (c : SequencerConfig) (now : Z) : outcome E Sequencer :=
  if auto_start c
  then omap_ok (λ i, mkSequencer c (Some i) None Recovery_default) (delayed_interval (block_time c) now)
  else Ok (mkSequencer c None None Recovery_default).

Definition cancel_payload_building_job (s : Sequencer) : Sequencer :=
  mkSequencer (config s) (trigger s) None (cancel_request (l1_message_recovery s)).

Definition enable {E} (now : Z) (s : Sequencer) : outcome E Sequencer :=
  match trigger s with
  | None =>
      omap_ok (λ i, mkSequencer (config s) (Some i) (payload_building_job s) (l1_message_recovery s))
        (delayed_interval (block_time (config s)) now)
  | Some _ => Ok s
  end.

Definition disable (s : Sequencer) : Sequencer :=
  cancel_payload_building_job
    (mkSequencer (config s) None (payload_building_job s) (l1_message_recovery s)).

Definition set_recovery (r : L1MessageBuildRecovery) (s : Sequencer) : Sequencer :=
  mkSequencer (config s) (trigger s) (payload_building_job s) r.
Definition set_job (j : option PayloadBuildingJob) (s : Sequencer) : Sequencer :=
  mkSequencer (config s) (trigger s) j (l1_message_recovery s).

(** A sequencer operation works on the sequencer and on the node's resources. *)
Notation Sq := (M (Sequencer * Env W) SequencerError).

Definition on_env {A} (m : M (Env W) SequencerError A) : Sq A :=
  zoom snd (λ e s, (fst s, e)) m.
Definition sequencer_gets {A} (f : Sequencer → A) : Sq A := gets (λ s, f (fst s)).
Definition sequencer_modify (f : Sequencer → Sequencer) : Sq unit := modify (λ s, (f (fst s), snd s)).

(** The loop over the messages: the longest prefix whose gas fits in the block. *)
Fixpoint fitting_messages (gas_limit cumulative_gas_used : Z) (msgs : list L1MessageEnvelope) :
    list Bytes :=
  match msgs with
  | [] => []
  | msg :: msgs =>
      let gas := wrapping_add (l1_gas_limit (transaction msg)) cumulative_gas_used in
      if gas <=? gas_limit
      then l1_encoded_2718 (transaction msg) :: fitting_messages gas_limit gas msgs
      else []
  end.

Definition slot_attributes (c : SequencerConfig) (ts : Z) (l1_messages : list Bytes) :
    ScrollPayloadAttributes :=
  mkAttributes ts (fee_recipient c) 0
    (if bool_decide (l1_messages = []) then None else Some l1_messages) false
    (mkHint None None None None (Some DEFAULT_BLOCK_DIFFICULTY)) None.

(** [start_payload_building] at Unix time [ts]. *)
Definition start_payload_building (ts : Z) : Sq unit :=
  let* c := sequencer_gets config in
  let pc := payload_building_config c in
  let* head := on_env (gets (λ e, fcs_head (fcs (engine e)))) in
  let* recovery := sequencer_gets l1_message_recovery in
  let '(max_l1_messages, recovery) := max_messages head (max_l1_messages_per_block pc) recovery in
  sequencer_modify (set_recovery recovery) ;;;
  let* db_l1_messages :=
    on_env (on_database (λ e, L1MessageProviderError (L1ProviderDatabase e))
              (get_n_l1_messages (Some (L1MessageKey_from_mode (l1_message_inclusion_mode pc)))
                 (Z.to_nat max_l1_messages))) in
  let origin := l1_block_number <$> List.hd_error db_l1_messages in
  let l1_messages := fitting_messages (block_gas_limit pc) 0 db_l1_messages in
  let* fcu := on_env (on_engine SequencerEngineError
                        (build_payload None (slot_attributes c ts l1_messages))) in
  let* pid := lift (ok_or MissingPayloadId (payload_id fcu)) in
  sequencer_modify (λ s, set_recovery
    (record_request pid head (Z.of_nat (length l1_messages)) (l1_message_recovery s)) s) ;;;
  sequencer_modify (set_job (Some (mkJob head origin pid (payload_building_duration c) None))).

(** The block of a built payload, with the difficulty the attributes asked for. *)
Definition payload_block (payload : ExecutionPayloadV1) : outcome SequencerError DogeosBlock :=
  match try_into_block payload with
  | None => Err PayloadError
  | Some b =>
      let b := mkBlock (set_difficulty DEFAULT_BLOCK_DIFFICULTY (header b)) (transactions b) in
      if block_hash_slow b =? p_block_hash payload then Ok b else Err PayloadError
  end.

Definition finalize_payload_building (pid : PayloadId) : Sq (option DogeosBlock) :=
  let* result := try (on_env (on_engine SequencerEngineError (get_payload pid))) in
  let* head := on_env (gets (λ e, fcs_head (fcs (engine e)))) in
  sequencer_modify (λ s, set_recovery
    (snd (record_result pid head (match result with inl _ => true | inr _ => false end)
            (l1_message_recovery s))) s) ;;;
  let* payload := lift (match result with inl p => Ok p | inr e => Err e end) in
  let* allow_empty := sequencer_gets (λ s, allow_empty_blocks (config s)) in
  if bool_decide (p_transactions payload = []) && negb allow_empty then ret None
  else
    let bi := {| hash := p_block_hash payload; number := p_block_number payload |} in
    let* block := lift (payload_block payload) in
    let* result :=
      on_env (on_engine SequencerEngineError (update_fcs_checked (Some bi) None None)) in
    match status (payload_status result) with
    | Invalid validation_error =>
        fail (InvalidPayload bi (latest_valid_hash (payload_status result)) validation_error)
    | _ => if negb (fcu_is_valid result) then fail FcuNotValid else ret (Some block)
    end.

(** [Stream::poll_next] at time [now]; [None] is [Poll::Pending]. *)
Definition poll_job (now : Z) (j : PayloadBuildingJob) : bool * PayloadBuildingJob :=
  let s := match job_sleep j with Some s => s | None => sleep (job_duration j) now end in
  let '(ready, s) := poll_sleep now s in
  (ready, mkJob (parent j) (l1_origin j) (job_payload_id j) (job_duration j) (Some s)).

Definition poll_trigger (now : Z) (s : Sequencer) : option SequencerEvent * Sequencer :=
  match trigger s with
  | None => (None, s)
  | Some i =>
      let '(ready, i) := poll_tick now i in
      let s := mkSequencer (config s) (Some i) (payload_building_job s) (l1_message_recovery s) in
      (if ready then
         match payload_building_job s with None => Some NewSlot | Some _ => None end
       else None, s)
  end.

Definition poll_next (now : Z) (s : Sequencer) : option SequencerEvent * Sequencer :=
  match payload_building_job s with
  | Some j =>
      let '(ready, j) := poll_job now j in
      if ready then (Some (PayloadReady (job_payload_id j)), set_job None s)
      else poll_trigger now (set_job (Some j) s)
  | None => poll_trigger now s
  end.
End Sequencer.
