(* ===== verification/SequencerProps.v ===== *)
(** * Properties of the sequencer

    The recovery from payloads that fail to build, the choice of the L1 messages of a slot, the
    adoption of a built payload and the text form of the inclusion modes. *)

From S2P Require Import Prelude Sql Primitives Engine DbModel DbOps DbInvariant World Sequencer.
From S2P Require Import Concrete.

(** ** Recovery *)

(** One slot on [parent] whose payload fails to build: the queue holds [avail] messages. *)
Definition failing_slot (parent : BlockInfo) (configured avail : Z) (r : L1MessageBuildRecovery)
    (pid : PayloadId) : L1MessageBuildRecovery :=
  let '(m, r) := max_messages parent configured r in
  snd (record_result pid parent false (record_request pid parent (Z.min m avail) r)).

Lemma reset_same parent r l :
  limit r = Some (parent, l) → reset_for_parent parent r = r.
Proof. unfold reset_for_parent. intros ->. by rewrite bool_decide_true. Qed.

Lemma reset_other parent r :
  (∀ l, limit r ≠ Some (parent, l)) → limit (reset_for_parent parent r) = None.
Proof.
  unfold reset_for_parent. destruct (limit r) as [[p l]|] eqn:E; intros H; [|done].
  rewrite bool_decide_false; [done|]. intros ->. by apply (H l).
Qed.

Lemma reset_idem parent r :
  reset_for_parent parent (reset_for_parent parent r) = reset_for_parent parent r.
Proof.
  unfold reset_for_parent at 2 3. destruct (limit r) as [[p l]|] eqn:E.
  - case_bool_decide; [subst; by eapply reset_same|done].
  - unfold reset_for_parent. by rewrite E.
Qed.

Lemma record_failure parent count r pid :
  limit (record_result pid parent false (record_request pid parent count r)).2 =
    if 1 <? count then Some (parent, count / 2) else limit (reset_for_parent parent r).
Proof.
  unfold record_result, record_request, reset_for_parent. simpl.
  destruct (limit r) as [[p l]|] eqn:E; [case_bool_decide|]; simpl;
    rewrite Z.eqb_refl, bool_decide_true by done; simpl; case_match; simpl; by rewrite ?E.
Qed.

Lemma failing_slot_limit parent configured avail r pid m :
  fst (max_messages parent configured r) = m →
  limit (failing_slot parent configured avail r pid) =
    if 1 <? Z.min m avail then Some (parent, Z.min m avail / 2)
    else limit (reset_for_parent parent r).
Proof.
  unfold failing_slot, max_messages. simpl. intros ->. by rewrite record_failure, reset_idem.
Qed.

Lemma halved_bounds c n : 1 < c → 1 <= Z.max 1 (c / 2 ^ Z.of_nat (S n)) <= c / 2.
Proof.
  intros Hc. assert (1 <= c / 2) by (apply (Z.div_le_lower_bound c 2 1); lia).
  rewrite Nat2Z.inj_succ, Z.pow_succ_r, <- Z.div_div by lia.
  pose proof (Z.pow_pos_nonneg 2 (Z.of_nat n)). 
  pose proof (Z.div_le_upper_bound (c / 2) (2 ^ Z.of_nat n) (c / 2)). nia.
Qed.

Lemma halve_again c n :
  1 < c →
  let l := Z.max 1 (c / 2 ^ Z.of_nat n) in
  (if 1 <? l then l / 2 else 1) = Z.max 1 (c / 2 ^ Z.of_nat (S n)).
Proof.
  intros Hc l. rewrite Nat2Z.inj_succ, Z.pow_succ_r by lia.
  rewrite (Z.mul_comm 2), <- Z.div_div by (try lia; apply Z.pow_pos_nonneg; lia).
  subst l. set (q := c / 2 ^ Z.of_nat n).
  destruct (Z.ltb_spec 1 (Z.max 1 q)).
  - rewrite !Z.max_r; [done| |lia]. apply (Z.div_le_lower_bound q 2 1); lia.
  - rewrite Z.max_l; [done|]. transitivity (1 / 2); [|done]. apply Z.div_le_mono; lia.
Qed.

Lemma failing_slots parent configured avail pids r :
  let c := Z.min configured avail in
  1 < c → (∀ l, limit r ≠ Some (parent, l)) → pids ≠ [] →
  limit (foldl (failing_slot parent configured avail) r pids) =
    Some (parent, Z.max 1 (c / 2 ^ Z.of_nat (length pids))).
Proof.
  intros c Hc Hr. induction pids as [|pid pids IH] using rev_ind; [done|]. intros _.
  rewrite foldl_app, length_app, Nat.add_1_r. simpl. rewrite <- halve_again by done. cbv zeta.
  destruct (decide (pids = [])) as [->|Hne]; simpl.
  - erewrite failing_slot_limit by done. unfold max_messages. rewrite !reset_other by done. simpl.
    fold c. rewrite Z.div_1_r, Z.max_r by lia. by rewrite (proj2 (Z.ltb_lt _ _)).
  - specialize (IH Hne). set (r' := foldl _ r pids) in *.
    destruct pids as [|p pids]; [done|]. simpl length in *.
    pose proof (halved_bounds c (length pids) Hc).
    assert (c / 2 <= c) by (apply Z.div_le_upper_bound; lia).
    erewrite failing_slot_limit by done. unfold max_messages.
    rewrite (reset_same _ _ _ IH), IH. simpl fst.
    rewrite !(Z.min_r configured), !Z.min_l by lia. destruct (Z.ltb_spec 1 (Z.max 1 (c / 2 ^ Z.of_nat (S (length pids))))); [done|].
    do 2 f_equal. lia.
Qed.

(** a slot whose payload fails to build halves the number of L1 messages the next slot on the
    same parent may take, starting from the number it took: after [n] failed slots the limit is
    [c / 2^n] and never less than one, so the queue head is never skipped and after logarithmically
    many slots single messages are tried.  With at most one message there is nothing to reduce, and
    the first success on the parent lifts the limit. *)
Theorem recovery_halves parent configured avail pids r :
  (∀ l, limit r ≠ Some (parent, l)) → pids ≠ [] →
  let c := Z.min configured avail in
  let r' := foldl (failing_slot parent configured avail) r pids in
  (1 < c → fst (max_messages parent configured r') = Z.max 1 (c / 2 ^ Z.of_nat (length pids))) ∧
  (c <= 1 → fst (max_messages parent configured r') = configured) ∧
  (∀ pid n, fst (max_messages parent configured
                   (snd (record_result pid parent true (record_request pid parent n r')))) = configured).
Proof.
  intros Hr Hne c r'. split_and!.
  - intros Hc. unfold max_messages. pose proof (failing_slots parent configured avail pids r Hc Hr Hne) as E.
    fold c r' in E. rewrite (reset_same _ _ _ E), E. simpl.
    destruct pids as [|p pids]; [done|]. simpl length.
    pose proof (halved_bounds c (length pids) Hc).
    assert (c / 2 <= c) by (apply Z.div_le_upper_bound; lia). lia.
  - intros Hc. assert (∀ l, limit r' ≠ Some (parent, l)) as Hr'.
    { subst r'. clear Hne. induction pids as [|pid pids IH] using rev_ind; [done|].
      rewrite foldl_app. simpl. erewrite failing_slot_limit by done.
      unfold max_messages. rewrite !reset_other by done. simpl.
      by rewrite (proj2 (Z.ltb_ge _ _)) by lia. }
    unfold max_messages. by rewrite reset_other.
  - intros pid n. unfold record_result, record_request, reset_for_parent, max_messages. simpl.
    destruct (limit r') as [[p l]|] eqn:E; [case_bool_decide|]; simpl;
      rewrite Z.eqb_refl, bool_decide_true by done; simpl; done.
Qed.
Definition toy_parent : BlockInfo := {| number := 4; hash := 104 |}.
Lemma recovery_halves_witness :
  fst (max_messages toy_parent 10 (foldl (failing_slot toy_parent 10 7) Recovery_default [1; 2])) = 1.
Proof.
  destruct (recovery_halves toy_parent 10 7 [1; 2] Recovery_default) as (H & _); [done|done|].
  rewrite H; [vm_compute; reflexivity|lia].
Defined.

(** ** Inclusion modes *)

Lemma strip_prefix_app pre s : strip_prefix pre (pre +:+ s) = Some s.
Proof. induction pre as [|a pre IH]; simpl; [done|]. by rewrite Ascii.eqb_refl. Qed.

(** the text an inclusion mode is displayed as parses back to the mode. *)
Theorem inclusion_mode_roundtrip m :
  match m with ModeBlockDepth d | ModeFinalizedWithBlockDepth d => in_u64 d end →
  L1MessageInclusionMode_from_str (L1MessageInclusionMode_fmt m) = Ok m.
Proof.
  intros Hd. unfold L1MessageInclusionMode_from_str. destruct m as [d|d]; unfold L1MessageInclusionMode_fmt.
  - destruct (strip_prefix "finalized:" _) eqn:E; [done|]. 
    destruct (eq_ignore_ascii_case _ _) eqn:E'; [done|].
    rewrite strip_prefix_app. unfold parse_depth. by rewrite parse_u64_to_string.
  - rewrite strip_prefix_app. unfold parse_depth. by rewrite parse_u64_to_string.
Qed.
Lemma inclusion_mode_roundtrip_witness :
  L1MessageInclusionMode_from_str "finalized:2" = Ok L1MessageInclusionMode_default.
Proof. apply (inclusion_mode_roundtrip L1MessageInclusionMode_default). vm_compute. split; done. Defined.

(** ** The messages of a slot *)

Section Slot.
Context `{SqlEngine} `{Chain} `{!PayloadConversion} `{Timers} `{!EngineApi W}.

Definition sum_gas (msgs : list L1MessageEnvelope) : Z :=
  foldr (λ m n, l1_gas_limit (transaction m) + n) 0 msgs.

(** The first [k] messages are the longest prefix whose gas fits on top of [used]. *)
Definition longest_fit (gas_limit used : Z) (msgs : list L1MessageEnvelope) (k : nat) : Prop :=
  (k <= length msgs)%nat ∧
  (k = 0%nat ∨ used + sum_gas (take k msgs) <= gas_limit) ∧
  (∀ m, msgs !! k = Some m → gas_limit < used + sum_gas (take (S k) msgs)).

Definition encode_messages (msgs : list L1MessageEnvelope) : list Bytes :=
  map (λ m, l1_encoded_2718 (transaction m)) msgs.

Lemma fitting_messages_longest gas_limit msgs used :
  ∃ k, fitting_messages gas_limit used msgs = encode_messages (take k msgs) ∧
       (0 <= used → Forall (λ m, 0 <= l1_gas_limit (transaction m)) msgs →
        used + sum_gas msgs <= u64_max → longest_fit gas_limit used msgs k).
Proof.
  revert used. induction msgs as [|m msgs IH]; intros used; simpl.
  { exists 0%nat. split; [done|]. intros. split_and!; [simpl; lia|auto|done]. }
  case_match eqn:E; bool_to_prop.
  - destruct (IH (wrapping_add (l1_gas_limit (transaction m)) used)) as (k & Hk & Hl). exists (S k). cbn [take encode_messages map]. rewrite Hk.
    split; [done|]. intros Hu [Hm Hp]%Forall_cons Hs.
    assert (0 <= sum_gas msgs) as Hr by (clear -Hp; induction Hp; simpl; lia).
    assert (wrapping_add (l1_gas_limit (transaction m)) used
            = used + l1_gas_limit (transaction m)) as Hw.
    { unfold wrapping_add, u64_max, u64_mod in *. rewrite Z.mod_small; lia. }
    rewrite Hw in *. destruct Hl as (Hl & Hfit & Hmax); [lia|done|lia|]. split_and!; simpl.
    + lia.
    + right. destruct Hfit as [->|]; [rewrite ?take_0; simpl; lia|lia].
    + intros x Hx. specialize (Hmax x Hx). simpl in Hmax. lia.
  - exists 0%nat. split; [done|]. intros Hu [Hm Hp]%Forall_cons Hs.
    assert (0 <= sum_gas msgs) as Hr by (clear -Hp; induction Hp; simpl; lia).
    unfold wrapping_add, u64_max, u64_mod in *. rewrite Z.mod_small in E by lia.
    split_and!; simpl; [lia|auto|]. intros x Hx. rewrite ?take_0. simpl. lia.
Qed.

Lemma select_messages_reads p n d : snd (select_messages p n d) = d.
Proof. done. Qed.

Lemma get_n_l1_messages_reads key n d o d' : get_n_l1_messages key n d = (o, d') → d' = d.
Proof. intros Hg. pose proof (get_n_l1_messages_state key n d) as Hd. by rewrite Hg in Hd. Qed.

Lemma gas_nonneg (rows : list MsgRow) ms :
  @map_l1_message_result DatabaseError rows = Ok ms →
  Forall (λ m, 0 <= l1_gas_limit (transaction m)) ms.
Proof.
  revert ms. induction rows as [|r rows IH]; simpl; intros ms Hms; simplify_eq; [constructor|].
  unfold L1MessageEnvelope_from in Hms. destruct (parse_u64 (mr_gas_limit r)) as [g|] eqn:E; [|done].
  simpl in Hms. destruct (map_l1_message_result rows) as [ms'| |]; simplify_eq/=.
  constructor; [|by apply IH]. simpl. unfold parse_u64 in E.
  repeat case_match; simplify_eq. lia.
Qed.

Lemma get_n_gas_nonneg key n d ms d' :
  get_n_l1_messages key n d = (Ok ms, d') → Forall (λ m, 0 <= l1_gas_limit (transaction m)) ms.
Proof.
  unfold get_n_l1_messages, get_finalized_l1_block_number, get_latest_l1_block_number, get_metadata,
    select_messages.
  destruct key as [[| | | |[]]|]; unfold bind, get, lift, ret, ok_or, expect; intros Hget;
    repeat (case_match; simplify_eq/=; try done);
    first [by apply pair_eq in Hget as [Hget _]; eapply gas_nonneg, Hget
          |by eapply gas_nonneg|by constructor].
Qed.

Lemma on_env_Ok {A} (m : M (Env W) SequencerError A) (st st' : Sequencer * Env W) a :
  on_env m st = (Ok a, st') → m (snd st) = (Ok a, snd st') ∧ fst st' = fst st.
Proof.
  unfold on_env, zoom. destruct (m (snd st)) as [o e] eqn:E. intros Hm. by simplify_eq.
Qed.

Lemma build_payload_current attrs (e e' : Engine W) r :
  build_payload None attrs e = (Ok r, e') → fcs e' = fcs e.
Proof. intros Hb. pose proof (build_payload_fcs None attrs e) as Hf. by rewrite Hb in Hf. Qed.

(** C28: opening a slot asks the execution client for a payload on the current head with exactly the
    longest prefix of the pending L1 messages, in queue order, whose gas fits in the block; it
    records the job and the number of messages it asked for, and changes neither the fork choice
    nor the database. *)
Theorem start_payload_building_spec ts (s s' : Sequencer) (env env' : Env W) :
  start_payload_building ts (s, env) = (Ok tt, (s', env')) →
  let pc := payload_building_config (config s) in
  let head := fcs_head (fcs (engine env)) in
  let n := fst (max_messages head (max_l1_messages_per_block pc) (l1_message_recovery s)) in
  ∃ msgs k fcu pid,
    get_n_l1_messages (Some (L1MessageKey_from_mode (l1_message_inclusion_mode pc))) (Z.to_nat n)
      (database env) = (Ok msgs, database env) ∧
    (sum_gas msgs <= u64_max → longest_fit (block_gas_limit pc) 0 msgs k) ∧
    build_payload None (slot_attributes (config s) ts (encode_messages (take k msgs))) (engine env) =
      (Ok fcu, engine env') ∧
    payload_id fcu = Some pid ∧
    fcs (engine env') = fcs (engine env) ∧ database env' = database env ∧
    payload_building_job s' =
      Some (mkJob head (l1_block_number <$> List.hd_error msgs) pid
              (payload_building_duration (config s)) None) ∧
    pending_request (l1_message_recovery s') =
      Some (pid, head, Z.of_nat (length (encode_messages (take k msgs)))) ∧
    config s' = config s ∧ trigger s' = trigger s.
Proof.
  cbv zeta. set (pc := payload_building_config (config s)). set (head := fcs_head (fcs (engine env))).
  intros Hrun. unfold start_payload_building in Hrun.
  apply bind_Ok in Hrun as (c & [s1 e1] & [= <- <- <-] & Hrun). cbn [fst snd] in Hrun.
  apply bind_Ok in Hrun as (h & [s1 e1] & [= <- <- <-] & Hrun).
  apply bind_Ok in Hrun as (r & [s1 e1] & [= <- <- <-] & Hrun). cbn [fst snd] in Hrun.
  fold pc head in Hrun.
  destruct (max_messages head (max_l1_messages_per_block pc) (l1_message_recovery s))
    as [n' r'] eqn:En.
  apply bind_Ok in Hrun as ([] & [s1 e1] & [= <- <-] & Hrun).
  apply bind_Ok in Hrun as (msgs & [s1 e1] & [Hdb Hs]%on_env_Ok & Hrun).
  apply on_database_Ok in Hdb as [Hdb%tx_mut_Ok Hen]. cbn [fst snd] in Hdb, Hs, Hen. subst s1.
  pose proof (get_n_gas_nonneg _ _ _ _ _ Hdb) as Hpos.
  pose proof (get_n_l1_messages_reads _ _ _ _ _ Hdb) as Hd.
  destruct (fitting_messages_longest (block_gas_limit pc) msgs 0) as (k & Hk & Hfit).
  fold pc in Hrun. rewrite Hk in Hrun.
  apply bind_Ok in Hrun as (fcu & [s1 e2] & [Hb Hs]%on_env_Ok & Hrun).
  apply on_engine_Ok in Hb as [Hb Hd2]. cbn [fst snd] in Hb, Hs, Hd2. subst s1. rewrite Hen in Hb.
  apply bind_Ok in Hrun as (pid & [s3 e3] & [Hp [= -> ->]]%lift_Ok & Hrun).
  unfold ok_or in Hp. destruct (payload_id fcu) as [pid'|] eqn:Ep; [|done]. injection Hp as ->.
  apply bind_Ok in Hrun as ([] & [s4 e4] & [= <- <-] & [= <- <-]). cbn [fst snd] in *.
  exists msgs, k, fcu, pid. rewrite Hd2, Hd in *. split_and!; try done; simpl.
  - intros. by apply Hfit.
  - by rewrite (build_payload_current _ _ _ _ Hb), <- Hen.
Qed.

(** finalizing a built payload either adopts it or leaves the fork choice alone.  A block is
    returned only when the payload converts to it, its hash with the mandated difficulty is the
    payload's and the client confirmed it with VALID; then the head is that block, with the safe
    and finalized blocks unchanged.  Every other outcome, errors included, leaves the local fork
    choice as it was, and the database is never touched. *)
Theorem finalize_payload_building_spec pid (s s' : Sequencer) (env env' : Env W) o :
  finalize_payload_building pid (s, env) = (o, (s', env')) →
  (∀ b, o = Ok (Some b) →
     ∃ payload b0 en r,
       get_payload pid (engine env) = (Ok payload, en) ∧
       try_into_block payload = Some b0 ∧
       header b = set_difficulty DEFAULT_BLOCK_DIFFICULTY (header b0) ∧
       transactions b = transactions b0 ∧
       block_hash_slow b = p_block_hash payload ∧
       (p_transactions payload ≠ [] ∨ allow_empty_blocks (config s) = true) ∧
       let head := {| number := p_block_number payload; hash := block_hash_slow b |} in
       update_fcs_checked (Some head) None None en = (Ok r, engine env') ∧
       status (payload_status r) = Valid ∧
       fcs (engine env') =
         mkFcs head (fcs_safe (fcs (engine env))) (fcs_finalized (fcs (engine env)))) ∧
  ((∀ b, o ≠ Ok (Some b)) → fcs (engine env') = fcs (engine env)) ∧
  database env' = database env ∧
  config s' = config s ∧ trigger s' = trigger s ∧ payload_building_job s' = payload_building_job s.
Proof.
  unfold finalize_payload_building, bind, try, on_env, on_engine, zoom, map_err, gets, lift,
    sequencer_modify, sequencer_gets, modify. simpl.
  destruct (get_payload pid (engine env)) as [op en] eqn:Eget.
  assert (fcs en = fcs (engine env)) as Hen.
  { pose proof (get_payload_fcs pid (engine env)) as Hg. by rewrite Eget in Hg. }
  destruct op as [payload|e|]; simpl; [|intros; simplify_eq/=; by split_and!..].
  destruct (bool_decide _ && _) eqn:Eempty.
  { unfold ret. intros; simplify_eq/=. split_and!; naive_solver. }
  unfold payload_block. destruct (try_into_block payload) as [b0|] eqn:Eb; simpl;
    [|intros; simplify_eq/=; by split_and!].
  destruct (block_hash_slow _ =? _) eqn:Eh; simpl; [|intros; simplify_eq/=; by split_and!].
  destruct (update_fcs_checked _ None None en) as [oc en'] eqn:Eu.
  destruct oc as [r|e|]; simpl.
  2-3: intros; simplify_eq/=; split_and!; try done; intros;
    by rewrite (update_fcs_checked_failed _ _ _ _ _ _ Eu).
  assert (if fcu_is_valid r
          then fcs en' = mkFcs {| number := p_block_number payload; hash := p_block_hash payload |}
                           (fcs_safe (fcs en)) (fcs_finalized (fcs en))
          else fcs en' = fcs en) as Hok.
  { pose proof (update_fcs_checked_ok _ _ _ _ _ _ Eu) as Hok.
    destruct (fcu_is_valid r); [|done]. by apply fcs_update_spec in Hok as (_ & -> & _). }
  unfold fcu_is_valid in *.
  destruct (status (payload_status r)) eqn:Est; unfold fail, ret, fcu_is_valid; rewrite ?Est; simpl;
    intros; simplify_eq/=; try (split_and!; try done; intros; congruence).
  split_and!; try done; [|naive_solver].
  intros b [= <-]. bool_to_prop. exists payload, b0, en, r. split_and!; try done.
  - apply andb_false_iff in Eempty as [?|?]; bool_to_prop; auto.
  - by rewrite Eh.
  - by rewrite Hok, Eh, Hen.
Qed.

End Slot.

(** ** Witnesses *)

Definition toy_timers : Timers := {|
  Interval := Z * Z;
  Sleep := Z;
  interval := λ period now, (period, now);
  poll_tick := λ now '(period, next), if next <=? now then (true, (period, now + period))
                                      else (false, (period, next));
  sleep := λ duration now, now + duration;
  poll_sleep := λ now deadline, (deadline <=? now, deadline)
|}.

Definition toy_conversion : @PayloadConversion toy_chain := {|
  try_into_block := λ p,
    Some (toy_block (p_block_number p) (p_block_hash p) (p_parent_hash p) (p_timestamp p)
            (omap (@decode_2718 toy_chain) (p_transactions p)));
  from_block_slow := λ b,
    mkPayload (parent_hash (@header toy_chain b)) (@block_number toy_chain b)
      (@block_hash_slow toy_chain b) (default 0 (base_fee_per_gas (@header toy_chain b)))
      (timestamp (@header toy_chain b))
      (map (@encoded_2718 toy_chain) (@transactions toy_chain b))
|}.

Definition toy_queue_row (i gas : Z) : MsgRow :=
  mkMsgRow i None (10000 + i) 1 (u64_to_string gas) 0 0 0 [] None false.

(** Three pending messages of 40 gas each, a block that holds two of them. *)
Definition toy_seq_db : Db :=
  set_metadata (<["l1_latest_block" := "9"]> metadata_init)
    (set_l1_message (map (λ i, toy_queue_row i 40) [0; 1; 2]) (migrated 100)).
Definition toy_seq_config : SequencerConfig :=
  mkSequencerConfig 5 false (mkPayloadBuilding 100 8 (ModeBlockDepth 2)) 1000 50 false.
Definition toy_sequencer : @Sequencer toy_timers := mkSequencer toy_seq_config None None Recovery_default.
Definition toy_seq_env (fcus : list ForkchoiceUpdated) (built : list ExecutionPayloadV1) : Env Script :=
  mkEnv (mkEngine (from_genesis 100) (mkScript fcus [] built)) toy_seq_db.

Definition toy_start :=
  @start_payload_building stored_order toy_chain toy_timers Script script_api 77
    (toy_sequencer, toy_seq_env [fcu_answer Valid (Some 3)] []).

Lemma start_payload_building_spec_witness :
  toy_start.1 = Ok tt ∧
  payload_building_job toy_start.2.1 =
    Some (mkJob (H2 := toy_timers) {| number := 0; hash := 100 |} (Some 1) 3 50 None) ∧
  pending_request (l1_message_recovery toy_start.2.1) = Some (3, {| number := 0; hash := 100 |}, 2).
Proof.
  assert (toy_start = (Ok tt, (toy_start.2.1, toy_start.2.2))) as Hrun by (vm_compute; reflexivity).
  pose proof (@start_payload_building_spec stored_order toy_chain toy_timers Script script_api
    77 _ _ _ _ Hrun) as Hspec.
  split; [vm_compute; reflexivity|].
  destruct Hspec as (msgs & k & fcu & pid & _ & _ & _ & _ & _ & _ & Hjob & Hreq & _).
  split; vm_compute; reflexivity.
Defined.

Definition toy_payload_1 : ExecutionPayloadV1 := mkPayload 100 1 101 7 1001 [[2; 33]].
Definition toy_finalize_env : Env Script :=
  toy_seq_env [fcu_answer Valid None] [toy_payload_1].
Definition toy_finalize :=
  @finalize_payload_building toy_chain toy_conversion toy_timers Script script_api 3
    (toy_sequencer, toy_finalize_env).

Lemma finalize_payload_building_spec_witness :
  match toy_finalize.1 with Ok (Some b) => @block_hash_slow toy_chain b = 101 | _ => False end ∧
  fcs (engine toy_finalize.2.2) =
    mkFcs {| number := 1; hash := 101 |} {| number := 0; hash := 100 |} {| number := 0; hash := 100 |} ∧
  database toy_finalize.2.2 = toy_seq_db.
Proof.
  assert (toy_finalize = (toy_finalize.1, (toy_finalize.2.1, toy_finalize.2.2))) as Hrun
    by (by destruct toy_finalize as [? []]).
  pose proof (@finalize_payload_building_spec toy_chain toy_conversion toy_timers Script script_api
    3 toy_sequencer toy_finalize.2.1 toy_finalize_env toy_finalize.2.2 toy_finalize.1 Hrun) as Hspec.
  split; [vm_compute; reflexivity|]. split; [vm_compute; reflexivity|].
  exact (proj1 (proj2 (proj2 Hspec))).
Defined.
