(* ===== verification/Signing.v ===== *)
(** * Block signatures: preimage, signer and consensus

    The hash a sequencer signs (primitives/src/signature.rs), the signer task with its ordered
    futures and retries (signer/src), and the consensus rules that check a block's signature
    (chain-orchestrator/src/consensus.rs).  The RLP encoders and the recovery of a signer from a
    signature are third-party: the class [Rlp] gives the encoders, [recover_signer] the recovery. *)

From S2P Require Import Prelude Primitives BigEndian.

(** ** The signed hash (signature.rs) *)

(** The RLP encodings of a fixed-size byte string, of an integer and of a list header, with the
    lengths the [Encodable::length] methods report. *)
Class Rlp := {
  rlp_fixed : nat → Z → Bytes;
  rlp_fixed_length : nat → nat;
  rlp_uint : Z → Bytes;
  rlp_uint_length : Z → nat;
  rlp_list_header : nat → Bytes
}.

Section Signature.
Context `{Chain} `{Rlp}.

Definition sig_header_payload_length (h : Header) : nat :=
  rlp_fixed_length 32 + rlp_fixed_length 32 + rlp_fixed_length 20 + rlp_fixed_length 32 +
  rlp_fixed_length 32 + rlp_fixed_length 32 + rlp_fixed_length 256 +
  rlp_uint_length (difficulty h) + rlp_uint_length (h_number h) + rlp_uint_length (gas_limit h) +
  rlp_uint_length (gas_used h) + rlp_uint_length (timestamp h) + rlp_fixed_length 32 +
  rlp_fixed_length 8 +
  match base_fee_per_gas h with Some base_fee => rlp_uint_length base_fee | None => 0 end.

(** The bytes between the list header and the end. *)
Definition sig_payload (h : Header) : Bytes :=
  rlp_fixed 32 (parent_hash h) ++ rlp_fixed 32 (ommers_hash h) ++ rlp_fixed 20 (beneficiary h) ++
  rlp_fixed 32 (state_root h) ++ rlp_fixed 32 (transactions_root h) ++
  rlp_fixed 32 (receipts_root h) ++ rlp_fixed 256 (logs_bloom h) ++ rlp_uint (difficulty h) ++
  rlp_uint (h_number h) ++ rlp_uint (gas_limit h) ++ rlp_uint (gas_used h) ++
  rlp_uint (timestamp h) ++ rlp_fixed 32 (mix_hash h) ++ rlp_fixed 8 (nonce h) ++
  match base_fee_per_gas h with Some base_fee => rlp_uint base_fee | None => [] end.

Definition sig_preimage (h : Header) : Bytes :=
  rlp_list_header (sig_header_payload_length h) ++ sig_payload h.

Definition sig_encode_hash (h : Header) : B256 := keccak256 (sig_preimage h).
End Signature.

(** ** The signer task (signer/src/lib.rs, future.rs); delays in seconds *)

Definition FIRST_RETRY_DELAY : Z := 1.
Definition MAX_RETRY_DELAY : Z := 30.

Inductive SignerError := RequestChannelClosed | EventChannelClosed.

Section Signer.
Context `{Chain} `{Rlp}.

(** A signing future: its block and the delay before its next retry. *)
Record SignerFuture := mkSignerFuture { sf_block : DogeosBlock; sf_delay : Z }.

Definition sign_block (b : DogeosBlock) : SignerFuture := mkSignerFuture b FIRST_RETRY_DELAY.

(** A failed or timed out attempt: the future sleeps for its delay, which then doubles. *)
Definition sign_retry (f : SignerFuture) : SignerFuture :=
  mkSignerFuture (sf_block f) (Z.min (sf_delay f * 2) MAX_RETRY_DELAY).

Record Signer := mkSigner {
  requests : list DogeosBlock;
  in_progress : list (SignerFuture + DogeosBlock * Signature);
  sent : list (DogeosBlock * Signature)
}.

Definition Signer_new : Signer := mkSigner [] [] [].

(** [signs b s]: the key may answer the signature [s] for the hash of [b]. *)
Variable sign_hash : B256 → Signature → Prop.

(** The steps of the task and its clients, labelled with the blocks requested.  [FuturesOrdered]
    polls every future but yields only the first. *)
Inductive signer_step : list DogeosBlock → Signer → Signer → Prop :=
| signer_request b rq fs out :
    signer_step [b] (mkSigner rq fs out) (mkSigner (rq ++ [b]) fs out)
| signer_start b rq fs out :
    signer_step [] (mkSigner (b :: rq) fs out) (mkSigner rq (fs ++ [inl (sign_block b)]) out)
| signer_attempt_ok rq fs1 f fs2 out s :
    sign_hash (sig_encode_hash (header (sf_block f))) s →
    signer_step [] (mkSigner rq (fs1 ++ inl f :: fs2) out)
      (mkSigner rq (fs1 ++ inr (sf_block f, s) :: fs2) out)
| signer_attempt_failed rq fs1 f fs2 out :
    signer_step [] (mkSigner rq (fs1 ++ inl f :: fs2) out)
      (mkSigner rq (fs1 ++ inl (sign_retry f) :: fs2) out)
| signer_send rq e fs out :
    signer_step [] (mkSigner rq (inr e :: fs) out) (mkSigner rq fs (out ++ [e])).

Inductive signer_run : list DogeosBlock → Signer → Signer → Prop :=
| signer_run_nil s : signer_run [] s s
| signer_run_step l1 l2 s1 s2 s3 :
    signer_run l1 s1 s2 → signer_step l2 s2 s3 → signer_run (l1 ++ l2) s1 s3.
End Signer.

(** ** Consensus (consensus.rs) *)

Inductive ConsensusUpdate := AuthorizedSigner (signer : Address).

Inductive ConsensusError :=
| IncorrectSigner (got expected : Address)
| Recovery (msg : string).

(** The two implementations of the [Consensus] trait. *)
Inductive Consensus :=
| NoopConsensus
| SystemContractConsensus (authorized_signer : Address).

(** [secp256k1::recover_signer]. *)
Class SignerRecovery := recover_signer : Signature → B256 → outcome string Address.

Section Consensus.
Context `{Chain} `{Rlp} `{SignerRecovery}.

Definition update_config (update : ConsensusUpdate) (c : Consensus) : Consensus :=
  match c, update with
  | NoopConsensus, _ => NoopConsensus
  | SystemContractConsensus _, AuthorizedSigner signer => SystemContractConsensus signer
  end.

Definition validate_new_block (c : Consensus) (block : DogeosBlock) (signature : Signature) :
    outcome ConsensusError unit :=
  match c with
  | NoopConsensus => Ok tt
  | SystemContractConsensus authorized_signer =>
      obind (omap_err Recovery (recover_signer signature (sig_encode_hash (header block))))
        (λ signer,
         if negb (authorized_signer =? signer)
         then Err (IncorrectSigner signer authorized_signer) else Ok tt)
  end.

Definition should_sequence_block (c : Consensus) (sequencer : Address) : bool :=
  match c with
  | NoopConsensus => true
  | SystemContractConsensus authorized_signer => sequencer =? authorized_signer
  end.
End Consensus.

(** ** The preimage determines the signed fields *)

(** A value of [n] bytes, and a [U256]. *)
Definition fits (n : nat) (z : Z) : Prop := 0 <= z < 256 ^ Z.of_nat n.
Definition in_u256 (z : Z) : Prop := 0 <= z < 2 ^ 256.

(** What the RLP specification promises of the encoders, on the values Rust's types hold. *)
Class RlpLaws (r : Rlp) := {
  rlp_fixed_len n z : length (rlp_fixed n z) = rlp_fixed_length n;
  rlp_uint_len z : length (rlp_uint z) = rlp_uint_length z;
  rlp_fixed_inj n a b :
    fits n a → fits n b → rlp_fixed n a = rlp_fixed n b → a = b;
  rlp_uint_prefix a b x y :
    in_u256 a → in_u256 b → rlp_uint a ++ x = rlp_uint b ++ y → a = b ∧ x = y;
  rlp_uint_nonempty a : rlp_uint a ≠ [];
  rlp_list_header_prefix m n x y :
    length x = m → length y = n → rlp_list_header m ++ x = rlp_list_header n ++ y → x = y
}.

(** The ranges of the header's field types. *)
Definition header_in_range (h : Header) : Prop :=
  fits 32 (parent_hash h) ∧ fits 32 (ommers_hash h) ∧
  fits 20 (beneficiary h) ∧ fits 32 (state_root h) ∧
  fits 32 (transactions_root h) ∧ fits 32 (receipts_root h) ∧
  fits 256 (logs_bloom h) ∧ fits 32 (mix_hash h) ∧
  fits 8 (nonce h) ∧ in_u256 (difficulty h) ∧ in_u256 (h_number h) ∧
  in_u256 (gas_limit h) ∧ in_u256 (gas_used h) ∧ in_u256 (timestamp h) ∧
  ∀ fee, base_fee_per_gas h = Some fee → in_u256 fee.

Definition set_extra_data (e : Bytes) (h : Header) : Header :=
  {| parent_hash := parent_hash h; ommers_hash := ommers_hash h; beneficiary := beneficiary h;
     state_root := state_root h; transactions_root := transactions_root h;
     receipts_root := receipts_root h; logs_bloom := logs_bloom h; difficulty := difficulty h;
     h_number := h_number h; gas_limit := gas_limit h; gas_used := gas_used h;
     timestamp := timestamp h; extra_data := e; mix_hash := mix_hash h;
     nonce := nonce h; base_fee_per_gas := base_fee_per_gas h |}.

Section Preimage.
Context `{Chain} `{RlpLaws}.

Lemma sig_payload_length h : length (sig_payload h) = sig_header_payload_length h.
Proof.
  unfold sig_payload, sig_header_payload_length. rewrite !length_app, !rlp_fixed_len, !rlp_uint_len.
  destruct (base_fee_per_gas h); simpl; rewrite ?rlp_uint_len; lia.
Qed.

Lemma rlp_fixed_prefix n a b x y :
  fits n a → fits n b →
  rlp_fixed n a ++ x = rlp_fixed n b ++ y → a = b ∧ x = y.
Proof.
  intros Ha Hb E. apply app_inj_1 in E as [E ->]; [|by rewrite !rlp_fixed_len].
  by apply rlp_fixed_inj in E.
Qed.

Lemma rlp_last_prefix (a b : option Z) :
  (∀ fee, a = Some fee → in_u256 fee) → (∀ fee, b = Some fee → in_u256 fee) →
  match a with Some fee => rlp_uint fee | None => [] end =
  match b with Some fee => rlp_uint fee | None => [] end → a = b.
Proof.
  intros Ha Hb E. destruct a as [a|], b as [b|]; try done.
  - f_equal. apply (rlp_uint_prefix a b [] []); auto. by rewrite !app_nil_r.
  - by apply rlp_uint_nonempty in E.
  - symmetry in E. by apply rlp_uint_nonempty in E.
Qed.

Lemma sig_payload_inj h1 h2 :
  header_in_range h1 → header_in_range h2 → sig_payload h1 = sig_payload h2 →
  h2 = set_extra_data (extra_data h2) h1.
Proof.
  intros R1 R2 E. unfold header_in_range in R1, R2. destruct_and?. unfold sig_payload in E.
  repeat first
    [ apply rlp_fixed_prefix in E as [? E]; [|assumption..]
    | apply rlp_uint_prefix in E as [? E]; [|assumption..] ].
  apply rlp_last_prefix in E; [|assumption..]. destruct h1, h2.
  unfold set_extra_data. simpl in *. by subst.
Qed.

(** the bytes a block's signature covers determine every field of the header except
    [extra_data], and do not depend on that one: two headers have the same preimage exactly when
    they differ at most there.  The length written in the list header is the payload's. *)
Theorem sig_preimage_binds h1 h2 :
  header_in_range h1 → header_in_range h2 →
  (sig_preimage h1 = sig_preimage h2 ↔ h2 = set_extra_data (extra_data h2) h1) ∧
  length (sig_payload h1) = sig_header_payload_length h1.
Proof.
  intros R1 R2. split; [split|apply sig_payload_length].
  - unfold sig_preimage. intros E. apply rlp_list_header_prefix in E; [|apply sig_payload_length..].
    by apply sig_payload_inj.
  - intros ->. done.
Qed.
End Preimage.

(** ** The signer delivers in order *)

Section SignerProps.
Context `{Chain} `{Rlp}.
Variable sign_hash : B256 → Signature → Prop.

Definition future_block (f : SignerFuture + DogeosBlock * Signature) : DogeosBlock :=
  match f with inl f => sf_block f | inr (b, _) => b end.

Definition signed_by_key (e : DogeosBlock * Signature) : Prop :=
  sign_hash (sig_encode_hash (header (fst e))) (snd e).

(** What holds of one future of the queue. *)
Definition future_ok (f : SignerFuture + DogeosBlock * Signature) : Prop :=
  match f with
  | inl f => FIRST_RETRY_DELAY <= sf_delay f <= MAX_RETRY_DELAY
  | inr e => signed_by_key e
  end.

(** Signatures are handed out in the order the blocks were requested, one per block, each made by
    the key over that block's hash; a stuck or failing block delays the later ones but is never
    skipped, and its retry delay stays between one and thirty seconds. *)
Theorem signer_run_ordered requested s :
  signer_run sign_hash requested Signer_new s →
  requested = map fst (sent s) ++ map future_block (in_progress s) ++ requests s ∧
  Forall signed_by_key (sent s) ∧ Forall future_ok (in_progress s).
Proof.
  remember Signer_new as s0. intros Hr. revert Heqs0.
  induction Hr as [s|l1 l2 s1 s2 s3 _ IH Hs]; intros ->; [done|].
  destruct (IH eq_refl) as (-> & Hsent & Hfs). clear IH.
  inversion Hs; subst; simpl in *; rewrite ?app_nil_r.
  - by rewrite <- !app_assoc.
  - rewrite map_app, <- !app_assoc. split_and!; try done.
    apply Forall_app. split; [done|]. constructor; [done|constructor].
  - apply Forall_app in Hfs as [? [? ?]%Forall_cons]. rewrite !map_app.
    split_and!; try done. apply Forall_app. split; [done|]. by constructor.
  - apply Forall_app in Hfs as [? [Hf ?]%Forall_cons]. rewrite !map_app.
    split_and!; try done. apply Forall_app. split; [done|]. constructor; [|done].
    unfold future_ok, sign_retry, FIRST_RETRY_DELAY, MAX_RETRY_DELAY in *. simpl in *. lia.
  - apply Forall_cons in Hfs as [? ?]. rewrite map_app, <- app_assoc. destruct e as [b sg].
    split_and!; try done. apply Forall_app. split; [done|]. by constructor.
Qed.
End SignerProps.

(** under the system contract a block passes exactly when its signature recovers to the
    authorized signer, the one named by the last update; nothing else about the block is looked at,
    and a node sequences exactly under that address. *)
Theorem system_contract_accepts `{Chain} `{Rlp} `{SignerRecovery} start updates block signature :
  let c := foldl (λ c u, update_config u c) (SystemContractConsensus start) updates in
  let authorized := match last updates with Some (AuthorizedSigner a) => a | None => start end in
  c = SystemContractConsensus authorized ∧
  (validate_new_block c block signature = Ok tt ↔
     recover_signer signature (sig_encode_hash (header block)) = Ok authorized) ∧
  (∀ a, should_sequence_block c a = true ↔ a = authorized).
Proof.
  intros c authorized. assert (c = SystemContractConsensus authorized) as ->.
  { subst c authorized. induction updates as [|u updates IH] using rev_ind; [done|].
    rewrite foldl_app, last_snoc. simpl. rewrite IH. by destruct u. }
  split; [done|]. split.
  - simpl. destruct (recover_signer _ _) as [a|e|]; simpl; [|done..].
    destruct (Z.eqb_spec authorized a) as [->|Hne]; simpl; [done|]. split; [done|]. intros [= ->]. done.
  - intros a. simpl. apply Z.eqb_eq.
Qed.
