(* ===== verification/ConcreteRlp.v ===== *)
(** * A concrete RLP encoder

    The encodings of the RLP specification for the values a header holds, with the laws [RlpLaws]
    asks for, and the inputs of the witnesses about signatures. *)

From S2P Require Import Prelude Primitives BigEndian Signing Concrete.

(** The number of bytes of a positive integer. *)
Definition byte_length (z : Z) : nat := Z.to_nat (Z.log2 z / 8 + 1).

Definition rlp_encode_uint (z : Z) : Bytes :=
  if z <=? 0 then [128]
  else if z <? 128 then [z]
  else 128 + Z.of_nat (byte_length z) :: be_bytes (byte_length z) z.

Definition rlp_encode_fixed (n : nat) (z : Z) : Bytes :=
  (if Nat.leb n 55 then [128 + Z.of_nat n] else [185; Z.of_nat n / 256; Z.of_nat n mod 256]) ++
  be_bytes n z.

Definition rlp_encode_list_header (n : nat) : Bytes :=
  if Nat.ltb n 56 then [192 + Z.of_nat n]
  else 247 + Z.of_nat (byte_length (Z.of_nat n)) ::
       be_bytes (byte_length (Z.of_nat n)) (Z.of_nat n).

Definition ethereum_rlp : Rlp := {|
  rlp_fixed := rlp_encode_fixed;
  rlp_fixed_length := λ n, (if Nat.leb n 55 then 1 + n else 3 + n)%nat;
  rlp_uint := rlp_encode_uint;
  rlp_uint_length := λ z, (if Z.ltb z 128 then 1 else 1 + byte_length z)%nat;
  rlp_list_header := rlp_encode_list_header
|}.

Lemma cons_eq_inv (a b : Z) (x y : Bytes) : a :: x = b :: y → a = b ∧ x = y.
Proof. by intros [= -> ->]. Qed.

Lemma byte_length_bound z : 0 < z → z < 256 ^ Z.of_nat (byte_length z).
Proof.
  intros Hz. unfold byte_length. pose proof (Z.log2_nonneg z).
  assert (0 <= Z.log2 z / 8) by (apply Z.div_pos; lia).
  rewrite Z2Nat.id by lia. replace 256 with (2 ^ 8) by done. rewrite <- Z.pow_mul_r by lia.
  apply Z.log2_lt_pow2; [done|]. pose proof (Z.div_mod (Z.log2 z) 8). 
  pose proof (Z.mod_pos_bound (Z.log2 z) 8). lia.
Qed.

Lemma byte_length_u256 z : 128 <= z → in_u256 z → (1 <= byte_length z <= 32)%nat.
Proof.
  unfold in_u256, byte_length. intros Hz [_ Hb]. apply Z.log2_lt_pow2 in Hb; [|lia].
  pose proof (Z.log2_nonneg z). assert (0 <= Z.log2 z / 8) by (apply Z.div_pos; lia).
  assert (Z.log2 z / 8 < 32) by (apply Z.div_lt_upper_bound; lia). lia.
Qed.

Lemma be_bytes_inj n a b : fits n a → fits n b → be_bytes n a = be_bytes n b → a = b.
Proof.
  unfold fits. intros Ha Hb E. rewrite <- (from_be_be_bytes n a), <- (from_be_be_bytes n b) by done.
  by rewrite E.
Qed.

Lemma be_bytes_prefix n a b x y :
  fits n a → fits n b → be_bytes n a ++ x = be_bytes n b ++ y → a = b ∧ x = y.
Proof.
  intros Ha Hb E. apply app_inj_1 in E as [E ->]; [|by rewrite !length_be_bytes].
  split; [|done]. by eapply be_bytes_inj.
Qed.

Lemma byte_length_fits z : 0 < z → fits (byte_length z) z.
Proof. intros Hz. unfold fits. pose proof (byte_length_bound z Hz). lia. Qed.

Lemma long_uint_prefix a b x y :
  0 < a → 0 < b → byte_length a = byte_length b →
  be_bytes (byte_length a) a ++ x = be_bytes (byte_length b) b ++ y → a = b ∧ x = y.
Proof.
  intros Ha Hb E. rewrite <- E. apply be_bytes_prefix; [by apply byte_length_fits|].
  rewrite E. by apply byte_length_fits.
Qed.

Lemma rlp_encode_uint_prefix a b x y :
  in_u256 a → in_u256 b → rlp_encode_uint a ++ x = rlp_encode_uint b ++ y → a = b ∧ x = y.
Proof.
  intros Ha Hb. assert (128 <= a → (1 <= byte_length a <= 32)%nat) by (intros; by apply byte_length_u256).
  assert (128 <= b → (1 <= byte_length b <= 32)%nat) by (intros; by apply byte_length_u256).
  unfold rlp_encode_uint. pose proof (proj1 Ha). pose proof (proj1 Hb).
  destruct (Z.leb_spec a 0), (Z.leb_spec b 0); [|destruct (Z.ltb_spec b 128)|destruct (Z.ltb_spec a 128)|
    destruct (Z.ltb_spec a 128), (Z.ltb_spec b 128)]; cbn [app]; intros [E1 E2]%cons_eq_inv;
    try (split; [lia|done]); try (exfalso; lia).
  apply long_uint_prefix in E2; [done|lia..].
Qed.

Lemma rlp_encode_list_header_prefix m n x y :
  length x = m → length y = n →
  rlp_encode_list_header m ++ x = rlp_encode_list_header n ++ y → x = y.
Proof.
  intros Hx Hy. unfold rlp_encode_list_header.
  assert (∀ z : Z, 0 <= z → (1 <= byte_length z)%nat) as Hpos.
  { intros z Hz. unfold byte_length. pose proof (Z.log2_nonneg z).
    assert (0 <= Z.log2 z / 8) by (apply Z.div_pos; lia). lia. }
  pose proof (Hpos (Z.of_nat m)). pose proof (Hpos (Z.of_nat n)).
  destruct (Nat.ltb_spec m 56), (Nat.ltb_spec n 56); cbn [app]; intros [E1 E2]%cons_eq_inv;
    try done; try (exfalso; lia).
  apply long_uint_prefix in E2 as [_ E2]; [done|lia..].
Qed.

#[global] Instance ethereum_rlp_laws : RlpLaws ethereum_rlp.
Proof.
  split; simpl.
  - intros n z. unfold rlp_encode_fixed. rewrite length_app, length_be_bytes.
    destruct (Nat.leb n 55); simpl; lia.
  - intros z. unfold rlp_encode_uint. destruct (Z.leb_spec z 0), (Z.ltb_spec z 128); simpl; try lia.
    by rewrite length_be_bytes.
  - intros n a b Ha Hb E. unfold rlp_encode_fixed in E. apply app_inj_1 in E as [_ E]; [|done].
    by eapply be_bytes_inj.
  - intros a b x y. apply rlp_encode_uint_prefix.
  - intros a. unfold rlp_encode_uint. by repeat case_match.
  - intros m n x y. apply rlp_encode_list_header_prefix.
Qed.

(** ** Witnesses *)

(** Two headers that differ in [extra_data] only. *)
Lemma sig_preimage_binds_witness :
  @sig_preimage ethereum_rlp (toy_header 3 103 102 1003) =
    @sig_preimage ethereum_rlp (set_extra_data [1; 2] (toy_header 3 103 102 1003)).
Proof.
  apply (@sig_preimage_binds ethereum_rlp ethereum_rlp_laws
           (toy_header 3 103 102 1003) (set_extra_data [1; 2] (toy_header 3 103 102 1003)));
    [..|reflexivity];
    unfold header_in_range, fits, in_u256; simpl; repeat split; intros; simplify_eq; done.
Defined.

Definition toy_signs (h : B256) (s : Signature) : Prop := s = h.
Definition toy_signed : DogeosBlock := toy_block 1 101 100 1001 [].

Lemma signer_run_ordered_witness :
  ∃ s, signer_run (H := toy_chain) (H0 := ethereum_rlp) toy_signs [toy_signed] Signer_new s ∧
    in_progress s = [inl (mkSignerFuture toy_signed 2)] ∧
    [toy_signed] = map fst (sent s) ++ map future_block (in_progress s) ++ requests s.
Proof.
  assert (signer_run (H := toy_chain) (H0 := ethereum_rlp) toy_signs ((([] ++ [toy_signed]) ++ []) ++ [])
            Signer_new (mkSigner [] [inl (mkSignerFuture toy_signed 2)] [])) as Hrun.
  { eapply signer_run_step; [eapply signer_run_step; [eapply signer_run_step|]|].
    - constructor.
    - apply signer_request.
    - apply (signer_start _ toy_signed [] [] []).
    - apply (signer_attempt_failed _ [] [] (sign_block toy_signed) [] []). }
  eexists. split; [exact Hrun|]. split; [reflexivity|].
  exact (proj1 (signer_run_ordered toy_signs _ _ Hrun)).
Defined.
