(* ===== verification/BlobSources.v ===== *)
(** * The blob providers (crates/providers/src/l1)

    A blob is asked from the beacon nodes first and then from the backups, round robin.  A source is
    a beacon client with its LRU cache, an S3 bucket, an anvil node or the mock.  The HTTP services,
    the KZG library and the LRU cache are parameters; the answer of a service may depend on when it
    is asked, so the state carries the number of calls made so far. *)

From stdpp Require Import pretty.
From S2P Require Import Prelude Primitives BigEndian DbModel Sequencer.

(** [c_kzg] and [alloy_eips::eip4844]. *)
Class Kzg := {
  kzg_to_versioned_hash : Bytes → B256;
  verify_blob_kzg_proof : Bytes → Bytes → Bytes → unit + string;
  blob_to_kzg_commitment : Bytes → Bytes + string
}.

(** The soundness of a KZG proof: it verifies for the commitment of the blob only. *)
Class KzgSound `{Kzg} : Prop := {
  verified_commitment b c p : verify_blob_kzg_proof b c p = inl tt → blob_to_kzg_commitment b = inl c
}.

(** [lru::LruCache<B256, Arc<Blob>>]. *)
Class BlobCache := {
  blob_lru : Type;
  blob_lru_new : nat → blob_lru;
  blob_lru_get : B256 → blob_lru → option Bytes * blob_lru;
  blob_lru_put : B256 → Bytes → blob_lru → blob_lru
}.

(** A new cache is empty, a lookup changes no entry, and an insertion adds no other. *)
Class BlobCacheLaws `{BlobCache} := {
  blob_lru_entry : blob_lru → B256 → option Bytes;
  blob_lru_entry_new n h : blob_lru_entry (blob_lru_new n) h = None;
  blob_lru_get_entry h c : (blob_lru_get h c).1 = blob_lru_entry c h;
  blob_lru_entry_get h c h' : blob_lru_entry (blob_lru_get h c).2 h' = blob_lru_entry c h';
  blob_lru_entry_put h b c h' b' :
    blob_lru_entry (blob_lru_put h b c) h' = Some b' →
    h' = h ∧ b' = b ∨ blob_lru_entry c h' = Some b'
}.

(** [alloy_rpc_types_beacon::sidecar::BlobData], and [BlobTransactionSidecarItem] with the same
    fields. *)
Record BlobData := mkBlobData {
  bd_index : Z;
  bd_blob : Bytes;
  bd_kzg_commitment : Bytes;
  bd_kzg_proof : Bytes
}.

Record S3Response := mkS3Response { s3_status : Z; s3_bytes : Bytes + string }.

(** The services behind their URLs, by the number of calls made before; [answers_in_time] is false
    when the timeout fires first. *)
Class BlobServices := {
  get_config_spec : nat → string → Z + string;
  get_genesis : nat → string → Z + string;
  get_blob_sidecars : nat → string → list BlobData + string;
  get_s3_object : nat → string → S3Response + string;
  anvil_getBlobByHash : nat → string → B256 → option Bytes + string;
  answers_in_time : nat → bool
}.

(** The result of a library or a service, with its error in the error type of the caller. *)
Definition wrap {A} (e : string → L1ProviderError) (r : A + string) : outcome L1ProviderError A :=
  match r with inl a => Ok a | inr msg => Err (e msg) end.

(** A state with the number of calls made so far. *)
Definition Clocked (S : Type) : Type := S * nat.

Section Providers.
Context `{!Kzg} `{!BlobCache} `{!BlobServices}.

Definition PROVIDER_BLOB_CACHE_SIZE : nat := 100.
Definition SPEC_METHOD : string := "eth/v1/config/spec".
Definition GENESIS_METHOD : string := "eth/v1/beacon/genesis".
Definition SIDECARS_METHOD_PREFIX : string := "eth/v1/beacon/blob_sidecars".

(** Calls a service, and counts the call. *)
Definition request {S A} (e : string → L1ProviderError) (f : nat → A + string) :
  M (Clocked S) L1ProviderError A :=
  λ '(s, n), (wrap e (f n), (s, Datatypes.S n)).

(** [if base.ends_with('/') { base.remove(base.len() - 1) }]. *)
Fixpoint trim_slash (base : string) : string :=
  match base with
  | EmptyString => EmptyString
  | String c EmptyString => if Z.of_nat (Ascii.nat_of_ascii c) =? 47 then EmptyString else base
  | String c rest => String c (trim_slash rest)
  end.

(** ** The beacon client *)

Record BeaconClientProvider := mkBeacon {
  base : string;
  cache : blob_lru;
  genesis_timestamp : Z;
  slot_interval : Z
}.

Definition set_cache (c : blob_lru) (p : BeaconClientProvider) : BeaconClientProvider :=
  mkBeacon (base p) c (genesis_timestamp p) (slot_interval p).

Definition url_of (base method : string) : string := base +:+ "/" +:+ method.

(** [BeaconClientProvider::new_http]: an unreachable beacon node stops the node. *)
Definition BeaconClientProvider_new (url : string) (n : nat) : outcome string BeaconClientProvider :=
  let base := trim_slash url in
  match get_config_spec n (url_of base SPEC_METHOD) with
  | inl seconds_per_slot =>
      match get_genesis (S n) (url_of base GENESIS_METHOD) with
      | inl genesis_time =>
          Ok (mkBeacon base (blob_lru_new PROVIDER_BLOB_CACHE_SIZE) genesis_time seconds_per_slot)
      | inr _ => Panic
      end
  | inr _ => Panic
  end.

(** A division by a zero interval panics. *)
Definition slot (p : BeaconClientProvider) (block_timestamp : Z) : outcome L1ProviderError Z :=
  if block_timestamp <? genesis_timestamp p
  then Err (InvalidBlockTimestamp (genesis_timestamp p) block_timestamp)
  else if slot_interval p =? 0 then Panic
  else Ok ((block_timestamp - genesis_timestamp p) / slot_interval p).

Notation Bm := (M (Clocked BeaconClientProvider) L1ProviderError).

Definition blobs (slot : Z) : Bm (list BlobData) :=
  let* p := gets fst in
  request BeaconProvider (λ n,
    get_blob_sidecars n (url_of (url_of (base p) SIDECARS_METHOD_PREFIX) (pretty slot))).

Definition versioned_hash (b : BlobData) : B256 := kzg_to_versioned_hash (bd_kzg_commitment b).

(** Splits off the first blob with the hash: [position] and [remove]. *)
Fixpoint split_blob (hash : B256) (bs : list BlobData) : option (BlobData * list BlobData) :=
  match bs with
  | [] => None
  | b :: bs =>
      if versioned_hash b =? hash then Some (b, bs)
      else match split_blob hash bs with Some (x, rest) => Some (x, b :: rest) | None => None end
  end.

Definition cached_blob (hash : B256) : Bm (option Bytes) :=
  λ '(p, n), let (r, c) := blob_lru_get hash (cache p) in (Ok r, (set_cache c p, n)).

Definition cache_put (b : BlobData) : Bm unit :=
  modify (λ '(p, n), (set_cache (blob_lru_put (versioned_hash b) (bd_blob b) (cache p)) p, n)).

Definition verify_sidecar (b : BlobData) : outcome L1ProviderError unit :=
  wrap BlobValidation (verify_blob_kzg_proof (bd_blob b) (bd_kzg_commitment b) (bd_kzg_proof b)).

(** [BlobProvider::blob] of the beacon client.  Between the lookup and the insertions the lock is
    not held; [beacon_lookup] and [beacon_store] are the two critical sections. *)
Definition beacon_store (others : list BlobData) : Bm unit := for_each cache_put others.

Definition beacon_fetch (block_timestamp : Z) : Bm (list BlobData) :=
  let* p := gets fst in
  let* s := lift (slot p block_timestamp) in
  blobs s.

Definition beacon_blob (block_timestamp : Z) (hash : B256) : Bm (option Bytes) :=
  let* cached := cached_blob hash in
  match cached with
  | Some blob => ret (Some blob)
  | None =>
      let* bs := beacon_fetch block_timestamp in
      match split_blob hash bs with
      | Some (b, others) =>
          for_each (λ b, lift (verify_sidecar b)) bs ;;;
          beacon_store others ;;;
          ret (Some (bd_blob b))
      | None => ret None
      end
  end.

(** ** The backups *)

Definition BYTES_PER_BLOB : Z := 131072.

(** [Blob::try_from(&[u8])]. *)
Definition blob_of_slice (data : Bytes) : option Bytes :=
  if Z.of_nat (length data) =? BYTES_PER_BLOB then Some data else None.

Definition wrong_versioned_hash (have expected : B256) : L1ProviderError :=
  BlobValidation ("wrong versioned hash: have " +:+ pretty have +:+ ", expected " +:+ pretty expected).

(** The checks of an S3 object: S3 serves no proof, so the commitment is computed. *)
Definition check_s3_blob (hash : B256) (data : Bytes) : outcome L1ProviderError (option Bytes) :=
  obind (ok_or (L1ProviderOther "Invalid blob data") (blob_of_slice data)) (λ blob,
  obind (wrap BlobValidation (blob_to_kzg_commitment blob)) (λ commitment,
  let have := kzg_to_versioned_hash commitment in
  if negb (have =? hash) then Err (wrong_versioned_hash have hash) else Ok (Some blob))).

(** [show_hash] prints a hash in a URL. *)
Definition s3_blob (show_hash : B256 → string) (base_url : string) (hash : B256) (n : nat) :
  outcome L1ProviderError (option Bytes) :=
  obind (wrap S3Provider (get_s3_object n (url_of base_url (show_hash hash)))) (λ response,
  if (200 <=? s3_status response) && (s3_status response <? 300)
  then obind (wrap S3Provider (s3_bytes response)) (check_s3_blob hash)
  else if s3_status response =? 404 then Ok None
  else Err (L1ProviderOther "S3 client HTTP error")).

(** What anvil serves is not checked against the hash. *)
Definition anvil_blob (url : string) (hash : B256) (n : nat) :
  outcome L1ProviderError (option Bytes) :=
  obind (wrap L1ProviderRpc (anvil_getBlobByHash n url hash)) (λ blob_data,
  match blob_data with
  | Some data => omap_ok Some (ok_or (L1ProviderOther "Invalid blob data from Anvil") (blob_of_slice data))
  | None => Ok None
  end).

(** ** Any source *)

Inductive BlobProvider :=
| Beacon (p : BeaconClientProvider)
| S3Blob (base_url : string)
| AnvilBlob (url : string)
| MockBeacon.

Variable show_hash : B256 → string.

Notation Pm := (M (Clocked BlobProvider) L1ProviderError).

Definition provider_blob (block_timestamp : Z) (hash : B256) : Pm (option Bytes) :=
  λ '(p, n),
  match p with
  | Beacon b =>
      let '(o, (b, n)) := beacon_blob block_timestamp hash (b, n) in (o, (Beacon b, n))
  | S3Blob url => (s3_blob show_hash url hash n, (p, S n))
  | AnvilBlob url => (anvil_blob url hash n, (p, S n))
  | MockBeacon => (Ok None, (p, n))
  end.

(** [tokio::time::timeout]: a call that does not answer in time is dropped at its request, before it
    stores anything.  A cached blob is returned before the first wait. *)
Definition timed_blob (block_timestamp : Z) (hash : B256) : Pm (option Bytes) :=
  λ '(p, n),
  let '(o, (p', n')) := provider_blob block_timestamp hash (p, n) in
  if bool_decide (n' = n) || answers_in_time n then (o, (p', n'))
  else (Err (L1ProviderOther "blob source did not answer in time"), (p, n')).

(** ** Round robin *)

Record BlobProviders := mkBlobProviders {
  beacon_providers : list BlobProvider;
  backup_providers : list BlobProvider;
  beacon_counter : Z;
  backup_counter : Z
}.

Definition BlobProviders_new (beacon backup : list BlobProvider) : BlobProviders :=
  mkBlobProviders beacon backup 0 0.

(** The providers of one kind with their counter. *)
Record Pool := mkPool { pool : list BlobProvider; counter : Z }.

Notation Lm := (M (Clocked Pool) L1ProviderError).

(** Asks the provider at an index. *)
Definition ask (i : nat) (block_timestamp : Z) (hash : B256) : Lm (option Bytes + L1ProviderError) :=
  λ '(pl, n),
  match pool pl !! i with
  | Some p =>
      match timed_blob block_timestamp hash (p, n) with
      | (Ok r, (p, n)) => (Ok (inl r), (mkPool (<[i := p]> (pool pl)) (counter pl), n))
      | (Err e, (p, n)) => (Ok (inr e), (mkPool (<[i := p]> (pool pl)) (counter pl), n))
      | (Panic, (p, n)) => (Panic, (mkPool (<[i := p]> (pool pl)) (counter pl), n))
      end
  | None => (Panic, (pl, n))
  end.

Definition set_counter (c : Z) : Lm unit := modify (λ '(pl, n), (mkPool (pool pl) c, n)).

(** The loop of [try_providers] from its turn [i] on, [todo] turns before the end. *)
Fixpoint try_from (todo : nat) (i start_index : Z) (block_timestamp : Z) (hash : B256) :
  Lm (option Bytes) :=
  match todo with
  | O => ret None
  | S todo =>
      let* len := gets (λ s, Z.of_nat (length (pool s.1))) in
      let provider_index := wrapping_add start_index i mod len in
      set_counter (provider_index + 1) ;;;
      let* result := ask (Z.to_nat provider_index) block_timestamp hash in
      match result with
      | inl (Some blob) => ret (Some blob)
      | _ => try_from todo (i + 1) start_index block_timestamp hash
      end
  end.

Definition try_providers (block_timestamp : Z) (hash : B256) : Lm (option Bytes) :=
  let* start_index := gets (λ s, counter s.1) in
  let* len := gets (λ s, length (pool s.1)) in
  try_from len 0 start_index block_timestamp hash.

Definition beacon_pool (s : BlobProviders) : Pool := mkPool (beacon_providers s) (beacon_counter s).
Definition backup_pool (s : BlobProviders) : Pool := mkPool (backup_providers s) (backup_counter s).
Definition set_beacon_pool (p : Pool) (s : BlobProviders) : BlobProviders :=
  mkBlobProviders (pool p) (backup_providers s) (counter p) (backup_counter s).
Definition set_backup_pool (p : Pool) (s : BlobProviders) : BlobProviders :=
  mkBlobProviders (beacon_providers s) (pool p) (beacon_counter s) (counter p).

Notation Ps := (M (Clocked BlobProviders) L1ProviderError).

Definition in_beacons {A} (m : Lm A) : Ps A :=
  zoom (λ '(s, n), (beacon_pool s, n)) (λ '(p, n) '(s, _), (set_beacon_pool p s, n)) m.
Definition in_backups {A} (m : Lm A) : Ps A :=
  zoom (λ '(s, n), (backup_pool s, n)) (λ '(p, n) '(s, _), (set_backup_pool p s, n)) m.

(** [BlobProvider::blob] of [BlobProviders]. *)
Definition providers_blob (block_timestamp : Z) (hash : B256) : Ps (option Bytes) :=
  let* s := gets fst in
  if bool_decide (beacon_providers s = []) && bool_decide (backup_providers s = [])
  then fail (L1ProviderOther "No blob providers available")
  else
    let* first := in_beacons (try_providers block_timestamp hash) in
    match first with
    | Some blob => ret (Some blob)
    | None => in_backups (try_providers block_timestamp hash)
    end.

(** ** The builder *)

Record BlobProvidersBuilder := mkBlobBuilder {
  builder_beacon : option (list string);
  builder_s3 : option string;
  builder_anvil : option string;
  builder_mock : bool
}.

Fixpoint build_beacons (urls : list string) (n : nat) : outcome string (list BlobProvider) :=
  match urls with
  | [] => Ok []
  | url :: urls =>
      obind (BeaconClientProvider_new url n) (λ p,
      omap_ok (cons (Beacon p)) (build_beacons urls (n + 2)))
  end.

Definition build_backups (b : BlobProvidersBuilder) : list BlobProvider :=
  match builder_s3 b with Some url => [S3Blob (trim_slash url)] | None => [] end ++
  match builder_anvil b with Some url => [AnvilBlob url] | None => [] end.

Definition build_blob_providers (b : BlobProvidersBuilder) (n : nat) : outcome string BlobProviders :=
  if builder_mock b then Ok (BlobProviders_new [] [MockBeacon])
  else
    obind (build_beacons (default [] (builder_beacon b)) n) (λ beacons,
    let backups := build_backups b in
    if bool_decide (beacons = []) && bool_decide (backups = [])
    then Err "No blob providers available"
    else Ok (BlobProviders_new beacons backups)).

(** [FullL1Provider]: the blob providers beside the L1 messages of the database. *)
Record FullL1Provider (MP : Type) := mkFullL1Provider {
  l1_blob_provider : BlobProviders;
  l1_message_provider : MP
}.
Arguments mkFullL1Provider {MP} _ _.
Arguments l1_blob_provider {MP} _.
Arguments l1_message_provider {MP} _.

Definition full_provider_blob {MP} (block_timestamp : Z) (hash : B256) :
  M (Clocked (FullL1Provider MP)) L1ProviderError (option Bytes) :=
  zoom (λ '(s, n), (l1_blob_provider s, n))
       (λ '(b, n) '(s, _), (mkFullL1Provider b (l1_message_provider s), n))
       (providers_blob block_timestamp hash).

End Providers.
Arguments mkFullL1Provider {_ MP} _ _.
Arguments l1_blob_provider {_ MP} _.
Arguments l1_message_provider {_ MP} _.

(** ** The system contract *)

Definition AUTHORIZED_SIGNER_STORAGE_SLOT : Z := 103.

(** The address in the last 20 bytes of the storage word, which [get_storage_at] reads on L1. *)
Definition authorized_signer (get_storage_at : Address → Z → Z + string) (address : Address) :
  outcome L1ProviderError Address :=
  omap_ok (λ signer, from_be (drop 12 (be_bytes 32 signer)))
    (wrap L1ProviderRpc (get_storage_at address AUTHORIZED_SIGNER_STORAGE_SLOT)).

