(* ===== verification/BlobProps.v ===== *)
(** * Properties of the blob providers

    Authenticity: what a beacon node or a bucket serves is returned, and cached, only when it is
    the blob its hash commits to, over any sequence of calls.  Availability: a call asks every
    provider at most once and returns a blob as soon as one has it. *)

From stdpp Require Import pretty.
From S2P Require Import Prelude Primitives BigEndian DbModel Sequencer BlobSources.

Section Authenticity.
Context `{!Kzg} `{!KzgSound} `{!BlobCache} `{!BlobCacheLaws} `{!BlobServices}.
Variable show_hash : B256 → string.

(** The blob is the one the versioned hash commits to. *)
Definition authentic (h : B256) (b : Bytes) : Prop :=
  ∃ c, blob_to_kzg_commitment b = inl c ∧ kzg_to_versioned_hash c = h.

Definition cache_ok (p : BeaconClientProvider) : Prop :=
  ∀ h b, blob_lru_entry (cache p) h = Some b → authentic h b.

(** A provider that checks what it returns. *)
Definition provider_ok (p : BlobProvider) : Prop :=
  match p with Beacon p => cache_ok p | AnvilBlob _ => False | S3Blob _ | MockBeacon => True end.

Definition providers_ok (s : BlobProviders) : Prop :=
  Forall provider_ok (beacon_providers s) ∧ Forall provider_ok (backup_providers s).

(** Every blob a computation returns is the one of the hash. *)
Definition answers (h : B256) {E} (o : outcome E (option Bytes)) : Prop :=
  ∀ b, o = Ok (Some b) → authentic h b.

Lemma verify_sidecar_ok b : verify_sidecar b = Ok tt → authentic (versioned_hash b) (bd_blob b).
Proof.
  unfold verify_sidecar, wrap. destruct (verify_blob_kzg_proof _ _ _) as [[]|] eqn:E; [|done].
  intros _. exists (bd_kzg_commitment b). by apply verified_commitment in E.
Qed.

Lemma verify_all_ok bs (s s' : Clocked BeaconClientProvider) :
  for_each (λ b, lift (verify_sidecar b)) bs s = (Ok tt, s') →
  Forall (λ b, authentic (versioned_hash b) (bd_blob b)) bs ∧ s' = s.
Proof.
  induction bs as [|b bs IH]; intros Hr; [by injection Hr as <-|].
  cbn [for_each] in Hr. apply bind_Ok in Hr as ([] & s1 & H1' & H2').
  apply lift_Ok in H1' as [H1' ->]. apply verify_sidecar_ok in H1'. apply IH in H2' as [??].
  split; [by constructor|done].
Qed.

Lemma verify_all_state bs (s : Clocked BeaconClientProvider) :
  (for_each (λ b, lift (verify_sidecar b)) bs s).2 = s.
Proof.
  induction bs as [|b bs IH]; [done|]. cbn [for_each]. unfold bind, lift at 1.
  by destruct (verify_sidecar b).
Qed.

Lemma split_blob_Some h bs b rest :
  split_blob h bs = Some (b, rest) → versioned_hash b = h ∧ bs ≡ₚ b :: rest.
Proof.
  revert rest. induction bs as [|x bs IH]; intros rest Hs; [done|]. cbn [split_blob] in Hs.
  destruct (versioned_hash x =? h) eqn:E; simplify_eq/=.
  { apply Z.eqb_eq in E. by split. }
  destruct (split_blob h bs) as [[y r]|]; simplify_eq/=.
  destruct (IH r eq_refl) as [? ->]. split; [done|constructor].
Qed.

Lemma cache_put_ok b :
  authentic (versioned_hash b) (bd_blob b) → preserves (λ s, cache_ok s.1) (cache_put b).
Proof.
  intros Hb [p n] Hp h b' He. cbn in He.
  apply blob_lru_entry_put in He as [[-> ->]|He]; [done|by apply Hp].
Qed.

Lemma beacon_store_ok bs :
  Forall (λ b, authentic (versioned_hash b) (bd_blob b)) bs →
  preserves (λ s, cache_ok s.1) (beacon_store bs).
Proof.
  intros Hbs. unfold beacon_store. induction Hbs as [|b bs Hb Hbs IH]; cbn [for_each]; [auto with node|].
  apply preserves_bind; [by apply cache_put_ok|done].
Qed.

Lemma cached_blob_ok h s r s' :
  cached_blob h s = (Ok r, s') → cache_ok s.1 →
  cache_ok s'.1 ∧ ∀ b, r = Some b → authentic h b.
Proof.
  destruct s as [p n]. unfold cached_blob.
  pose proof (blob_lru_get_entry h (cache p)) as Hr. pose proof (blob_lru_entry_get h (cache p)) as Hc.
  destruct (blob_lru_get h (cache p)) as [r' c]; cbn in *. intros [= <- <-] Hp. split.
  - intros h' b. cbn. rewrite Hc. apply Hp.
  - intros b ->. by apply Hp.
Qed.

Lemma beacon_fetch_state ts s : (beacon_fetch ts s).2.1 = s.1.
Proof.
  destruct s as [p n]. unfold beacon_fetch, bind, gets, lift, blobs, request. cbn.
  destruct (slot p ts); [|done..]. cbn.
  by repeat case_match.
Qed.

Lemma beacon_blob_ok ts h s :
  cache_ok s.1 → cache_ok (beacon_blob ts h s).2.1 ∧ answers h (beacon_blob ts h s).1.
Proof.
  intros Hs. unfold beacon_blob, bind.
  destruct (cached_blob h s) as [o s1] eqn:E1.
  assert (∃ r, o = Ok r) as [r ->].
  { destruct s as [p n]. unfold cached_blob in E1. destruct (blob_lru_get _ _). simplify_eq. eauto. }
  destruct (cached_blob_ok _ _ _ _ E1 Hs) as [Hs1 Hr].
  destruct r as [b|]; [split; [done|]; intros b' [= ->]; by apply Hr|].
  pose proof (beacon_fetch_state ts s1) as Hf.
  destruct (beacon_fetch ts s1) as [[bs|e|] s2]; cbn in Hf; rewrite <- Hf in Hs1; [|done..].
  destruct (split_blob h bs) as [[b others]|] eqn:Eb; [|done].
  pose proof (verify_all_state bs s2) as Hv.
  destruct (for_each _ bs s2) as [[[]|e|] s3] eqn:E3; cbn in Hv; subst s3; [|done..].
  apply verify_all_ok in E3 as [Hall _]. apply split_blob_Some in Eb as [Hh Hperm].
  rewrite Hperm in Hall. apply Forall_cons in Hall as [Hb Hall].
  pose proof (beacon_store_ok others Hall s2 Hs1) as Hs3.
  destruct (beacon_store others s2) as [[[]|e|] s4]; [|done..].
  split; [done|]. intros b' [= <-]. by rewrite <- Hh.
Qed.

(** ** One provider, one pool, all of them *)

Lemma check_s3_blob_ok h data : answers h (check_s3_blob h data).
Proof.
  intros b. unfold check_s3_blob, obind, ok_or, wrap. destruct (blob_of_slice data) as [d|]; [|done].
  destruct (blob_to_kzg_commitment d) as [c|] eqn:Ec; [|done].
  destruct (kzg_to_versioned_hash c =? h) eqn:E; [|done]. intros [= <-].
  exists c. split; [done|]. by apply Z.eqb_eq.
Qed.

Lemma s3_blob_ok url h n : answers h (s3_blob show_hash url h n).
Proof.
  intros b. unfold s3_blob, obind. destruct (wrap _ _) as [r| |]; [|done..].
  destruct (_ && _).
  - destruct (wrap _ _) as [data| |]; [|done..]. apply check_s3_blob_ok.
  - by destruct (_ =? 404).
Qed.

Lemma provider_blob_ok ts h p n :
  provider_ok p →
  provider_ok (provider_blob show_hash ts h (p, n)).2.1 ∧
  answers h (provider_blob show_hash ts h (p, n)).1.
Proof.
  destruct p as [p| | |]; cbn; [|auto using s3_blob_ok|done..].
  intros Hp. pose proof (beacon_blob_ok ts h (p, n) Hp) as [??].
  by destruct (beacon_blob ts h (p, n)) as [o [p' n']].
Qed.

Lemma timed_blob_ok ts h p n :
  provider_ok p →
  provider_ok (timed_blob show_hash ts h (p, n)).2.1 ∧
  answers h (timed_blob show_hash ts h (p, n)).1.
Proof.
  intros Hp. pose proof (provider_blob_ok ts h p n Hp) as [??]. unfold timed_blob.
  destruct (provider_blob show_hash ts h (p, n)) as [o [p' n']]. by destruct (_ || _).
Qed.

Lemma ask_ok i ts h s :
  Forall provider_ok (pool s.1) →
  Forall provider_ok (pool (ask show_hash i ts h s).2.1) ∧
  ∀ r, (ask show_hash i ts h s).1 = Ok (inl r) → ∀ b, r = Some b → authentic h b.
Proof.
  destruct s as [pl n]. intros Hs. unfold ask. cbn in Hs.
  destruct (pool pl !! i) as [p|] eqn:Ei; [|done].
  pose proof (timed_blob_ok ts h p n (Forall_lookup_1 _ _ _ _ Hs Ei)) as [Hp Ha].
  destruct (timed_blob show_hash ts h (p, n)) as [[r|e|] [p' n']]; cbn in *.
  all: split; [by apply Forall_insert|]; try done.
  intros r' [= <-] b ->. by apply Ha.
Qed.

Lemma try_from_ok ts h todo : ∀ i start s,
  Forall provider_ok (pool s.1) →
  Forall provider_ok (pool (try_from show_hash todo i start ts h s).2.1) ∧
  answers h (try_from show_hash todo i start ts h s).1.
Proof.
  induction todo as [|todo IH]; intros i start [pl n] Hs; [done|]. cbn [try_from].
  unfold bind, gets, set_counter, modify. cbn [fst].
  set (x := Z.to_nat _). set (s1 := (mkPool _ _, n)).
  assert (Forall provider_ok (pool s1.1)) as Hs1 by done. clearbody s1.
  pose proof (ask_ok x ts h s1 Hs1) as [Hp Ha].
  destruct (ask show_hash x ts h s1) as [[[[b|]|e]|e|] s2]; cbn in Hp, Ha; try done; try by apply IH.
  split; [done|]. intros b' [= <-]. by apply (Ha (Some b)).
Qed.

Lemma try_providers_ok ts h s :
  Forall provider_ok (pool s.1) →
  Forall provider_ok (pool (try_providers show_hash ts h s).2.1) ∧
  answers h (try_providers show_hash ts h s).1.
Proof. apply try_from_ok. Qed.

Lemma providers_blob_ok ts h s :
  providers_ok s.1 →
  providers_ok (providers_blob show_hash ts h s).2.1 ∧
  answers h (providers_blob show_hash ts h s).1.
Proof.
  destruct s as [s n]. intros [Hb Hk]. cbn in Hb, Hk. unfold providers_blob, bind, gets. cbn [fst].
  destruct (_ && _); [done|]. unfold in_beacons, in_backups, zoom.
  pose proof (try_providers_ok ts h (beacon_pool s, n) Hb) as [H1' H2'].
  destruct (try_providers show_hash ts h (beacon_pool s, n)) as [[[b|]|e|] [pl n1]];
    cbn -[try_providers] in *; [done| |done..].
  pose proof (try_providers_ok ts h (backup_pool s, n1) Hk) as [H3' H4'].
  change (backup_pool (set_beacon_pool pl s)) with (backup_pool s).
  by destruct (try_providers show_hash ts h (backup_pool s, n1)) as [o [pl2 n2]].
Qed.

(** ** Any sequence of calls *)

Fixpoint blob_calls (calls : list (Z * B256)) (s : Clocked BlobProviders) :
  list (outcome L1ProviderError (option Bytes)) :=
  match calls with
  | [] => []
  | (ts, h) :: calls =>
      let (o, s) := providers_blob show_hash ts h s in o :: blob_calls calls s
  end.

Lemma blob_calls_ok calls : ∀ s : Clocked BlobProviders,
  providers_ok s.1 → Forall2 (λ call o, answers call.2 o) calls (blob_calls calls s).
Proof.
  induction calls as [|[ts h] calls IH]; intros s Hs; [constructor|]. cbn [blob_calls].
  pose proof (providers_blob_ok ts h s Hs) as [H1' H2'].
  destruct (providers_blob show_hash ts h s) as [o s']. constructor; [done|by apply IH].
Qed.

Lemma build_beacons_ok urls : ∀ n ps, build_beacons urls n = Ok ps → Forall provider_ok ps.
Proof.
  induction urls as [|url urls IH]; intros n ps; cbn [build_beacons]; [by intros [= <-]|].
  unfold BeaconClientProvider_new.
  destruct (get_config_spec _ _) as [i|]; [|done]. destruct (get_genesis _ _) as [g|]; [|done].
  unfold obind. destruct (build_beacons urls (n + 2)) as [ps'| |] eqn:E; [|done..].
  intros [= <-]. constructor; [|by apply (IH (n + 2)%nat)].
  intros h b. cbn. by rewrite blob_lru_entry_new.
Qed.

Lemma build_ok b n s :
  builder_anvil b = None → build_blob_providers b n = Ok s → providers_ok s.
Proof.
  intros Ha. unfold build_blob_providers. destruct (builder_mock b).
  { intros [= <-]. split; repeat constructor. }
  unfold obind. destruct (build_beacons _ n) as [ps| |] eqn:E; [|done..].
  destruct (_ && _); [done|]. intros [= <-]. split; cbn; [by eapply build_beacons_ok|].
  unfold build_backups. rewrite Ha. destruct (builder_s3 b); repeat constructor.
Qed.

(** C39: authenticity of blobs: without an anvil source, whatever the beacon nodes and the bucket
    answer and whatever is cached on the way, every blob that any sequence of calls returns is the
    blob its versioned hash commits to. *)
Theorem blobs_authentic b n s calls :
  builder_anvil b = None → build_blob_providers b n = Ok s →
  Forall2 (λ call o, answers call.2 o) calls (blob_calls calls (s, n)).
Proof.
  intros Ha Hb. apply blob_calls_ok. by apply (build_ok b n).
Qed.

End Authenticity.

(** ** Availability *)

Section Availability.
Context `{!Kzg} `{!BlobCache} `{!BlobServices}.
Variable show_hash : B256 → string.
Variables (ts : Z) (h : B256).

(** A provider that never panics: the beacon node's slots have a length. *)
Definition provider_total (p : BlobProvider) : Prop :=
  match p with Beacon p => slot_interval p ≠ 0 | _ => True end.

(** An answer without the blob: the provider does not have it, fails, or is late. *)
Definition missed (o : outcome L1ProviderError (option Bytes)) : Prop :=
  match o with Ok (Some _) | Panic => False | Ok None | Err _ => True end.

(** The providers [ps] are asked one after the other, each where the one before it left the clock, and
    all miss; they become [ps']. *)
Inductive all_missed : list BlobProvider → nat → list BlobProvider → nat → Prop :=
| missed_nil n : all_missed [] n [] n
| missed_cons p ps n o p' n1 ps' n2 :
    timed_blob show_hash ts h (p, n) = (o, (p', n1)) → missed o → all_missed ps n1 ps' n2 →
    all_missed (p :: ps) n (p' :: ps') n2.

(** The providers in round-robin order from the counter, and the counter after [k] were asked: behind
    the last of them. *)
Definition turns (pl : Pool) (ps : list BlobProvider) : list BlobProvider := rotate (Z.to_nat (counter pl)) ps.
Definition counter_after (pl : Pool) (k : nat) : Z :=
  match k with
  | O => counter pl
  | S k => (counter pl + Z.of_nat k) mod Z.of_nat (length (pool pl)) + 1
  end.

(** A call to one pool: every provider was asked in its turn and missed; or those before [p] missed, [p]
    served the blob, and those after it were left alone. *)
Inductive pool_call (pl : Pool) (n : nat) : option Bytes → Pool → nat → Prop :=
| call_missed pl' n' :
    all_missed (turns pl (pool pl)) n (turns pl (pool pl')) n' →
    counter pl' = counter_after pl (length (pool pl)) →
    pool_call pl n None pl' n'
| call_served b before p after before' n1 p' pl' n' :
    turns pl (pool pl) = before ++ p :: after →
    all_missed before n before' n1 →
    timed_blob show_hash ts h (p, n1) = (Ok (Some b), (p', n')) →
    turns pl (pool pl') = before' ++ p' :: after →
    counter pl' = counter_after pl (S (length before)) →
    pool_call pl n (Some b) pl' n'.

Definition counter_ok (pl : Pool) : Prop :=
  0 <= counter pl ∧ counter pl + Z.of_nat (length (pool pl)) < 2 ^ 64.

Lemma bind_total {S E A B} (m : M S E A) (k : A → M S E B) s :
  (m s).1 ≠ Panic → (∀ a s', m s = (Ok a, s') → (k a s').1 ≠ Panic) → (bind m k s).1 ≠ Panic.
Proof. unfold bind. intros Hm Hk. destruct (m s) as [[a|e|] s']; [by apply Hk|done..]. Qed.

Lemma for_each_total {S E A} (f : A → M S E unit) l s :
  (∀ x s, (f x s).1 ≠ Panic) → (for_each f l s).1 ≠ Panic.
Proof.
  intros Hf. revert s. induction l as [|x l IH]; intros s; [done|].
  apply bind_total; [apply Hf|intros; apply IH].
Qed.

Lemma beacon_blob_total (s : Clocked BeaconClientProvider) :
  slot_interval s.1 ≠ 0 → (beacon_blob ts h s).1 ≠ Panic.
Proof.
  destruct s as [p n]. intros Hp. cbn in Hp.
  apply bind_total; [unfold cached_blob; by destruct (blob_lru_get _ _)|].
  intros [b|] s1 E; [done|].
  assert (slot_interval s1.1 ≠ 0) as Hs1.
  { unfold cached_blob in E. destruct (blob_lru_get _ _). by simplify_eq/=. }
  apply bind_total.
  - apply bind_total; [done|]. intros q s2 [= <- <-]. apply bind_total.
    + cbn. unfold slot. destruct (_ <? _); [done|]. by rewrite (proj2 (Z.eqb_neq _ _) Hs1).
    + intros ? [q m] _. apply bind_total; [done|]. intros ? ? [= <- <-]. cbn.
      unfold wrap. by destruct (get_blob_sidecars _ _).
  - intros bs s2 _. destruct (split_blob h bs) as [[b others]|]; [|done].
    apply bind_total; [|intros; apply bind_total; [|done]]; apply for_each_total.
    + intros x s3. cbn. unfold verify_sidecar, wrap. by destruct (verify_blob_kzg_proof _ _ _).
    + by intros ? [].
Qed.

Lemma provider_blob_total p n :
  provider_total p → (provider_blob show_hash ts h (p, n)).1 ≠ Panic.
Proof.
  destruct p as [p|url|url|]; cbn; [|intros _..|done].
  - intros Hp. pose proof (beacon_blob_total (p, n) Hp) as Hb.
    by destruct (beacon_blob ts h (p, n)) as [o [p' n']].
  - unfold s3_blob, obind, wrap. destruct (get_s3_object _ _) as [r|]; [|done].
    destruct (_ && _); [|by destruct (_ =? 404)]. destruct (s3_bytes r) as [data|]; [|done].
    unfold check_s3_blob, obind, ok_or, wrap. destruct (blob_of_slice data) as [d|]; [|done].
    destruct (blob_to_kzg_commitment d) as [c|]; [|done]. by destruct (negb _).
  - unfold anvil_blob, obind, wrap. destruct (anvil_getBlobByHash _ _ _) as [[d|]|]; [|done..].
    unfold omap_ok, ok_or. by destruct (blob_of_slice d).
Qed.

Lemma timed_blob_total p n : provider_total p → (timed_blob show_hash ts h (p, n)).1 ≠ Panic.
Proof.
  intros Hp. unfold timed_blob. pose proof (provider_blob_total p n Hp) as Ht.
  destruct (provider_blob show_hash ts h (p, n)) as [o [p' n']]. by destruct (_ || _).
Qed.

Lemma all_missed_snoc ps n ps' n1 p o p' n2 :
  all_missed ps n ps' n1 → timed_blob show_hash ts h (p, n1) = (o, (p', n2)) → missed o →
  all_missed (ps ++ [p]) n (ps' ++ [p']) n2.
Proof.
  induction 1 as [n|q ps n o' q' n1 ps' n3 Hq Ho _ IH]; intros Hp Hm; cbn.
  - eapply missed_cons; [done|done|constructor].
  - eapply missed_cons; [done|done|by apply IH].
Qed.

(** ** The turns of one pool *)

Section Turns.
Variable pl0 : Pool.
Hypothesis Hcounter : counter_ok pl0.
Hypothesis Htotal : Forall provider_total (pool pl0).

Notation len := (length (pool pl0)).

(** The index of a turn is the place its provider has in the rotated list. *)
Lemma turn_index i :
  (i < len)%nat →
  Z.to_nat (wrapping_add (counter pl0) (Z.of_nat i) mod Z.of_nat len) =
    rotate_nat_add (Z.to_nat (counter pl0)) i len.
Proof.
  intros Hi. destruct Hcounter. unfold wrapping_add, u64_mod, rotate_nat_add.
  rewrite (Z.mod_small _ (2 ^ 64)) by lia. by rewrite Z2Nat.id by lia.
Qed.

Lemma turn_lt ps before p after : turns pl0 ps = before ++ p :: after → (length before < length ps)%nat.
Proof. intros Ht. apply (f_equal length) in Ht. unfold turns in Ht. rewrite length_rotate, length_app in Ht. cbn in Ht. lia. Qed.

(** After [length asked] turns: the providers that were asked, and then the ones the call found. *)
Definition mid_call (s : Clocked Pool) (asked' rest : list BlobProvider) : Prop :=
  length (pool s.1) = len ∧ turns pl0 (pool s.1) = asked' ++ rest.

Lemma ask_turn s asked' p rest :
  mid_call s asked' (p :: rest) →
  provider_total p → ∃ o p' n' pl',
  timed_blob show_hash ts h (p, s.2) = (o, (p', n')) ∧ o ≠ Panic ∧
  ask show_hash (Z.to_nat (wrapping_add (counter pl0) (Z.of_nat (length asked')) mod Z.of_nat len)) ts h s =
    (Ok (match o with Ok r => inl r | Err e => inr e | Panic => inl None end), (pl', n')) ∧
  mid_call (pl', n') (asked' ++ [p']) rest ∧ counter pl' = counter s.1.
Proof.
  destruct s as [pl n]. intros [Hlen Ht] Hp. cbn [fst snd] in *.
  assert (length asked' < len)%nat as Hi.
  { rewrite <- Hlen. by eapply turn_lt. }
  assert (turns pl0 (pool pl) !! length asked' = Some p) as Hp0
    by (rewrite Ht; by apply list_lookup_middle).
  unfold turns in Hp0. rewrite lookup_rotate_r, Hlen in Hp0 by lia.
  rewrite turn_index by done. unfold ask. rewrite Hp0.
  pose proof (timed_blob_total p n Hp) as Hno.
  destruct (timed_blob show_hash ts h (p, n)) as [o [p' n']]. cbn in Hno.
  exists o, p', n'. eexists. split; [done|]. split; [done|]. split; [by destruct o|]. split; [|done].
  split; cbn; [by rewrite length_insert|]. unfold turns.
  rewrite <- Hlen, rotate_insert_l by lia. unfold turns in Ht.
  rewrite Ht, <- app_assoc. cbn. by rewrite insert_app_r_alt, Nat.sub_diag by done.
Qed.

Lemma try_from_spec : ∀ rest asked asked' n (s : Clocked Pool),
  turns pl0 (pool pl0) = asked ++ rest → all_missed asked n asked' s.2 → mid_call s asked' rest →
  length asked' = length asked → counter s.1 = counter_after pl0 (length asked) →
  ∃ r s', try_from show_hash (length rest) (Z.of_nat (length asked)) (counter pl0) ts h s = (Ok r, s') ∧
    pool_call pl0 n r s'.1 s'.2.
Proof.
  intros rest. induction rest as [|p rest IH]; intros asked asked' n [pl m] Ht Hm [Hlen Hmid] Hl Hc.
  { exists None, (pl, m). split; [done|]. rewrite !app_nil_r in *. cbn in *. subst asked asked'.
    apply call_missed; [done|]. rewrite Hc. unfold turns. by rewrite length_rotate. }
  cbn [try_from length]. unfold bind at 1, gets. cbn [fst] in *. rewrite Hlen.
  unfold bind at 1, set_counter, modify.
  set (c := wrapping_add (counter pl0) (Z.of_nat (length asked)) mod Z.of_nat len).
  assert (provider_total p) as Hp.
  { rewrite Forall_forall in Htotal. apply Htotal. apply (elem_of_rotate _ (Z.to_nat (counter pl0))).
    unfold turns in Ht. rewrite Ht. apply elem_of_app. right. left. }
  assert (length asked < len)%nat as Hi.
  { by eapply turn_lt. }
  assert (c + 1 = counter_after pl0 (S (length asked))) as Hc1.
  { unfold c, counter_after. destruct Hcounter. unfold wrapping_add, u64_mod. by rewrite (Z.mod_small _ (2 ^ 64)) by lia. }
  destruct (ask_turn (mkPool (pool pl) (c + 1), m) asked' p rest) as (o & p' & n' & pl' & Hb & Hno & Hask & Hmid' & Hc');
    [done|done|]. cbn in Hb, Hc'. rewrite Hl in Hask. fold c in Hask. unfold bind at 1. rewrite Hask.
  assert (missed o → ∃ r s',
    try_from show_hash (length rest) (Z.of_nat (length asked) + 1) (counter pl0) ts h (pl', n') = (Ok r, s') ∧
    pool_call pl0 n r s'.1 s'.2) as Hnext.
  { intros Ho. replace (Z.of_nat (length asked) + 1) with (Z.of_nat (length (asked ++ [p])))
      by (rewrite length_app; simpl length; lia).
    apply (IH (asked ++ [p]) (asked' ++ [p'])); [by rewrite <- app_assoc|by eapply all_missed_snoc|done| |].
    - rewrite !length_app. simpl length. lia.
    - cbn. rewrite Hc', Hc1, length_app. f_equal. simpl length. lia. }
  destruct o as [[b|]|e|]; [|by apply Hnext..|done].
  exists (Some b), (pl', n'). split; [done|]. destruct Hmid' as [_ Hmid']. rewrite <- app_assoc in Hmid'.
  eapply call_served; [exact Ht|exact Hm|exact Hb|exact Hmid'|]. by rewrite <- Hc1.
Qed.

Lemma try_providers_spec n :
  ∃ r pl' n', try_providers show_hash ts h (pl0, n) = (Ok r, (pl', n')) ∧ pool_call pl0 n r pl' n'.
Proof.
  destruct (try_from_spec (turns pl0 (pool pl0)) [] [] n (pl0, n)) as (r & [pl' n'] & Hrun & Hc);
    [done|constructor|done|done|done|].
  exists r, pl', n'. split; [|done]. unfold turns in Hrun. rewrite length_rotate in Hrun. exact Hrun.
Qed.
End Turns.

(** C40: with at least one provider, a call never fails, and it is this walk.  The beacon nodes are
    asked in round-robin order from their counter, each at most once, one after the other, until one
    serves the blob in time, which is then the answer; only when every one of them was asked and missed
    are the backups asked in the same way; and the answer is that there is no blob only when every
    provider was asked and missed.  Who was not asked is left as it was, and each counter points behind
    the last provider that was asked, where the next call starts. *)
Theorem providers_blob_spec s n :
  beacon_providers s ≠ [] ∨ backup_providers s ≠ [] →
  counter_ok (beacon_pool s) → counter_ok (backup_pool s) →
  Forall provider_total (beacon_providers s ++ backup_providers s) →
  ∃ r s' n', providers_blob show_hash ts h (s, n) = (Ok r, (s', n')) ∧
    ((∃ b, r = Some b ∧ pool_call (beacon_pool s) n (Some b) (beacon_pool s') n' ∧
       backup_pool s' = backup_pool s) ∨
     (∃ n1, pool_call (beacon_pool s) n None (beacon_pool s') n1 ∧
       pool_call (backup_pool s) n1 r (backup_pool s') n')).
Proof.
  intros Hne Hcb Hck [Htb Htk]%Forall_app. unfold providers_blob, bind, gets. cbn [fst].
  replace (bool_decide (beacon_providers s = []) && bool_decide (backup_providers s = [])) with false
    by (symmetry; apply andb_false_iff; rewrite !bool_decide_eq_false; tauto).
  unfold in_beacons, in_backups, zoom.
  destruct (try_providers_spec (beacon_pool s) Hcb Htb n) as (r1 & pl1 & n1 & Hr1 & Hcall1). rewrite Hr1.
  destruct r1 as [b|].
  { exists (Some b). eexists _, _. split; [done|]. left. exists b. destruct pl1. by split_and!. }
  change (backup_pool (set_beacon_pool pl1 s)) with (backup_pool s).
  destruct (try_providers_spec (backup_pool s) Hck Htk n1) as (r2 & pl2 & n2 & Hr2 & Hcall2). rewrite Hr2.
  exists r2. eexists _, _. split; [done|]. right. exists n1. by destruct pl1, pl2.
Qed.

End Availability.
