(* ===== verification/ConcreteBlobs.v ===== *)
(** * A toy blob market

    A commitment is the blob itself and its hash the number its bytes spell; a beacon node with two
    blobs in slot 2 and an empty bucket: witnesses of the properties of the blob providers. *)

From stdpp Require Import pretty.
From S2P Require Import Prelude Primitives BigEndian DbModel Sequencer BlobSources BlobProps.

#[local] Instance toy_kzg : Kzg := {
  kzg_to_versioned_hash := from_be;
  verify_blob_kzg_proof b c _ := if bool_decide (b = c) then inl tt else inr "invalid proof"%string;
  blob_to_kzg_commitment b := inl b
}.

#[local] Instance toy_kzg_sound : KzgSound.
Proof.
  constructor. intros b c p. cbn. case_bool_decide as E; [|done]. intros _. by rewrite E.
Defined.

#[local] Instance toy_cache : BlobCache := {
  blob_lru := list (B256 * Bytes) * nat;
  blob_lru_new n := ([], n);
  blob_lru_get h c := (snd <$> List.find (λ e, e.1 =? h) c.1, c);
  blob_lru_put h b c := (take c.2 ((h, b) :: c.1), c.2)
}.

Lemma find_take h (l : list (B256 * Bytes)) n e :
  List.find (λ e, e.1 =? h) (take n l) = Some e → List.find (λ e, e.1 =? h) l = Some e.
Proof.
  revert n. induction l as [|x l IH]; intros n; [by rewrite take_nil|].
  destruct n as [|n]; [done|]. cbn. case_match; [done|]. apply IH.
Qed.

#[local] Instance toy_cache_laws : BlobCacheLaws.
Proof.
  refine {| blob_lru_entry c h := snd <$> List.find (λ e, e.1 =? h) c.1 |}; [done..|].
  intros h b [l n] h' b'. cbn. intros Hf.
  destruct (List.find _ (take n _)) as [e|] eqn:E; [|done]. apply find_take in E. cbn in E.
  destruct (h =? h') eqn:Eh.
  - apply Z.eqb_eq in Eh. simplify_eq/=. by left.
  - right. rewrite E. exact Hf.
Defined.

#[local] Instance toy_services : BlobServices := {
  get_config_spec _ _ := inl 12;
  get_genesis _ _ := inl 0;
  get_blob_sidecars _ url :=
    if bool_decide (url = "http://beacon/eth/v1/beacon/blob_sidecars/2"%string)
    then inl [mkBlobData 0 [1; 2] [1; 2] []; mkBlobData 1 [3] [3] []]
    else inl [];
  get_s3_object _ _ := inl (mkS3Response 404 (inl []));
  anvil_getBlobByHash _ _ _ := inr "no anvil"%string;
  answers_in_time _ := true
}.

Definition toy_builder : BlobProvidersBuilder :=
  mkBlobBuilder (Some ["http://beacon/"%string]) (Some "http://bucket"%string) None false.

Definition toy_market : BlobProviders :=
  ok_value (BlobProviders_new [] []) (build_blob_providers toy_builder 0).

(** Blob 258 is fetched, blob 3 of the same slot then comes from the cache, and nobody has blob 9. *)
Definition toy_calls : list (Z * B256) := [(24, 258); (24, 3); (24, 9)].

Lemma toy_market_built : build_blob_providers toy_builder 0 = Ok toy_market.
Proof. vm_compute. reflexivity. Qed.

Lemma blobs_authentic_witness :
  blob_calls pretty toy_calls (toy_market, 2%nat) = [Ok (Some [1; 2]); Ok (Some [3]); Ok None] ∧
  Forall2 (λ call o, answers call.2 o) toy_calls (blob_calls pretty toy_calls (toy_market, 0%nat)).
Proof.
  split; [vm_compute; reflexivity|].
  exact (blobs_authentic pretty toy_builder 0 toy_market toy_calls eq_refl toy_market_built).
Defined.

Lemma providers_blob_spec_witness :
  (providers_blob pretty 24 3 (toy_market, 2%nat)).1 = Ok (Some [3]) ∧
  ∃ r s' n', providers_blob pretty 24 3 (toy_market, 2%nat) = (Ok r, (s', n')) ∧
    ((∃ b, r = Some b ∧ pool_call pretty 24 3 (beacon_pool toy_market) 2 (Some b) (beacon_pool s') n' ∧
       backup_pool s' = backup_pool toy_market) ∨
     (∃ n1, pool_call pretty 24 3 (beacon_pool toy_market) 2 None (beacon_pool s') n1 ∧
       pool_call pretty 24 3 (backup_pool toy_market) n1 r (backup_pool s') n')).
Proof.
  split; [vm_compute; reflexivity|]. apply providers_blob_spec; [by left|by vm_compute..|].
  vm_compute. repeat constructor. by intros ?.
Defined.
