(* ===== verification/Pipeline.v ===== *)
(** * The derivation pipeline (crates/derivation-pipeline/src)

    From the commit data of a batch to the payload attributes of its blocks: the fetch of the L1
    messages the batch refers to, the assembly of each block's transactions, the cache of block
    data hints (cache.rs) and the worker that derives batches in order with retries. *)

From S2P Require Import Prelude Sql Primitives BigEndian Codec Engine DbModel DbOps.

Inductive DerivationPipelineError :=
| L1MessageTransactionInBatch
| MissingL1MessageQueueCursor
| InvalidL1MessagesCount (expected got : Z)
| MissingL1Message (b : L2Block)
| UnknownBatch (index : Z)
| PipelineCodec (e : DecodingError)
| PipelineDatabase (e : DatabaseError)
| PipelineL1Provider (msg : string).

(** The derived attributes along with the block number they correspond to. *)
Record DerivedAttributes := mkDerivedAttributes {
  da_block_number : Z;
  da_base_fee : Z;
  da_attributes : ScrollPayloadAttributes
}.

Record BatchDerivationRequest := mkRequest { rq_batch_info : BatchInfo; rq_target_status : BatchStatus }.

Record BatchDerivationResult := mkResult {
  rs_attributes : list DerivedAttributes;
  rs_batch_info : BatchInfo;
  rs_skipped_l1_messages : list Z;
  rs_target_status : BatchStatus
}.

Definition default_hint : BlockDataHint := mkHint None None None None None.

(** ** The hint cache (cache.rs)

    The table of hints and the pre-fetch cache in front of it.  The concurrent cache (moka)
    drops entries by age and capacity: what it holds when it is read is [evict] of what was
    inserted. *)

Record BlockDataRow := mkBlockDataRow { bd_number : Z; bd_hint : BlockDataHint }.

Record PreFetchCache := mkCache {
  block_data : list BlockDataRow;
  hint_cache : gmap Z BlockDataHint;
  max_block_data_hint_block_number : Z;
  pre_fetch_count : Z;
  ranges_in_cache : list Z
}.

Definition PREFETCH_RANGE_SIZE : Z := 50000.

Section Cache.
Context `{SqlEngine}.

Definition get_n_l2_block_data_hint (block_number : Z) (n : nat) (t : list BlockDataRow) :
    list BlockDataHint :=
  map bd_hint (take n (order_by_asc bd_number (find (λ r, as_i64 block_number <=? bd_number r) t))).

Definition get_max_block_data_hint_block_number (t : list BlockDataRow) : Z :=
  default 0 (as_u64 <$> max_column (map (λ r, Some (bd_number r)) t)).

Definition PreFetchCache_new (t : list BlockDataRow) (count : Z) : PreFetchCache :=
  mkCache t ∅ (get_max_block_data_hint_block_number t) count [].

Variable evict : gmap Z BlockDataHint → gmap Z BlockDataHint.

Definition set_hint_cache (m : gmap Z BlockDataHint) (c : PreFetchCache) : PreFetchCache :=
  mkCache (block_data c) m (max_block_data_hint_block_number c) (pre_fetch_count c)
    (ranges_in_cache c).
Definition set_ranges (l : list Z) (c : PreFetchCache) : PreFetchCache :=
  mkCache (block_data c) (hint_cache c) (max_block_data_hint_block_number c) (pre_fetch_count c) l.

(** [hint_cache.get]. *)
Definition hint_get {E} (block_number : Z) : M PreFetchCache E (option BlockDataHint) :=
  modify (λ c, set_hint_cache (evict (hint_cache c)) c) ;;;
  gets (λ c, hint_cache c !! block_number).

Definition pre_fetch_range_start {E} (block : Z) : M PreFetchCache E Z :=
  let* c := get in
  if pre_fetch_count c =? 0 then panic
  else ret (block / pre_fetch_count c * pre_fetch_count c).

(** [for (idx, hint) in hints.iter().enumerate() { insert(range_start + idx, hint) }]. *)
Fixpoint insert_hints (number : Z) (hints : list BlockDataHint) (m : gmap Z BlockDataHint) :
    gmap Z BlockDataHint :=
  match hints with
  | [] => m
  | hint :: hints => insert_hints (number + 1) hints (<[number := hint]> m)
  end.

Definition pre_fetch (range_start : Z) (c : PreFetchCache) : PreFetchCache :=
  let hints := get_n_l2_block_data_hint range_start (Z.to_nat (pre_fetch_count c)) (block_data c) in
  let c := set_hint_cache (insert_hints range_start hints (hint_cache c)) c in
  let ranges := if (length (ranges_in_cache c) =? 2)%nat
                then tail (ranges_in_cache c) else ranges_in_cache c in
  set_ranges (ranges ++ [range_start]) c.

Definition cache_get {E} (block_number : Z) : M PreFetchCache E (option BlockDataHint) :=
  let* c := get in
  if max_block_data_hint_block_number c <? block_number then ret None
  else
    let* cached := hint_get block_number in
    match cached with
    | Some cached_hint => ret (Some cached_hint)
    | None =>
        let* range_start := pre_fetch_range_start block_number in
        let* c := get in
        when negb (is_in range_start (ranges_in_cache c)) then modify (pre_fetch range_start) ;;;
        hint_get block_number
    end.
End Cache.

(** ** Deriving a batch (lib.rs) *)

Record PipelineState := mkPipelineState { pl_db : Db; pl_cache : PreFetchCache }.

Section Derive.
Context `{SqlEngine} `{CodecLibs} `{Chain}.
Variable evict : gmap Z BlockDataHint → gmap Z BlockDataHint.
(** The answer of the blob provider to a timestamp and a versioned hash. *)
Variable blob_provider : Z → B256 → outcome string (option Bytes).

Notation P := (M PipelineState DerivationPipelineError).

(** [provider.get_n_messages]: the database is the message provider. *)
Definition get_n_messages (start : L1MessageKey) (n : Z) : P (list L1MessageEnvelope) :=
  zoom pl_db (λ d s, mkPipelineState d (pl_cache s))
    (map_err PipelineDatabase (get_n_l1_messages (Some start) (Z.to_nat n))).

Definition hint_for (block_number : Z) : P BlockDataHint :=
  let* h := zoom pl_cache (λ c s, mkPipelineState (pl_db s) c) (cache_get evict block_number) in
  ret (default default_hint h).

Definition total_l1_messages (data : PayloadData) : Z :=
  foldr (λ b n, c_num_l1_messages (context b) + n) 0 (pd_blocks data) mod u64_mod.

Definition iter_l1_messages_from_payload (data : PayloadData) (l1_v2_message_queue_start_index : Z) :
    P (list L1MessageEnvelope) :=
  let total := total_l1_messages data in
  let* messages :=
    match queue_index_start data with
    | Some index => get_n_messages (QueueIndex index) total
    | None =>
        match prev_l1_message_queue_hash data with
        | Some hash =>
            if hash =? 0 then get_n_messages (QueueIndex l1_v2_message_queue_start_index) total
            else
              let* messages := get_n_messages (QueueHash hash) (wrapping_add total 1) in
              match messages with [] => panic | _ :: messages => ret messages end
        | None => fail MissingL1MessageQueueCursor
        end
    end in
  if negb (Z.of_nat (length messages) =? total)
  then fail (InvalidL1MessagesCount total (Z.of_nat (length messages)))
  else ret messages.

Definition ensure_batch_contains_only_l2_transactions (transactions : list Bytes) :
    outcome DerivationPipelineError unit :=
  if existsb (λ tx, bool_decide (head tx = Some L1_MESSAGE_TRANSACTION_TYPE)) transactions
  then Err L1MessageTransactionInBatch else Ok tt.

(** The loop over the L1 messages of one block: [n] rounds over the skip bitmap and the
    messages.  Returns the encoded messages, the indexes skipped, and what is left of both. *)
Fixpoint take_l1_messages (n : nat) (bits : list bool) (msgs : list L1MessageEnvelope) :
    option (list Bytes * list Z * list bool * list L1MessageEnvelope) :=
  match n with
  | O => Some ([], [], bits, msgs)
  | S n =>
      if default false (head bits) then
        '(txs, skipped, bits', msgs') ← take_l1_messages n (tail bits) (tail msgs);
        Some (txs, match msgs with m :: _ => queue_index (transaction m) :: skipped
                                 | [] => skipped end, bits', msgs')
      else
        match msgs with
        | [] => None
        | m :: msgs =>
            '(txs, skipped, bits', msgs') ← take_l1_messages n (tail bits) msgs;
            Some (l1_encoded_2718 (transaction m) :: txs, skipped, bits', msgs')
        end
  end.

Definition attributes_of (b : L2Block) (txs : list Bytes) (hint : BlockDataHint) : DerivedAttributes :=
  mkDerivedAttributes (c_number (context b)) (c_base_fee (context b))
    {| attr_timestamp := c_timestamp (context b);
       attr_suggested_fee_recipient := 0;
       attr_prev_randao := 0;
       attr_transactions := Some txs;
       attr_no_tx_pool := true;
       attr_block_data_hint := hint;
       attr_gas_limit := Some (c_gas_limit (context b)) |}.

(** [for mut block in blocks]: the attributes of each block and the skipped indexes. *)
Fixpoint derive_blocks (blocks : list L2Block) (bits : list bool) (msgs : list L1MessageEnvelope) :
    P (list DerivedAttributes * list Z) :=
  match blocks with
  | [] => ret ([], [])
  | block :: blocks =>
      lift (ensure_batch_contains_only_l2_transactions (l2_transactions block)) ;;;
      match take_l1_messages (Z.to_nat (c_num_l1_messages (context block))) bits msgs with
      | None => fail (MissingL1Message block)
      | Some (l1_txs, skipped, bits, msgs) =>
          let* hint := hint_for (c_number (context block)) in
          let* (attributes, skipped') := derive_blocks blocks bits msgs in
          ret (attributes_of block (l1_txs ++ l2_transactions block) hint :: attributes,
               skipped ++ skipped')
      end
  end.

(** [Codec::decode] on a blocking task: a panic of the task is an error of the caller. *)
Definition decode_blocking (calldata : Bytes) (blob : option Bytes) :
    outcome DerivationPipelineError Batch :=
  match decode calldata blob with
  | Ok b => Ok b
  | Err e => Err (PipelineCodec e)
  | Panic => Err (PipelineCodec (Other "task panicked"))
  end.

Definition fetch_blob (batch : BatchCommitData) : outcome DerivationPipelineError (option Bytes) :=
  match bc_blob_versioned_hash batch with
  | Some h => omap_err PipelineL1Provider (blob_provider (bc_block_timestamp batch) h)
  | None => Ok None
  end.

Definition derive (batch : BatchCommitData) (status : BatchStatus)
    (l1_v2_message_queue_start_index : Z) : P BatchDerivationResult :=
  let* blob := lift (fetch_blob batch) in
  let* decoded := lift (decode_blocking (bc_calldata batch) blob) in
  let data := batch_data decoded in
  let* msgs := iter_l1_messages_from_payload data l1_v2_message_queue_start_index in
  let* (attributes, skipped) :=
    derive_blocks (pd_blocks data) (default [] (pd_skipped_l1_message_bitmap data)) msgs in
  ret (mkResult attributes (BatchInfo_from batch) skipped status).

(** [derivation_future]: the batch is looked up by its index when the future runs. *)
Definition derivation_future (request : BatchDerivationRequest)
    (l1_v2_message_queue_start_index : Z) : P BatchDerivationResult :=
  let index := b_index (rq_batch_info request) in
  let* batch := zoom pl_db (λ d s, mkPipelineState d (pl_cache s))
                  (map_err PipelineDatabase (get_batch_by_index index)) in
  match batch with
  | None => fail (UnknownBatch index)
  | Some batch => derive batch (rq_target_status request) l1_v2_message_queue_start_index
  end.
End Derive.

(** ** The worker (lib.rs) *)

Definition DERIVATION_PIPELINE_WORKER_CONCURRENCY : nat := 3.
Definition DERIVATION_RETRY_INITIAL_DELAY : Z := 1.
Definition DERIVATION_RETRY_MAX_DELAY : Z := 30.

(** [RetryDelay::next] (in seconds): the delay to wait, and the next one. *)
Definition retry_delay_next (d : Z) : Z * Z := (d, Z.min (d * 2) DERIVATION_RETRY_MAX_DELAY).

(** The channel of requests, the ordered futures, the delay, the results sent so far and the
    length [DerivationPipeline] reports. *)
Record Worker := mkWorker {
  batch_receiver : list BatchDerivationRequest;
  futures : list BatchDerivationRequest;
  retry_delay : Z;
  results : list BatchDerivationResult
}.

Definition Worker_new : Worker := mkWorker [] [] DERIVATION_RETRY_INITIAL_DELAY [].

Section Worker.
(** [derives r res]: an attempt to derive [r] may end in the result [res]. *)
Variable derives : BatchDerivationRequest → BatchDerivationResult → Prop.

(** The steps of the worker and its client, labelled with the requests pushed. *)
Inductive worker_step : list BatchDerivationRequest → Worker → Worker → Prop :=
| push_batch r q fs d out :
    worker_step [r] (mkWorker q fs d out) (mkWorker (q ++ [r]) fs d out)
| worker_recv r q fs d out :
    (length fs < DERIVATION_PIPELINE_WORKER_CONCURRENCY)%nat →
    worker_step [] (mkWorker (r :: q) fs d out) (mkWorker q (fs ++ [r]) d out)
| worker_derived r q fs d out res :
    derives r res →
    worker_step [] (mkWorker q (r :: fs) d out)
      (mkWorker q fs DERIVATION_RETRY_INITIAL_DELAY (out ++ [res]))
| worker_failed r q fs d out :
    worker_step [] (mkWorker q (r :: fs) d out) (mkWorker q (r :: fs) (retry_delay_next d).2 out).

Inductive worker_run : list BatchDerivationRequest → Worker → Worker → Prop :=
| run_nil w : worker_run [] w w
| run_step l1 l2 w1 w2 w3 :
    worker_run l1 w1 w2 → worker_step l2 w2 w3 → worker_run (l1 ++ l2) w1 w3.
End Worker.

(** [DerivationPipeline]: the length the client sees, incremented by a push and decremented, not
    below zero, by a result. *)
Definition pipeline_push_len (len : Z) : Z := wrapping_add len 1.
Definition pipeline_poll_len (len : Z) : Z := saturating_sub len 1.
