(* ===== verification/PipelineProps.v ===== *)
(** * Properties of the derivation pipeline

    What a derived block contains, which L1 messages a batch pops, the order in which the worker
    delivers results, and when the hint cache agrees with the table it caches. *)

From S2P Require Import Prelude Sql Primitives BigEndian Codec Engine DbModel DbOps DbInvariant.
From S2P Require Import DbProps Pipeline Concrete CodecProps.

(** The smallest rows at or above a stored row are that row and the smallest ones above it. *)
Lemma smallest_tail r0 r n t rows :
  smallest (λ x, mr_queue_index r0 <=? mr_queue_index x) (S n) t (r :: rows) →
  r0 ∈ t → NoDup (map mr_queue_index t) →
  smallest (λ x, mr_queue_index r0 <? mr_queue_index x) n t rows.
Proof.
  intros (Hlen & Hs & Hndr & Hin & Hmin & Hfull) Hr0 Hnd. inversion Hs as [|? ? Hs' Hall]; subst.
  rewrite Forall_forall in Hall.
  assert (r = r0) as ->.
  { destruct (Hin r) as [Hrt Hge]; [by left|]. bool_to_prop.
    eapply (NoDup_map_inj mr_queue_index); [done..|].
    destruct (decide (r0 ∈ r :: rows)) as [[Heq|Hel]%elem_of_cons|Hno]; [by subst| |].
    - specialize (Hall r0 Hel). unfold asc in Hall. lia.
    - assert (mr_queue_index r <= mr_queue_index r0); [|lia].
      apply Hmin; [done|apply Z.leb_refl|done|by left]. }
  split_and!.
  - simpl in Hlen. lia.
  - done.
  - intros _. specialize (Hndr Hnd). simpl in Hndr. by apply NoDup_cons in Hndr as [_ ?].
  - intros x Hx. destruct (Hin x) as [Hxt Hge]; [by right|]. split; [done|]. bool_to_prop.
    apply Z.ltb_lt. assert (mr_queue_index r0 ≠ mr_queue_index x); [|lia]. intros E.
    specialize (Hndr Hnd). simpl in Hndr. apply NoDup_cons in Hndr as [Hnot _]. apply Hnot.
    rewrite E. apply list_elem_of_fmap. eauto.
  - intros x x' Hx Hlt Hno Hx'. bool_to_prop. apply Hmin; [done|apply Z.leb_le; lia| |by right].
    intros [->|?]%elem_of_cons; [lia|done].
  - intros x Hx Hlt Hl. bool_to_prop. simpl in Hfull.
    assert (x ∈ r0 :: rows) as Hel by (apply Hfull; [done|apply Z.leb_le; lia|lia]).
    apply elem_of_cons in Hel as [->|?]; [lia|done].
Qed.

(** ** Assembling the blocks of a batch *)

Section Assembly.
Context `{SqlEngine} `{CodecLibs} `{Chain}.

(** The messages with the flag of the skip bitmap at their position; a message beyond the end of
    the bitmap is not skipped. *)
Fixpoint tag (bits : list bool) (msgs : list L1MessageEnvelope) : list (bool * L1MessageEnvelope) :=
  match msgs with
  | [] => []
  | m :: msgs => (default false (head bits), m) :: tag (tail bits) msgs
  end.

(** Consecutive slices of the given lengths. *)
Fixpoint slices {A} (ns : list nat) (l : list A) : list (list A) :=
  match ns with
  | [] => []
  | n :: ns => take n l :: slices ns (drop n l)
  end.

Definition kept (l : list (bool * L1MessageEnvelope)) : list L1MessageEnvelope :=
  map snd (List.filter (λ p, negb p.1) l).
Definition dropped (l : list (bool * L1MessageEnvelope)) : list Z :=
  map (λ p, queue_index (transaction p.2)) (List.filter fst l).

(** The block a context and its slice of the message queue describe: number, base fee and the
    transactions, the unskipped L1 messages in queue order and then the L2 transactions. *)
Definition block_spec (b : L2Block) (msgs : list (bool * L1MessageEnvelope)) :
    Z * Z * option (list Bytes) :=
  (c_number (context b), c_base_fee (context b),
   Some (map (λ m, l1_encoded_2718 (transaction m)) (kept msgs) ++ l2_transactions b)).

Definition summary (a : DerivedAttributes) : Z * Z * option (list Bytes) :=
  (da_block_number a, da_base_fee a, attr_transactions (da_attributes a)).

Definition l1_counts (bs : list L2Block) : list nat :=
  map (λ b, Z.to_nat (c_num_l1_messages (context b))) bs.

Lemma drop_tail {A} n (l : list A) : drop n (tail l) = drop (S n) l.
Proof. destruct l; [|done]. simpl. apply drop_nil. Qed.

Lemma take_l1_messages_spec n bits msgs :
  (n ≤ length msgs)%nat →
  take_l1_messages n bits msgs =
    Some (map (λ m, l1_encoded_2718 (transaction m)) (kept (take n (tag bits msgs))),
          dropped (take n (tag bits msgs)), drop n bits, drop n msgs).
Proof.
  revert bits msgs. induction n as [|n IH]; intros bits msgs Hn.
  { simpl. by rewrite !drop_0. }
  destruct msgs as [|m msgs]; simpl in Hn; [lia|]. cbn [take_l1_messages tag take]. change (tail (m :: msgs)) with msgs.
  pose proof (drop_tail n bits) as Hd.
  rewrite IH by (simpl; lia). rewrite Hd. unfold kept, dropped.
  destruct (default false (head bits)); done.
Qed.

Lemma tag_drop n bits msgs : tag (drop n bits) (drop n msgs) = drop n (tag bits msgs).
Proof.
  revert bits msgs. induction n as [|n IH]; intros bits msgs; [by rewrite !drop_0|].
  destruct msgs as [|m msgs]; [by rewrite !drop_nil|]. simpl.
  rewrite <- drop_tail. apply IH.
Qed.

Lemma length_tag bits msgs : length (tag bits msgs) = length msgs.
Proof. revert bits. induction msgs; intros; simpl; by f_equal. Qed.

Lemma kept_dropped_app l1 l2 : dropped (l1 ++ l2) = dropped l1 ++ dropped l2.
Proof. unfold dropped. by rewrite List.filter_app, map_app. Qed.

Definition no_l1_transaction (b : L2Block) : Prop :=
  ∀ tx, tx ∈ l2_transactions b → head tx ≠ Some L1_MESSAGE_TRANSACTION_TYPE.

Lemma ensure_ok txs u :
  ensure_batch_contains_only_l2_transactions txs = Ok u →
  ∀ tx, tx ∈ txs → head tx ≠ Some L1_MESSAGE_TRANSACTION_TYPE.
Proof.
  unfold ensure_batch_contains_only_l2_transactions. intros Ho tx Htx Hh.
  assert (existsb (λ tx, bool_decide (head tx = Some L1_MESSAGE_TRANSACTION_TYPE)) txs = true)
    as Hex; [|by rewrite Hex in Ho].
  apply existsb_exists. exists tx. split; [by apply list_elem_of_In|]. by apply bool_decide_eq_true.
Qed.

Lemma derive_blocks_spec evict bs bits msgs s attrs skipped s' :
  sum_list (l1_counts bs) = length msgs →
  derive_blocks evict bs bits msgs s = (Ok (attrs, skipped), s') →
  map summary attrs = zip_with block_spec bs (slices (l1_counts bs) (tag bits msgs)) ∧
  skipped = dropped (tag bits msgs) ∧ Forall no_l1_transaction bs.
Proof.
  revert bits msgs s attrs skipped. induction bs as [|b bs IH];
    intros bits msgs s attrs skipped Hsum Hrun.
  { simpl in Hsum. destruct msgs; [|done]. unfold derive_blocks, ret in Hrun. by simplify_eq. }
  cbn [derive_blocks] in Hrun. cbn [l1_counts map sum_list sum_list_with foldr] in Hsum.
  apply bind_Ok in Hrun as ([] & s1 & He & Hrun). unfold lift in He. injection He as He <-.
  set (n := Z.to_nat (c_num_l1_messages (context b))) in *.
  rewrite take_l1_messages_spec in Hrun by (simpl in Hsum; lia).
  apply bind_Ok in Hrun as (hint & s2 & _ & Hrun).
  apply bind_Ok in Hrun as ([attrs' skipped'] & s3 & Hr & Hrun). unfold ret in Hrun. simplify_eq.
  apply IH in Hr as (Ha & -> & Hn); [|rewrite length_drop; simpl in Hsum; unfold l1_counts in *; lia].
  rewrite tag_drop in *. split_and!.
  - simpl. rewrite Ha. done.
  - by rewrite <- kept_dropped_app, take_drop.
  - constructor; [|done]. intros tx. by eapply ensure_ok.
Qed.

Definition counts_fit (bs : list L2Block) : Prop :=
  (∀ b, b ∈ bs → 0 <= c_num_l1_messages (context b)) ∧
  Z.of_nat (sum_list (l1_counts bs)) < u64_mod.

Lemma total_l1_messages_spec p :
  counts_fit (pd_blocks p) → total_l1_messages p = Z.of_nat (sum_list (l1_counts (pd_blocks p))).
Proof.
  intros [Hpos Hfit]. unfold total_l1_messages.
  assert (foldr (λ b n, c_num_l1_messages (context b) + n) 0 (pd_blocks p) =
          Z.of_nat (sum_list (l1_counts (pd_blocks p)))) as ->.
  { clear Hfit. induction (pd_blocks p) as [|b bs IH]; [done|]. simpl.
    rewrite IH by (intros; apply Hpos; by right). specialize (Hpos b (list_elem_of_here _ _)).
    unfold l1_counts. lia. }
  apply Z.mod_small. lia.
Qed.

Lemma iter_l1_length p start s msgs s' :
  iter_l1_messages_from_payload p start s = (Ok msgs, s') →
  Z.of_nat (length msgs) = total_l1_messages p.
Proof.
  unfold iter_l1_messages_from_payload. intros (ms & s1 & _ & Hr)%bind_Ok.
  case_out; unfold ret, fail in Hr; simplify_eq. by bool_to_prop.
Qed.

(** C29: the blocks derived from a batch are exactly the ones its data describes: block [i] carries
    the unskipped messages of its slice of the L1 queue, in queue order, then its own L2
    transactions, none of which is an L1 message; the skipped indexes are those the bitmap flags. *)
Theorem derive_assembles evict blobs batch status start s res s' :
  derive evict blobs batch status start s = (Ok res, s') →
  ∃ blob decoded msgs,
    fetch_blob blobs batch = Ok blob ∧ decode (bc_calldata batch) blob = Ok decoded ∧
    (iter_l1_messages_from_payload (batch_data decoded) start s).1 = Ok msgs ∧
    rs_batch_info res = BatchInfo_from batch ∧ rs_target_status res = status ∧
    let bs := pd_blocks (batch_data decoded) in
    let tagged := tag (default [] (pd_skipped_l1_message_bitmap (batch_data decoded))) msgs in
    (counts_fit bs →
     map summary (rs_attributes res) = zip_with block_spec bs (slices (l1_counts bs) tagged) ∧
     rs_skipped_l1_messages res = dropped tagged ∧ Forall no_l1_transaction bs).
Proof.
  unfold derive. intros (blob & s1 & Hb & Hrun)%bind_Ok. unfold lift in Hb. injection Hb as Hb <-.
  apply bind_Ok in Hrun as (decoded & s1 & Hd & Hrun). unfold lift in Hd. injection Hd as Hd <-.
  apply bind_Ok in Hrun as (msgs & s1 & Hm & Hrun).
  apply bind_Ok in Hrun as ([attrs skipped] & s2 & Hr & Hrun). unfold ret in Hrun. simplify_eq.
  exists blob, decoded, msgs. split_and!; try done.
  - unfold decode_blocking in Hd. case_out; by simplify_eq.
  - by rewrite Hm.
  - intros Hfit. apply derive_blocks_spec in Hr; [done|].
    apply iter_l1_length in Hm. rewrite total_l1_messages_spec in Hm by done. lia.
Qed.

(** ** The L1 messages of a batch *)

(** a batch that continues the queue after the hash [prev] pops the messages that follow the
    message with that hash, in queue order, and exactly as many as its blocks count. *)
Theorem iter_l1_after_hash p prev post start s msgs s' :
  schema_ok (pl_db s) → l1_message_queue_info p = Hashed prev post → prev ≠ 0 →
  total_l1_messages p + 1 < u64_mod →
  iter_l1_messages_from_payload p start s = (Ok msgs, s') →
  ∃ r0 rows, r0 ∈ l1_message (pl_db s) ∧ mr_queue_hash r0 = Some prev ∧
    smallest (λ r, mr_queue_index r0 <? mr_queue_index r) (Z.to_nat (total_l1_messages p))
      (l1_message (pl_db s)) rows ∧
    Forall2 (λ r m, L1MessageEnvelope_from (E := DatabaseError) r = Ok m) rows msgs ∧
    Z.of_nat (length msgs) = total_l1_messages p.
Proof.
  intros Hok Hq Hprev Hfit Hrun. pose proof (iter_l1_length _ _ _ _ _ Hrun) as Hlen.
  unfold iter_l1_messages_from_payload, queue_index_start, prev_l1_message_queue_hash in Hrun.
  rewrite Hq, (proj2 (Z.eqb_neq _ _)) in Hrun by done.
  apply bind_Ok in Hrun as (ms & s1 & Hm & Hrun). case_out; [done|].
  unfold ret in Hrun. simplify_eq. apply bind_Ok in Hm as (all & s2 & Hget & Hm).
  destruct all as [|m0 ms]; [done|]. unfold ret in Hm. simplify_eq.
  unfold get_n_messages, zoom, map_err, get_n_l1_messages in Hget.
  unfold wrapping_add in Hget. rewrite Z.mod_small in Hget by lia.
  set (d := pl_db s) in *. unfold bind at 1, get, bind, lift in Hget.
  destruct (one _) as [r0|] eqn:Hr0; simpl in Hget; [|done].
  apply one_elem, elem_of_find in Hr0 as [Hin0 Hh].
  destruct (map_l1_message_result _) as [all|?|] eqn:Hsel; simplify_eq/=.
  apply map_l1_message_result_map in Hsel as Hall.
  pose proof (take_smallest (λ r, mr_queue_index r0 <=? mr_queue_index r)
    (Z.to_nat (total_l1_messages p + 1)) (l1_message d)) as Hsm.
  inversion Hall as [|r ? rows' ? Hrm Hrest Heq]; subst. rewrite <- Heq in Hsm.
  apply andb_true_iff in Hh as [_ Hh]. unfold null_eq in Hh.
  destruct (mr_queue_hash r0) as [h|] eqn:Eh; [|done]. bool_to_prop. subst h.
  exists r0, rows'. split_and!; try done.
  replace (Z.to_nat (total_l1_messages p + 1)) with (S (Z.to_nat (total_l1_messages p))) in Hsm by lia.
  apply (smallest_tail r0 r) in Hsm; [done..|]. by apply so_msg_key.
Qed.
End Assembly.

(** ** The worker *)

Section WorkerProps.
Variable derives : BatchDerivationRequest → BatchDerivationResult → Prop.

(** C30: the worker delivers results in the order the batches were pushed, each the result of its
    own request whatever the failures in between; at most three derivations are active, and the
    retry delay stays between one and thirty seconds. *)
Theorem worker_in_order pushed w :
  worker_run derives pushed Worker_new w →
  ∃ delivered,
    pushed = delivered ++ futures w ++ batch_receiver w ∧
    Forall2 derives delivered (results w) ∧
    (length (futures w) ≤ DERIVATION_PIPELINE_WORKER_CONCURRENCY)%nat ∧
    DERIVATION_RETRY_INITIAL_DELAY <= retry_delay w <= DERIVATION_RETRY_MAX_DELAY.
Proof.
  remember Worker_new as w0. intros Hr. revert Heqw0.
  unfold DERIVATION_RETRY_INITIAL_DELAY, DERIVATION_RETRY_MAX_DELAY,
    DERIVATION_PIPELINE_WORKER_CONCURRENCY.
  induction Hr as [w|l1 l2 w1 w2 w3 _ IH Hs]; intros ->.
  { exists []. simpl. split_and!; try done; lia. }
  destruct (IH eq_refl) as (delivered & -> & Hd & Hl & Hdelay). clear IH.
  inversion Hs; subst; simpl in *.
  - exists delivered. by rewrite <- !app_assoc.
  - exists delivered. rewrite <- !app_assoc, app_nil_r, length_app. simpl.
    unfold DERIVATION_PIPELINE_WORKER_CONCURRENCY in *. split_and!; try done; lia.
  - exists (delivered ++ [r]). rewrite <- !app_assoc, app_nil_r. simpl.
    split_and!; try done; [|lia..]. by apply Forall2_app, Forall2_cons_2.
  - exists delivered. rewrite app_nil_r. unfold DERIVATION_RETRY_MAX_DELAY.
    split_and!; try done; lia.
Qed.
End WorkerProps.

(** ** The hint cache *)

Section CacheProps.
Context `{SqlEngine}.
Implicit Types c : PreFetchCache.

(** The table the migration fills: one hint per block from 0. *)
Definition contiguous (t : list BlockDataRow) : Prop :=
  map bd_number t ≡ₚ seqZ 0 (Z.of_nat (length t)) ∧ Z.of_nat (length t) <= i64_max.

Definition hint_of (t : list BlockDataRow) (n : Z) (x : BlockDataHint) : Prop :=
  ∃ r, r ∈ t ∧ bd_number r = n ∧ bd_hint r = x.

(** Cached hints are hints of the table. *)
Definition cache_sound c : Prop :=
  contiguous (block_data c) ∧ 0 < pre_fetch_count c ∧
  max_block_data_hint_block_number c = get_max_block_data_hint_block_number (block_data c) ∧
  (∀ n x, hint_cache c !! n = Some x → hint_of (block_data c) n x).

(** And a range marked as fetched is in the cache. *)
Definition cache_complete c : Prop :=
  ∀ start r, start ∈ ranges_in_cache c → r ∈ block_data c →
    start <= bd_number r < start + pre_fetch_count c → hint_cache c !! bd_number r = Some (bd_hint r).

Lemma contiguous_bound t r : contiguous t → r ∈ t → 0 <= bd_number r < Z.of_nat (length t).
Proof.
  intros [Hp _] Hr. assert (bd_number r ∈ map bd_number t) as Hin
    by (apply list_elem_of_fmap; eauto).
  rewrite Hp in Hin. apply elem_of_seqZ in Hin. lia.
Qed.

Lemma contiguous_inj t r r' :
  contiguous t → r ∈ t → r' ∈ t → bd_number r = bd_number r' → r = r'.
Proof.
  intros [Hp _] Hr Hr' He. eapply (NoDup_map_inj bd_number); [|done..].
  rewrite Hp. apply NoDup_seqZ.
Qed.

Lemma contiguous_row t n : contiguous t → 0 <= n < Z.of_nat (length t) → ∃ r, r ∈ t ∧ bd_number r = n.
Proof.
  intros [Hp _] Hn. assert (n ∈ map bd_number t) as Hin by (rewrite Hp; apply elem_of_seqZ; lia).
  apply list_elem_of_fmap in Hin as (r & -> & ?). eauto.
Qed.

(** A pre-fetched range holds the rows numbered from its start, in order. *)
Lemma range_rows t start :
  contiguous t → 0 <= start <= i64_max →
  ∃ rows, get_n_l2_block_data_hint start (length rows) t = map bd_hint rows ∧
    (∀ n, get_n_l2_block_data_hint start n t = map bd_hint (take n rows)) ∧
    map bd_number rows = seqZ start (Z.of_nat (length t) - start) ∧ (∀ r, r ∈ rows → r ∈ t).
Proof.
  intros Hc Hs. set (rows := order_by_asc bd_number (find (λ r, as_i64 start <=? bd_number r) t)).
  assert (∀ r, r ∈ rows ↔ r ∈ t ∧ start <= bd_number r) as Hrows.
  { intros r. unfold rows. rewrite elem_of_order_by_asc, elem_of_find, as_i64_small, Z.leb_le by lia.
    done. }
  exists rows. split_and!.
  - unfold get_n_l2_block_data_hint. fold rows. by rewrite firstn_all.
  - done.
  - apply (StronglySorted_unique Z.le).
    + unfold rows. generalize (order_by_asc_sorted bd_number (find (λ r, as_i64 start <=? bd_number r) t)).
      generalize (order_by_asc bd_number (find (λ r, as_i64 start <=? bd_number r) t)).
      induction 1 as [|r l Hl IH Hall]; simpl; constructor; [done|].
      apply Forall_map. by eapply Forall_impl; [done|].
    + generalize (Z.of_nat (length t) - start) as m. intros m.
      unfold seqZ. generalize (Z.to_nat m). intros k. clear.
      revert start. induction k as [|k IH]; intros start; simpl; constructor.
      * rewrite <- fmap_S_seq, <- list_fmap_compose. specialize (IH (Z.succ start)).
        erewrite list_fmap_ext; [exact IH|]. intros i x _. simpl. lia.
      * apply Forall_forall. intros x. rewrite list_elem_of_fmap. intros (y & -> & Hy).
        apply elem_of_seq in Hy. lia.
    + apply NoDup_Permutation; [| apply NoDup_seqZ|].
      * unfold rows, order_by_asc. rewrite merge_sort_Permutation. unfold find. rewrite scan_perm.
        assert (NoDup (map bd_number t)) as Hn by (rewrite (proj1 Hc); apply NoDup_seqZ).
        revert Hn. clear. induction t as [|r t IH]; simpl; [done|].
        intros [Hnot Hn]%NoDup_cons. case_out; simpl; [|by apply IH].
        apply NoDup_cons. split; [|by apply IH]. intros Hin. apply Hnot.
        apply list_elem_of_fmap in Hin as (y & -> & Hy). apply elem_of_where in Hy as [Hy _].
        apply list_elem_of_fmap. eauto.
      * intros x. rewrite list_elem_of_fmap, elem_of_seqZ. split.
        -- intros (r & -> & [Hr Hge]%Hrows). pose proof (contiguous_bound _ _ Hc Hr). lia.
        -- intros Hx. destruct (contiguous_row t x) as (r & Hr & <-); [done|lia|].
           exists r. split; [done|]. apply Hrows. split; [done|lia].
  - intros r Hr. by apply Hrows in Hr as [? _].
Qed.

Lemma insert_hints_lookup rows start m n :
  map bd_number rows = seqZ start (Z.of_nat (length rows)) →
  (∀ r, r ∈ rows → insert_hints start (map bd_hint rows) m !! bd_number r = Some (bd_hint r)) ∧
  ((∀ r, r ∈ rows → bd_number r ≠ n) → insert_hints start (map bd_hint rows) m !! n = m !! n).
Proof.
  revert start m n. induction rows as [|r rows IH]; intros start m n Hn.
  { split; [by intros r ?%not_elem_of_nil|done]. }
  simpl in Hn. rewrite seqZ_cons in Hn by lia. injection Hn as Hr Hrest.
  replace (Z.pred (Z.of_nat (S (length rows)))) with (Z.of_nat (length rows)) in Hrest by lia.
  assert (∀ r', r' ∈ rows → start < bd_number r') as Hgt.
  { intros r' Hr'. assert (bd_number r' ∈ map bd_number rows) as Hin
      by (apply list_elem_of_fmap; eauto).
    rewrite Hrest in Hin. apply elem_of_seqZ in Hin. lia. }
  simpl. split.
  - intros r' [->|Hr']%elem_of_cons; [|by apply (IH (start + 1) _ 0)].
    destruct (IH (start + 1) (<[start:=bd_hint r]> m) (bd_number r) Hrest) as [_ ->].
    + rewrite Hr. apply lookup_insert_eq.
    + intros r' Hr' He. specialize (Hgt r' Hr'). lia.
  - intros Hall. destruct (IH (start + 1) (<[start:=bd_hint r]> m) n Hrest) as [_ ->].
    + apply lookup_insert_ne. rewrite <- Hr. apply Hall. by left.
    + intros. apply Hall. by right.
Qed.

Lemma elem_of_take_inv {A} n (x : A) l : x ∈ take n l → x ∈ l.
Proof. rewrite <- (take_drop n l) at 2. rewrite elem_of_app. by left. Qed.

Lemma rows_take n rows start m :
  map bd_number rows = seqZ start m → 0 <= m →
  map bd_number (take n rows) = seqZ start (Z.of_nat (length (take n rows))).
Proof.
  intros Hr Hm. pose proof (f_equal length Hr) as Hl. rewrite length_map, length_seqZ in Hl.
  rewrite <- firstn_map, Hr. unfold seqZ. rewrite <- fmap_take, take_seq, length_take, Hl, Nat2Z.id.
  done.
Qed.

Lemma row_cases (rows : list BlockDataRow) n :
  (∃ r, r ∈ rows ∧ bd_number r = n) ∨ (∀ r, r ∈ rows → bd_number r ≠ n).
Proof.
  destruct (decide (n ∈ map bd_number rows)) as [Hin|Hin].
  - left. apply list_elem_of_fmap in Hin as (r & -> & ?). eauto.
  - right. intros r Hr <-. apply Hin. apply list_elem_of_fmap. eauto.
Qed.

Lemma pre_fetch_ok start c :
  cache_sound c → 0 <= start <= i64_max →
  cache_sound (pre_fetch start c) ∧
  (∀ r, r ∈ block_data c → start <= bd_number r < start + pre_fetch_count c →
     hint_cache (pre_fetch start c) !! bd_number r = Some (bd_hint r)) ∧
  (∀ r, r ∈ block_data c → hint_cache c !! bd_number r = Some (bd_hint r) →
     hint_cache (pre_fetch start c) !! bd_number r = Some (bd_hint r)) ∧
  (∀ s, s ∈ ranges_in_cache (pre_fetch start c) → s = start ∨ s ∈ ranges_in_cache c).
Proof.
  intros (Hc & Hcount & Hmax & Hsound) Hs.
  destruct (range_rows (block_data c) start Hc Hs) as (rows & _ & Hget & Hnum & Hin).
  set (count := Z.to_nat (pre_fetch_count c)).
  assert (map bd_number (take count rows) = seqZ start (Z.of_nat (length (take count rows))))
    as Htake.
  { destruct (decide (start <= Z.of_nat (length (block_data c)))).
    - eapply rows_take; [exact Hnum|lia].
    - rewrite seqZ_nil in Hnum by lia. apply map_eq_nil in Hnum as ->.
      rewrite take_nil. simpl. by rewrite seqZ_nil. }
  unfold pre_fetch. cbv zeta. fold count. rewrite Hget.
  pose proof (λ m n, insert_hints_lookup _ start m n Htake) as Hlk.
  split_and!.
  - split_and!; try done. simpl. intros n x Hx.
    destruct (row_cases (take count rows) n) as [(r & Hr & <-)|Hno].
    + rewrite (proj1 (Hlk _ 0)) in Hx by done. simplify_eq. exists r. split; [|done].
      apply Hin. by eapply elem_of_take_inv.
    + rewrite (proj2 (Hlk _ n)) in Hx by done. by apply Hsound.
  - simpl. intros r Hr Hrange. apply (proj1 (Hlk _ 0)).
    assert (bd_number r ∈ seqZ start (Z.of_nat (length (take count rows)))) as Hel.
    { apply elem_of_seqZ. rewrite length_take.
      pose proof (f_equal length Hnum) as Hl. rewrite length_map, length_seqZ in Hl.
      pose proof (contiguous_bound _ _ Hc Hr). lia. }
    rewrite <- Htake in Hel. apply list_elem_of_fmap in Hel as (r' & He & Hr').
    replace r with r'; [done|]. eapply contiguous_inj; [done| |done|done].
    apply Hin. by eapply elem_of_take_inv.
  - simpl. intros r Hr Hold.
    destruct (row_cases (take count rows) (bd_number r)) as [(r' & Hr' & He)|Hno].
    + rewrite <- He, (proj1 (Hlk _ 0)) by done. f_equal.
      f_equal. eapply contiguous_inj; [done| |done|done]. apply Hin. by eapply elem_of_take_inv.
    + by rewrite (proj2 (Hlk _ _)).
  - simpl. intros s. rewrite elem_of_app, list_elem_of_singleton. intros [Hs'|Hs']; [|by left].
    right. case_out; [|done]. destruct (ranges_in_cache c); [done|]. by right.
Qed.


Lemma evicted_sound evict c :
  evict (hint_cache c) ⊆ hint_cache c → cache_sound c →
  cache_sound (set_hint_cache (evict (hint_cache c)) c).
Proof.
  intros He (Hc & Hn & Hm & Hs). split_and!; try done. simpl. intros n x Hx. apply Hs.
  by eapply lookup_weaken.
Qed.

Lemma set_hint_cache_same c : set_hint_cache (hint_cache c) c = c.
Proof. by destruct c. Qed.

Lemma max_column_ge l x : Some x ∈ l → ∃ m, max_column l = Some m ∧ x <= m.
Proof.
  induction l as [|o l IH]; [by intros ?%not_elem_of_nil|].
  intros [<-|Hx]%elem_of_cons; simpl.
  - destruct (max_column l) as [m|]; simpl; eexists; (split; [done|lia]).
  - destruct (IH Hx) as (m & -> & Hle). destruct o; simpl; eexists; (split; [done|lia]).
Qed.

Lemma max_column_elem l m : max_column l = Some m → Some m ∈ l.
Proof.
  revert m. induction l as [|o l IH]; intros m; simpl; [done|].
  destruct o as [x|], (max_column l) as [m'|] eqn:E; simpl; intros; simplify_eq.
  - destruct (Z.max_spec x m') as [[_ ->]|[_ ->]]; [right; by apply IH|by left].
  - by left.
  - right. by apply IH.
Qed.

(** The largest number of a contiguous table, as the cache computes it. *)
Lemma max_hint_bounds t :
  contiguous t → get_max_block_data_hint_block_number t <= i64_max ∧
  ∀ r, r ∈ t → bd_number r <= get_max_block_data_hint_block_number t.
Proof.
  intros Hc. unfold get_max_block_data_hint_block_number.
  destruct (max_column (map (λ r, Some (bd_number r)) t)) as [m|] eqn:Em; simpl.
  - apply max_column_elem in Em as Hin. apply list_elem_of_fmap in Hin as (r & [= ->] & Hr).
    pose proof (contiguous_bound _ _ Hc Hr) as Hb. destruct Hc as [_ Hlen].
    unfold i64_max in *. rewrite as_u64_small by (unfold in_u64; lia). split; [lia|].
    intros r' Hr'. destruct (max_column_ge (map (λ r, Some (bd_number r)) t) (bd_number r'))
      as (m & Hm & Hle); [apply list_elem_of_fmap; eauto|]. rewrite Em in Hm. by simplify_eq.
  - split; [done|]. intros r Hr.
    destruct (max_column_ge (map (λ r, Some (bd_number r)) t) (bd_number r))
      as (m & Hm & _); [apply list_elem_of_fmap; eauto|]. by rewrite Em in Hm.
Qed.

Definition evicted (evict : gmap Z BlockDataHint → gmap Z BlockDataHint) c : PreFetchCache :=
  set_hint_cache (evict (hint_cache c)) c.
Definition range_start c (n : Z) : Z := n / pre_fetch_count c * pre_fetch_count c.
Definition fetched (n : Z) c : PreFetchCache :=
  if is_in (range_start c n) (ranges_in_cache c) then c else pre_fetch (range_start c n) c.

Lemma cache_get_run {E} evict n c :
  pre_fetch_count c ≠ 0 →
  cache_get (E := E) evict n c =
    if max_block_data_hint_block_number c <? n then (Ok None, c)
    else
      let c1 := evicted evict c in
      match hint_cache c1 !! n with
      | Some x => (Ok (Some x), c1)
      | None => let c3 := evicted evict (fetched n c1) in (Ok (hint_cache c3 !! n), c3)
      end.
Proof.
  intros Hc. unfold cache_get, bind at 1, get. case_out; [done|].
  unfold hint_get, bind, modify, gets. fold (evicted evict c). cbv zeta.
  case_out; [done|]. unfold pre_fetch_range_start, bind, get.
  rewrite (proj2 (Z.eqb_neq _ _)) by done. unfold ret, fetched, range_start.
  destruct (is_in _ _); done.
Qed.

(** A range start is a valid start of a fetch. *)
Lemma range_start_bounds c n :
  cache_sound c → 0 <= n <= max_block_data_hint_block_number c →
  0 <= range_start c n <= i64_max ∧
  range_start c n <= n < range_start c n + pre_fetch_count c.
Proof.
  intros (Hc & Hcount & Hmax & _) Hn. destruct (max_hint_bounds _ Hc) as [Hle _].
  rewrite <- Hmax in Hle. unfold range_start.
  pose proof (Z.div_mod n (pre_fetch_count c)) as Hd.
  pose proof (Z.mod_pos_bound n (pre_fetch_count c)) as Hm.
  pose proof (Z.div_pos n (pre_fetch_count c)) as Hp. split; [split|]; try nia.
Qed.

Lemma fetched_sound n c :
  cache_sound c → 0 <= n <= max_block_data_hint_block_number c →
  cache_sound (fetched n c) ∧ block_data (fetched n c) = block_data c.
Proof.
  intros Hc Hn. unfold fetched. destruct (is_in _ _); [done|].
  split; [|done]. apply pre_fetch_ok; [done|]. by apply range_start_bounds.
Qed.

(** the cache never returns the hint of another block: whatever entries were dropped before
    each access, a hint it returns is the table's hint of that block, and the cache keeps this
    property. *)
Theorem cache_get_sound evict n c o c' :
  (∀ m, evict m ⊆ m) → cache_sound c → 0 <= n →
  cache_get (E := DerivationPipelineError) evict n c = (o, c') →
  cache_sound c' ∧ block_data c' = block_data c ∧
  ∃ h, o = Ok h ∧ ∀ x, h = Some x → hint_of (block_data c) n x.
Proof.
  intros He Hc Hn. pose proof Hc as (_ & Hcount & _). rewrite cache_get_run by lia.
  case_out; [intros; simplify_eq; split_and!; try done; by eexists|]. bool_to_prop. cbv zeta.
  pose proof (evicted_sound evict c (He _) Hc) as Hc1. fold (evicted evict c) in Hc1.
  case_out; intros; simplify_eq.
  { split_and!; try done. eexists. split; [done|]. intros x [= ->]. by apply Hc1. }
  destruct (fetched_sound n (evicted evict c)) as [Hc2 Hb]; [done|done|].
  pose proof (evicted_sound evict _ (He _) Hc2) as Hc3.
  fold (evicted evict (fetched n (evicted evict c))) in Hc3.
  split_and!; [done|by simpl; rewrite Hb|]. eexists. split; [done|]. intros x Hx.
  change (block_data c) with (block_data (evicted evict c)). rewrite <- Hb. by apply Hc3.
Qed.

(** while no entry is dropped, the cache answers exactly what the table holds, for every block
    number, and keeps doing so. *)
Theorem cache_get_complete n c o c' :
  cache_sound c → cache_complete c → 0 <= n →
  cache_get (E := DerivationPipelineError) id n c = (o, c') →
  cache_sound c' ∧ cache_complete c' ∧
  ∃ h, o = Ok h ∧ ∀ x, h = Some x ↔ hint_of (block_data c) n x.
Proof.
  intros Hc Hcomp Hn. pose proof Hc as (Ht & Hcount & Hmax & _). rewrite cache_get_run by lia.
  assert (evicted id c = c) as -> by apply set_hint_cache_same.
  case_out; [|]; bool_to_prop; cbv zeta.
  { intros; simplify_eq. split_and!; try done. eexists. split; [done|]. intros x. split; [done|].
    intros (r & Hr & <- & _). destruct (max_hint_bounds _ Ht) as [_ Hle]. specialize (Hle r Hr).
    lia. }
  destruct (hint_cache c !! n) as [x0|] eqn:Ex.
  { intros; simplify_eq. split_and!; try done. eexists. split; [done|]. intros x.
    destruct Hc as (_&_&_&Hs). destruct (Hs n x0 Ex) as (r & Hr & <- & <-). split.
    - intros [= <-]. by exists r.
    - intros (r' & Hr' & He & <-). do 2 f_equal. symmetry. by eapply contiguous_inj. }
  assert (evicted id (fetched n c) = fetched n c) as -> by apply set_hint_cache_same.
  intros; simplify_eq. destruct (range_start_bounds c n Hc) as [Hb1 Hb2]; [lia|].
  destruct (fetched_sound n c Hc) as [Hc2 Hb]; [lia|].
  destruct (pre_fetch_ok (range_start c n) c Hc Hb1) as (_ & Hnew & Hold & Hran).
  assert (cache_complete (fetched n c)) as Hcomp2.
  { unfold fetched in *. destruct (is_in _ _); [done|]. intros s r Hs Hr Hrng.
    destruct (Hran s Hs) as [->|Hs']; [by apply Hnew|]. apply Hold; [done|]. by eapply Hcomp. }
  split_and!; try done. eexists. split; [done|]. intros x. split.
  { intros Hx. rewrite <- Hb. by apply Hc2. }
  intros (r & Hr & <- & <-). apply (Hcomp2 (range_start c (bd_number r)));
    [|by rewrite Hb|unfold fetched; by destruct (is_in _ _)].
  unfold fetched. destruct (is_in _ _) eqn:Ei; [by apply is_in_true|].
  simpl. apply elem_of_app. right. by left.
Qed.

(** after a range was fetched its entries may expire, but the range stays marked as fetched:
    the cache then answers that there is no hint for a block whose hint the table holds, and the
    block is derived with an empty hint. *)
Theorem cache_get_expired n c r :
  cache_sound c → r ∈ block_data c → bd_number r = n → range_start c n ∈ ranges_in_cache c →
  (cache_get (E := DerivationPipelineError) (λ _, ∅) n c).1 = Ok None ∧
  hint_of (block_data c) n (bd_hint r).
Proof.
  intros Hc Hr Hn Hran. pose proof Hc as (Ht & Hcount & Hmax & _).
  destruct (max_hint_bounds _ Ht) as [_ Hle]. specialize (Hle r Hr).
  rewrite cache_get_run by lia. rewrite (proj2 (Z.ltb_ge _ _)) by lia. cbv zeta. simpl.
  rewrite lookup_empty. split; [done|]. by exists r.
Qed.
End CacheProps.

(** ** Witnesses *)

Definition toy_message (i qh : Z) : L1MessageEnvelope :=
  mkL1MessageEnvelope (mkTxL1Message i 100 1 0 2 []) 5 None (Some qh).

(** A database with two messages, and a batch of one block that pops the second of them. *)
Definition toy_messages : list MsgRow :=
  [@MsgRow_from toy_chain (toy_message 0 11);
   @MsgRow_from toy_chain (toy_message 1 12)].
Definition toy_hints : list BlockDataRow :=
  map (λ n, mkBlockDataRow n (mkHint None (Some (100 + n)) None None None)) [0; 1; 2; 3; 4; 5].
Definition toy_cache : PreFetchCache := @PreFetchCache_new toy_hints 2.
Definition toy_pipeline : PipelineState :=
  mkPipelineState (set_l1_message toy_messages (migrated 99)) toy_cache.

Definition toy_popping : PayloadData :=
  mkPayloadData [mkL2Block [[192]] (mkBlockContext 5 1700 7 30000000 2 1)] (Hashed 11 12) None.
Definition toy_popping_blob : Bytes :=
  let bytes := encode_v7 5 toy_popping 11 12 in
  toy_blob 10 ([7] ++ be_bytes 3 (Z.of_nat (length bytes)) ++ [0] ++ bytes).
Definition toy_commit : BatchCommitData :=
  mkBatchCommitData 70 7 3 1600 (toy_calldata 7 []) (Some 500) None None.

Definition toy_derive :=
  @derive stored_order toy_libs toy_chain id (λ _ _, Ok (Some toy_popping_blob)) toy_commit
    Consolidated 0 toy_pipeline.
Definition toy_derived : BatchDerivationResult :=
  match toy_derive.1 with Ok r => r | _ => mkResult [] (mkBatchInfo 0 0) [] Committed end.

Lemma derive_assembles_witness :
  ∃ blob decoded msgs,
    fetch_blob (λ _ _, Ok (Some toy_popping_blob)) toy_commit = Ok blob ∧
    @decode toy_libs (bc_calldata toy_commit) blob = Ok decoded ∧
    (@iter_l1_messages_from_payload stored_order (batch_data decoded) 0 toy_pipeline).1 = Ok msgs ∧
    rs_batch_info toy_derived = BatchInfo_from toy_commit ∧
    rs_target_status toy_derived = Consolidated ∧
    let bs := pd_blocks (batch_data decoded) in
    let tagged := tag (default [] (pd_skipped_l1_message_bitmap (batch_data decoded))) msgs in
    (counts_fit bs →
     map summary (rs_attributes toy_derived) =
       zip_with (@block_spec toy_chain) bs (slices (l1_counts bs) tagged) ∧
     rs_skipped_l1_messages toy_derived = dropped tagged ∧ Forall no_l1_transaction bs).
Proof.
  apply (@derive_assembles stored_order toy_libs toy_chain id (λ _ _, Ok (Some toy_popping_blob))
    toy_commit Consolidated 0 toy_pipeline toy_derived toy_derive.2).
  vm_compute. reflexivity.
Defined.

Lemma iter_l1_after_hash_witness :
  ∃ r0 rows, r0 ∈ toy_messages ∧ mr_queue_hash r0 = Some 11 ∧
    smallest (λ r, mr_queue_index r0 <? mr_queue_index r) 1 toy_messages rows ∧
    Forall2 (λ r m, L1MessageEnvelope_from (E := DatabaseError) r = Ok m) rows [toy_message 1 12] ∧
    Z.of_nat (length [toy_message 1 12]) = 1.
Proof.
  apply (@iter_l1_after_hash stored_order toy_popping 11 12 0 toy_pipeline
    [toy_message 1 12] toy_pipeline).
  - split.
    + apply (so_batch_key _ (schema_ok_migrated 99)).
    + apply (so_block_key _ (schema_ok_migrated 99)).
    + apply (so_block_fk _ (schema_ok_migrated 99)).
    + apply (bool_decide_unpack _). vm_compute. exact I.
    + apply (bool_decide_unpack _). vm_compute. exact I.
    + apply (bool_decide_unpack _). vm_compute. exact I.
    + intros n1 n2 h Hn. discriminate Hn.
  - reflexivity.
  - lia.
  - vm_compute. reflexivity.
  - vm_compute. reflexivity.
Defined.

Definition toy_request (i : Z) : BatchDerivationRequest :=
  mkRequest (mkBatchInfo i (i * 10)) Consolidated.
Definition toy_derives (r : BatchDerivationRequest) (res : BatchDerivationResult) : Prop :=
  rs_batch_info res = rq_batch_info r.

Lemma worker_in_order_witness :
  ∃ delivered,
    [toy_request 1; toy_request 2] = delivered ++ [toy_request 2] ++ [] ∧
    Forall2 toy_derives delivered [mkResult [] (mkBatchInfo 1 10) [] Consolidated] ∧
    (1 ≤ DERIVATION_PIPELINE_WORKER_CONCURRENCY)%nat ∧
    DERIVATION_RETRY_INITIAL_DELAY <= 1 <= DERIVATION_RETRY_MAX_DELAY.
Proof.
  apply (worker_in_order toy_derives [toy_request 1; toy_request 2]
    (mkWorker [] [toy_request 2] 1 [mkResult [] (mkBatchInfo 1 10) [] Consolidated])).
  set (r1 := toy_request 1). set (r2 := toy_request 2).
  refine (run_step _ [r1; r2] [] _ (mkWorker [] [r1; r2] 2 []) _ _ _);
    [|apply (worker_derived toy_derives r1 [] [r2] 2 []); reflexivity].
  refine (run_step _ [r1; r2] [] _ (mkWorker [r2] [r1] 2 []) _ _ _);
    [|apply (worker_recv _ r2 [] [r1]); vm_compute; lia].
  refine (run_step _ [r1] [r2] _ (mkWorker [] [r1] 2 []) _ _ _); [|apply (push_batch _ r2 [])].
  refine (run_step _ [r1] [] _ (mkWorker [] [r1] 1 []) _ _ _); [|apply (worker_failed _ r1)].
  refine (run_step _ [r1] [] _ (mkWorker [r1] [] 1 []) _ _ _);
    [|apply (worker_recv _ r1 [] []); vm_compute; lia].
  refine (run_step _ [] [r1] _ Worker_new _ _ _); [apply run_nil|apply (push_batch _ r1 [])].
Defined.

Lemma toy_cache_sound : cache_sound toy_cache.
Proof.
  split_and!; [|done|done|].
  - split; [|vm_compute; discriminate]. apply (bool_decide_unpack _). vm_compute. exact I.
  - intros n x Hx. simpl in Hx. by rewrite lookup_empty in Hx.
Qed.

Lemma cache_get_sound_witness :
  cache_sound (@cache_get stored_order (λ _, ∅) DerivationPipelineError 3 toy_cache).2 ∧
  block_data (@cache_get stored_order (λ _, ∅) DerivationPipelineError 3 toy_cache).2 = toy_hints ∧
  ∃ h, Ok None = Ok (E := DerivationPipelineError) h ∧ ∀ x, h = Some x → hint_of toy_hints 3 x.
Proof.
  apply (@cache_get_sound stored_order (λ _, ∅) 3 toy_cache).
  - intros m. apply map_empty_subseteq.
  - apply toy_cache_sound.
  - lia.
  - vm_compute. reflexivity.
Defined.

Lemma cache_get_complete_witness :
  let c' := (@cache_get stored_order id DerivationPipelineError 3 toy_cache).2 in
  cache_sound c' ∧ cache_complete c' ∧
  ∃ h, Ok (Some (mkHint None (Some 103) None None None)) = Ok (E := DerivationPipelineError) h ∧
    ∀ x, h = Some x ↔ hint_of toy_hints 3 x.
Proof.
  apply (@cache_get_complete stored_order 3 toy_cache).
  - apply toy_cache_sound.
  - intros s r Hs. by apply not_elem_of_nil in Hs.
  - lia.
  - vm_compute. reflexivity.
Defined.

(** After one lookup of block 3 its range is marked; the entries expire before the next lookup. *)
Definition toy_cache' : PreFetchCache :=
  (@cache_get stored_order id DerivationPipelineError 3 toy_cache).2.

Lemma toy_cache'_sound : cache_sound toy_cache'.
Proof.
  assert (toy_cache' = @fetched stored_order 3 toy_cache) as -> by (vm_compute; reflexivity).
  apply fetched_sound; [apply toy_cache_sound|]. vm_compute. split; discriminate.
Qed.

Lemma cache_get_expired_witness :
  (@cache_get stored_order (λ _, ∅) DerivationPipelineError 3 toy_cache').1 = Ok None ∧
  hint_of (block_data toy_cache') 3 (mkHint None (Some 103) None None None).
Proof.
  apply (@cache_get_expired stored_order 3 toy_cache'
    (mkBlockDataRow 3 (mkHint None (Some 103) None None None))).
  - apply toy_cache'_sound.
  - vm_compute. do 3 right. left.
  - reflexivity.
  - vm_compute. left.
Defined.
