(* ===== verification/Consolidation.v ===== *)
(** * Reconciling a derived batch with the L2 chain (chain-orchestrator/src/consolidation.rs)

    The comparison of each derived block with the canonical chain, the actions it yields, their
    aggregation and the outcome recorded for the batch; with the errors of the orchestrator
    (error.rs) and the L2 client the orchestrator reads blocks from. *)

From S2P Require Import Prelude Sql Primitives BigEndian Codec Engine DbModel DbOps Signing.
From S2P Require Import Sequencer Pipeline.

(** ** Errors (error.rs) *)

Inductive ChainOrchestratorError :=
| CoDatabaseError (e : DatabaseError)
| CoEngineError (e : EngineError)
| L2BlockNotFoundInDatabase (n : Z)
| L2BlockNotFoundInL2Client (n : Z)
| L2SafeBlockReorgDetected
| L1MessageMismatch (expected actual : B256)
| CoL1MessageNotFound (key : L1MessageKey)
| L1MessageQueueGap (index : Z)
| ChainInconsistency
| MissingBlockHeader (h : B256)
| BlockFetchMismatch (expected actual : nat)
| BatchCommitGap (index : Z)
| NetworkRequestError (msg : string)
| RpcError (msg : string)
| InvalidBlock
| CoSequencerError (e : SequencerError)
| CoSignerError (e : SignerError)
| InvalidBatch (b : BlockInfo) (bi : BatchInfo)
| DerivedBatchEngineRequest (bi : BatchInfo) (method : string) (source : EngineError)
| MissingDerivedPayloadId (bi : BatchInfo)
| UnexpectedDerivedPayloadStatus (bi : BatchInfo) (method status : string)
| InvalidDerivedPayload (bi : BatchInfo) (method : string) (block_number : option Z)
    (latest_valid_hash : option B256) (validation_error : string)
| DerivedPayloadMismatch (bi : BatchInfo) (block_number : Z) (reason : string)
| InvalidBatchReorg (bi : BatchInfo) (safe_block_number derived_block_number : Z)
| SafeFrontierMismatch (bi : BatchInfo) (engine_safe db_safe : BlockInfo)
    (reth_canonical : option BlockInfo)
| UnwindForkchoiceUpdateFailed (operation : string) (db_safe : option BlockInfo)
    (engine_safe : BlockInfo) (reason : string)
| RollupNodePrimitiveError.

(** [CanRetry for ChainOrchestratorError], given the retry rule of database errors. *)
Definition orchestrator_can_retry (db_can_retry : DatabaseError → bool)
    (e : ChainOrchestratorError) : bool :=
  match e with CoDatabaseError e => db_can_retry e | _ => false end.

(** ** The L2 client *)

Section Client.
Context `{Chain}.

(** A block as the RPC reports it, with its hash. *)
Record RpcBlock := mkRpcBlock { rpc_hash : B256; rpc_block : DogeosBlock }.

Definition rpc_block_info (b : RpcBlock) : BlockInfo :=
  {| number := block_number (rpc_block b); hash := rpc_hash b |}.

(** [eth_getBlockByNumber], [eth_getBlockByHash] and [eth_sendRawTransaction] on the state [W] of
    the outside world. *)
Class L2Provider (W : Type) := {
  get_block_by_number : Z → W → outcome string (option RpcBlock) * W;
  get_block_by_hash : B256 → W → outcome string (option RpcBlock) * W;
  send_raw_transaction : Bytes → W → outcome string unit * W
}.
End Client.

(** ** Actions *)

Inductive BlockConsolidationAction :=
| UpdateFcs (info : L2BlockInfoWithL1Messages)
| Skip (info : L2BlockInfoWithL1Messages)
| Reorg (index : nat).

Definition is_update_fcs (a : BlockConsolidationAction) : bool :=
  match a with UpdateFcs _ => true | _ => false end.
Definition is_skip (a : BlockConsolidationAction) : bool :=
  match a with Skip _ => true | _ => false end.
Definition is_reorg (a : BlockConsolidationAction) : bool :=
  match a with Reorg _ => true | _ => false end.
Definition into_block_info (a : BlockConsolidationAction) : option L2BlockInfoWithL1Messages :=
  match a with UpdateFcs info | Skip info => Some info | Reorg _ => None end.

Record BatchReconciliationResult := mkReconciliation {
  rc_batch_info : BatchInfo;
  rc_actions : list BlockConsolidationAction;
  rc_target_status : BatchStatus
}.

(** [aggregate_actions]: the fold over the actions, [acc] being the vector built so far. *)
Definition aggregate_step (acc : list BlockConsolidationAction) (next : BlockConsolidationAction) :
    list BlockConsolidationAction :=
  match last acc with
  | Some l =>
      if is_update_fcs l && is_update_fcs next then removelast acc ++ [next] else acc ++ [next]
  | None => if negb (is_skip next) then acc ++ [next] else acc
  end.
Definition aggregate_actions (r : BatchReconciliationResult) : list BlockConsolidationAction :=
  foldl aggregate_step [] (rc_actions r).

(** [into_batch_consolidation_outcome]: the kept blocks, then the rebuilt ones. *)
Fixpoint push_kept {E} (actions : list BlockConsolidationAction) (c : BatchConsolidationOutcome) :
    outcome E BatchConsolidationOutcome :=
  match actions with
  | [] => Ok c
  | action :: actions =>
      if negb (is_reorg action)
      then obind (expect (into_block_info action)) (λ info, push_kept actions (push_block c info))
      else push_kept actions c
  end.

Definition into_batch_consolidation_outcome {E} (r : BatchReconciliationResult)
    (reorg_results : list L2BlockInfoWithL1Messages) (head_updated : bool) :
    outcome E BatchConsolidationOutcome :=
  omap_ok (λ c, foldl push_block c reorg_results)
    (push_kept (rc_actions r)
       (BatchConsolidationOutcome_new (rc_batch_info r) (rc_target_status r) head_updated)).

(** ** Reconciliation *)

Section Reconcile.
Context `{Chain} `{!L2Provider W}.

(** The action for one block of the batch, against the block the client returns for its number. *)
Definition block_action (finalized_number : Z) (index : nat) (a : DerivedAttributes)
    (current : option DogeosBlock) : BlockConsolidationAction :=
  match current with
  | None => Reorg index
  | Some current_block =>
      if block_matches_attributes (da_attributes a) (da_base_fee a) current_block then
        let info := L2BlockInfo_from_block current_block in
        if da_block_number a <=? finalized_number then Skip info else UpdateFcs info
      else Reorg index
  end.

(** The ordered requests of all blocks. *)
Fixpoint block_actions (finalized_number : Z) (index : nat) (attributes : list DerivedAttributes) :
    M W ChainOrchestratorError (list BlockConsolidationAction) :=
  match attributes with
  | [] => ret []
  | a :: attributes =>
      let* current := map_err RpcError (get_block_by_number (da_block_number a)) in
      let* actions := block_actions finalized_number (S index) attributes in
      ret (block_action finalized_number index a (rpc_block <$> current) :: actions)
  end.

(** From the first rebuild on everything is rebuilt. *)
Fixpoint reorg_from (index : nat) (actions : list BlockConsolidationAction) :
    list BlockConsolidationAction :=
  match actions with
  | [] => []
  | _ :: actions => Reorg index :: reorg_from (S index) actions
  end.
Fixpoint extend_reorg (index : nat) (actions : list BlockConsolidationAction) :
    list BlockConsolidationAction :=
  match actions with
  | [] => []
  | action :: rest =>
      if is_reorg action then reorg_from index actions
      else action :: extend_reorg (S index) rest
  end.

Definition reconcile_batch (batch : BatchDerivationResult) (f : ForkchoiceState) :
    M W ChainOrchestratorError BatchReconciliationResult :=
  let* actions := block_actions (number (fcs_finalized f)) 0 (rs_attributes batch) in
  ret (mkReconciliation (rs_batch_info batch) (extend_reorg 0 actions) (rs_target_status batch)).
End Reconcile.
