(* ===== verification/ConsolidationProps.v ===== *)
(** * Properties of the reconciliation

    The shape of the actions of a batch: blocks that match are kept, from the first block that
    does not match everything is rebuilt, and aggregation leaves one fork choice update for the
    kept blocks above the finalized one. *)

From S2P Require Import Prelude Sql Primitives BigEndian Codec Engine DbModel DbOps Pipeline.
From S2P Require Import Consolidation Concrete.

Section Shape.
Context `{Chain} `{!L2Provider W}.

(** The derived blocks come in ascending order of their numbers. *)
Definition ascending (l : list DerivedAttributes) : Prop :=
  StronglySorted (λ a b, da_block_number a <= da_block_number b) l.

(** The answers of the client to the requests for the numbers of the derived blocks, in order, from
    its state [w] to its state [w']. *)
Inductive fetched : list DerivedAttributes → W → list (option DogeosBlock) → W → Prop :=
| fetched_none w : fetched [] w [] w
| fetched_next a l answer answers w w1 w2 :
    get_block_by_number (da_block_number a) w = (Ok answer, w1) → fetched l w1 answers w2 →
    fetched (a :: l) w ((rpc_block <$> answer) :: answers) w2.

Definition derived_by (a : DerivedAttributes) (b : DogeosBlock) : Prop :=
  matches (da_attributes a) (da_base_fee a) b.

(** A kept block: the one the client answered with for the number of the derived block, which
    matches its attributes. *)
Definition kept_block (derived : DerivedAttributes * option DogeosBlock)
    (info : L2BlockInfoWithL1Messages) : Prop :=
  ∃ b, derived.2 = Some b ∧ derived_by derived.1 b ∧ info = L2BlockInfo_from_block b.

(** A block to rebuild: the client has none of its number, or one that does not match. *)
Definition diverges (derived : DerivedAttributes * option DogeosBlock) : Prop :=
  ∀ b, derived.2 = Some b → ¬ derived_by derived.1 b.

(** The actions of a batch, position by position. *)
Definition action_for (fin : Z) (derived : DerivedAttributes * option DogeosBlock) (i : nat)
    (x : BlockConsolidationAction) : Prop :=
  match x with
  | Skip info => da_block_number derived.1 <= fin ∧ kept_block derived info
  | UpdateFcs info => fin < da_block_number derived.1 ∧ kept_block derived info
  | Reorg j => j = i ∧ diverges derived
  end.

Fixpoint actions_for (fin : Z) (i : nat) (l : list (DerivedAttributes * option DogeosBlock))
    (xs : list BlockConsolidationAction) : Prop :=
  match l, xs with
  | [], [] => True
  | a :: l, x :: xs => action_for fin a i x ∧ actions_for fin (S i) l xs
  | _, _ => False
  end.

Lemma block_action_for fin i a answer : action_for fin (a, answer) i (block_action fin i a answer).
Proof.
  unfold block_action. destruct answer as [b|]; [|by split].
  destruct (block_matches_attributes _ _ b) eqn:Em.
  - apply block_matches_attributes_spec in Em.
    destruct (da_block_number a <=? fin) eqn:E; bool_to_prop; (split; [done|by exists b]).
  - split; [done|]. intros ? [= <-] Hm. apply block_matches_attributes_spec in Hm. simpl in Hm. congruence.
Qed.

Lemma block_actions_for fin i l w xs w' :
  block_actions fin i l w = (Ok xs, w') →
  ∃ answers, fetched l w answers w' ∧ length answers = length l ∧ actions_for fin i (zip l answers) xs.
Proof.
  revert i w xs. induction l as [|a l IH]; intros i w xs Hrun; simpl in Hrun.
  { unfold ret in Hrun. simplify_eq. exists []. split; [constructor|done]. }
  apply bind_Ok in Hrun as (answer & w1 & Hget & Hrun).
  apply bind_Ok in Hrun as (ys & w2 & Hr & Hrun). unfold ret in Hrun. simplify_eq.
  apply IH in Hr as (answers & Hf & Hl & Ha). unfold map_err in Hget.
  destruct (get_block_by_number _ w) as [[r| |] w3] eqn:Eg; simplify_eq/=.
  exists ((rpc_block <$> answer) :: answers). split; [eapply fetched_next; [exact Eg|exact Hf]|].
  split; [cbn; by rewrite Hl|]. split; [apply block_action_for|done].
Qed.

(** The client answered with a matching block for each of the first [length kept] derived blocks,
    and the one after them, if there is one, is the first it has no matching block for. *)
Definition keeps_prefix (l : list (DerivedAttributes * option DogeosBlock))
    (kept : list L2BlockInfoWithL1Messages) : Prop :=
  Forall2 kept_block (take (length kept) l) kept ∧
  ∀ derived, l !! length kept = Some derived → diverges derived.

(** Skips, then updates, then rebuilds of everything that is left. *)
Definition shape (fin : Z) (l : list (DerivedAttributes * option DogeosBlock)) (i : nat)
    (skips ups : list L2BlockInfoWithL1Messages) (xs : list BlockConsolidationAction) : Prop :=
  let n := length (skips ++ ups) in
  xs = map Skip skips ++ map UpdateFcs ups ++ map Reorg (seq (i + n) (length l - n)) ∧
  (n ≤ length l)%nat ∧ keeps_prefix l (skips ++ ups) ∧
  Forall (λ d, da_block_number d.1 <= fin) (take (length skips) l) ∧
  Forall (λ d, fin < da_block_number d.1) (take (length ups) (drop (length skips) l)).

Lemma reorg_from_seq i xs : reorg_from i xs = map Reorg (seq i (length xs)).
Proof. revert i. induction xs; intros i; simpl; [done|]. by f_equal. Qed.

Lemma actions_for_length fin i l xs : actions_for fin i l xs → length xs = length l.
Proof.
  revert i xs. induction l; intros i [|x xs]; simpl; try done. intros [_ ?]. f_equal. eauto.
Qed.

Lemma keeps_prefix_cons d l info kept :
  kept_block d info → keeps_prefix l kept → keeps_prefix (d :: l) (info :: kept).
Proof. intros Hd [Hk Hdiv]. split; [by constructor|exact Hdiv]. Qed.

Lemma keeps_prefix_stop d l : diverges d → keeps_prefix (d :: l) [].
Proof. intros Hd. split; [constructor|]. by intros ? [= <-]. Qed.

Lemma keeps_prefix_nil : keeps_prefix [] [].
Proof. by split; [constructor|]. Qed.

Hint Resolve keeps_prefix_cons keeps_prefix_stop keeps_prefix_nil : node.

(** The blocks from a diverging one on. *)
Lemma shape_rebuild fin d l i xs j :
  diverges d → actions_for fin i (d :: l) (Reorg j :: xs) →
  shape fin (d :: l) i [] [] (extend_reorg i (Reorg j :: xs)).
Proof.
  intros Hd [_ Ha]. split_and!; simpl; auto with node; [|lia].
  by rewrite reorg_from_seq, Nat.add_0_r, (actions_for_length _ _ _ _ Ha).
Qed.

(** The derived blocks come in ascending order of their numbers. *)
Definition by_number (l : list (DerivedAttributes * option DogeosBlock)) : Prop :=
  StronglySorted (λ a b, da_block_number a.1 <= da_block_number b.1) l.

Lemma extend_reorg_updates fin i l xs :
  Forall (λ d, fin < da_block_number d.1) l → actions_for fin i l xs →
  ∃ ups, shape fin l i [] ups (extend_reorg i xs).
Proof.
  revert i xs. induction l as [|d l IH]; intros i [|x xs] Hf Ha; try done.
  { exists []. split_and!; simpl; auto with node. }
  pose proof Ha as [Hx Ha']. inversion Hf as [|? ? Hfa Hf']; subst.
  destruct x as [info|info|j]; simpl in Hx; [|lia|].
  - destruct (IH (S i) xs Hf' Ha') as (ups & Hxs & Hn & Hk & _ & Hu). exists (info :: ups).
    cbn [extend_reorg is_reorg]. rewrite Hxs. cbn [app length] in *. rewrite drop_0 in *.
    split_and!; [|simpl; lia|by apply keeps_prefix_cons; [apply Hx|]|constructor|by constructor].
    simpl. by rewrite Nat.add_succ_r.
  - exists []. apply shape_rebuild; [apply Hx|done].
Qed.

Lemma extend_reorg_shape fin i l xs :
  by_number l → actions_for fin i l xs → ∃ skips ups, shape fin l i skips ups (extend_reorg i xs).
Proof.
  revert i xs. induction l as [|d l IH]; intros i [|x xs] Hs Ha; try done.
  { exists [], []. split_and!; simpl; auto with node. }
  pose proof Ha as [Hx Ha']. inversion Hs as [|? ? Hs' Hall]; subst.
  destruct x as [info|info|j].
  - exists []. apply extend_reorg_updates; [|done]. destruct Hx as [Hx _].
    constructor; [done|]. eapply Forall_impl; [done|]. simpl. lia.
  - destruct (IH (S i) xs Hs' Ha') as (skips & ups & He & Hn & Hk & Hsk & Hu).
    exists (info :: skips), ups. cbn [extend_reorg is_reorg]. rewrite He. destruct Hx as [Hle Hx].
    cbn [app length take drop] in *.
    split_and!; [|simpl; lia|by apply keeps_prefix_cons|by constructor|done].
    simpl. by rewrite Nat.add_succ_r.
  - exists [], []. apply shape_rebuild; [apply Hx|done].
Qed.

(** ** Aggregation *)

Definition last_update (ups : list L2BlockInfoWithL1Messages) : list BlockConsolidationAction :=
  match last ups with Some u => [UpdateFcs u] | None => [] end.

Lemma aggregate_skips skips : foldl aggregate_step [] (map Skip skips) = [].
Proof. induction skips as [|s skips IH]; [done|exact IH]. Qed.

Lemma aggregate_updates u ups :
  foldl aggregate_step [UpdateFcs u] (map UpdateFcs ups) = [UpdateFcs (default u (last ups))].
Proof.
  revert u. induction ups as [|u' ups IH]; intros u; [done|]. simpl.
  unfold aggregate_step at 2. simpl. rewrite IH, last_cons. by destruct (last ups).
Qed.

Lemma aggregate_reorgs acc js :
  Forall (λ x, is_skip x = false) acc →
  foldl aggregate_step acc (map Reorg js) = acc ++ map Reorg js.
Proof.
  revert acc. induction js as [|i js IH]; intros acc Ha; simpl; [by rewrite app_nil_r|].
  assert (aggregate_step acc (Reorg i) = acc ++ [Reorg i]) as ->.
  { unfold aggregate_step. destruct (last acc) as [[]|]; simpl; done. }
  rewrite IH by (apply Forall_app; by split; [|constructor]). by rewrite <- app_assoc.
Qed.

Lemma aggregate_shape skips ups js :
  foldl aggregate_step [] (map Skip skips ++ map UpdateFcs ups ++ map Reorg js) =
    last_update ups ++ map Reorg js.
Proof.
  rewrite !foldl_app, aggregate_skips. destruct ups as [|u ups]; simpl.
  { by apply aggregate_reorgs. }
  assert (aggregate_step [] (UpdateFcs u) = [UpdateFcs u]) as -> by done.
  rewrite aggregate_updates, aggregate_reorgs by by repeat constructor.
  unfold last_update. rewrite last_cons. by destruct (last ups).
Qed.

Lemma ascending_zip l (answers : list (option DogeosBlock)) : ascending l → by_number (zip l answers).
Proof.
  intros Hs. revert answers. induction Hs as [|a l Hs IH Hall]; intros [|c answers]; try constructor.
  - apply IH.
  - clear -Hall. revert answers. induction Hall; intros [|c' answers]; constructor; simpl; auto.
Qed.

Lemma reconcile_shape batch f w r w' :
  ascending (rs_attributes batch) → reconcile_batch batch f w = (Ok r, w') →
  rc_batch_info r = rs_batch_info batch ∧ rc_target_status r = rs_target_status batch ∧
  ∃ answers skips ups,
    fetched (rs_attributes batch) w answers w' ∧ length answers = length (rs_attributes batch) ∧
    shape (number (fcs_finalized f)) (zip (rs_attributes batch) answers) 0 skips ups (rc_actions r) ∧
    aggregate_actions r =
      last_update ups ++
      map Reorg (seq (length (skips ++ ups)) (length (rs_attributes batch) - length (skips ++ ups))).
Proof.
  intros Hs Hrun. unfold reconcile_batch in Hrun.
  apply bind_Ok in Hrun as (xs & w1 & Hx & Hrun). unfold ret in Hrun. simplify_eq.
  apply block_actions_for in Hx as (answers & Hf & Hl & Hx). split_and!; try done. simpl.
  destruct (extend_reorg_shape _ _ _ _ (ascending_zip _ answers Hs) Hx) as (skips & ups & Hsh).
  exists answers, skips, ups. split_and!; try done. destruct Hsh as (He & _).
  rewrite length_zip_with, Hl, Nat.min_id in He.
  unfold aggregate_actions. simpl. by rewrite He, aggregate_shape.
Qed.

(** C21: reconciling a batch whose blocks come in ascending order asks the client for the block of
    every number of the batch, and keeps the longest prefix of blocks that the client answered with
    a matching block: it skips the ones at or below the finalized block and updates the fork choice
    to the others, records them as the client has them, and rebuilds everything from the first block
    that the client does not have or has differently on, in order.  The aggregated actions are at
    most one fork choice update, to the last kept block above the finalized one, followed by the
    rebuilds. *)
Theorem reconcile_keeps_matching_prefix batch f w r w' :
  ascending (rs_attributes batch) → reconcile_batch batch f w = (Ok r, w') →
  rc_batch_info r = rs_batch_info batch ∧ rc_target_status r = rs_target_status batch ∧
  ∃ answers skips ups,
    fetched (rs_attributes batch) w answers w' ∧ length answers = length (rs_attributes batch) ∧
    shape (number (fcs_finalized f)) (zip (rs_attributes batch) answers) 0 skips ups (rc_actions r) ∧
    aggregate_actions r =
      last_update ups ++
      map Reorg (seq (length (skips ++ ups)) (length (rs_attributes batch) - length (skips ++ ups))).
Proof. apply reconcile_shape. Qed.

(** ** The recorded outcome *)

Lemma push_kept_spec {E} xs c :
  push_kept (E := E) xs c =
    Ok (foldl push_block c (omap into_block_info xs)).
Proof.
  revert c. induction xs as [|x xs IH]; intros c; [done|]. by destruct x; simpl; rewrite ?IH.
Qed.

Lemma foldl_push_block c bs :
  foldl push_block c bs =
    mkBatchOutcome (batch_info c) (blocks c ++ bs) (skipped_l1_messages c) (target_status c)
      (l2_head_updated c).
Proof.
  revert c. induction bs as [|b bs IH]; intros c; simpl; [by rewrite app_nil_r; destruct c|].
  rewrite IH. simpl. by rewrite <- app_assoc.
Qed.

Lemma omap_shape skips ups js :
  omap into_block_info (map Skip skips ++ map UpdateFcs ups ++ map Reorg js) = skips ++ ups.
Proof.
  induction skips as [|s skips IH]; simpl; [|by f_equal].
  induction ups as [|u ups IH]; simpl; [|by f_equal]. by induction js.
Qed.

Lemma into_outcome_spec {E} r rebuilt moved :
  into_batch_consolidation_outcome (E := E) r rebuilt moved =
    Ok (mkBatchOutcome (rc_batch_info r) (omap into_block_info (rc_actions r) ++ rebuilt) []
          (rc_target_status r) moved).
Proof.
  unfold into_batch_consolidation_outcome. rewrite push_kept_spec. simpl.
  by rewrite !foldl_push_block.
Qed.
End Shape.
