(* ===== verification/Driver.v ===== *)
(** * The derivation driver (chain-orchestrator/src/derivation.rs)

    The single held batch, its attempts against the execution client, and its revalidation after
    an L1 unwind.  Time is a number of milliseconds; the environment of an attempt is the engine
    driver with its client and the database. *)

From S2P Require Import Prelude Sql Primitives BigEndian Codec Engine DbModel DbOps DbService.
From S2P Require Import World Pipeline Consolidation.

Definition INITIAL_HOLD_BACKOFF_MS : Z := 2000.
Definition MAX_HOLD_BACKOFF_MS : Z := 30000.

Definition BUILD_FCU_METHOD : string := "forkchoiceUpdated(build)".
Definition GET_PAYLOAD_METHOD : string := "getPayload".
Definition NEW_PAYLOAD_METHOD : string := "newPayload".
Definition FCU_METHOD : string := "forkchoiceUpdated".

Record ConsolidatedBatch := mkConsolidated {
  batch_outcome : BatchConsolidationOutcome;
  block_outcomes : list BlockConsolidationOutcome
}.

Record FatalAttempt := mkFatal {
  fatal_method : string;
  fatal_outcome : string;
  fatal_error : ChainOrchestratorError
}.

Inductive AttemptStep :=
| Completed (c : ConsolidatedBatch)
| Held
| Fatal (f : FatalAttempt).

Inductive HoldStatus := HoldSyncing | HoldAccepted.
Definition hold_status_str (s : HoldStatus) : string :=
  match s with HoldSyncing => "SYNCING" | HoldAccepted => "ACCEPTED" end.

Record HoldReason := mkHoldReason { hold_method : string; hold_status : HoldStatus }.

Inductive AttemptFailure :=
| Hold (r : HoldReason)
| FatalFailure (f : FatalAttempt).

Definition fatal (method outcome : string) (e : ChainOrchestratorError) : AttemptFailure :=
  FatalFailure (mkFatal method outcome e).

(** ** Classification of the client's answers *)

Definition engine_request_failure (bi : BatchInfo) (method : string) (source : EngineError) :
    AttemptFailure :=
  fatal method "ERROR" (DerivedBatchEngineRequest bi method source).

Definition unexpected_status (bi : BatchInfo) (method status : string) : AttemptFailure :=
  fatal method status (UnexpectedDerivedPayloadStatus bi method status).

Definition invalid_status (bi : BatchInfo) (method : string) (block_number : option Z)
    (latest_valid_hash : option B256) (validation_error : string) : AttemptFailure :=
  fatal method "INVALID"
    (InvalidDerivedPayload bi method block_number latest_valid_hash validation_error).

Definition classify_build_fcu (response : ForkchoiceUpdated) (bi : BatchInfo) :
    outcome AttemptFailure PayloadId :=
  match status (payload_status response) with
  | Valid => ok_or (fatal BUILD_FCU_METHOD "VALID_MISSING_PAYLOAD_ID" (MissingDerivedPayloadId bi))
               (payload_id response)
  | Syncing => Err (Hold (mkHoldReason BUILD_FCU_METHOD HoldSyncing))
  | Accepted => Err (unexpected_status bi BUILD_FCU_METHOD "ACCEPTED")
  | Invalid e =>
      Err (invalid_status bi BUILD_FCU_METHOD None (latest_valid_hash (payload_status response)) e)
  end.

Definition classify_new_payload (response : PayloadStatus) (bi : BatchInfo) (block_number : Z) :
    outcome AttemptFailure unit :=
  match status response with
  | Valid => Ok tt
  | Syncing => Err (Hold (mkHoldReason NEW_PAYLOAD_METHOD HoldSyncing))
  | Accepted => Err (Hold (mkHoldReason NEW_PAYLOAD_METHOD HoldAccepted))
  | Invalid e =>
      Err (invalid_status bi NEW_PAYLOAD_METHOD (Some block_number) (latest_valid_hash response) e)
  end.

Definition classify_checked_fcu (response : ForkchoiceUpdated) (bi : BatchInfo)
    (block_number : option Z) : outcome AttemptFailure unit :=
  match status (payload_status response) with
  | Valid => Ok tt
  | Syncing => Err (Hold (mkHoldReason FCU_METHOD HoldSyncing))
  | Accepted => Err (unexpected_status bi FCU_METHOD "ACCEPTED")
  | Invalid e =>
      Err (invalid_status bi FCU_METHOD block_number
             (latest_valid_hash (payload_status response)) e)
  end.

(** ** One attempt *)

Section Attempt.
Context `{SqlEngine} `{Chain} `{!EngineApi W} `{!L2Provider W}.

Notation A := (M (Env W) AttemptFailure).

Definition engine_safe_block {F} : M (Env W) F BlockInfo := gets (λ s, fcs_safe (fcs (engine s))).

(** The engine's chain must contain the database's safe block. *)
Definition on_database_chain (engine_safe db_safe : BlockInfo) (reth_canonical : option BlockInfo) :
    bool :=
  match reth_canonical with
  | Some canonical =>
      bool_decide (canonical = db_safe) &&
      (negb (number engine_safe =? number db_safe) || bool_decide (engine_safe = db_safe))
  | None => number engine_safe <? number db_safe
  end.

Definition check_safe_frontier (bi : BatchInfo) : A unit :=
  let* engine_safe := engine_safe_block in
  let* (db_safe, _) :=
    on_database (λ e, fatal "getLatestSafeL2Info" "ERROR" (CoDatabaseError e))
      get_latest_safe_l2_info in
  if 0 <? number db_safe then
    let* block :=
      on_client (λ e, fatal "getL2BlockByNumber" "ERROR" (RpcError e))
        (get_block_by_number (number db_safe)) in
    let reth_canonical := rpc_block_info <$> block in
    if negb (on_database_chain engine_safe db_safe reth_canonical)
    then fail (fatal "reconcileBatch" "SAFE_FRONTIER_MISMATCH"
                 (SafeFrontierMismatch bi engine_safe db_safe reth_canonical))
    else ret tt
  else ret tt.

(** The first difference between a built payload and the derived block. *)
Definition payload_mismatch (payload : ExecutionPayloadV1) (safe : BlockInfo)
    (attributes : DerivedAttributes) : option string :=
  if negb (p_parent_hash payload =? hash safe) then Some "parent hash"%string
  else if negb (p_block_number payload =? da_block_number attributes) then Some "block number"%string
  else if negb (p_base_fee_per_gas payload =? da_base_fee attributes) then Some "base fee"%string
  else if negb (bool_decide (attr_transactions (da_attributes attributes) =
                             Some (p_transactions payload)))
  then Some "transaction list differs from derived batch transactions"%string
  else None.

Definition action_update_fcs (bi : BatchInfo) (target_status : BatchStatus)
    (info : L2BlockInfoWithL1Messages) : A (bool * BlockConsolidationOutcome) :=
  let target := block_info info in
  let* current_head := gets (λ s, fcs_head (fcs (engine s))) in
  let head := if (number current_head <=? number target) && negb (bool_decide (current_head = target))
              then Some target else None in
  let finalized := if is_finalized target_status then Some target else None in
  let* response :=
    on_engine (engine_request_failure bi FCU_METHOD)
      (update_fcs_checked head (Some target) finalized) in
  lift (classify_checked_fcu response bi (Some (number target))) ;;;
  ret (match head with Some _ => true | None => false end, OutcomeUpdateFcs info).

Definition action_reorg (bi : BatchInfo) (target_status : BatchStatus)
    (attributes : DerivedAttributes) : A L2BlockInfoWithL1Messages :=
  let* safe := engine_safe_block in
  if negb (number safe =? saturating_sub (da_block_number attributes) 1)
  then fail (fatal "reconcileBatch" "INVARIANT_ERROR"
               (InvalidBatchReorg bi (number safe) (da_block_number attributes)))
  else
    let* build_response :=
      on_engine (engine_request_failure bi BUILD_FCU_METHOD)
        (build_payload (Some safe) (da_attributes attributes)) in
    let* pid := lift (classify_build_fcu build_response bi) in
    let* payload := on_engine (engine_request_failure bi GET_PAYLOAD_METHOD) (get_payload pid) in
    match payload_mismatch payload safe attributes with
    | Some reason =>
        fail (fatal GET_PAYLOAD_METHOD "PAYLOAD_MISMATCH"
                (DerivedPayloadMismatch bi (da_block_number attributes) reason))
    | None =>
        let* info :=
          lift (omap_err (λ _, fatal GET_PAYLOAD_METHOD "CONVERSION_ERROR" RollupNodePrimitiveError)
                  (L2BlockInfo_try_from_payload payload)) in
        let* st := on_engine (engine_request_failure bi NEW_PAYLOAD_METHOD) (new_payload payload) in
        lift (classify_new_payload st bi (number (block_info info))) ;;;
        let finalized := if is_finalized target_status then Some (block_info info) else None in
        let* final_fcu :=
          on_engine (engine_request_failure bi FCU_METHOD)
            (update_fcs_checked (Some (block_info info)) (Some (block_info info)) finalized) in
        lift (classify_checked_fcu final_fcu bi (Some (number (block_info info)))) ;;;
        ret info
    end.

(** The loop over the aggregated actions: the rebuilt blocks, whether the head moved and the
    outcome of each action. *)
Fixpoint run_actions (batch : BatchDerivationResult) (target_status : BatchStatus)
    (actions : list BlockConsolidationAction) :
    A (list L2BlockInfoWithL1Messages * bool * list BlockConsolidationOutcome) :=
  match actions with
  | [] => ret ([], false, [])
  | action :: actions =>
      let* (rebuilt, moved, o) :=
        match action with
        | Skip _ => panic
        | UpdateFcs info =>
            let* (moved, o) := action_update_fcs (rs_batch_info batch) target_status info in
            ret ([], moved, o)
        | Reorg i =>
            let* attributes := lift (expect (rs_attributes batch !! i)) in
            let* info := action_reorg (rs_batch_info batch) target_status attributes in
            ret ([info], true, OutcomeReorged info)
        end in
      let* (rebuilt', moved', os) := run_actions batch target_status actions in
      ret (rebuilt ++ rebuilt', moved || moved', o :: os)
  end.

Definition reconcile_and_consolidate (batch : BatchDerivationResult) : A ConsolidatedBatch :=
  check_safe_frontier (rs_batch_info batch) ;;;
  let* f := gets (λ s, fcs (engine s)) in
  let* reconciliation :=
    on_client (λ e, fatal "reconcileBatch" "ERROR" e) (reconcile_batch batch f) in
  let target_status := rc_target_status reconciliation in
  let* (reorg_results, head_updated, os) :=
    run_actions batch target_status (aggregate_actions reconciliation) in
  let* outcome := lift (into_batch_consolidation_outcome reconciliation reorg_results head_updated) in
  let persisted := with_skipped_l1_messages outcome (rs_skipped_l1_messages batch) in
  on_database (λ e, fatal "insertBatchConsolidationOutcome" "ERROR" (CoDatabaseError e))
    (insert_batch_consolidation_outcome persisted) ;;;
  ret (mkConsolidated outcome os).
End Attempt.

(** ** The driver *)

Record PendingBatch := mkPending {
  pb_batch : BatchDerivationResult;
  held_since : Z;
  attempts_started : Z;
  last_hold : option HoldReason;
  current_backoff_ms : option Z
}.

Record DerivationDriver := mkDriver { pending : option PendingBatch; attempt_sleep : option Z }.

Definition DerivationDriver_default : DerivationDriver := mkDriver None None.

Definition can_accept_batch (d : DerivationDriver) : bool :=
  match pending d with None => true | Some _ => false end.
Definition is_attempt_scheduled (d : DerivationDriver) : bool :=
  match attempt_sleep d with Some _ => true | None => false end.

(** [hold_backoff], in milliseconds. *)
Definition hold_backoff (attempt : Z) : Z :=
  let exponent := Z.min (saturating_sub attempt 1) 63 in
  Z.min (saturating_mul INITIAL_HOLD_BACKOFF_MS (2 ^ exponent)) MAX_HOLD_BACKOFF_MS.

Definition schedule_immediate (now : Z) (d : DerivationDriver) : DerivationDriver :=
  mkDriver
    ((λ p, mkPending (pb_batch p) (held_since p) (attempts_started p) (last_hold p) None)
       <$> pending d)
    (Some now).

Definition hold_batch {E} (now : Z) (batch : BatchDerivationResult) : M DerivationDriver E unit :=
  let* d := get in
  if negb (can_accept_batch d) then panic
  else modify (λ d, schedule_immediate now
                      (mkDriver (Some (mkPending batch now 0 None None)) (attempt_sleep d))).

Definition invalidate (d : DerivationDriver) : DerivationDriver := mkDriver None None.
Definition cancel_attempt (d : DerivationDriver) : DerivationDriver := mkDriver (pending d) None.
Definition schedule_fresh_reconciliation (now : Z) (d : DerivationDriver) : DerivationDriver :=
  match pending d with Some _ => schedule_immediate now d | None => d end.

Definition fatal_context (now : Z) (d : DerivationDriver) : option (BatchInfo * Z * Z) :=
  (λ p, (rs_batch_info (pb_batch p), attempts_started p, Z.min u64_max (now - held_since p)))
    <$> pending d.

Record HeldBatchStatus := mkHeldStatus {
  hs_batch_index : Z;
  hs_batch_hash : B256;
  hs_attempts_started : Z;
  hs_held_duration_ms : Z;
  hs_last_engine_method : option string;
  hs_last_engine_status : option string;
  hs_current_backoff_ms : option Z;
  hs_queued_behind : Z
}.

Inductive DerivationStatus :=
| DerivationIdle
| Deriving (queued : Z)
| HeldBatch (s : HeldBatchStatus).

Definition derivation_is_idle (s : DerivationStatus) : bool :=
  match s with DerivationIdle => true | _ => false end.

Definition driver_status (now queued : Z) (d : DerivationDriver) : DerivationStatus :=
  match pending d with
  | Some p =>
      HeldBatch {|
        hs_batch_index := b_index (rs_batch_info (pb_batch p));
        hs_batch_hash := b_hash (rs_batch_info (pb_batch p));
        hs_attempts_started := attempts_started p;
        hs_held_duration_ms := Z.min u64_max (now - held_since p);
        hs_last_engine_method := hold_method <$> last_hold p;
        hs_last_engine_status := (λ r, hold_status_str (hold_status r)) <$> last_hold p;
        hs_current_backoff_ms := current_backoff_ms p;
        hs_queued_behind := queued |}
  | None => if 0 <? queued then Deriving queued else DerivationIdle
  end.

(** [run_attempt]: [now] is the time at which the attempt ends. *)
Section RunAttempt.
Context `{SqlEngine} `{Chain} `{!EngineApi W} `{!L2Provider W}.

Definition start_attempt (p : PendingBatch) : PendingBatch :=
  mkPending (pb_batch p) (held_since p) (saturating_add (attempts_started p) 1) (last_hold p) None.

Definition run_attempt {E} (now : Z) : M (DerivationDriver * Env W) E AttemptStep :=
  λ '(d, env),
    match pending d with
    | None => (Panic, (mkDriver None None, env))
    | Some p =>
        let p := start_attempt p in
        match reconcile_and_consolidate (pb_batch p) env with
        | (Ok consolidated, env) => (Ok (Completed consolidated), (mkDriver None None, env))
        | (Err (Hold reason), env) =>
            let backoff := hold_backoff (attempts_started p) in
            let p := mkPending (pb_batch p) (held_since p) (attempts_started p) (Some reason)
                       (Some backoff) in
            (Ok Held, (mkDriver (Some p) (Some (now + backoff)), env))
        | (Err (FatalFailure f), env) => (Ok (Fatal f), (mkDriver (Some p) None, env))
        | (Panic, env) => (Panic, (mkDriver (Some p) None, env))
        end
    end.
End RunAttempt.

(** ** Revalidation after an L1 unwind *)

Inductive HeldReorgOutcome :=
| NoHeldBatch
| Invalidated (bi : BatchInfo) (reason : string)
| Survived (bi : BatchInfo).

Definition is_invalidated (o : HeldReorgOutcome) : bool :=
  match o with Invalidated _ _ => true | _ => false end.

Section Revalidate.
Context `{SqlEngine} `{Chain}.

Definition held_identity (d : DerivationDriver) : option (BatchInfo * BatchStatus) :=
  (λ p, (rs_batch_info (pb_batch p), rs_target_status (pb_batch p))) <$> pending d.

Definition finalization_invalid (target_status : BatchStatus) (held : BatchInfo) (ancestor : Z)
    (stored : option BatchCommitData) : bool :=
  is_finalized target_status &&
  match stored with
  | Some batch =>
      (bc_hash batch =? b_hash held) && (bc_block_number batch <=? ancestor) &&
      match bc_finalized_block_number batch with Some n => ancestor <? n | None => true end
  | None => false
  end.

Definition invalid_reason (target_status : BatchStatus) (held : BatchInfo) (ancestor : Z)
    (stored : option BatchCommitData) : option string :=
  match stored with
  | None => Some "batch row removed or reverted"%string
  | Some batch =>
      if negb (bc_hash batch =? b_hash held) then Some "batch hash changed"%string
      else if ancestor <? bc_block_number batch then Some "batch commit reverted"%string
      else if finalization_invalid target_status held ancestor stored
      then Some "batch finalization reverted"%string
      else None
  end.

(** The transaction: the unwind, then the fate of the held batch. *)
Definition unwind_and_check (held : option (BatchInfo * BatchStatus)) (ancestor : Z) :
    M Db DatabaseError (UnwindResult * HeldReorgOutcome) :=
  let* unwind_result := unwind ancestor in
  match held with
  | None => ret (unwind_result, NoHeldBatch)
  | Some (held, target_status) =>
      let* stored := get_batch_by_index (b_index held) in
      match invalid_reason target_status held ancestor stored with
      | Some reason =>
          (if finalization_invalid target_status held ancestor stored
           then let* _ := transition_batch_status (b_hash held) Processing Committed in ret tt
           else ret tt) ;;;
          ret (unwind_result, Invalidated held reason)
      | None => ret (unwind_result, Survived held)
      end
  end.

Definition unwind_and_revalidate (ancestor : Z) :
    M (DerivationDriver * Db) ChainOrchestratorError (UnwindResult * HeldReorgOutcome) :=
  λ '(d, db),
    match tx_mut (unwind_and_check (held_identity d) ancestor) db with
    | (Ok (unwind_result, outcome), db) =>
        (Ok (unwind_result, outcome), (if is_invalidated outcome then invalidate d else d, db))
    | (Err e, db) => (Err (CoDatabaseError e), (d, db))
    | (Panic, db) => (Panic, (d, db))
    end.
End Revalidate.
