(* ===== verification/ConcreteWorld.v ===== *)
(** * A concrete outside world

    A scripted execution client together with the blocks its RPC serves, and small batches on top
    of them: the inputs of the witnesses of the orchestrator's components. *)

From S2P Require Import Prelude Sql Primitives BigEndian Codec Engine DbModel DbOps World.
From S2P Require Import Pipeline Consolidation Driver Concrete.

Record World := mkWorld { script : Script; served : list (@RpcBlock toy_chain) }.

Definition lift_script {A} (r : Script → outcome string A * Script) (w : World) :
    outcome string A * World :=
  let '(o, s) := r (script w) in (o, mkWorld s (served w)).

Definition world_api : EngineApi World := {|
  fork_choice_updated_v1 := λ f a, lift_script (@fork_choice_updated_v1 _ script_api f a);
  new_payload_v1 := λ p, lift_script (@new_payload_v1 _ script_api p);
  get_payload_v1 := λ i, lift_script (@get_payload_v1 _ script_api i)
|}.

Definition world_client : @L2Provider toy_chain World := {|
  get_block_by_number := λ n w,
    (Ok (List.find (λ b, block_number (rpc_block b) =? n) (served w)), w);
  get_block_by_hash := λ h w, (Ok (List.find (λ b, rpc_hash b =? h) (served w)), w);
  send_raw_transaction := λ _ w, (Ok tt, w)
|}.

(** Block [n] of the canonical chain: hash [100 + n], empty. *)
Definition toy_canonical (n : Z) : @RpcBlock toy_chain :=
  @mkRpcBlock toy_chain (100 + n) (toy_block n (100 + n) (99 + n) (1000 + n) []).

(** Attributes that match [toy_canonical n] when [base_fee] is 7. *)
Definition toy_attributes (n base_fee : Z) : DerivedAttributes :=
  mkDerivedAttributes n base_fee
    (mkAttributes (1000 + n) 0 0 (Some []) true default_hint (Some 30000000)).

Definition toy_batch (attrs : list DerivedAttributes) (st : BatchStatus) : BatchDerivationResult :=
  mkResult attrs (mkBatchInfo 1 11) [] st.

(** The commit of the toy batch, in the state the orchestrator leaves it while it is derived. *)
Definition toy_commit_row : BatchRow :=
  mkBatchRow 1 11 20 0 [] None None None "processing".
Definition toy_db : Db := set_batch_commit (toy_commit_row :: [genesis_batch_row]) (migrated 100).

Definition toy_genesis_fcs : ForkchoiceState := from_genesis 100.

(** The client's script: fork choice answers, payload verdicts and built payloads. *)
Definition toy_env (fcus : list ForkchoiceUpdated) (verdicts : list PayloadStatus)
    (built : list ExecutionPayloadV1) (blocks : list (@RpcBlock toy_chain)) : Env World :=
  mkEnv (mkEngine toy_genesis_fcs (mkWorld (mkScript fcus verdicts built) blocks)) toy_db.

Definition toy_driver (attrs : list DerivedAttributes) (st : BatchStatus) : DerivationDriver :=
  mkDriver (Some (mkPending (toy_batch attrs st) 0 0 None None)) (Some 0).
