(* ===== verification/DriverProps.v ===== *)
(** * Properties of the derivation driver

    The hold policy, what an attempt leaves behind in each of its outcomes, the blocks a completed
    attempt settles, and the revalidation of the held batch after an unwind. *)

From S2P Require Import Prelude Sql Primitives BigEndian Codec Engine DbModel DbOps DbInvariant.
From S2P Require Import DbService World Pipeline Consolidation ConsolidationProps Driver Concrete.
From S2P Require Import ConcreteWorld.

(** ** Backoff *)

(** the delay before retry [n] of a held batch is 2 seconds doubled [n - 1] times, capped at 30
    seconds, for every attempt count: nothing overflows. *)
Theorem hold_backoff_spec n :
  1 <= n → hold_backoff n = Z.min (2000 * 2 ^ (n - 1)) 30000 ∧ 2000 <= hold_backoff n <= 30000.
Proof.
  intros Hn. unfold hold_backoff, INITIAL_HOLD_BACKOFF_MS, MAX_HOLD_BACKOFF_MS, saturating_mul,
    saturating_sub. rewrite (Z.max_r 0) by lia.
  assert (∀ k, 4 <= k → 16 <= 2 ^ k) as Hbig.
  { intros k Hk. change 16 with (2 ^ 4). by apply Z.pow_le_mono_r. }
  assert (0 <= n - 1) as H0 by lia. generalize dependent (n - 1). intros k Hk.
  assert (1 <= 2 ^ k) by (apply (Z.pow_le_mono_r 2 0); lia).
  destruct (decide (4 <= k)) as [H4|H4].
  - pose proof (Hbig k H4). pose proof (Hbig (Z.min k 63)).
    assert (u64_max >= 30000) by (unfold u64_max; lia). lia.
  - rewrite (Z.min_l k) by lia. assert (2 ^ k <= 2 ^ 3) by (apply Z.pow_le_mono_r; lia).
    assert (u64_max >= 30000) by (unfold u64_max; lia). lia.
Qed.

Lemma hold_backoff_bounds n : 1 <= n → 2000 <= hold_backoff n <= 30000.
Proof.
  intros Hn. unfold hold_backoff, INITIAL_HOLD_BACKOFF_MS, MAX_HOLD_BACKOFF_MS, saturating_mul,
    saturating_sub.
  assert (1 <= 2 ^ Z.min (Z.max 0 (n - 1)) 63) by (apply (Z.pow_le_mono_r 2 0); lia).
  assert (u64_max >= 30000) by (unfold u64_max; lia). lia.
Qed.

Section DriverProps.
Context `{SqlEngine} `{Chain} `{!EngineApi W} `{!L2Provider W}.
Implicit Types env : Env W.

(** ** What the steps of an attempt preserve *)

Ltac solve_inv :=
  repeat first
    [ progress intros
    | solve [eauto 2 with node]
    | match goal with
      | |- preserves _ (bind _ _) => apply preserves_bind
      | |- preserves _ (on_engine _ (update_fcs_checked _ _ _)) =>
          apply on_engine_inv, update_fcs_checked_inv
      | |- preserves _ (on_engine _ (build_payload _ _)) =>
          apply on_engine_inv, engine_same_inv; intros; apply build_payload_fcs
      | |- preserves _ (on_engine _ (get_payload _)) =>
          apply on_engine_inv, engine_same_inv; intros; apply get_payload_fcs
      | |- preserves _ (on_engine _ (new_payload _)) =>
          apply on_engine_inv, engine_same_inv; intros; apply new_payload_fcs
      | |- preserves _ (on_client _ _) => apply on_client_inv
      | |- preserves _ (on_database _ get_latest_safe_l2_info) =>
          apply on_database_reads_inv, get_latest_safe_reads
      | |- preserves _ (if ?b then _ else _) => destruct b
      | |- preserves _ (match ?x with _ => _ end) => destruct x
      end ].

Lemma check_safe_frontier_inv d0 f0 bi : preserves (attempt_inv d0 f0) (check_safe_frontier bi).
Proof. unfold check_safe_frontier, engine_safe_block. solve_inv. Qed.

Lemma action_update_fcs_inv d0 f0 bi ts info :
  preserves (attempt_inv d0 f0) (action_update_fcs bi ts info).
Proof. unfold action_update_fcs. solve_inv. Qed.

Lemma action_reorg_inv d0 f0 bi ts a : preserves (attempt_inv d0 f0) (action_reorg bi ts a).
Proof. unfold action_reorg, engine_safe_block. solve_inv. Qed.

Lemma run_actions_inv d0 f0 batch ts actions :
  preserves (attempt_inv d0 f0) (run_actions batch ts actions).
Proof.
  induction actions as [|[info|info|i] actions IH]; simpl; solve_inv;
    first [apply action_update_fcs_inv|apply action_reorg_inv|apply IH].
Qed.

(** ** What a successful action settles *)

(** The block the engine's safe tag names, and its finalized tag when the batch is finalized. *)
Definition settled (ts : BatchStatus) (b : BlockInfo) env : Prop :=
  fcs_safe (fcs (engine env)) = b ∧
  (is_finalized ts = true → fcs_finalized (fcs (engine env)) = b).

Lemma classify_checked_fcu_valid r bi n u :
  classify_checked_fcu r bi n = Ok u → fcu_is_valid r = true.
Proof. unfold classify_checked_fcu, fcu_is_valid. by destruct (status _). Qed.

Lemma checked_fcu_settles {F} (f : EngineError → F) head target ts env r env' :
  on_engine f (update_fcs_checked head (Some target) (if is_finalized ts then Some target else None))
    env = (Ok r, env') →
  fcu_is_valid r = true → settled ts target env'.
Proof.
  intros [Hu _]%on_engine_Ok Hv. apply update_fcs_checked_ok in Hu. rewrite Hv in Hu.
  apply fcs_update_spec in Hu as (_ & Hc & _). unfold settled. rewrite Hc. simpl.
  split; [done|]. by intros ->.
Qed.

Lemma action_update_fcs_ok bi ts info env moved o env' :
  action_update_fcs bi ts info env = (Ok (moved, o), env') →
  o = OutcomeUpdateFcs info ∧ settled ts (block_info info) env'.
Proof.
  unfold action_update_fcs. intros (head & s1 & H1 & Hrun)%bind_Ok.
  apply bind_Ok in Hrun as (r & s2 & Hr & Hrun). apply bind_Ok in Hrun as ([] & s3 & Hc & Hrun).
  apply lift_Ok in Hc as [Hc ->]. unfold ret in Hrun. simplify_eq. split; [done|].
  eapply checked_fcu_settles; [exact Hr|]. by eapply classify_checked_fcu_valid.
Qed.

(** A block rebuilt from its attributes on top of [parent]: the payload the client built has the
    parent, the number, the base fee and the transactions of the batch. *)
Definition rebuilt_on (parent : BlockInfo) (a : DerivedAttributes) (info : L2BlockInfoWithL1Messages) :
    Prop :=
  number parent = saturating_sub (da_block_number a) 1 ∧
  ∃ payload,
    L2BlockInfo_try_from_payload payload = Ok info ∧
    p_parent_hash payload = hash parent ∧ p_block_number payload = da_block_number a ∧
    p_base_fee_per_gas payload = da_base_fee a ∧
    attr_transactions (da_attributes a) = Some (p_transactions payload).

Lemma payload_mismatch_None payload safe a :
  payload_mismatch payload safe a = None →
  p_parent_hash payload = hash safe ∧ p_block_number payload = da_block_number a ∧
  p_base_fee_per_gas payload = da_base_fee a ∧
  attr_transactions (da_attributes a) = Some (p_transactions payload).
Proof. unfold payload_mismatch. repeat case_out; intros; bool_to_prop; done. Qed.

Lemma action_reorg_ok bi ts a env info env' :
  action_reorg bi ts a env = (Ok info, env') →
  rebuilt_on (fcs_safe (fcs (engine env))) a info ∧ settled ts (block_info info) env'.
Proof.
  unfold action_reorg, engine_safe_block. intros (safe & s1 & Hs & Hrun)%bind_Ok.
  unfold gets in Hs. injection Hs as <- <-. case_out; [done|]. bool_to_prop.
  apply bind_Ok in Hrun as (br & s2 & _ & Hrun). apply bind_Ok in Hrun as (pid & s3 & _ & Hrun).
  apply bind_Ok in Hrun as (payload & s4 & _ & Hrun).
  destruct (payload_mismatch payload _ a) eqn:Hm; [done|]. apply payload_mismatch_None in Hm.
  apply bind_Ok in Hrun as (i & s5 & Hi & Hrun). apply lift_Ok in Hi as [Hi ->].
  apply bind_Ok in Hrun as (st & s6 & _ & Hrun). apply bind_Ok in Hrun as ([] & s7 & _ & Hrun).
  apply bind_Ok in Hrun as (r & s8 & Hr & Hrun). apply bind_Ok in Hrun as ([] & s9 & Hc & Hrun).
  apply lift_Ok in Hc as [Hc ->]. unfold ret in Hrun. simplify_eq. split.
  - split; [done|]. exists payload. split; [|done].
    destruct (L2BlockInfo_try_from_payload payload); by simplify_eq/=.
  - eapply checked_fcu_settles; [exact Hr|]. by eapply classify_checked_fcu_valid.
Qed.

(** Each rebuilt block is built on the one before it. *)
Fixpoint rebuilt_chain (parent : BlockInfo) (l : list DerivedAttributes)
    (infos : list L2BlockInfoWithL1Messages) : Prop :=
  match l, infos with
  | [], [] => True
  | a :: l, info :: infos => rebuilt_on parent a info ∧ rebuilt_chain (block_info info) l infos
  | _, _ => False
  end.

Lemma run_reorgs_ok batch ts i n env rebuilt moved os env' :
  (i + n = length (rs_attributes batch))%nat →
  run_actions batch ts (map Reorg (seq i n)) env = (Ok (rebuilt, moved, os), env') →
  rebuilt_chain (fcs_safe (fcs (engine env))) (drop i (rs_attributes batch)) rebuilt ∧
  os = map OutcomeReorged rebuilt ∧
  match last rebuilt with Some b => settled ts (block_info b) env' | None => env' = env end.
Proof.
  revert i env rebuilt moved os. induction n as [|n IH]; intros i env rebuilt moved os Hn Hrun.
  { simpl in Hrun. unfold ret in Hrun. simplify_eq. rewrite drop_ge by lia. done. }
  cbn [seq map run_actions] in Hrun.
  apply bind_Ok in Hrun as ([[r1 m1] o1] & s1 & H1 & Hrun).
  apply bind_Ok in H1 as (a & s0 & Ha & H1). apply lift_Ok in Ha as [Ha ->].
  apply bind_Ok in H1 as (info & s2 & Hr & H1). unfold ret in H1. simplify_eq.
  apply bind_Ok in Hrun as ([[r2 m2] os2] & s3 & H2 & Hrun). unfold ret in Hrun. simplify_eq.
  apply action_reorg_ok in Hr as [Hon Hset].
  apply IH in H2 as (Hchain & -> & Hlast); [|lia].
  destruct (rs_attributes batch !! i) as [a'|] eqn:Ei; simplify_eq/=.
  rewrite (drop_S _ _ _ Ei). cbn [rebuilt_chain app]. split_and!; try done.
  - rewrite <- (proj1 Hset). done.
  - rewrite last_cons. by destruct (last r2); [|subst].
Qed.

Lemma run_actions_ok batch ts ups i env rebuilt moved os env' :
  (i ≤ length (rs_attributes batch))%nat →
  run_actions batch ts
    (last_update ups ++ map Reorg (seq i (length (rs_attributes batch) - i))) env =
    (Ok (rebuilt, moved, os), env') →
  (∃ parent, rebuilt_chain parent (drop i (rs_attributes batch)) rebuilt) ∧
  match last (ups ++ rebuilt) with
  | Some b => settled ts (block_info b) env' ∧ last (map into_inner os) = Some b
  | None => env' = env ∧ os = []
  end.
Proof.
  intros Hi. unfold last_update. rewrite last_app. destruct (last ups) as [u|]; simpl.
  - intros ([[r1 m1] o1] & s1 & H1 & Hrun)%bind_Ok.
    apply bind_Ok in H1 as ([m o] & s0 & Ha & H1). unfold ret in H1. simplify_eq.
    apply bind_Ok in Hrun as ([[r2 m2] os2] & s3 & H2 & Hrun). unfold ret in Hrun. simplify_eq.
    apply action_update_fcs_ok in Ha as [-> Hset].
    apply run_reorgs_ok in H2 as (Hchain & -> & Hlast); [|lia]. simpl.
    split; [by eexists|]. rewrite map_map, map_id, last_cons.
    destruct (last rebuilt) as [b|]; [done|]. by subst.
  - intros Hrun. apply run_reorgs_ok in Hrun as (Hchain & -> & Hlast); [|lia].
    split; [by eexists|]. rewrite map_map, map_id. destruct (last rebuilt) as [b|] eqn:E; [done|].
    split; [done|]. apply last_None in E. by subst.
Qed.

(** ** The attempt *)

(** An attempt that does not complete leaves the database as it was; in every case the fork
    choice rules hold. *)
Lemma reconcile_and_consolidate_inv batch env o env' f0 :
  fcs_inv f0 (engine env) → reconcile_and_consolidate batch env = (o, env') →
  fcs_inv f0 (engine env') ∧ (is_ok o = false → database env' = database env).
Proof.
  intros Hi. assert (attempt_inv (database env) f0 env) as Hinv by by split.
  unfold reconcile_and_consolidate, bind.
  pose proof (check_safe_frontier_inv (database env) f0 (rs_batch_info batch) env Hinv) as H1.
  destruct (check_safe_frontier _ env) as [[?|?|] s1]; [|intros; simplify_eq; by destruct H1..].
  simpl in H1. unfold gets at 1.
  match goal with |- context [on_client ?f ?m s1] =>
    pose proof (on_client_inv (database env) f0 f m s1 H1) as H2;
    destruct (on_client f m s1) as [[r|?|] s2] end; [|intros; simplify_eq; by destruct H2..].
  simpl in H2.
  match goal with |- context [run_actions ?b ?ts ?l s2] =>
    pose proof (run_actions_inv (database env) f0 b ts l s2 H2) as H3;
    destruct (run_actions b ts l s2) as [[[[rebuilt moved] os]|?|] s3] end;
    [|intros; simplify_eq; by destruct H3..].
  simpl in H3. unfold lift. rewrite into_outcome_spec.
  match goal with |- context [on_database ?f ?m s3] =>
    destruct (on_database f m s3) as [[u|?|] s4] eqn:Hdb end.
  - apply on_database_Ok in Hdb as [_ He]. unfold ret. intros; simplify_eq. rewrite He.
    by destruct H3.
  - apply on_database_failed in Hdb as ->; [|done]. intros; simplify_eq. by destruct H3.
  - apply on_database_failed in Hdb as ->; [|done]. intros; simplify_eq. by destruct H3.
Qed.

(** What a completed attempt records and where it leaves the engine. *)
Definition settles_batch (batch : BatchDerivationResult) (c : ConsolidatedBatch) env env' : Prop :=
  ∃ kept rebuilt parent env1 answers w,
    check_safe_frontier (rs_batch_info batch) env = (Ok tt, env1) ∧
    fetched (rs_attributes batch) (client (engine env1)) answers w ∧
    blocks (batch_outcome c) = kept ++ rebuilt ∧
    keeps_prefix (zip (rs_attributes batch) answers) kept ∧
    rebuilt_chain parent (drop (length kept) (rs_attributes batch)) rebuilt ∧
    batch_info (batch_outcome c) = rs_batch_info batch ∧
    target_status (batch_outcome c) = rs_target_status batch ∧
    (∀ b, last (map into_inner (block_outcomes c)) = Some b →
       last (blocks (batch_outcome c)) = Some b ∧
       settled (rs_target_status batch) (block_info b) env') ∧
    tx_mut (insert_batch_consolidation_outcome
                   (with_skipped_l1_messages (batch_outcome c) (rs_skipped_l1_messages batch)))
      (database env) = (Ok tt, database env').

Lemma reconcile_and_consolidate_ok batch env c env' :
  ascending (rs_attributes batch) → fcs_ordered (fcs (engine env)) →
  reconcile_and_consolidate batch env = (Ok c, env') → settles_batch batch c env env'.
Proof.
  intros Hasc Hord. unfold reconcile_and_consolidate. intros ([] & s1 & Hf & Hrun)%bind_Ok.
  assert (attempt_inv (database env) (fcs (engine env)) env) as Hinv by done.
  eapply preserves_ok in Hinv; [|apply check_safe_frontier_inv|exact Hf].
  apply bind_Ok in Hrun as (f & s1' & Hfcs & Hrun). unfold gets in Hfcs. injection Hfcs as <- <-.
  apply bind_Ok in Hrun as (r & s2 & Hr & Hrun).
  apply (preserves_ok _ _ _ _ _ (on_client_inv _ _ _ _) Hr) in Hinv.
  apply bind_Ok in Hrun as ([[rebuilt moved] os] & s3 & Ha & Hrun).
  eapply preserves_ok in Hinv; [|apply run_actions_inv|exact Ha].
  apply bind_Ok in Hrun as (oc & s4 & Ho & Hrun). apply lift_Ok in Ho as [Ho ->].
  rewrite into_outcome_spec in Ho. injection Ho as <-.
  apply bind_Ok in Hrun as ([] & s5 & Hdb & Hrun). unfold ret in Hrun. simplify_eq.
  apply on_database_Ok in Hdb as [Hdb He]. destruct Hinv as [Hd _]. rewrite Hd in Hdb.
  unfold on_client in Hr. apply on_engine_Ok in Hr as [Hr _]. unfold zoom in Hr.
  destruct (reconcile_batch batch (fcs (engine s1)) (client (engine s1))) as [[r'|?|] w'] eqn:Hrec;
    simplify_eq/=.
  destruct (reconcile_shape _ _ _ _ _ Hasc Hrec)
    as (Hbi & Hts & answers & skips & ups & Hfetched & Hlen & Hsh & Hagg).
  destruct Hsh as (Hacts & Hn & Hkept & _). rewrite length_zip_with, Hlen, Nat.min_id in Hn.
  rewrite Hagg in Ha. apply run_actions_ok in Ha as ((parent & Hchain) & Hlast); [|done].
  rewrite Hacts, omap_shape in *. rewrite Hts in *.
  exists (skips ++ ups), rebuilt, parent, s1, answers. eexists. simpl.
  split_and!; try done. intros b Hb.
  rewrite <- app_assoc, last_app. destruct (last (ups ++ rebuilt)) as [b'|] eqn:El.
  - destruct Hlast as [Hset Hl]. rewrite Hb in Hl. simplify_eq. split; [done|].
    unfold settled in *. by rewrite He.
  - destruct Hlast as [_ ->]. done.
Qed.

(** C19: one attempt on the held batch.  A completed attempt empties the slot, records every derived
    block (a prefix that matched the chain and a rebuilt rest, each block built on the previous
    one with exactly the derived contents) and leaves safe, and finalized for a finalized batch, on
    the last block handled.  A held attempt keeps the batch and the database and schedules exactly
    one retry after the backoff.  A fatal one keeps both and schedules nothing. *)
Theorem run_attempt_spec now d env p step d' env' :
  pending d = Some p → fcs_ordered (fcs (engine env)) → ascending (rs_attributes (pb_batch p)) →
  0 <= attempts_started p →
  run_attempt (E := unit) now (d, env) = (Ok step, (d', env')) →
  fcs_ordered (fcs (engine env')) ∧ finalized_extends (fcs (engine env)) (fcs (engine env')) ∧
  match step with
  | Completed c => d' = DerivationDriver_default ∧ settles_batch (pb_batch p) c env env'
  | Held =>
      database env' = database env ∧
      ∃ p', pending d' = Some p' ∧ pb_batch p' = pb_batch p ∧
        attempts_started p' = saturating_add (attempts_started p) 1 ∧
        attempt_sleep d' = Some (now + hold_backoff (attempts_started p')) ∧
        2000 <= hold_backoff (attempts_started p') <= 30000
  | Fatal f =>
      database env' = database env ∧ attempt_sleep d' = None ∧
      ∃ p', pending d' = Some p' ∧ pb_batch p' = pb_batch p
  end.
Proof.
  intros Hp Hord Hasc Hatt. unfold run_attempt. rewrite Hp.
  change (pb_batch (start_attempt p)) with (pb_batch p).
  destruct (reconcile_and_consolidate (pb_batch p) env) as [o env1] eqn:Hrc.
  destruct (reconcile_and_consolidate_inv _ _ _ _ (fcs (engine env)) (conj Hord (or_introl eq_refl))
    Hrc) as [[Ho Hf] Hdb].
  destruct o as [c|[reason|f]|]; intros; simplify_eq; (split; [done|]); (split; [done|]).
  - split; [done|]. by apply reconcile_and_consolidate_ok.
  - split; [by apply Hdb|]. eexists. split_and!; try done.
    all: apply hold_backoff_bounds; simpl; unfold saturating_add, u64_max; lia.
  - split; [by apply Hdb|]. split; [done|]. by eexists.
Qed.
End DriverProps.

(** ** Revalidation of the held batch *)

Section RevalidateProps.
Context `{SqlEngine} `{Chain}.

Lemma get_batch_by_index_reads i : reads (get_batch_by_index i).
Proof. intros db. unfold get_batch_by_index, bind, lift, get. by destruct (expect _). Qed.

(** After the unwind the batch is still committed, under the same hash and at or below the
    ancestor, and still finalized there when it is derived as finalized. *)
Definition still_valid (bi : BatchInfo) (ts : BatchStatus) (ancestor : Z)
    (stored : option BatchCommitData) : Prop :=
  ∃ b, stored = Some b ∧ bc_hash b = b_hash bi ∧ bc_block_number b <= ancestor ∧
    (is_finalized ts = true → ∃ n, bc_finalized_block_number b = Some n ∧ n <= ancestor).

Lemma invalid_reason_spec ts bi ancestor stored :
  invalid_reason ts bi ancestor stored = None ↔ still_valid bi ts ancestor stored.
Proof.
  unfold invalid_reason, finalization_invalid, still_valid. destruct stored as [b|]; [|naive_solver].
  destruct (bc_hash b =? b_hash bi) eqn:Eh; simpl; bool_to_prop; [|naive_solver].
  destruct (ancestor <? bc_block_number b) eqn:Eb; bool_to_prop.
  { split; [done|]. intros (b' & [= <-] & _ & ? & _). lia. }
  rewrite (proj2 (Z.leb_le (bc_block_number b) ancestor)) by lia. simpl.
  destruct (is_finalized ts); simpl; [|naive_solver].
  destruct (bc_finalized_block_number b) as [n|] eqn:Ef.
  2: { split; [done|]. intros (b' & [= <-] & _ & _ & Hf). destruct (Hf eq_refl) as (m & ? & _).
       congruence. }
  destruct (ancestor <? n) eqn:En; bool_to_prop; (split; [intros Hx|intros Hx]); try done.
  - destruct Hx as (b' & [= <-] & _ & _ & Hf). destruct (Hf eq_refl) as (m & Hm & ?).
    simplify_eq. lia.
  - exists b. split_and!; try done; try lia. intros _. exists n. split; [done|lia].
Qed.

(** an L1 unwind keeps the held batch exactly when, in the unwound database, its row is still
    committed under the same hash at or below the ancestor, and finalized there for a finalized
    batch; otherwise the slot and its timer are cleared in the same step.  If the transaction
    fails nothing changes. *)
Theorem unwind_and_revalidate_spec ancestor d db o d' db' :
  unwind_and_revalidate ancestor (d, db) = (o, (d', db')) →
  match o with
  | Ok (ur, ho) =>
      ∃ db1, unwind ancestor db = (Ok ur, db1) ∧
      match held_identity d with
      | None => ho = NoHeldBatch ∧ d' = d ∧ db' = db1
      | Some (bi, ts) =>
          ∃ stored, get_batch_by_index (b_index bi) db1 = (Ok stored, db1) ∧
            ((still_valid bi ts ancestor stored ∧ ho = Survived bi ∧ d' = d ∧ db' = db1) ∨
             (¬ still_valid bi ts ancestor stored ∧ (∃ reason, ho = Invalidated bi reason) ∧
              d' = DerivationDriver_default))
      end
  | _ => d' = d ∧ db' = db
  end.
Proof.
  unfold unwind_and_revalidate, tx_mut.
  destruct (unwind_and_check (held_identity d) ancestor db) as [[[ur ho]|e|] db2] eqn:Hrun;
    [|intros; by simplify_eq..].
  intros; simplify_eq. unfold unwind_and_check in Hrun.
  apply bind_Ok in Hrun as (ur' & db1 & Hu & Hrun).
  destruct (held_identity d) as [[bi ts]|].
  2: { unfold ret in Hrun. simplify_eq. eauto. }
  apply bind_Ok in Hrun as (stored & db3 & Hg & Hrun).
  assert (db3 = db1) as ->.
  { apply (f_equal snd) in Hg. by rewrite get_batch_by_index_reads in Hg. }
  destruct (invalid_reason ts bi ancestor stored) as [reason|] eqn:Ei.
  - apply bind_Ok in Hrun as ([] & db4 & _ & Hrun). unfold ret in Hrun. simplify_eq.
    exists db1. split; [done|]. exists stored. split; [done|]. right. split_and!; [|by eexists|done].
    rewrite <- invalid_reason_spec, Ei. done.
  - apply invalid_reason_spec in Ei. unfold ret in Hrun. simplify_eq.
    exists db'. split; [done|]. exists stored. split; [done|]. by left.
Qed.
End RevalidateProps.

(** ** Witnesses *)

Lemma hold_backoff_spec_witness :
  hold_backoff 3 = Z.min (2000 * 2 ^ (3 - 1)) 30000 ∧ 2000 <= hold_backoff 3 <= 30000.
Proof. apply (hold_backoff_spec 3). lia. Defined.

(** Block 1 matches the canonical chain, block 2 has another base fee and is rebuilt. *)
Definition toy_attrs : list DerivedAttributes := [toy_attributes 1 7; toy_attributes 2 9].
Definition toy_built : ExecutionPayloadV1 := mkPayload 101 2 202 9 1002 [].
Definition toy_attempt_env : Env World :=
  toy_env [fcu_answer Valid None; fcu_answer Valid (Some 1); fcu_answer Valid None]
    [mkPayloadStatus Valid None] [toy_built] [toy_canonical 1; toy_canonical 2].
Definition toy_attempt :=
  @run_attempt stored_order toy_chain World world_api world_client unit 5000
    (toy_driver toy_attrs Consolidated, toy_attempt_env).
Definition toy_completed : ConsolidatedBatch :=
  match toy_attempt.1 with
  | Ok (Completed c) => c
  | _ => mkConsolidated (BatchConsolidationOutcome_new (mkBatchInfo 0 0) Committed false) []
  end.

Lemma run_attempt_spec_witness :
  fcs_ordered (fcs (engine toy_attempt.2.2)) ∧
  finalized_extends (fcs (engine toy_attempt_env)) (fcs (engine toy_attempt.2.2)) ∧
  toy_attempt.2.1 = DerivationDriver_default ∧
  @settles_batch stored_order toy_chain World world_client (toy_batch toy_attrs Consolidated) toy_completed
    toy_attempt_env toy_attempt.2.2.
Proof.
  apply (@run_attempt_spec stored_order toy_chain World world_api world_client 5000
    (toy_driver toy_attrs Consolidated) toy_attempt_env
    (mkPending (toy_batch toy_attrs Consolidated) 0 0 None None) (Completed toy_completed)).
  - reflexivity.
  - unfold fcs_ordered. simpl. lia.
  - repeat constructor; simpl; lia.
  - simpl. lia.
  - vm_compute. reflexivity.
Defined.

(** The batch is committed in block 20; an unwind to block 10 removes it. *)
Definition toy_unwound :=
  @unwind_and_revalidate stored_order 10 (toy_driver toy_attrs Consolidated, toy_db).

Lemma unwind_and_revalidate_spec_witness :
  match toy_unwound.1 with
  | Ok (ur, ho) =>
      ∃ db1, @unwind stored_order 10 toy_db = (Ok ur, db1) ∧
      ∃ stored, @get_batch_by_index stored_order 1 db1 = (Ok stored, db1) ∧
        ((still_valid (mkBatchInfo 1 11) Consolidated 10 stored ∧ ho = Survived (mkBatchInfo 1 11) ∧
          toy_unwound.2.1 = toy_driver toy_attrs Consolidated ∧ toy_unwound.2.2 = db1) ∨
         (¬ still_valid (mkBatchInfo 1 11) Consolidated 10 stored ∧
          (∃ reason, ho = Invalidated (mkBatchInfo 1 11) reason) ∧
          toy_unwound.2.1 = DerivationDriver_default))
  | _ => False
  end.
Proof.
  apply (@unwind_and_revalidate_spec stored_order 10 (toy_driver toy_attrs Consolidated)
    toy_db toy_unwound.1 toy_unwound.2.1 toy_unwound.2.2).
  vm_compute. reflexivity.
Defined.

(** The reconciliation of this batch keeps block 1 and rebuilds block 2. *)
Definition toy_reconcile :=
  @reconcile_batch toy_chain World world_client (toy_batch toy_attrs Consolidated) toy_genesis_fcs
    (client (engine toy_attempt_env)).
Definition toy_reconciled : BatchReconciliationResult :=
  mkReconciliation (mkBatchInfo 1 11)
    [UpdateFcs (mkL2BlockInfo {| number := 1; hash := 101 |} []); Reorg 1] Consolidated.

Lemma reconcile_keeps_matching_prefix_witness :
  rc_batch_info toy_reconciled = mkBatchInfo 1 11 ∧ rc_target_status toy_reconciled = Consolidated ∧
  ∃ answers skips ups,
    @fetched toy_chain World world_client toy_attrs (client (engine toy_attempt_env)) answers
      toy_reconcile.2 ∧
    length answers = 2%nat ∧
    @shape toy_chain 0 (zip toy_attrs answers) 0 skips ups (rc_actions toy_reconciled) ∧
    aggregate_actions toy_reconciled =
      last_update ups ++ map Reorg (seq (length (skips ++ ups)) (2 - length (skips ++ ups))).
Proof.
  assert (toy_reconcile = (Ok toy_reconciled, toy_reconcile.2)) as Hrun.
  { rewrite (surjective_pairing toy_reconcile). f_equal. }
  apply (@reconcile_keeps_matching_prefix toy_chain World world_client
    (toy_batch toy_attrs Consolidated) toy_genesis_fcs (client (engine toy_attempt_env)) toy_reconciled toy_reconcile.2); [|exact Hrun].
  repeat constructor; simpl; lia.
Defined.

(** The engine after the first answer of the script. *)
Definition toy_updated : Engine World :=
  (@update_fcs World world_api (Some {| number := 2; hash := 102 |}) None None (engine toy_attempt_env)).2.

Lemma engine_reachable_ordered_witness :
  fcs_ordered (fcs toy_updated) ∧ number (fcs_head (fcs toy_updated)) = 2.
Proof.
  split; [|vm_compute; reflexivity].
  refine (proj1 (@engine_reachable_ordered World world_api (engine toy_attempt_env) toy_updated _ _)).
  - unfold fcs_ordered. simpl. lia.
  - apply rtc_once. apply (@step_update_fcs World world_api).
Defined.
