(* ===== verification/Migration.v ===== *)
(** * The migrations (crates/database/migration)

    What the migrations leave in a fresh database: the seeded rows of the tables, and the table of
    block data hints, which is downloaded, verified and decoded on the networks that have one.
    The statements that create tables and indexes are the record types of [DbModel].  The HTTP
    client, SHA-256 and the SQL text of the test network are parameters. *)

From Stdlib Require Import Ascii HexadecimalString HexadecimalPos HexadecimalN.
From S2P Require Import Prelude Sql Primitives BigEndian Engine DbModel Pipeline.

(** ** Hexadecimal text: [format!("{x:x}")] and [u64::from_str_radix(_, 16)] *)

Definition lower (c : ascii) : ascii :=
  match c with
  | "A" => "a" | "B" => "b" | "C" => "c" | "D" => "d" | "E" => "e" | "F" => "f" | c => c
  end%char.

Fixpoint to_lower (s : string) : string :=
  match s with
  | EmptyString => EmptyString
  | String c s => String (lower c) (to_lower s)
  end.

Definition u64_to_hex (z : Z) : string := NilZero.string_of_uint (N.to_hex_uint (Z.to_N z)).

Definition parse_hex_u64 (s : string) : option Z :=
  match NilZero.uint_of_string (to_lower (strip_plus s)) with
  | Some d => let z := Z.of_N (N.of_hex_uint d) in if z <=? u64_max then Some z else None
  | None => None
  end.

(** ** The metadata of a header and its decoder *)

Record HeaderMetadata := mkHeaderMetadata {
  hm_extra_data : Bytes;
  hm_state_root : Bytes;
  hm_coinbase : option Bytes;
  hm_nonce : option Z;
  hm_difficulty : Z
}.

(** [MetadataDecoder]: the vanity data by index. *)
Record MetadataDecoder := mkDecoder { vanity : gmap Z Bytes }.

Definition Buffer (A : Type) : Type := M Bytes string A.

(** [for i in 0..vanity_len { vanities.insert(i as u8, buf[..32]); buf.advance(32) }]. *)
Fixpoint load_vanities (i : Z) (count : nat) (vanities : gmap Z Bytes) : Buffer (gmap Z Bytes) :=
  match count with
  | O => ret vanities
  | S count =>
      let* v := take_bytes 32 in
      load_vanities (i + 1) count (<[i mod 256 := v]> vanities)
  end.

Definition load_vanity : Buffer MetadataDecoder :=
  let* buf := get in
  match buf with
  | [] => fail "empty buf"
  | vanity_len :: _ =>
      if Z.of_nat (length buf) <? 32 * vanity_len then fail "missing vanity data"
      else
        advance 1 ;;;
        let* vanities := load_vanities 0 (Z.to_nat vanity_len) ∅ in
        ret (mkDecoder vanities)
  end.

(** [MetadataDecoder::next]. *)
Definition decoder_next (d : MetadataDecoder) : Buffer HeaderMetadata :=
  let* buf := get in
  match buf with
  | flag :: vanity_index :: _ =>
      let has_coinbase := negb (Z.land flag 16 =? 0) in
      let has_nonce := negb (Z.land flag 32 =? 0) in
      let difficulty := if Z.land flag 64 =? 0 then 2 else 1 in
      let seal_length := if Z.land flag 128 =? 0 then 65%nat else 85%nat in
      let* v := lift (ok_or "vanity not found" (vanity d !! vanity_index)) in
      let total_expected_size :=
        (2 + 32 + (if has_coinbase then 20 else 0) + (if has_nonce then 8 else 0) + seal_length)%nat in
      if (length buf <? total_expected_size)%nat then fail "header buffer too small"
      else
        advance 2 ;;;
        let* state_root := take_bytes 32 in
        let* coinbase := if has_coinbase then let* c := take_bytes 20 in ret (Some c) else ret None in
        let* nonce := if has_nonce then let* n := take_be 8 in ret (Some n) else ret None in
        let* seal := take_bytes seal_length in
        ret (mkHeaderMetadata (v ++ seal) state_root coinbase nonce difficulty)
  | _ => fail "header buffer too small to read seal flag and vanity index"
  end.

(** [while !data_buf.is_empty()]: at most [fuel] headers.  A header takes at least 99 bytes, so
    the length of the buffer is enough fuel. *)
Fixpoint decode_all (fuel : nat) (d : MetadataDecoder) : Buffer (list HeaderMetadata) :=
  let* buf := get in
  match buf, fuel with
  | [], _ => ret []
  | _, O => panic
  | _, S fuel =>
      let* h := decoder_next d in
      let* hs := decode_all fuel d in
      ret (h :: hs)
  end.

Definition decode_to_headers (data : Bytes) : outcome string (list HeaderMetadata) :=
  ((let* d := load_vanity in
    let* buf := get in
    decode_all (length buf) d) data).1.

(** ** The download *)

(** The value of a response header; [None] when it is not visible ASCII ([to_str] fails). *)
Definition HeaderValue : Type := option string.

Record HeadResponse := mkHeadResponse {
  head_is_success : bool;
  head_content_length : option HeaderValue;
  head_accept_ranges : option HeaderValue
}.

Record RangeResponse := mkRangeResponse { range_status : Z; range_bytes : outcome string Bytes }.

(** The HTTP client with its retries, SHA-256, and the order in which concurrent requests end. *)
Class HttpClient := {
  http_head : string → outcome string HeadResponse;
  http_get : string → Z → Z → outcome string RangeResponse;
  sha256 : Bytes → B256;
  completion : ∀ {A : Type}, list A → list A;
  completion_perm : ∀ {A} (l : list A), completion l ≡ₚ l
}.

Definition CHUNK_SIZE : Z := 16000000.
Definition MAX_TASKS : nat := 4.
Definition PARTIAL_CONTENT : Z := 206.

Definition by_index (a b : Z * Bytes) : Prop := a.1 <= b.1.
#[export] Instance by_index_dec : RelDecision by_index.
Proof. intros a b. apply Z.le_dec. Defined.

Section Download.
Context `{HttpClient}.

Definition to_str (v : HeaderValue) : outcome string string :=
  ok_or "failed to convert header to a str" v.

Definition get_file_size (url : string) : outcome string Z :=
  obind (http_head url) (λ response,
  let unsupported := Err "server does not support range requests or content-length" in
  if head_is_success response then
    match head_content_length response with
    | Some length =>
        obind (to_str length) (λ s,
        obind (ok_or "invalid digit found in string" (parse_u64 s)) (λ length,
        if bool_decide (head_accept_ranges response = Some (Some "bytes")) then Ok length
        else unsupported))
    | None => unsupported
    end
  else unsupported).

Definition download_chunk (url : string) (start last : Z) : outcome string Bytes :=
  obind (http_get url start last) (λ response,
  if negb (range_status response =? PARTIAL_CONTENT) then
    obind (range_bytes response) (λ _, Err "failed to fetch chunk")
  else range_bytes response).

(** One task: the chunk [index]. *)
Definition download_task (url : string) (total_size index : Z) : outcome string (Z * Bytes) :=
  let start := index * CHUNK_SIZE in
  let last := Z.min ((start + CHUNK_SIZE - 1) mod u64_mod) total_size in
  omap_ok (λ output, (index, output)) (download_chunk url start last).

(** [while let Some((index, output)) = tasks.next()]: the tasks in the order they end. *)
Fixpoint await_tasks (url : string) (total_size : Z) (tasks : list Z) :
    outcome string (list (Z * Bytes)) :=
  match tasks with
  | [] => Ok []
  | index :: tasks =>
      obind (download_task url total_size index) (λ output,
      omap_ok (cons output) (await_tasks url total_size tasks))
  end.

(** The outer loop: up to [MAX_TASKS] chunks at a time.  Every turn takes at least one index, so
    the number of chunks is enough fuel. *)
Fixpoint download_loop (fuel : nat) (url : string) (total_size iterations index : Z)
    (buf : list (Z * Bytes)) : outcome string (list (Z * Bytes)) :=
  if index =? iterations then Ok buf
  else
    match fuel with
    | O => Panic
    | S fuel =>
        let tasks := take MAX_TASKS (seqZ index (iterations - index)) in
        obind (await_tasks url total_size (completion tasks)) (λ outputs,
        download_loop fuel url total_size iterations (index + Z.of_nat (length tasks))
          (buf ++ outputs))
    end.

Definition chunk_count (total_size : Z) : Z :=
  total_size / CHUNK_SIZE + (if total_size mod CHUNK_SIZE =? 0 then 0 else 1).

Definition download (url : string) : outcome string Bytes :=
  obind (get_file_size url) (λ total_size,
  if total_size =? 0 then Err "empty file"
  else
    let iterations := chunk_count total_size in
    omap_ok (λ buf, concat (map snd (merge_sort by_index buf)))
      (download_loop (Z.to_nat iterations) url total_size iterations 0 [])).

Definition verify_data_hash (expected_data_hash : B256) (data : Bytes) : outcome string unit :=
  if sha256 data =? expected_data_hash then Ok tt else Err "corrupted data".
End Download.

(** ** The rows of [block_data] *)

Record BlockDataModel := mkBlockDataModel {
  bm_number : Z;
  bm_extra_data : option Bytes;
  bm_state_root : option Bytes;
  bm_coinbase : option Bytes;
  bm_nonce : option string;
  bm_difficulty : option Z
}.

(** [From<(i64, HeaderMetadata)> for ActiveModel]. *)
Definition BlockDataModel_from (bn : Z) (h : HeaderMetadata) : BlockDataModel :=
  mkBlockDataModel bn (Some (hm_extra_data h)) (Some (hm_state_root h)) (hm_coinbase h)
    (u64_to_hex <$> hm_nonce h) (Some (hm_difficulty h)).

(** [B256::from_slice] and [Address::from_slice]: panic unless the length is right. *)
Definition from_slice {E} (n : nat) (bs : Bytes) : outcome E Z :=
  if (length bs =? n)%nat then Ok (from_be bs) else Panic.

Definition opt_map {E A B} (f : A → outcome E B) (o : option A) : outcome E (option B) :=
  match o with Some a => omap_ok Some (f a) | None => Ok None end.

(** [From<Model> for BlockDataHint] (models/block_data.rs).  [U256::from] panics on a negative
    [i8]. *)
Definition BlockDataHint_from {E} (value : BlockDataModel) : outcome E BlockDataHint :=
  obind (opt_map (from_slice 32) (bm_state_root value)) (λ state_root,
  obind (opt_map (from_slice 20) (bm_coinbase value)) (λ coinbase,
  obind (opt_map (λ n, expect (parse_hex_u64 n)) (bm_nonce value)) (λ nonce,
  obind (opt_map (λ d, if d <? 0 then Panic else Ok d) (bm_difficulty value)) (λ difficulty,
  Ok (mkHint (bm_extra_data value) state_root coinbase nonce difficulty))))).

(** The row as the pipeline reads it. *)
Definition BlockDataRow_from {E} (m : BlockDataModel) : outcome E BlockDataRow :=
  omap_ok (mkBlockDataRow (bm_number m)) (BlockDataHint_from m).

Fixpoint enumerate (bn : Z) (hs : list HeaderMetadata) : list BlockDataModel :=
  match hs with
  | [] => []
  | h :: hs => BlockDataModel_from (as_i64 bn) h :: enumerate (bn + 1) hs
  end.

(** The primary key of the table. *)
Definition insert_many (records : list BlockDataModel) : M (list BlockDataModel) string unit :=
  λ t, if bool_decide (NoDup (map bm_number (t ++ records))) then (Ok tt, t ++ records)
       else (Err "UNIQUE constraint failed: block_data.number", t).

Definition MAX_BATCH_SIZE : nat := 3000.

(** [while cursor < records.len()]; every turn inserts at least one record. *)
Fixpoint insert_batches (fuel : nat) (records : list BlockDataModel) :
    M (list BlockDataModel) string unit :=
  match records, fuel with
  | [], _ => ret tt
  | _, O => panic
  | _, S fuel =>
      insert_many (take MAX_BATCH_SIZE records) ;;;
      insert_batches fuel (drop MAX_BATCH_SIZE records)
  end.

(** ** The networks (migration_info.rs) and the migration of the hints *)

Inductive DataSource := Url (url : string) | SqlText (sql : string).

Class MigrationInfo := {
  data_source : option DataSource;
  data_hash : option B256;
  genesis_hash : B256
}.

Definition ScrollDevMigrationInfo : MigrationInfo :=
  {| data_source := None; data_hash := None;
     genesis_hash := 0x14844a4fc967096c628e90df3bb0c3e98941bdd31d1982c2f3e70ed17250d98b |}.

(** The genesis hashes of the networks are constants of dogeos_chainspec, the sample a data file. *)
Definition ScrollMainnetMigrationInfo (DOGEOS_MAINNET_GENESIS_HASH : B256) : MigrationInfo :=
  {| data_source := Some (Url
       "https://scroll-block-missing-metadata.s3.us-west-2.amazonaws.com/534352.bin");
     data_hash := Some 0xfa2746026ec9590e37e495cb20046e20a38fd0e7099abd2012640dddf6c88b25;
     genesis_hash := DOGEOS_MAINNET_GENESIS_HASH |}.

Definition ScrollMainnetTestMigrationInfo (DOGEOS_MAINNET_GENESIS_HASH : B256)
    (mainnet_sample : string) : MigrationInfo :=
  {| data_source := Some (SqlText mainnet_sample); data_hash := None;
     genesis_hash := DOGEOS_MAINNET_GENESIS_HASH |}.

Definition ScrollSepoliaMigrationInfo (DOGEOS_CHIKYU_GENESIS_HASH : B256) : MigrationInfo :=
  {| data_source := Some (Url
       "https://scroll-block-missing-metadata.s3.us-west-2.amazonaws.com/534351.bin");
     data_hash := Some 0xa02354c12ca0f918bf4768255af9ed13c137db7e56252348f304b17bb4088924;
     genesis_hash := DOGEOS_CHIKYU_GENESIS_HASH |}.

Section Migrate.
Context `{HttpClient}.
Variable execute_unprepared : string → M (list BlockDataModel) string unit.

(** [Migration::up] of m20250408_150338_load_header_metadata. *)
Definition load_header_metadata (MI : MigrationInfo) : M (list BlockDataModel) string unit :=
  match data_source, data_hash with
  | Some (Url url), Some hash =>
      let* file := lift (download url) in
      lift (verify_data_hash hash file) ;;;
      let* headers := lift (decode_to_headers file) in
      let records := enumerate 0 headers in
      insert_batches (length records) records
  | Some (SqlText sql), _ => execute_unprepared sql
  | _, _ => ret tt
  end.

(** *** The other migrations that write rows *)

Record Migrated := mkMigrated { tables : Db; block_data_table : list BlockDataModel }.

Definition Migration_ (A : Type) : Type := M Migrated string A.
Definition on_tables (f : Db → outcome string Db) : Migration_ unit := λ s,
  match f (tables s) with
  | Ok d => (Ok tt, mkMigrated d (block_data_table s))
  | Err e => (Err e, s)
  | Panic => (Panic, s)
  end.
Definition on_block_data (m : M (list BlockDataModel) string unit) : Migration_ unit :=
  zoom block_data_table (λ t s, mkMigrated (tables s) t) m.

Definition empty_db : Db := mkDb ∅ [] [] [] ∅ ∅.

Definition create_batch_commit_table : Migration_ unit := on_tables (λ d,
  if bool_decide (br_hash genesis_batch_row ∈ map br_hash (batch_commit d))
  then Err "UNIQUE constraint failed: batch_commit.hash"
  else Ok (set_batch_commit (batch_commit d ++ [genesis_batch_row]) d)).

Definition add_l2_block (MI : MigrationInfo) : Migration_ unit := on_tables (λ d,
  let row := genesis_block_row genesis_hash in
  if bool_decide (lr_batch_hash row ∈ map br_hash (batch_commit d))
  then Ok (set_l2_block (l2_block d ++ [row]) d)
  else Err "FOREIGN KEY constraint failed").

(** [ON CONFLICT(key) DO NOTHING]. *)
Definition add_metadata : Migration_ unit := on_tables (λ d,
  Ok (set_metadata (metadata d ∪ metadata_init) d)).

(** [Migrator::migrations], those that only create empty tables left out. *)
Definition migrations (MI : MigrationInfo) : list (Migration_ unit) :=
  [create_batch_commit_table; on_block_data (load_header_metadata MI); add_l2_block MI; add_metadata].

Definition Migrator_up (MI : MigrationInfo) : Migration_ unit :=
  foldr (λ m rest, m ;;; rest) (ret tt) (migrations MI).
End Migrate.

(** [ScrollMigrator::migrate]: the networks the node can migrate for. *)
Inductive NamedChain := Scroll | ScrollSepolia | Dev | OtherChain.

Definition migration_info (mainnet chikyu : B256) (sample : string) (chain : NamedChain)
    (test : bool) : outcome string MigrationInfo :=
  match chain, test with
  | Scroll, false => Ok (ScrollMainnetMigrationInfo mainnet)
  | Scroll, true => Ok (ScrollMainnetTestMigrationInfo mainnet sample)
  | ScrollSepolia, _ => Ok (ScrollSepoliaMigrationInfo chikyu)
  | Dev, _ => Ok ScrollDevMigrationInfo
  | OtherChain, _ => Err "expected Scroll Mainnet, Sepolia or Dev"
  end.
