(* ===== verification/MigrationProps.v ===== *)
(** * Properties of the migrations

    The header metadata file decodes to the headers it encodes, and panics on one malformed shape
    only; a download in chunks is the served file; and a migrated database serves every block's
    hint to the derivation pipeline. *)

From Stdlib Require Import Ascii HexadecimalString HexadecimalPos HexadecimalN.
From S2P Require Import Prelude Sql Primitives BigEndian Engine DbModel Pipeline PipelineProps Migration.

(** ** Specifications *)

(** The bytes of a header in the file, with the index of its vanity data. *)
Definition header_flag (h : HeaderMetadata) : Z :=
  (if bool_decide (hm_coinbase h = None) then 0 else 16) +
  (if bool_decide (hm_nonce h = None) then 0 else 32) +
  (if hm_difficulty h =? 1 then 64 else 0) + (if (length (hm_extra_data h) =? 117)%nat then 128 else 0).

Definition encode_header (entry : Z * HeaderMetadata) : Bytes :=
  let (i, h) := entry in
  [header_flag h; i] ++ hm_state_root h ++ default [] (hm_coinbase h) ++
  match hm_nonce h with Some n => be_bytes 8 n | None => [] end ++ drop 32 (hm_extra_data h).

Definition encode_file (vanities : list Bytes) (entries : list (Z * HeaderMetadata)) : Bytes :=
  Z.of_nat (length vanities) :: concat vanities ++ concat (map encode_header entries).

Record header_ok (vanities : list Bytes) (entry : Z * HeaderMetadata) : Prop := {
  ho_index : 0 <= entry.1;
  ho_vanity : vanities !! Z.to_nat entry.1 = Some (take 32 (hm_extra_data entry.2));
  ho_extra : length (hm_extra_data entry.2) = 97%nat ∨ length (hm_extra_data entry.2) = 117%nat;
  ho_state_root : length (hm_state_root entry.2) = 32%nat;
  ho_coinbase : ∀ c, hm_coinbase entry.2 = Some c → length c = 20%nat;
  ho_nonce : ∀ n, hm_nonce entry.2 = Some n → in_u64 n;
  ho_difficulty : hm_difficulty entry.2 = 1 ∨ hm_difficulty entry.2 = 2
}.

(** The hint the pipeline attaches to a block with the metadata [h]. *)
Definition hint_of_header (h : HeaderMetadata) : BlockDataHint :=
  mkHint (Some (hm_extra_data h)) (Some (from_be (hm_state_root h))) (from_be <$> hm_coinbase h)
    (hm_nonce h) (Some (hm_difficulty h)).

(** ** Hexadecimal text *)

Lemma lower_digits d : to_lower (NilEmpty.string_of_uint d) = NilEmpty.string_of_uint d.
Proof. by induction d; simpl; f_equal. Qed.

Lemma lower_digits_zero d : to_lower (NilZero.string_of_uint d) = NilZero.string_of_uint d.
Proof. destruct d; [done|apply lower_digits..]. Qed.

Lemma strip_plus_hex d : strip_plus (NilZero.string_of_uint d) = NilZero.string_of_uint d.
Proof. by destruct d. Qed.

Lemma to_hex_nonnil n : N.to_hex_uint n ≠ Hexadecimal.Nil.
Proof. destruct n; simpl; [done|]. apply HexadecimalPos.Unsigned.to_uint_nonnil. Qed.

Lemma parse_hex_u64_to_hex z : in_u64 z → parse_hex_u64 (u64_to_hex z) = Some z.
Proof.
  unfold parse_hex_u64, u64_to_hex, in_u64. intros Hz.
  rewrite strip_plus_hex, lower_digits_zero, NilZero.usu by apply to_hex_nonnil.
  rewrite HexadecimalN.Unsigned.of_to, Z2N.id by lia.
  by rewrite (proj2 (Z.leb_le _ _)) by (unfold u64_max; lia).
Qed.

(** ** The file format *)

Lemma load_vanities_app vs : ∀ i acc rest,
  Forall (λ v, length v = 32%nat) vs → 0 <= i → i + Z.of_nat (length vs) <= 256 →
  ∃ m, load_vanities i (length vs) acc (concat vs ++ rest) = (Ok m, rest) ∧
    (∀ k, 0 <= k < i → m !! k = acc !! k) ∧
    ∀ k v, vs !! k = Some v → m !! (i + Z.of_nat k) = Some v.
Proof.
  induction vs as [|v vs IH]; intros i acc rest Hv Hi Hn.
  { exists acc. split_and!; done. }
  apply Forall_cons in Hv as [Hv Hvs]. cbn [length] in Hn. cbn [length load_vanities concat].
  rewrite <- app_assoc.
  destruct (IH (i + 1) (<[i mod 256:=v]> acc) rest Hvs ltac:(lia) ltac:(lia)) as (m & Hl & Hlow & Hk).
  exists m. unfold bind. rewrite (take_bytes_app v) by done. split; [done|].
  rewrite (Z.mod_small i) in Hlow by lia. split.
  - intros k Hk'. rewrite Hlow by lia. by rewrite lookup_insert_ne by lia.
  - intros [|k] w Hw; simpl in Hw.
    + simplify_eq. rewrite Z.add_0_r, Hlow by lia. by rewrite lookup_insert_eq.
    + replace (i + Z.of_nat (S k)) with (i + 1 + Z.of_nat k) by lia. by apply Hk.
Qed.

Lemma flag_bits (b16 b32 b64 b128 : bool) :
  let flag := (if b16 then 0 else 16) + (if b32 then 0 else 32) + (if b64 then 64 else 0) +
              (if b128 then 128 else 0) in
  negb (Z.land flag 16 =? 0) = negb b16 ∧ negb (Z.land flag 32 =? 0) = negb b32 ∧
  (Z.land flag 64 =? 0) = negb b64 ∧ (Z.land flag 128 =? 0) = negb b128.
Proof. by destruct b16, b32, b64, b128. Qed.

Lemma optional_app {A} (o : option A) (enc : A → Bytes) (m : Buffer A) rest :
  (∀ a, o = Some a → m (enc a ++ rest) = (Ok a, rest)) →
  (if negb (bool_decide (o = None)) then let* a := m in ret (Some a) else ret None)
    (match o with Some a => enc a | None => [] end ++ rest) = (Ok o, rest).
Proof.
  intros Ho. destruct o as [a|]; [|done]. rewrite bool_decide_eq_false_2 by done. simpl.
  unfold bind. by rewrite (Ho a).
Qed.

Lemma length_encode_header i h vs rest :
  header_ok vs (i, h) →
  length (encode_header (i, h) ++ rest) =
  (2 + 32 + (if bool_decide (hm_coinbase h = None) then 0 else 20) +
   (if bool_decide (hm_nonce h = None) then 0 else 8) +
   (if (length (hm_extra_data h) =? 117)%nat then 85 else 65) + length rest)%nat.
Proof.
  intros [_ _ He Hs Hc _ _]. cbn [fst snd] in *. unfold encode_header.
  rewrite !length_app, length_drop, Hs.
  assert (length (default [] (hm_coinbase h)) =
          if bool_decide (hm_coinbase h = None) then 0%nat else 20%nat) as ->
    by (destruct (hm_coinbase h) as [c|]; [exact (Hc c eq_refl)|done]).
  assert (length (match hm_nonce h with Some n => be_bytes 8 n | None => [] end) =
          if bool_decide (hm_nonce h = None) then 0%nat else 8%nat) as ->
    by (destruct (hm_nonce h); [apply length_be_bytes|done]).
  destruct He as [->| ->]; simpl; lia.
Qed.

Lemma decoder_next_app vs d i h rest :
  header_ok vs (i, h) → vanity d !! i = Some (take 32 (hm_extra_data h)) →
  decoder_next d (encode_header (i, h) ++ rest) = (Ok h, rest).
Proof.
  intros Hok Hd. pose proof (length_encode_header i h vs rest Hok) as Hlen.
  destruct Hok as [_ _ He Hs Hc Hn Hdiff]. cbn [fst snd] in *.
  unfold decoder_next. unfold bind at 1, get. unfold encode_header in *.
  cbn [app] in *. cbv beta iota.
  destruct (flag_bits (bool_decide (hm_coinbase h = None)) (bool_decide (hm_nonce h = None))
              (hm_difficulty h =? 1) (length (hm_extra_data h) =? 117)%nat) as (F1 & F2 & F3 & F4).
  fold (header_flag h) in F1, F2, F3, F4. rewrite F1, F2, F3, F4.
  unfold bind at 1, lift. rewrite Hd. cbv beta iota zeta delta [ok_or].
  rewrite (proj2 (Nat.ltb_ge _ _)).
  2: { rewrite Hlen. destruct (bool_decide _), (bool_decide _), (_ =? _)%nat; simpl; lia. }
  unfold bind at 1, advance. cbn [Nat.leb length drop].
  rewrite drop_0, <- !app_assoc. unfold bind at 1. rewrite take_bytes_app by done.
  unfold bind at 1.
  pose proof (optional_app (hm_coinbase h) id (take_bytes 20)) as Hcb.
  unfold id in Hcb. unfold default. rewrite Hcb.
  2: { intros c Hc'. apply take_bytes_app. by apply Hc. }
  unfold bind at 1. rewrite (optional_app (hm_nonce h) (be_bytes 8) (take_be 8)).
  2: { intros n Hn'. apply take_be_app. apply Hn in Hn'. unfold in_u64 in Hn'. lia. }
  unfold bind, ret. rewrite take_bytes_app.
  2: { rewrite length_drop. destruct He as [->| ->]; done. }
  rewrite take_drop. destruct h as [x s c n df]. simpl in *.
  by destruct Hdiff as [->| ->].
Qed.

Lemma decode_all_app vs d es : ∀ fuel,
  Forall (header_ok vs) es →
  (∀ k v, vs !! k = Some v → vanity d !! Z.of_nat k = Some v) →
  (length (concat (map encode_header es)) ≤ fuel)%nat →
  decode_all fuel d (concat (map encode_header es)) = (Ok (map snd es), []).
Proof.
  induction es as [|[i h] es IH]; intros fuel Hok Hd Hf.
  { by destruct fuel. }
  apply Forall_cons in Hok as [Hh Hok]. cbn [map concat] in *.
  pose proof (decoder_next_app vs d i h (concat (map encode_header es)) Hh) as Hnext.
  pose proof (ho_vanity vs _ Hh) as Hv. apply Hd in Hv. simpl in Hv.
  rewrite Z2Nat.id in Hv by apply (ho_index vs _ Hh). specialize (Hnext Hv).
  destruct fuel as [|fuel]; [simpl in Hf; lia|].
  remember (encode_header (i, h) ++ concat (map encode_header es)) as buf eqn:E.
  assert (length (concat (map encode_header es)) ≤ fuel)%nat as Hf'.
  { rewrite E, length_app in Hf. simpl in Hf. lia. }
  destruct buf as [|b buf]; [by simpl in E|].
  cbn [decode_all]. unfold bind at 1, get. unfold bind at 1. rewrite Hnext.
  unfold bind. by rewrite (IH fuel Hok Hd Hf').
Qed.

Lemma length_entries vs es :
  Forall (header_ok vs) es → (length es ≤ length (concat (map encode_header es)))%nat.
Proof.
  induction 1 as [|[i h] es _ _ IH]; [done|]. cbn [map concat].
  rewrite length_app. assert (1 ≤ length (encode_header (i, h)))%nat by (cbn [encode_header app length]; lia).
  cbn [length]. lia.
Qed.

Lemma decode_encode vs es :
  Z.of_nat (length vs) <= 255 → Forall (λ v, length v = 32%nat) vs → Forall (header_ok vs) es →
  decode_to_headers (encode_file vs es) = Ok (map snd es).
Proof.
  intros Hn Hvs Hes. unfold decode_to_headers, encode_file.
  destruct (load_vanities_app vs 0 ∅ (concat (map encode_header es)) Hvs ltac:(lia) ltac:(lia))
    as (m & Hl & _ & Hm).
  assert (load_vanity (Z.of_nat (length vs) :: concat vs ++ concat (map encode_header es)) =
          (Ok (mkDecoder m), concat (map encode_header es))) as Hload.
  { unfold load_vanity. unfold bind at 1, get. cbv beta iota.
    assert (length (concat vs) = 32 * length vs)%nat as Hc.
    { clear -Hvs. induction Hvs as [|v vs Hv _ IH]; [done|]. simpl. rewrite length_app. lia. }
    rewrite (proj2 (Z.ltb_ge _ _)) by (simpl; rewrite length_app; lia).
    unfold bind at 1, advance. cbn [Nat.leb length drop]. rewrite drop_0.
    unfold bind. by rewrite Nat2Z.id, Hl. }
  rewrite (bind_step _ _ _ _ _ Hload). unfold bind, get.
  rewrite (decode_all_app vs) by done. done.
Qed.

(** ** Malformed files *)

Lemma load_vanities_cases count : ∀ i acc buf,
  if (32 * count <=? length buf)%nat
  then ∃ m, load_vanities i count acc buf = (Ok m, drop (32 * count) buf)
  else (load_vanities i count acc buf).1 = Panic.
Proof.
  induction count as [|count IH]; intros i acc buf.
  { simpl. exists acc. by rewrite drop_0. }
  cbn [load_vanities]. unfold bind, take_bytes.
  destruct (Nat.leb_spec 32 (length buf)) as [H32|H32].
  - specialize (IH (i + 1) (<[i mod 256:=take 32 buf]> acc) (drop 32 buf)).
    rewrite length_drop in IH.
    destruct (Nat.leb_spec (32 * count) (length buf - 32)), (Nat.leb_spec (32 * S count) (length buf));
      try lia; [|done].
    destruct IH as [m Hm]. exists m. etransitivity; [exact Hm|]. rewrite drop_drop. f_equal. f_equal. lia.
  - by rewrite (proj2 (Nat.leb_gt _ _)) by lia.
Qed.

(** [m] reads exactly [n] bytes when they are there. *)
Definition consumes {A} (n : nat) (m : Buffer A) : Prop :=
  ∀ buf, (n ≤ length buf)%nat → ∃ a, m buf = (Ok a, drop n buf).

Lemma consumes_ret {A} (a : A) : consumes 0 (ret a).
Proof. intros buf _. exists a. by rewrite drop_0. Qed.

Lemma consumes_bind {A B} n k (m : Buffer A) (f : A → Buffer B) :
  consumes n m → (∀ a, consumes k (f a)) → consumes (n + k) (bind m f).
Proof.
  intros Hm Hf buf Hl. destruct (Hm buf) as [a Ha]; [lia|]. rewrite (bind_step _ _ _ _ _ Ha).
  destruct (Hf a (drop n buf)) as [b Hb]; [rewrite length_drop; lia|].
  exists b. by rewrite Hb, drop_drop.
Qed.

Lemma consumes_take n : consumes n (take_bytes n : Buffer Bytes).
Proof. intros buf Hl. unfold take_bytes. rewrite (proj2 (Nat.leb_le _ _) Hl). by eexists. Qed.

Lemma consumes_advance n : consumes n (advance n : Buffer unit).
Proof. intros buf Hl. unfold advance. rewrite (proj2 (Nat.leb_le _ _) Hl). by eexists. Qed.

Lemma consumes_optional {A} (b : bool) n (m : Buffer A) :
  consumes n m →
  consumes (if b then n else 0) (if b then let* a := m in ret (Some a) else ret None).
Proof.
  intros Hm. destruct b; [|apply consumes_ret]. rewrite <- (Nat.add_0_r n).
  apply consumes_bind; [done|]. intros. apply consumes_ret.
Qed.

Lemma consumes_take_be n : consumes n (take_be n : Buffer Z).
Proof.
  unfold take_be. rewrite <- (Nat.add_0_r n) at 1. apply consumes_bind; [apply consumes_take|].
  intros. apply consumes_ret.
Qed.

(** A header is read whole or refused, and is never empty. *)
Lemma decoder_next_cases d buf :
  (∃ e, (decoder_next d buf).1 = Err e) ∨
  ∃ h n, decoder_next d buf = (Ok h, drop n buf) ∧ (0 < n ≤ length buf)%nat.
Proof.
  unfold decoder_next. rewrite (bind_step get _ buf buf buf eq_refl).
  destruct buf as [|flag [|i buf]]; [left; by eexists..|].
  cbv zeta. set (seal := if Z.land flag 128 =? 0 then 65%nat else 85%nat).
  destruct (vanity d !! i) as [v|]; [|left; by eexists].
  rewrite (bind_step (lift (ok_or _ (Some v))) _ _ v _ eq_refl).
  case_match eqn:Hlen; [left; by eexists|right]. apply Nat.ltb_ge in Hlen.
  set (n := (2 + 32 + _ + _ + seal)%nat) in Hlen.
  match goal with |- ∃ h n, ?m _ = _ ∧ _ => assert (consumes n m) as Hm end.
  { replace n with (2 + (32 + ((if negb (Z.land flag 16 =? 0)%Z then 20 else 0) +
      ((if negb (Z.land flag 32 =? 0)%Z then 8 else 0) + (seal + 0)))))%nat by (unfold n; lia).
    repeat (apply consumes_bind; [|intros]);
      auto using consumes_ret, consumes_take, consumes_advance, consumes_optional, consumes_take_be. }
  destruct (Hm _ Hlen) as [h Hh]. exists h, n. split; [done|]. split; [unfold n; lia|done].
Qed.

Lemma decode_all_no_panic d fuel : ∀ buf,
  (length buf ≤ fuel)%nat → (decode_all fuel d buf).1 ≠ Panic.
Proof.
  induction fuel as [|fuel IH]; intros buf Hl; (destruct buf as [|b buf]; [done|]); [simpl in Hl; lia|].
  cbn [decode_all]. rewrite (bind_step get _ _ (b :: buf) (b :: buf) eq_refl).
  destruct (decoder_next_cases d (b :: buf)) as [[e He]|(h & n & Hh & Hn)].
  - unfold bind. by destruct (decoder_next d (b :: buf)) as [[] ?].
  - rewrite (bind_step _ _ _ _ _ Hh). specialize (IH (drop n (b :: buf))).
    rewrite length_drop in IH. unfold bind.
    destruct (decode_all fuel d (drop n (b :: buf))) as [[] ?]; try done.
    by apply IH; lia.
Qed.

(** decoding the metadata file panics on exactly one shape of malformed file: the first byte
    announces [n > 0] vanity entries and the file has [32 * n] bytes, one less than they need, which
    the size check lets through.  Every other file decodes or is refused with an error, and the fuel
    is always enough. *)
Theorem decode_panics_iff data :
  decode_to_headers data = Panic ↔
  ∃ n rest, data = n :: rest ∧ 0 < n ∧ Z.of_nat (length data) = 32 * n.
Proof.
  unfold decode_to_headers, load_vanity. destruct data as [|n rest]; [by split; [|intros (?&?&?&?)]|].
  rewrite bind_assoc, (bind_step get _ _ (n :: rest) (n :: rest) eq_refl).
  case_match eqn:Hlt; [apply Z.ltb_lt in Hlt|apply Z.ltb_ge in Hlt].
  { split; [done|]. intros (n' & r & [= <- <-] & Hn & Hl). simpl length in *. lia. }
  pose proof (load_vanities_cases (Z.to_nat n) 0 ∅ rest) as Hc.
  rewrite bind_assoc, (bind_step (advance 1) _ _ tt rest).
  2: { unfold advance. simpl. by rewrite drop_0. }
  destruct (Nat.leb_spec (32 * Z.to_nat n) (length rest)) as [Hle|Hgt].
  - destruct Hc as [m Hm]. rewrite bind_assoc, (bind_step _ _ _ _ _ Hm), bind_ret_l.
    rewrite (bind_step get _ _ (drop (32 * Z.to_nat n) rest) (drop (32 * Z.to_nat n) rest) eq_refl).
    split; [intros Hp; by apply decode_all_no_panic in Hp|].
    intros (n' & r & [= <- <-] & Hn & Hl). simpl length in *. lia.
  - split; [intros _|].
    + exists n, rest. split; [done|]. simpl length in *. lia.
    + intros _. unfold bind. by destruct (load_vanities _ _ _ rest) as [[] ?].
Qed.

(** ** The download *)

Section DownloadProps.
Context `{HttpClient}.

(** What the code relies on of a server that supports range requests: the size it reports, and
    the bytes of a range, whose end is clipped to the end of the file. *)
Record serves (url : string) (data : Bytes) : Prop := {
  serves_head : http_head url =
    Ok (mkHeadResponse true (Some (Some (u64_to_string (Z.of_nat (length data)))))
          (Some (Some "bytes")));
  serves_range start last : 0 <= start < Z.of_nat (length data) → start <= last →
    http_get url start last =
      Ok (mkRangeResponse PARTIAL_CONTENT
            (Ok (take (Z.to_nat (last - start + 1)) (drop (Z.to_nat start) data))))
}.

Definition chunk (data : Bytes) (i : Z) : Z * Bytes :=
  (i, take (Z.to_nat CHUNK_SIZE) (drop (Z.to_nat (i * CHUNK_SIZE)) data)).

Lemma chunk_count_spec n :
  0 < n → 0 < chunk_count n ∧ (chunk_count n - 1) * CHUNK_SIZE < n <= chunk_count n * CHUNK_SIZE.
Proof.
  intros Hn. unfold chunk_count, CHUNK_SIZE.
  pose proof (Z.div_mod n 16000000 ltac:(done)). pose proof (Z.mod_pos_bound n 16000000 ltac:(done)).
  destruct (Z.eqb_spec (n mod 16000000) 0); lia.
Qed.

Lemma download_task_serves url data i :
  serves url data → Z.of_nat (length data) <= i64_max →
  0 <= i < chunk_count (Z.of_nat (length data)) →
  download_task url (Z.of_nat (length data)) i = Ok (chunk data i).
Proof.
  intros Hs Hmax Hi. set (n := Z.of_nat (length data)) in *.
  assert (0 < n) as Hn by (destruct (Z.eq_dec n 0) as [->|]; [change (chunk_count 0) with 0 in Hi; lia|unfold n in *; lia]).
  destruct (chunk_count_spec n Hn) as [_ [Hlow Hhigh]].
  assert (i * CHUNK_SIZE < n) as Hstart by (unfold CHUNK_SIZE in *; lia).
  unfold download_task, download_chunk. rewrite (Z.mod_small (_ + _ - 1))
    by (unfold i64_max, u64_mod, CHUNK_SIZE in *; lia).
  rewrite (serves_range _ _ Hs) by (unfold CHUNK_SIZE in *; lia). simpl. f_equal. unfold chunk.
  f_equal. destruct (Z.min_spec (i * CHUNK_SIZE + CHUNK_SIZE - 1) n) as [[_ ->]|[Hle ->]].
  - f_equal. unfold CHUNK_SIZE. lia.
  - rewrite !take_ge; [done|rewrite length_drop; unfold n, CHUNK_SIZE in *; lia..].
Qed.

Lemma await_tasks_serves url data tasks :
  serves url data → Z.of_nat (length data) <= i64_max →
  Forall (λ i, 0 <= i < chunk_count (Z.of_nat (length data))) tasks →
  await_tasks url (Z.of_nat (length data)) tasks = Ok (map (chunk data) tasks).
Proof.
  intros Hs Hmax. induction 1 as [|i tasks Hi _ IH]; [done|]. simpl.
  rewrite download_task_serves by done. simpl. by rewrite IH.
Qed.

Lemma drop_seqZ_length k i n :
  0 <= n → drop k (seqZ i n) =
  seqZ (i + Z.of_nat (length (take k (seqZ i n)))) (n - Z.of_nat (length (take k (seqZ i n)))).
Proof.
  intros Hn. rewrite length_take, length_seqZ. apply list_eq. intros j.
  rewrite lookup_drop. destruct (decide (Z.of_nat k <= n)) as [Hk|Hk].
  - rewrite Nat.min_l by lia. destruct (decide (Z.of_nat (k + j) < n)).
    + rewrite !lookup_seqZ_lt by lia. f_equal. lia.
    + rewrite !lookup_seqZ_ge by lia. done.
  - rewrite !lookup_seqZ_ge by lia. done.
Qed.

Lemma download_loop_serves url data fuel : ∀ index buf,
  serves url data → Z.of_nat (length data) <= i64_max →
  let n := chunk_count (Z.of_nat (length data)) in
  0 <= index <= n → n - index <= Z.of_nat fuel →
  ∃ order, order ≡ₚ seqZ index (n - index) ∧
    download_loop fuel url (Z.of_nat (length data)) n index buf =
    Ok (buf ++ map (chunk data) order).
Proof.
  intros index buf Hs Hmax n. revert index buf.
  induction fuel as [|fuel IH]; intros index buf Hi Hf; cbn [download_loop].
  - assert (index = n) as -> by lia. rewrite Z.eqb_refl, Z.sub_diag. exists []. by rewrite app_nil_r.
  - destruct (Z.eqb_spec index n) as [->|Hne].
    { rewrite Z.sub_diag. exists []. by rewrite app_nil_r. }
    set (tasks := take MAX_TASKS (seqZ index (n - index))).
    assert (0 < Z.of_nat (length tasks) <= n - index) as Hlen.
    { unfold tasks, MAX_TASKS. rewrite length_take, length_seqZ. lia. }
    rewrite await_tasks_serves; [|done..|].
    2: { rewrite completion_perm. apply Forall_forall. intros j Hj.
         apply elem_of_take in Hj as (k & Hj & _). apply list_elem_of_lookup_2 in Hj.
         apply elem_of_seqZ in Hj. unfold n in *. lia. }
    cbn [obind].
    destruct (IH (index + Z.of_nat (length tasks)) (buf ++ map (chunk data) (completion tasks)))
      as (order & Hperm & Hrun); [lia|lia|].
    exists (completion tasks ++ order). split.
    + rewrite completion_perm, Hperm. rewrite <- (take_drop MAX_TASKS (seqZ index (n - index))).
      fold tasks. apply Permutation_app; [done|].
      rewrite drop_seqZ_length by lia. fold tasks. by rewrite Z.sub_add_distr.
    + rewrite Hrun, map_app, app_assoc. done.
Qed.

#[local] Instance by_index_total : Total by_index.
Proof. intros a b. unfold by_index. lia. Qed.
#[local] Instance by_index_trans : Transitive by_index.
Proof. intros a b c. unfold by_index. lia. Qed.

Lemma sorted_seqZ i n : Sorted Z.le (seqZ i n).
Proof.
  destruct (decide (0 <= n)) as [Hn|Hn]; [|unfold seqZ; by rewrite Z2Nat.nonpos by lia].
  revert i. pattern n. apply natlike_ind; [constructor| |done]. clear. intros n Hn IH i.
  rewrite seqZ_cons, Z.pred_succ by lia. constructor; [apply IH|].
  destruct (decide (n = 0)) as [->|]; [constructor|]. rewrite seqZ_cons by lia. constructor. lia.
Qed.

(** Chunks in any order sort into the order of their indexes. *)
Lemma sort_chunks data order n :
  order ≡ₚ seqZ 0 n → merge_sort by_index (map (chunk data) order) = map (chunk data) (seqZ 0 n).
Proof.
  intros Hp. set (l := merge_sort by_index (map (chunk data) order)).
  assert (l ≡ₚ map (chunk data) order) as Hl by apply merge_sort_Permutation.
  assert (l = map (chunk data) (map fst l)) as ->.
  { rewrite map_map. rewrite <- map_id at 1. apply map_ext_in. intros x Hx.
    apply list_elem_of_In in Hx. rewrite Hl in Hx. apply list_elem_of_fmap in Hx as (i & -> & _).
    done. }
  f_equal. apply (Sorted_unique Z.le).
  - pose proof (Sorted_merge_sort by_index (map (chunk data) order)) as Hs. fold l in Hs.
    clear -Hs. induction Hs as [|x l Hs IH Hx]; simpl; [constructor|]. constructor; [done|].
    destruct Hx; by constructor.
  - apply sorted_seqZ.
  - rewrite Hl, map_map. simpl. by rewrite map_id.
Qed.

Lemma concat_chunks (c : nat) : (0 < c)%nat → ∀ n (data : Bytes),
  (length data ≤ n * c)%nat →
  concat (map (λ i, take c (drop (i * c) data)) (seq 0 n)) = data.
Proof.
  intros Hc. induction n as [|n IH]; intros data Hl.
  { destruct data; [done|simpl in Hl; lia]. }
  cbn [seq map concat]. rewrite drop_0. rewrite <- seq_shift, map_map.
  trans (take c data ++ drop c data); [f_equal|apply take_drop].
  rewrite <- (IH (drop c data)).
  - f_equal. apply map_ext. intros i. by rewrite drop_drop.
  - rewrite length_drop. simpl in Hl. lia.
Qed.

(** A download is the served file, in whatever order its chunks arrive. *)
Lemma download_serves url data :
  serves url data → data ≠ [] → Z.of_nat (length data) <= i64_max → download url = Ok data.
Proof.
  intros Hs Hne Hmax. unfold download, get_file_size. rewrite (serves_head _ _ Hs). cbn [obind].
  assert (in_u64 (Z.of_nat (length data))) as Hu by (unfold in_u64, i64_max in *; lia).
  set (n := Z.of_nat (length data)) in *.
  cbn [head_is_success head_content_length head_accept_ranges to_str ok_or obind].
  rewrite parse_u64_to_string by done. cbn [ok_or obind]. rewrite bool_decide_eq_true_2 by done.
  cbn [obind].
  assert (0 < n) as Hn by (unfold n; destruct data; [done|simpl; lia]).
  rewrite (proj2 (Z.eqb_neq _ _)) by lia. destruct (chunk_count_spec n Hn) as [Hpos [_ Hhigh]].
  destruct (download_loop_serves url data (Z.to_nat (chunk_count n)) 0 [] Hs Hmax) as
    (order & Hp & Hrun); [fold n; lia|fold n; lia|].
  fold n in Hp, Hrun. rewrite Z.sub_0_r in Hp. rewrite Hrun. cbn [omap_ok app]. f_equal.
  rewrite (sort_chunks data order (chunk_count n) Hp), map_map. unfold seqZ.
  etransitivity; [|apply (concat_chunks (Z.to_nat CHUNK_SIZE) ltac:(unfold CHUNK_SIZE; lia)
                            (Z.to_nat (chunk_count n)) data)].
  - f_equal. change (@fmap list _) with map. rewrite map_map. apply map_ext. intros i.
    simpl. do 2 f_equal. unfold CHUNK_SIZE. lia.
  - unfold CHUNK_SIZE in *. unfold n in *. nia.
Qed.
End DownloadProps.

(** ** The rows *)

Lemma enumerate_numbers hs : ∀ bn,
  0 <= bn → bn + Z.of_nat (length hs) <= i64_max + 1 →
  map bm_number (enumerate bn hs) = seqZ bn (Z.of_nat (length hs)).
Proof.
  induction hs as [|h hs IH]; intros bn Hbn Hl; [done|]. cbn [length enumerate map] in *.
  rewrite seqZ_cons by lia. cbn [bm_number BlockDataModel_from].
  rewrite as_i64_small by lia. f_equal. rewrite IH by lia. f_equal; lia.
Qed.

Lemma enumerate_lookup hs : ∀ bn n h,
  hs !! n = Some h →
  enumerate bn hs !! n = Some (BlockDataModel_from (as_i64 (bn + Z.of_nat n)) h).
Proof.
  induction hs as [|h' hs IH]; intros bn [|n] h Hn; simpl in *; try done.
  - simplify_eq. by rewrite Z.add_0_r.
  - rewrite (IH _ _ _ Hn). do 3 f_equal. lia.
Qed.

Lemma length_enumerate bn hs : length (enumerate bn hs) = length hs.
Proof. revert bn. induction hs; intros bn; simpl; [done|]. by f_equal. Qed.

Lemma insert_batches_Ok fuel : ∀ records t,
  (length records ≤ fuel)%nat → NoDup (map bm_number (t ++ records)) →
  insert_batches fuel records t = (Ok tt, t ++ records).
Proof.
  induction fuel as [|fuel IH]; intros records t Hl Hd.
  - destruct records; [by rewrite app_nil_r|simpl in Hl; lia].
  - destruct records as [|r records]; [by rewrite app_nil_r|]. cbn [insert_batches].
    rewrite <- (take_drop MAX_BATCH_SIZE (r :: records)), app_assoc in Hd.
    erewrite bind_step.
    2: { unfold insert_many. rewrite bool_decide_eq_true_2; [done|].
         rewrite map_app in Hd. by apply NoDup_app in Hd as [? _]. }
    rewrite IH; [by rewrite <- app_assoc, take_drop| |done].
    rewrite length_drop. unfold MAX_BATCH_SIZE. simpl in *. lia.
Qed.

(** A row of a well-formed header reads back as its hint. *)
Lemma hint_of_row vs i h n :
  header_ok vs (i, h) →
  BlockDataRow_from (E := Empty_set) (BlockDataModel_from n h) =
  Ok (mkBlockDataRow n (hint_of_header h)).
Proof.
  intros [_ _ _ Hs Hc Hn Hd]. cbn [fst snd] in *. unfold BlockDataRow_from, BlockDataHint_from,
    BlockDataModel_from, from_slice, hint_of_header. cbn. rewrite Hs. cbn.
  destruct (hm_coinbase h) as [c|]; cbn; [rewrite (Hc c eq_refl); cbn|];
    (destruct (hm_nonce h) as [x|]; cbn; [rewrite (parse_hex_u64_to_hex x (Hn x eq_refl)); cbn|]);
    by destruct Hd as [->| ->].
Qed.

Lemma rows_of_headers vs es : ∀ bn,
  Forall (header_ok vs) es →
  Forall2 (λ m r, BlockDataRow_from (E := Empty_set) m = Ok r) (enumerate bn (map snd es))
    (imap (λ n e, mkBlockDataRow (as_i64 (bn + Z.of_nat n)) (hint_of_header e.2)) es).
Proof.
  induction es as [|[i h] es IH]; intros bn Hes; [constructor|].
  apply Forall_cons in Hes as [Hh Hes]. cbn [map enumerate snd]. rewrite imap_cons.
  constructor.
  - rewrite Z.add_0_r. by eapply hint_of_row.
  - specialize (IH (bn + 1) Hes). erewrite imap_ext; [exact IH|].
    intros n e _. cbn. do 2 f_equal. lia.
Qed.

Section Hints.
Context `{HttpClient} `{SqlEngine}.

(** The rows the migration of a file leaves, as the pipeline reads them. *)
Definition rows_of (es : list (Z * HeaderMetadata)) : list BlockDataRow :=
  imap (λ n e, mkBlockDataRow (as_i64 (Z.of_nat n)) (hint_of_header e.2)) es.

Lemma rows_of_lookup es k r :
  Z.of_nat (length es) <= i64_max → rows_of es !! k = Some r →
  ∃ e, es !! k = Some e ∧ r = mkBlockDataRow (Z.of_nat k) (hint_of_header e.2).
Proof.
  unfold rows_of. rewrite list_lookup_imap. intros Hl Hr.
  apply fmap_Some in Hr as (e & He & ->). exists e. split; [done|].
  rewrite as_i64_small; [done|]. apply lookup_lt_Some in He. lia.
Qed.

Lemma rows_contiguous es : Z.of_nat (length es) <= i64_max → contiguous (rows_of es).
Proof.
  intros Hl. assert (length (rows_of es) = length es) as Hlen by apply length_imap.
  split; [|by rewrite Hlen]. apply reflexive_eq. apply list_eq. intros k.
  change (map bd_number (rows_of es)) with (bd_number <$> rows_of es).
  rewrite list_lookup_fmap, Hlen. destruct (rows_of es !! k) as [r|] eqn:Hr; simpl.
  - destruct (rows_of_lookup es k r Hl Hr) as (e & He & ->). apply lookup_lt_Some in He.
    rewrite lookup_seqZ_lt by lia. done.
  - apply lookup_ge_None in Hr. rewrite lookup_seqZ_ge by lia. done.
Qed.

(** The query for hints answers with the headers of the file from the block asked for. *)
Lemma hints_of_rows es start n :
  Z.of_nat (length es) <= i64_max → 0 <= start <= i64_max →
  get_n_l2_block_data_hint start n (rows_of es) =
  map hint_of_header (take n (drop (Z.to_nat start) (map snd es))).
Proof.
  intros Hl Hs. destruct (range_rows (rows_of es) start) as (rows & _ & Hget & Hnum & Hin);
    [by apply rows_contiguous|done|].
  rewrite Hget, <- !firstn_map. f_equal. apply list_eq. intros j.
  assert (length (rows_of es) = length es) as Hlen by apply length_imap. rewrite Hlen in Hnum.
  change (@map) with (λ A B, @fmap list _ A B) in *. cbv beta in *.
  rewrite !list_lookup_fmap, lookup_drop, list_lookup_fmap.
  pose proof (f_equal (λ l, l !! j) Hnum) as Hj. cbv beta in Hj. rewrite list_lookup_fmap in Hj.
  destruct (rows !! j) as [r|] eqn:Er; simpl in Hj |- *; symmetry in Hj.
  - apply lookup_seqZ in Hj as [Hr Hlt].
    apply list_elem_of_lookup_2, Hin, list_elem_of_lookup in Er as [k Hk].
    destruct (rows_of_lookup es k r Hl Hk) as (e & He & ->). simpl in *.
    replace (Z.to_nat start + j)%nat with k by lia. by rewrite He.
  - destruct (decide (Z.of_nat j < Z.of_nat (length es) - start)).
    + by rewrite lookup_seqZ_lt in Hj by done.
    + by rewrite lookup_ge_None_2 by lia.
Qed.

(** *** The whole migration *)

Lemma migration_rows_ok execute_unprepared (MI : MigrationInfo) t :
  load_header_metadata execute_unprepared MI [] = (Ok tt, t) →
  Migrator_up execute_unprepared MI (mkMigrated empty_db []) =
  (Ok tt, mkMigrated (migrated genesis_hash) t).
Proof.
  intros Hload. unfold Migrator_up, migrations. cbn [foldr].
  erewrite bind_step by reflexivity. erewrite bind_step.
  2: { unfold on_block_data, zoom. cbn [block_data_table]. by rewrite Hload. }
  erewrite bind_step by reflexivity. by erewrite bind_step by reflexivity.
Qed.

(** C36: what a network publishes is what its nodes derive with.  When the server serves the file of
    the network's header metadata and the file has the published hash, the migrations succeed,
    whatever the order in which the chunks arrive; they leave the seeded database; and the query
    behind the hint cache then answers, for any block and any number of blocks from it, with exactly
    the headers of the file at these heights. *)
Theorem migration_serves_hints execute_unprepared (MI : MigrationInfo) url vs es :
  data_source = Some (Url url) → data_hash = Some (sha256 (encode_file vs es)) →
  serves url (encode_file vs es) → Z.of_nat (length (encode_file vs es)) <= i64_max →
  Z.of_nat (length vs) <= 255 → Forall (λ v, length v = 32%nat) vs → Forall (header_ok vs) es →
  ∃ t rows,
    Migrator_up execute_unprepared MI (mkMigrated empty_db []) =
      (Ok tt, mkMigrated (migrated genesis_hash) t) ∧
    Forall2 (λ m r, BlockDataRow_from (E := Empty_set) m = Ok r) t rows ∧
    ∀ start n, 0 <= start <= i64_max →
      get_n_l2_block_data_hint start n rows =
      map hint_of_header (take n (drop (Z.to_nat start) (map snd es))).
Proof.
  intros Hsrc Hhash Hserves Hmax Hvn Hvs Hes.
  assert (Z.of_nat (length es) <= i64_max) as Hl.
  { pose proof (length_entries vs es Hes). unfold encode_file in Hmax. simpl length in Hmax.
    rewrite length_app in Hmax. lia. }
  exists (enumerate 0 (map snd es)), (rows_of es). split_and!.
  - apply migration_rows_ok. unfold load_header_metadata. rewrite Hsrc, Hhash.
    rewrite (bind_step (lift _) _ _ (encode_file vs es) [])
      by (unfold lift; by rewrite (download_serves url (encode_file vs es))).
    rewrite (bind_step (lift _) _ _ tt [])
      by (unfold lift, verify_data_hash; by rewrite Z.eqb_refl).
    rewrite (bind_step (lift _) _ _ (map snd es) []) by (unfold lift; by rewrite decode_encode).
    apply insert_batches_Ok; [done|]. cbn [app].
    rewrite enumerate_numbers by (rewrite ?length_map; lia). apply NoDup_seqZ.
  - by apply (rows_of_headers vs).
  - intros start n Hs. by apply hints_of_rows.
Qed.
End Hints.
