(* ===== verification/ConcreteMigration.v ===== *)
(** * A concrete migration

    A network whose file has one vanity entry and two headers, served by a server that honours
    ranges and whose requests end in the reverse order. *)

From S2P Require Import Prelude Sql Primitives BigEndian Engine Concrete DbModel Pipeline Migration.
From S2P Require Import MigrationProps.

#[local] Existing Instances stored_order.

Definition vanity_0 : Bytes := replicate 32 1.
Definition header_0 : HeaderMetadata :=
  mkHeaderMetadata (vanity_0 ++ replicate 65 2) (replicate 32 3) None None 2.
Definition header_1 : HeaderMetadata :=
  mkHeaderMetadata (vanity_0 ++ replicate 85 4) (replicate 32 5) (Some (replicate 20 6)) (Some 48879) 1.
Definition metadata_file : Bytes := encode_file [vanity_0] [(0, header_0); (0, header_1)].

Definition toy_http : HttpClient := {|
  http_head _ := Ok (mkHeadResponse true (Some (Some "279")) (Some (Some "bytes")));
  http_get _ start last :=
    Ok (mkRangeResponse PARTIAL_CONTENT
          (Ok (take (Z.to_nat (last - start + 1)) (drop (Z.to_nat start) metadata_file))));
  sha256 _ := 7;
  completion := @reverse;
  completion_perm := λ A l, reverse_Permutation l
|}.
#[local] Existing Instance toy_http.

Definition toy_network : MigrationInfo :=
  {| data_source := Some (Url "https://toy.net/1.bin"); data_hash := Some 7; genesis_hash := 100 |}.

(** The nonce is stored as text. *)
Example nonce_text : bm_nonce (BlockDataModel_from 1 header_1) = Some "beef".
Proof. reflexivity. Qed.

Example header_1_decodes : decode_to_headers metadata_file = Ok [header_0; header_1].
Proof. vm_compute. reflexivity. Qed.

Lemma metadata_file_served : serves "https://toy.net/1.bin" metadata_file.
Proof. split; [vm_compute; reflexivity|]. intros start last _ _. reflexivity. Qed.

Lemma toy_headers_ok : Forall (header_ok [vanity_0]) [(0, header_0); (0, header_1)].
Proof.
  apply Forall_cons; split; [|apply Forall_cons; split; [|by apply Forall_nil]];
    split; cbn [fst snd header_0 header_1 hm_coinbase hm_nonce hm_difficulty];
    first [lia | done | by auto | by intros ? [= <-]].
Qed.

Lemma migration_serves_hints_witness : ∃ t rows,
  Migrator_up (λ _, ret tt) toy_network (mkMigrated empty_db []) =
    (Ok tt, mkMigrated (migrated 100) t) ∧
  get_n_l2_block_data_hint 1 5 rows = [hint_of_header header_1].
Proof.
  destruct (migration_serves_hints (λ _, ret tt) toy_network "https://toy.net/1.bin" [vanity_0]
              [(0, header_0); (0, header_1)]) as (t & rows & Hrun & _ & Hget).
  - reflexivity.
  - reflexivity.
  - exact metadata_file_served.
  - apply (bool_decide_unpack _). vm_compute. exact I.
  - simpl. lia.
  - by repeat constructor.
  - exact toy_headers_ok.
  - exists t, rows. split; [exact Hrun|]. apply (Hget 1 5%nat). unfold i64_max. lia.
Defined.
