(* ===== verification/Watcher.v ===== *)
(** * The L1 watcher (crates/watcher/src)

    The task that follows L1: it keeps the headers above the finalized block to detect reorgs,
    indexes the logs of the rollup contracts range by range, and sends notifications to the
    orchestrator.  The L1 node and the decoders generated from the contracts' event declarations
    (crates/l1/src/abi/logs.rs) are parameters.  The walk over unfinalized headers has no bound in
    the source: it takes fuel here, and [StillRunning] says that the fuel ran out. *)

From S2P Require Import Prelude Sql Primitives DbModel Signing.

(** ** Notifications *)

Inductive L1Notification :=
| Processed (n : Z)
| L1ReorgTo (n : Z)
| BatchCommit (bi : BlockInfo) (data : BatchCommitData)
| BatchFinalization (h : B256) (index : Z) (bi : BlockInfo)
| BatchRevert (batch : BatchInfo) (bi : BlockInfo)
| BatchRevertRange (start fin : Z) (bi : BlockInfo)
| L1MessageSent (message : TxL1Message) (bi : BlockInfo) (block_timestamp : Z)
| ConsensusUpdated (update : ConsensusUpdate)
| NewBlock (bi : BlockInfo)
| FinalizedAt (n : Z)
| Synced.

(** ** Data of L1 *)

(** The fields of an L1 header the watcher reads; two headers are equal when all fields are. *)
Record L1Header := mkL1Header {
  lh_number : Z;
  lh_hash : B256;
  lh_parent_hash : B256;
  lh_timestamp : Z
}.
#[global] Instance L1Header_eq_dec : EqDecision L1Header.
Proof. solve_decision. Defined.

Inductive BlockNumberOrTag := Latest | Finalized_tag | Number (n : Z).

Record L1Transaction := mkL1Transaction {
  l1_tx_input : Bytes;
  l1_tx_blob_versioned_hashes : option (list B256)
}.

Record Log := mkLog {
  topics : list B256;
  log_data : Bytes;
  log_block_number : option Z;
  log_block_hash : option B256;
  log_block_timestamp : option Z;
  log_transaction_hash : option B256
}.

(** The filter of [next_filtered_logs]: the addresses and the block range; the event signatures
    are fixed. *)
Record Filter := mkFilter { filter_addresses : list Address; from_block : Z; to_block : Z }.

(** The events of the contracts (l1/src/abi/logs.rs). *)
Record QueueTransaction := mkQueueTransaction {
  qt_sender : Address;
  qt_target : Address;
  qt_value : Z;
  qt_queueIndex : Z;
  qt_gasLimit : Z;
  qt_data : Bytes
}.
Record CommitBatch := mkCommitBatchEvent { cb_batch_index : Z; cb_batch_hash : B256 }.
Record FinalizeBatch := mkFinalizeBatch { fb_batch_index : Z; fb_batch_hash : B256 }.
Record RevertBatch_0 := mkRevertBatch { rb_batchIndex : Z; rb_batchHash : B256 }.
Record RevertBatch_1 := mkRevertRange { rb_startBatchIndex : Z; rb_finishBatchIndex : Z }.

(** [From<QueueTransaction> for TxL1Message]. *)
Definition TxL1Message_from (value : QueueTransaction) : TxL1Message :=
  mkTxL1Message (qt_queueIndex value) (Z.min u64_max (qt_gasLimit value)) (qt_target value)
    (qt_value value) (qt_sender value) (qt_data value).

(** The decoders and signature hashes the [sol!] macro generates. *)
Class L1Abi := {
  QueueTransaction_SIGNATURE : B256;
  CommitBatch_SIGNATURE : B256;
  FinalizeBatch_SIGNATURE : B256;
  RevertBatch_0_SIGNATURE : B256;
  RevertBatch_1_SIGNATURE : B256;
  QueueTransaction_decode_log : Log → outcome string QueueTransaction;
  CommitBatch_decode_log : Log → outcome string CommitBatch;
  FinalizeBatch_decode_log : Log → outcome string FinalizeBatch;
  RevertBatch_0_decode_log : Log → outcome string RevertBatch_0;
  RevertBatch_1_decode_log : Log → outcome string RevertBatch_1
}.

(** The L1 node's JSON-RPC. *)
Class L1Node (W : Type) := {
  l1_get_block : BlockNumberOrTag → W → outcome string (option L1Header) * W;
  l1_get_logs : Filter → W → outcome string (list Log) * W;
  l1_get_transaction_by_hash : B256 → W → outcome string (option L1Transaction) * W;
  l1_authorized_signer : Address → W → outcome string Address * W
}.

(** How [VecDeque] sizes its buffers. *)
Class Allocation := {
  with_capacity : nat → nat;
  grow : nat → nat;
  with_capacity_ge : ∀ n, (n ≤ with_capacity n)%nat
}.

(** ** Errors (error.rs) *)

Inductive EthRequestError :=
| MissingBlock (n : Z)
| MissingTransactionHash (h : B256).

Inductive FilterLogError :=
| MissingBlockNumber
| MissingBlockHash
| MissingBlockTimestamp
| LogMissingTransactionHash
| InvalidNotificationCount (expected got : Z)
| DecodeLogFailed (log_type error : string).

Inductive L1WatcherError :=
| ProviderRpc (msg : string)
| WatcherL1Provider (msg : string)
| EthRequest (e : EthRequestError)
| Logs (e : FilterLogError)
| SendError (n : L1Notification).

(** A step fails with an error of the source, or its fuel ran out. *)
Inductive StepFailure := Failed (e : L1WatcherError) | StillRunning.

(** ** State *)

Definition MAX_UNFINALIZED_BLOCK_COUNT : nat := 96.
Definition HEADER_CAPACITY : nat := 2 * MAX_UNFINALIZED_BLOCK_COUNT.

Record L1State := mkL1State { l1_head : Z; l1_finalized : Z }.

Record ScrollAddressBook := mkAddressBook {
  rollup_node_contract_address : Address;
  v1_message_queue_address : Address;
  v2_message_queue_address : Address;
  system_contract_address : Address
}.
Record NodeConfig := mkNodeConfig { address_book : ScrollAddressBook; start_l1_block : Z }.

(** The sending half of a notification channel: whether the receiver is alive, and what was sent. *)
Record NotificationSender := mkSender { receiver_alive : bool; sent : list L1Notification }.

Inductive L1WatcherCommand := ResetToBlock (block : Z) (tx : NotificationSender).

Record L1Watcher (W : Type) := mkL1Watcher {
  execution_provider : W;
  unfinalized_blocks : BoundedVec.t L1Header;
  l1_state : L1State;
  current_block_number : Z;
  sender : NotificationSender;
  is_synced : bool;
  log_query_block_range : Z;
  watcher_config : NodeConfig
}.
Arguments mkL1Watcher {W}.
Arguments execution_provider {W}.
Arguments unfinalized_blocks {W}.
Arguments l1_state {W}.
Arguments current_block_number {W}.
Arguments sender {W}.
Arguments is_synced {W}.
Arguments log_query_block_range {W}.
Arguments watcher_config {W}.

Section Watcher.
Context `{L1Abi} `{!L1Node W} `{Allocation}.

Local Notation Wt A := (M (L1Watcher W) StepFailure A).

Definition set_provider (p : W) (w : L1Watcher W) : L1Watcher W :=
  mkL1Watcher p (unfinalized_blocks w) (l1_state w) (current_block_number w) (sender w)
    (is_synced w) (log_query_block_range w) (watcher_config w).
Definition set_unfinalized (b : BoundedVec.t L1Header) (w : L1Watcher W) : L1Watcher W :=
  mkL1Watcher (execution_provider w) b (l1_state w) (current_block_number w) (sender w)
    (is_synced w) (log_query_block_range w) (watcher_config w).
Definition set_l1_state (s : L1State) (w : L1Watcher W) : L1Watcher W :=
  mkL1Watcher (execution_provider w) (unfinalized_blocks w) s (current_block_number w) (sender w)
    (is_synced w) (log_query_block_range w) (watcher_config w).
Definition set_current (n : Z) (w : L1Watcher W) : L1Watcher W :=
  mkL1Watcher (execution_provider w) (unfinalized_blocks w) (l1_state w) n (sender w)
    (is_synced w) (log_query_block_range w) (watcher_config w).
Definition set_sender (s : NotificationSender) (w : L1Watcher W) : L1Watcher W :=
  mkL1Watcher (execution_provider w) (unfinalized_blocks w) (l1_state w) (current_block_number w) s
    (is_synced w) (log_query_block_range w) (watcher_config w).
Definition set_is_synced (b : bool) (w : L1Watcher W) : L1Watcher W :=
  mkL1Watcher (execution_provider w) (unfinalized_blocks w) (l1_state w) (current_block_number w)
    (sender w) b (log_query_block_range w) (watcher_config w).

Definition werr {A} (e : L1WatcherError) : Wt A := fail (Failed e).

(** A request to the L1 node. *)
Definition rpc {A} (e : string → L1WatcherError) (m : W → outcome string A * W) : Wt A :=
  zoom execution_provider set_provider (map_err (λ msg, Failed (e msg)) m).

Definition header_info (h : L1Header) : BlockInfo := {| number := lh_number h; hash := lh_hash h |}.

(** [notify] and [notify_all]. *)
Definition watcher_notify (n : L1Notification) : Wt unit :=
  let* s := gets sender in
  if receiver_alive s then modify (set_sender (mkSender true (sent s ++ [n])))
  else werr (SendError n).
Definition notify_all (ns : list L1Notification) : Wt unit := for_each watcher_notify ns.

(** ** Following the chain *)

Definition latest_block : Wt L1Header :=
  let* b := rpc ProviderRpc (l1_get_block Latest) in lift (expect b).
Definition finalized_block : Wt L1Header :=
  let* b := rpc ProviderRpc (l1_get_block Finalized_tag) in lift (expect b).

Fixpoint position {A} (p : A → bool) (l : list A) : option nat :=
  match l with
  | [] => None
  | x :: l => if p x then Some 0%nat else S <$> position p l
  end.
(** [rposition]: the index of the last element that satisfies [p]. *)
Fixpoint rposition {A} (p : A → bool) (l : list A) : option nat :=
  match l with
  | [] => None
  | x :: l => match rposition p l with
              | Some i => Some (S i)
              | None => if p x then Some 0%nat else None
              end
  end.

(** Drops the finalized headers from the buffer. *)
Definition drain_finalized (finalized : L1Header) : Wt unit :=
  let* blocks := gets unfinalized_blocks in
  match BoundedVec.vec_last blocks with
  | None => ret tt
  | Some tail_block =>
      if lh_number tail_block <? lh_number finalized
      then modify (set_unfinalized (BoundedVec.clear blocks))
      else
        match position (λ h, lh_hash h =? lh_hash finalized) (BoundedVec.data blocks) with
        | Some p => modify (set_unfinalized (BoundedVec.drain_upto p blocks))
        | None => ret tt
        end
  end.

Definition handle_finalized_block (finalized : L1Header) : Wt unit :=
  let* s := gets l1_state in
  when l1_finalized s <? lh_number finalized then
    (modify (set_l1_state (mkL1State (l1_head s) (lh_number finalized))) ;;;
     watcher_notify (FinalizedAt (lh_number finalized))) ;;;
  drain_finalized finalized.

(** The walk of [fetch_unfinalized_chain] from the latest block down; the chain is built from the
    latest block on. *)
Fixpoint walk (fuel : nat) (finalized current_block : L1Header) (chain : list L1Header) :
    Wt (option nat * list L1Header) :=
  let* blocks := gets unfinalized_blocks in
  let pos := rposition (λ h, bool_decide (h = current_block)) (BoundedVec.data blocks) in
  if bool_decide (is_Some pos) || (lh_parent_hash current_block =? lh_hash finalized) ||
     (lh_hash current_block =? lh_hash finalized)
  then ret (pos, chain)
  else
    match fuel with
    | O => fail StillRunning
    | S fuel =>
        let n := saturating_sub (lh_number current_block) 1 in
        let* b := rpc ProviderRpc (l1_get_block (Number n)) in
        let* block := lift (ok_or (Failed (EthRequest (MissingBlock n))) b) in
        walk fuel finalized block (chain ++ [block])
    end.

Definition BoundedVec_new (capacity : nat) : BoundedVec.t L1Header :=
  BoundedVec.mk [] (with_capacity capacity).

Definition fetch_unfinalized_chain (fuel : nat) (finalized latest : L1Header) :
    Wt (BoundedVec.t L1Header) :=
  let* (split_position, chain) := walk fuel finalized latest [latest] in
  let* blocks := gets unfinalized_blocks in
  let prefix := BoundedVec.extend grow (BoundedVec_new HEADER_CAPACITY)
                  (take (default 0%nat split_position) (BoundedVec.data blocks)) in
  ret (BoundedVec.extend grow prefix (rev chain)).

(** The number below the first position at which the old and the new chain differ. *)
Fixpoint reorg_block_number (old new : list L1Header) : option Z :=
  match old, new with
  | o :: old, n :: new =>
      if negb (lh_hash o =? lh_hash n) then Some (saturating_sub (lh_number o) 1)
      else reorg_block_number old new
  | _, _ => None
  end.

Definition update_head (latest : L1Header) : Wt unit :=
  modify (λ w, set_l1_state (mkL1State (lh_number latest) (l1_finalized (l1_state w))) w) ;;;
  watcher_notify (NewBlock (header_info latest)).

Definition replace_chain (fuel : nat) (finalized latest : L1Header) : Wt unit :=
  let* old := gets unfinalized_blocks in
  let* chain := fetch_unfinalized_chain fuel finalized latest in
  let reorg := reorg_block_number (BoundedVec.data old) (BoundedVec.data chain) in
  modify (set_unfinalized chain) ;;;
  match reorg with
  | Some n =>
      modify (λ w, if n <? current_block_number w then set_current n w else w) ;;;
      watcher_notify (L1ReorgTo n)
  | None => ret tt
  end.

Definition handle_latest_block (fuel : nat) (finalized latest : L1Header) : Wt unit :=
  let* blocks := gets unfinalized_blocks in
  let tail_hash := lh_hash <$> BoundedVec.vec_last blocks in
  if bool_decide (tail_hash = Some (lh_hash latest)) then ret tt
  else
    (if bool_decide (tail_hash = Some (lh_parent_hash latest))
     then modify (set_unfinalized (BoundedVec.push_back grow blocks latest))
     else replace_chain fuel finalized latest) ;;;
    update_head latest.

(** ** Indexing the logs *)

(** [for x in l] that collects the notifications each element yields. *)
Fixpoint gather {A} (f : A → Wt (list L1Notification)) (l : list A) : Wt (list L1Notification) :=
  match l with
  | [] => ret []
  | x :: l => let* ns := f x in let* ms := gather f l in ret (ns ++ ms)
  end.

Definition logs_err {A} (e : FilterLogError) (o : option A) : Wt A :=
  lift (ok_or (Failed (Logs e)) o).
Definition decode_event {A} (log_type : string) (o : outcome string A) : Wt A :=
  lift (omap_err (λ error, Failed (Logs (DecodeLogFailed log_type error))) o).

(** [uint_try_to().expect("u256 to u64 conversion error")]. *)
Definition u256_to_u64 (z : Z) : Wt Z := lift (expect (if z <=? u64_max then Some z else None)).

Definition timestamp_of (block_number : Z) (ts : option Z) : Wt Z :=
  match ts with
  | Some ts => ret ts
  | None =>
      let* b := rpc ProviderRpc (l1_get_block (Number block_number)) in
      logs_err MissingBlockTimestamp (lh_timestamp <$> b)
  end.

Definition message_notification (log : Log) : Wt (list L1Notification) :=
  let* event := decode_event "QueueTransaction" (QueueTransaction_decode_log log) in
  let* block_number := logs_err MissingBlockNumber (log_block_number log) in
  let* block_hash := logs_err MissingBlockHash (log_block_hash log) in
  let* block_timestamp := timestamp_of block_number (log_block_timestamp log) in
  ret [L1MessageSent (TxL1Message_from event) {| number := block_number; hash := block_hash |}
         block_timestamp].
Definition handle_l1_messages (logs : list Log) : Wt (list L1Notification) :=
  gather message_notification logs.

(** [slice::chunk_by]: maximal runs in which neighbours are related. *)
Fixpoint chunk_by {A} (p : A → A → bool) (l : list A) : list (list A) :=
  match l with
  | [] => []
  | x :: l =>
      match chunk_by p l with
      | (y :: c) :: cs => if p x y then (x :: y :: c) :: cs else [x] :: (y :: c) :: cs
      | cs => [x] :: cs
      end
  end.

Definition same_transaction (a b : Log) : bool :=
  bool_decide (log_transaction_hash a = log_transaction_hash b).

(** One log of a transaction; [idx] is its position among the transaction's commits. *)
Definition commit_notification (block : BlockInfo) (block_timestamp : Z) (tx : L1Transaction)
    (entry : nat * Log) : Wt (list L1Notification) :=
  let (idx, log) := entry in
  let* commit_batch := decode_event "CommitBatch" (CommitBatch_decode_log log) in
  if cb_batch_index commit_batch =? 0 then ret []
  else
    let* batch_index := u256_to_u64 (cb_batch_index commit_batch) in
    let blob := hashes ← l1_tx_blob_versioned_hashes tx; hashes !! idx in
    ret [BatchCommit block
           {| bc_hash := cb_batch_hash commit_batch; bc_index := batch_index;
              bc_block_number := number block; bc_block_timestamp := block_timestamp;
              bc_calldata := l1_tx_input tx; bc_blob_versioned_hash := blob;
              bc_finalized_block_number := None; bc_reverted_block_number := None |}].

Definition handle_commit_transaction (logs : list Log) : Wt (list L1Notification) :=
  let* block_number := logs_err MissingBlockNumber (head logs ≫= log_block_number) in
  let* block_hash := logs_err MissingBlockHash (head logs ≫= log_block_hash) in
  let* block_timestamp := timestamp_of block_number (head logs ≫= log_block_timestamp) in
  let* tx_hash := logs_err LogMissingTransactionHash (head logs ≫= log_transaction_hash) in
  let* tx := rpc ProviderRpc (l1_get_transaction_by_hash tx_hash) in
  let* tx := lift (ok_or (Failed (EthRequest (MissingTransactionHash tx_hash))) tx) in
  gather (commit_notification {| number := block_number; hash := block_hash |} block_timestamp tx)
    (imap pair logs).
Definition handle_batch_commits (logs : list Log) : Wt (list L1Notification) :=
  gather handle_commit_transaction (chunk_by same_transaction logs).

Definition revert_notification (log : Log) : Wt (list L1Notification) :=
  let* revert_batch := decode_event "RevertBatch_0" (RevertBatch_0_decode_log log) in
  let* block_number := logs_err MissingBlockNumber (log_block_number log) in
  let* block_hash := logs_err MissingBlockHash (log_block_hash log) in
  let* batch_index := u256_to_u64 (rb_batchIndex revert_batch) in
  ret [BatchRevert {| b_index := batch_index; b_hash := rb_batchHash revert_batch |}
         {| number := block_number; hash := block_hash |}].
Definition handle_batch_reverts (logs : list Log) : Wt (list L1Notification) :=
  gather revert_notification logs.

Definition revert_range_notification (log : Log) : Wt (list L1Notification) :=
  let* revert_batch_range := decode_event "RevertBatch_1" (RevertBatch_1_decode_log log) in
  let* block_number := logs_err MissingBlockNumber (log_block_number log) in
  let* block_hash := logs_err MissingBlockHash (log_block_hash log) in
  let* start_index := u256_to_u64 (rb_startBatchIndex revert_batch_range) in
  let* end_index := u256_to_u64 (rb_finishBatchIndex revert_batch_range) in
  ret [BatchRevertRange start_index end_index {| number := block_number; hash := block_hash |}].
Definition handle_batch_revert_ranges (logs : list Log) : Wt (list L1Notification) :=
  gather revert_range_notification logs.

Definition finalization_notification (log : Log) : Wt (list L1Notification) :=
  let* finalize_batch := decode_event "FinalizeBatch" (FinalizeBatch_decode_log log) in
  if fb_batch_index finalize_batch =? 0 then ret []
  else
    let* block_number := logs_err MissingBlockNumber (log_block_number log) in
    let* block_hash := logs_err MissingBlockHash (log_block_hash log) in
    let* index := u256_to_u64 (fb_batch_index finalize_batch) in
    ret [BatchFinalization (fb_batch_hash finalize_batch) index
           {| number := block_number; hash := block_hash |}].
Definition finalization_notifications (logs : list Log) : Wt (list L1Notification) :=
  gather finalization_notification logs.

(** The signer is read when the latest block is not the head the watcher recorded. *)
Definition handle_system_contract_update (latest : L1Header) : Wt (option L1Notification) :=
  let* s := gets l1_state in
  if negb (lh_number latest =? l1_head s) then
    let* config := gets watcher_config in
    let* signer := rpc WatcherL1Provider
                     (l1_authorized_signer (system_contract_address (address_book config))) in
    ret (Some (ConsensusUpdated (AuthorizedSigner signer)))
  else ret None.

(** [from_block] and [to_block] of the next range. *)
Definition next_range (current range latest_block_number : Z) : Z * Z :=
  (saturating_add current 1, Z.min (saturating_add current range) latest_block_number).

Definition next_filtered_logs (latest_block_number : Z) : Wt (list Log) :=
  let* w := get in
  let book := address_book (watcher_config w) in
  let (from, to) := next_range (current_block_number w) (log_query_block_range w)
                      latest_block_number in
  rpc ProviderRpc
    (l1_get_logs (mkFilter [rollup_node_contract_address book; v1_message_queue_address book;
                            v2_message_queue_address book] from to)).

Definition update_current_block (latest : L1Header) : Wt unit :=
  modify (λ w, set_current (next_range (current_block_number w) (log_query_block_range w)
                              (lh_number latest)).2 w) ;;;
  let* n := gets current_block_number in
  watcher_notify (Processed n).

(** [logs[i].topics()[0]]: an index out of range panics. *)
Definition topic0 (log : Log) : Wt B256 := lift (expect (head (topics log))).

Definition handle_group (sig : B256) (group : list Log) : Wt (list L1Notification) :=
  if sig =? QueueTransaction_SIGNATURE then handle_l1_messages group
  else if sig =? CommitBatch_SIGNATURE then handle_batch_commits group
  else if sig =? FinalizeBatch_SIGNATURE then finalization_notifications group
  else if sig =? RevertBatch_0_SIGNATURE then handle_batch_reverts group
  else if sig =? RevertBatch_1_SIGNATURE then handle_batch_revert_ranges group
  else panic.

(** The two nested loops of [step]: [group] is [logs[start..i]], [logs] the rest. *)
Fixpoint handle_logs (sig : B256) (group logs : list Log) : Wt (list L1Notification) :=
  match logs with
  | [] => handle_group sig group
  | log :: rest =>
      let* next := topic0 log in
      if next =? sig then handle_logs sig (group ++ [log]) rest
      else
        let* ns := handle_group sig group in
        let* ms := handle_logs next [log] rest in
        ret (ns ++ ms)
  end.

Definition notifications_of (logs : list Log) : Wt (list L1Notification) :=
  match logs with
  | [] => ret []
  | log :: rest => let* sig := topic0 log in handle_logs sig [log] rest
  end.

(** The part of [step] that indexes the next range. *)
Definition index_range (latest : L1Header) : Wt unit :=
  let* logs := next_filtered_logs (lh_number latest) in
  let* ns := notifications_of logs in
  let* update := handle_system_contract_update latest in
  let notifications := ns ++ option_list update in
  if Nat.ltb (length logs) (length notifications)
  then werr (Logs (InvalidNotificationCount (Z.of_nat (length logs))
                     (Z.of_nat (length notifications))))
  else
    notify_all notifications ;;;
    update_current_block latest.

Definition watcher_step (fuel : nat) : Wt unit :=
  let* finalized := finalized_block in
  handle_finalized_block finalized ;;;
  let* latest := latest_block in
  handle_latest_block fuel finalized latest ;;;
  let* current := gets current_block_number in
  when negb (lh_number latest =? current) then index_range latest.

(** ** Commands, the loop and the start *)

Definition watcher_handle_command (command : L1WatcherCommand) : Wt unit :=
  match command with
  | ResetToBlock block tx =>
      modify (λ w, set_sender tx (set_is_synced false (set_current block w)))
  end.

(** One round of [run] with the commands pending at its start; [false] when the watcher stops. *)
Definition run_round (fuel : nat) (commands : list L1WatcherCommand) : Wt bool :=
  for_each watcher_handle_command commands ;;;
  let* r := try (watcher_step fuel) in
  match r with
  | inr StillRunning => fail StillRunning
  | inr (Failed (SendError _)) => ret false
  | _ =>
      let* w := get in
      if is_synced w then ret true
      else if current_block_number w =? l1_head (l1_state w) then
        let* r := try (watcher_notify Synced) in
        match r with
        | inr StillRunning => fail StillRunning
        | inr (Failed (SendError _)) => ret false
        | _ => modify (set_is_synced true) ;;; ret true
        end
      else ret true
  end.

End Watcher.

Section Spawn.
Context `{!L1Node W} `{Allocation}.

(** [fetch_block_info]: retries until the node answers with a block. *)
Fixpoint fetch_block_info (fuel : nat) (tag : BlockNumberOrTag) : M W StepFailure BlockInfo :=
  match fuel with
  | O => fail StillRunning
  | S fuel =>
      let* r := try (l1_get_block tag) in
      match r with
      | inl (Some h) => ret (header_info h)
      | _ => fetch_block_info fuel tag
      end
  end.

(** The search for the latest unsafe block L1 still has: [blocks] in reverse, [i] its position. *)
Fixpoint find_unsafe (fuel : nat) (i : nat) (blocks : list BlockInfo) (start_block : Z) :
    M W StepFailure (bool * Z) :=
  match blocks with
  | [] => ret (true, start_block)
  | block :: blocks =>
      let* current_block := fetch_block_info fuel (Number (number block)) in
      if hash current_block =? hash block
      then ret (negb (Nat.eqb i 0), number current_block)
      else find_unsafe fuel (S i) blocks start_block
  end.

Definition startup_block (fuel : nat) (info : L1BlockStartupInfo) (config : NodeConfig) :
    M W StepFailure (bool * Z) :=
  match info with
  | UnsafeBlocks blocks =>
      let* first := lift (expect (head blocks)) in
      find_unsafe fuel 0 (rev blocks) (number first)
  | FinalizedBlockNumber n => ret (false, n)
  | NoStartupInfo => ret (false, start_l1_block config)
  end.

(** [spawn]: the watcher it starts, after the first notifications. *)
Definition spawn (fuel : nat) (info : L1BlockStartupInfo) (config : NodeConfig)
    (log_query_block_range : Z) : M W StepFailure (L1Watcher W) :=
  let* head := fetch_block_info fuel Latest in
  let* finalized := fetch_block_info fuel Finalized_tag in
  let* (reorg, start_block) := startup_block fuel info config in
  let* p := get in
  ret (mkL1Watcher p (BoundedVec_new HEADER_CAPACITY)
         (mkL1State (number head) (number finalized)) (saturating_sub start_block 1)
         (mkSender true
            ((if reorg then [L1ReorgTo start_block] else []) ++
             [FinalizedAt (number finalized); NewBlock head]))
         false log_query_block_range config).

End Spawn.
