(* ===== verification/WatcherProps.v ===== *)
(** * What the L1 watcher reports

    On an L1 whose finalized tag lags its head, the watcher follows every replacement of the
    unfinalized chain and reports it at the fork point. *)

From S2P Require Import Prelude Sql Primitives DbModel Signing Watcher.

(** ** Chains of headers *)

(** [l] continues [prev] without a gap. *)
Fixpoint linked (prev : L1Header) (l : list L1Header) : Prop :=
  match l with
  | [] => True
  | h :: l => lh_parent_hash h = lh_hash prev ∧ lh_number h = lh_number prev + 1 ∧ linked h l
  end.

(** A hash names one header. *)
Definition hashes_distinct (l : list L1Header) : Prop :=
  ∀ a b, a ∈ l → b ∈ l → lh_hash a = lh_hash b → a = b.

(** The length of the common prefix. *)
Fixpoint common (A B : list L1Header) : nat :=
  match A, B with
  | a :: A, b :: B => if bool_decide (a = b) then S (common A B) else 0%nat
  | _, _ => 0%nat
  end.

(** The number of the last block two chains above [fin] share, when they fork. *)
Definition fork_point (fin : L1Header) (A B : list L1Header) : option Z :=
  let k := common A B in
  if Nat.ltb k (length A) && Nat.ltb k (length B) then Some (lh_number fin + Z.of_nat k) else None.

Lemma linked_number prev l i h :
  linked prev l → l !! i = Some h → lh_number h = lh_number prev + Z.of_nat i + 1.
Proof.
  revert prev i. induction l as [|x l IH]; intros prev [|i] Hl Hi; simplify_eq/=; [lia|].
  destruct Hl as (_ & Hx & Hl). rewrite (IH x i Hl Hi). lia.
Qed.

Lemma linked_app prev l l' :
  linked prev (l ++ l') ↔ linked prev l ∧ linked (default prev (last l)) l'.
Proof.
  revert prev. induction l as [|x l IH]; intros prev; simpl; [tauto|].
  rewrite (IH x). destruct l as [|y l]; simpl; [tauto|].
  destruct (last_is_Some (y :: l)) as [_ Hs].
  destruct Hs as [z Hz]; [done|]. simpl in Hz. rewrite Hz. simpl. tauto.
Qed.

Lemma linked_snoc prev l x :
  linked prev (l ++ [x]) →
  linked prev l ∧ lh_parent_hash x = lh_hash (default prev (last l)) ∧
  lh_number x = lh_number (default prev (last l)) + 1.
Proof. rewrite linked_app. simpl. tauto. Qed.

Lemma linked_above prev l h : linked prev l → h ∈ l → lh_number prev < lh_number h.
Proof.
  intros Hl [i Hi]%list_elem_of_lookup. rewrite (linked_number _ _ _ _ Hl Hi). lia.
Qed.

Lemma linked_drop prev l i h : linked prev l → l !! i = Some h → linked h (drop (S i) l).
Proof.
  intros Hl Hi. rewrite <- (take_drop (S i) l) in Hl. apply linked_app in Hl as [_ Hl].
  by rewrite (take_S_r l i h Hi), last_snoc in Hl.
Qed.

Lemma hashes_distinct_mono l l' : (∀ h, h ∈ l → h ∈ l') → hashes_distinct l' → hashes_distinct l.
Proof. intros Hs Hd a b Ha Hb. apply Hd; auto. Qed.

(** Two chains above the same header that share a block agree up to it. *)
Lemma linked_common_prefix fin A B i j h :
  linked fin A → linked fin B → hashes_distinct (fin :: A ++ B) →
  A !! i = Some h → B !! j = Some h → i = j ∧ take (S i) A = take (S i) B.
Proof.
  intros HA HB Hd Hi Hj.
  assert (i = j) as <-.
  { pose proof (linked_number _ _ _ _ HA Hi). pose proof (linked_number _ _ _ _ HB Hj). lia. }
  split; [done|]. revert h Hi Hj. induction i as [|i IH]; intros h Hi Hj.
  - by rewrite (take_S_r _ _ _ Hi), (take_S_r _ _ _ Hj).
  - destruct (lookup_lt_is_Some_2 A i) as [a Ha]; [apply lookup_lt_Some in Hi; lia|].
    destruct (lookup_lt_is_Some_2 B i) as [b Hb]; [apply lookup_lt_Some in Hj; lia|].
    pose proof (linked_drop _ _ _ _ HA Ha) as Hla. pose proof (linked_drop _ _ _ _ HB Hb) as Hlb.
    rewrite (drop_S _ _ _ Hi) in Hla. rewrite (drop_S _ _ _ Hj) in Hlb.
    destruct Hla as [Hpa _], Hlb as [Hpb _].
    assert (a = b) as <-.
    { apply Hd; [..|congruence].
      - apply elem_of_cons; right; apply elem_of_app; left. by eapply list_elem_of_lookup_2.
      - apply elem_of_cons; right; apply elem_of_app; right. by eapply list_elem_of_lookup_2. }
    rewrite (take_S_r A (S i) h Hi), (take_S_r B (S i) h Hj). f_equal. by eapply IH.
Qed.

Lemma linked_same_last fin A B h :
  linked fin A → linked fin B → hashes_distinct (fin :: A ++ B) →
  last A = Some h → last B = Some h → A = B.
Proof.
  intros HA HB Hd Ha Hb. rewrite last_lookup in Ha, Hb.
  destruct (linked_common_prefix _ _ _ _ _ _ HA HB Hd Ha Hb) as [He Ht].
  apply lookup_lt_Some in Ha, Hb. rewrite <- (take_ge A (S (pred (length A)))) by lia.
  rewrite Ht. apply take_ge. lia.
Qed.

(** A chain whose last block is the child of the last block of another extends it. *)
Lemma linked_extension fin A B t latest :
  linked fin A → linked fin B → hashes_distinct (fin :: A ++ B) → last A = Some t →
  last B = Some latest → lh_hash t = lh_parent_hash latest → B = A ++ [latest].
Proof.
  intros HA HB Hd Ht Hl Hp. apply last_Some in Hl as [B1 ->]. f_equal.
  destruct (linked_snoc _ _ _ HB) as (HB1 & Hp' & _).
  assert (t ∈ fin :: A ++ B1 ++ [latest]) as HtA
    by (right; apply elem_of_app; left; by apply last_Some_elem_of).
  destruct B1 as [|b B1 _] using rev_ind.
  - exfalso. cbn in Hp'. assert (t = fin) as -> by (apply Hd; [done|left|congruence]).
    apply last_Some_elem_of, (linked_above fin) in Ht; [lia|done].
  - rewrite last_snoc in Hp'. cbn in Hp'.
    assert (b ∈ fin :: A ++ (B1 ++ [b]) ++ [latest]) as Hb
      by (right; rewrite !elem_of_app; right; left; right; left).
    assert (t = b) as -> by (apply Hd; [done..|congruence]).
    symmetry. apply (linked_same_last fin _ _ b); [done..| |done|apply last_snoc].
    eapply hashes_distinct_mono, Hd. intros h. rewrite !elem_of_cons, !elem_of_app. tauto.
Qed.

Lemma reorg_block_number_fork fin A B :
  linked fin A → linked fin B → hashes_distinct (A ++ B) → 0 <= lh_number fin →
  reorg_block_number A B = fork_point fin A B.
Proof.
  unfold fork_point. revert fin B. induction A as [|a A IH]; intros fin [|b B] HA HB Hd Hf;
    [done..|].
  simpl in HA, HB. destruct HA as (Hpa & Hna & HA), HB as (Hpb & Hnb & HB). simpl.
  destruct (bool_decide_reflect (a = b)) as [<-|Hne].
  - rewrite Z.eqb_refl. simpl.
    rewrite (IH a B); [|done|done| |lia].
    + replace (lh_number fin + Z.of_nat (S (common A B)))
        with (lh_number a + Z.of_nat (common A B)) by lia. done.
    + eapply hashes_distinct_mono, Hd. intros h. rewrite !elem_of_app, !elem_of_cons. tauto.
  - destruct (Z.eqb_spec (lh_hash a) (lh_hash b)) as [He|He].
    + destruct Hne. apply Hd; [| |done]; rewrite !elem_of_app, !elem_of_cons; tauto.
    + simpl. f_equal. unfold saturating_sub. lia.
Qed.

Lemma rposition_Some {A} (p : A → bool) l i : rposition p l = Some i → ∃ x, l !! i = Some x ∧ p x.
Proof.
  revert i. induction l as [|y l IH]; intros i Hi; simplify_eq/=.
  destruct (rposition p l) as [j|] eqn:E; simplify_eq/=; [by apply IH|].
  destruct (p y) eqn:Ey; simplify_eq/=. exists y. split; [done|]. by rewrite Ey.
Qed.

Lemma position_Some {A} (p : A → bool) l i : position p l = Some i → ∃ x, l !! i = Some x ∧ p x.
Proof.
  revert i. induction l as [|y l IH]; intros i Hi; simplify_eq/=.
  destruct (p y) eqn:Ey; simplify_eq/=; [exists y; by rewrite Ey|].
  destruct (position p l) as [j|] eqn:E; simplify_eq/=. by apply IH.
Qed.
Lemma position_None {A} (p : A → bool) l x : position p l = None → x ∈ l → p x = false.
Proof.
  induction l as [|y l IH]; intros Hp Hx; [by apply not_elem_of_nil in Hx|]. simpl in Hp.
  destruct (p y) eqn:Ey; [done|]. destruct (position p l) eqn:E; [done|].
  apply elem_of_cons in Hx as [->|]; auto.
Qed.

Lemma elem_of_snoc {A} (l : list A) x : x ∈ l ++ [x].
Proof. apply elem_of_app. right. left. Qed.

(** ** Following the chain *)

Section Follow.
Context `{L1Abi} `{!L1Node W} `{Allocation}.
Implicit Types (w : L1Watcher W) (fin latest : L1Header) (A B : list L1Header).

(** The node serves the headers of [B] by number, and serving them leaves it as it is. *)
Definition serves (p : W) (B : list L1Header) : Prop :=
  ∀ h, h ∈ B → l1_get_block (Number (lh_number h)) p = (Ok (Some h), p).

(** The watcher after the notifications [ns]. *)
Definition notified (ns : list L1Notification) w : L1Watcher W :=
  set_sender (mkSender (receiver_alive (sender w)) (sent (sender w) ++ ns)) w.

Lemma watcher_notify_run n w :
  receiver_alive (sender w) = true → watcher_notify n w = (Ok tt, notified [n] w).
Proof.
  intros Ha. unfold watcher_notify, bind, gets, notified, modify. cbv beta iota. by rewrite Ha.
Qed.

Lemma rpc_served e B h w :
  serves (execution_provider w) B → h ∈ B →
  rpc e (l1_get_block (Number (lh_number h))) w = (Ok (Some h), w).
Proof.
  intros Hs Hh. unfold rpc, zoom, map_err. rewrite (Hs h Hh). simpl. by destruct w.
Qed.

(** A context of the walk: the served chain is [B1 ++ cur :: B2], and the walk is at [cur]. *)
Record walk_at fin B1 cur B2 w : Prop := {
  wa_old : linked fin (BoundedVec.data (unfinalized_blocks w));
  wa_new : linked fin (B1 ++ cur :: B2);
  wa_distinct : hashes_distinct (fin :: BoundedVec.data (unfinalized_blocks w) ++ B1 ++ cur :: B2);
  wa_number : 0 <= lh_number fin;
  wa_serves : serves (execution_provider w) (B1 ++ cur :: B2)
}.

Lemma walk_not_final fin B1 cur B2 w : walk_at fin B1 cur B2 w → lh_hash cur ≠ lh_hash fin.
Proof.
  intros [_ HB Hd _ _] He.
  assert (lh_number fin < lh_number cur)
    by (eapply linked_above; [exact HB|apply elem_of_app; right; left]).
  apply Hd in He; [subst; lia| |left]. right. rewrite !elem_of_app, elem_of_cons. tauto.
Qed.

(** The walk is at the lowest served block exactly when its parent is the finalized block. *)
Lemma walk_lowest fin B1 cur B2 w :
  walk_at fin B1 cur B2 w → lh_parent_hash cur = lh_hash fin → B1 = [].
Proof.
  intros Hat Hp. destruct B1 as [|b B1 _] using rev_ind; [done|].
  destruct Hat as [_ HB Hd _ _]. rewrite <- app_assoc in HB, Hd. simpl in HB, Hd.
  assert (lh_number fin < lh_number b)
    by (eapply linked_above; [exact HB|apply elem_of_app; right; left]).
  apply linked_app in HB as [_ (_ & _ & Hparent & _)].
  assert (b = fin) as ->; [|lia].
  apply Hd; [right; rewrite !elem_of_app, elem_of_cons; tauto|left|congruence].
Qed.

(** One round of the walk: it stops and knows how much of the old chain to keep, or it goes on at
    the parent. *)
Lemma walk_round fin B1 cur B2 w :
  walk_at fin B1 cur B2 w →
  (∃ pos, take (default 0%nat pos) (BoundedVec.data (unfinalized_blocks w)) = B1 ∧
     ∀ fuel chain, walk fuel fin cur chain w = (Ok (pos, chain), w)) ∨
  (∃ B1' b, B1 = B1' ++ [b] ∧
     ∀ fuel chain, walk (S fuel) fin cur chain w = walk fuel fin b (chain ++ [b]) w).
Proof.
  intros Hat. pose proof Hat as [HA HB Hd Hf Hs].
  set (A := BoundedVec.data (unfinalized_blocks w)) in *.
  destruct (rposition (λ h, bool_decide (h = cur)) A) as [i|] eqn:Epos.
  - left. exists (Some i). split.
    + apply rposition_Some in Epos as (x & Hx & ->%bool_decide_unpack).
      destruct (linked_common_prefix fin A _ i (length B1) cur HA HB Hd Hx) as [-> Ht];
        [by rewrite lookup_app_r, Nat.sub_diag by lia|].
      apply (f_equal (take (length B1))) in Ht. rewrite !take_take, !Nat.min_l in Ht by lia.
      cbn [from_option id]. by rewrite Ht, take_app_length.
    + intros [|fuel] chain; simpl; unfold bind, gets; fold A; by rewrite Epos.
  - destruct (Z.eqb_spec (lh_parent_hash cur) (lh_hash fin)) as [Ep|Ep].
    + left. exists None. split; [by rewrite (walk_lowest _ _ _ _ _ Hat Ep)|].
      intros [|fuel] chain; simpl; unfold bind, gets; fold A;
        rewrite Epos, Ep, Z.eqb_refl; simpl; done.
    + right. apply linked_app in HB as [HB1 (Hp & Hn & _)].
      destruct B1 as [|b B1 _] using rev_ind; [done|]. rewrite last_snoc in Hn. cbn in Hn.
      exists B1, b. split; [done|]. intros fuel chain. cbn [walk].
      unfold bind at 1, gets. cbv beta iota. fold A. rewrite Epos.
      rewrite (proj2 (Z.eqb_neq _ _) Ep), (proj2 (Z.eqb_neq _ _) (walk_not_final _ _ _ _ _ Hat)).
      simpl. assert (lh_number fin < lh_number b)
        by (eapply linked_above; [exact HB1|apply elem_of_snoc]).
      replace (saturating_sub (lh_number cur) 1) with (lh_number b)
        by (unfold saturating_sub; lia).
      unfold bind at 1. rewrite (rpc_served _ _ b w Hs); [done|].
      apply elem_of_app. left. apply elem_of_snoc.
Qed.

Lemma walk_finds fuel fin B1 cur B2 w :
  walk_at fin B1 cur B2 w → (length B1 ≤ fuel)%nat →
  ∃ pos chain, walk fuel fin cur (rev (cur :: B2)) w = (Ok (pos, chain), w) ∧
    take (default 0%nat pos) (BoundedVec.data (unfinalized_blocks w)) ++ rev chain =
    B1 ++ cur :: B2.
Proof.
  revert B1 cur B2. induction fuel as [|fuel IH]; intros B1 cur B2 Hat Hfuel;
    destruct (walk_round _ _ _ _ _ Hat) as [(pos & Ht & Hw)|(B1' & b & -> & Hw)].
  1,3: exists pos, (rev (cur :: B2)); by rewrite Hw, Ht, rev_involutive.
  all: rewrite length_app in Hfuel; simpl in Hfuel.
  1: lia.
  destruct Hat as [HA HB Hd Hf Hs]. rewrite <- app_assoc in HB, Hd, Hs |- *.
  rewrite Hw. apply (IH B1' b (cur :: B2)); [done|lia].
Qed.

(** The watcher's buffer holds [A], the node serves [B], both above the finalized block [fin]. *)
Record follows fin A B w : Prop := {
  fo_data : BoundedVec.data (unfinalized_blocks w) = A;
  fo_capacity : (HEADER_CAPACITY ≤ BoundedVec.capacity (unfinalized_blocks w))%nat;
  fo_old : linked fin A;
  fo_new : linked fin B;
  fo_distinct : hashes_distinct (fin :: A ++ B);
  fo_number : 0 <= lh_number fin;
  fo_bound : (length B ≤ HEADER_CAPACITY)%nat;
  fo_serves : serves (execution_provider w) B;
  fo_alive : receiver_alive (sender w) = true
}.

Lemma BoundedVec_new_wf : BoundedVec.wf (BoundedVec_new HEADER_CAPACITY).
Proof.
  pose proof (with_capacity_ge HEADER_CAPACITY) as Hg. split; simpl; [|lia].
  assert (0 < HEADER_CAPACITY)%nat by (apply Nat.ltb_lt; reflexivity). lia.
Qed.

Lemma fetch_unfinalized_chain_spec fuel fin A B latest w :
  follows fin A B w → last B = Some latest → (length B ≤ fuel)%nat →
  ∃ cap, fetch_unfinalized_chain fuel fin latest w = (Ok (BoundedVec.mk B cap), w) ∧
    (HEADER_CAPACITY ≤ cap)%nat.
Proof.
  intros [HA Hc HlA HlB Hd Hn Hb Hs Ha] Hlast Hfuel. apply last_Some in Hlast as [B1 ->].
  rewrite length_app in Hfuel. simpl in Hfuel.
  destruct (walk_finds fuel fin B1 latest [] w) as (pos & chain & Hw & Ht);
    [split; rewrite ?HA; done|lia|].
  unfold fetch_unfinalized_chain, bind at 1. simpl rev in Hw. rewrite Hw. cbv beta iota.
  unfold bind, gets, ret. simpl.
  set (v := BoundedVec_new HEADER_CAPACITY).
  pose proof (BoundedVec_new_wf : BoundedVec.wf v) as Hwf.
  set (l1 := take _ _). unfold BoundedVec.extend. rewrite <- foldl_app.
  fold (BoundedVec.extend grow v (l1 ++ rev chain)).
  rewrite (Ht : l1 ++ rev chain = _). destruct (BoundedVec.extend_spec grow v (B1 ++ [latest]) Hwf) as [Hcap Hdata].
  destruct (BoundedVec.extend grow v (B1 ++ [latest])) as [d c]. simpl in Hcap, Hdata.
  exists c. pose proof (with_capacity_ge HEADER_CAPACITY). rewrite Hcap.
  split; [|done]. rewrite Hdata, (proj2 (Nat.sub_0_le _ _)) by lia. done.
Qed.

(** The notifications of a poll that finds the chain [B] instead of [A]. *)
Definition chain_notifications fin A B latest : list L1Notification :=
  if bool_decide (last A = Some latest) then []
  else option_list (L1ReorgTo <$> fork_point fin A B) ++ [NewBlock (header_info latest)].

Lemma fork_point_same fin A : fork_point fin A A = None.
Proof.
  unfold fork_point. replace (common A A) with (length A).
  - by rewrite Nat.ltb_irrefl.
  - induction A as [|a A IH]; simpl; [done|]. by rewrite bool_decide_eq_true_2, <- IH.
Qed.

Lemma common_app A B : common A (A ++ B) = length A.
Proof. induction A as [|a A IH]; simpl; [done|]. by rewrite bool_decide_eq_true_2, IH. Qed.

Lemma fork_point_extension fin A B : fork_point fin A (A ++ B) = None.
Proof. unfold fork_point. by rewrite common_app, Nat.ltb_irrefl. Qed.

Lemma notified_app ns ms w : notified ms (notified ns w) = notified (ns ++ ms) w.
Proof. unfold notified. simpl. by rewrite app_assoc. Qed.

Lemma update_head_run latest w :
  receiver_alive (sender w) = true →
  update_head latest w =
    (Ok tt, notified [NewBlock (header_info latest)]
              (set_l1_state (mkL1State (lh_number latest) (l1_finalized (l1_state w))) w)).
Proof.
  intros Ha. unfold update_head, bind at 1, modify. cbv beta iota. by apply watcher_notify_run.
Qed.

Lemma replace_chain_spec fuel fin A B latest w :
  follows fin A B w → last B = Some latest → (length B ≤ fuel)%nat →
  ∃ cap, (HEADER_CAPACITY ≤ cap)%nat ∧
    replace_chain fuel fin latest w =
      (Ok tt, notified (option_list (L1ReorgTo <$> fork_point fin A B))
                (set_current (from_option (Z.min (current_block_number w)) (current_block_number w)
                                (fork_point fin A B))
                   (set_unfinalized (BoundedVec.mk B cap) w))).
Proof.
  intros Hfo Hlast Hfuel.
  destruct (fetch_unfinalized_chain_spec _ _ _ _ _ _ Hfo Hlast Hfuel) as (cap & Hfetch & Hcap).
  exists cap. split; [done|]. destruct Hfo as [HA Hc HlA HlB Hd Hn Hb Hs Ha].
  unfold replace_chain, bind at 1, gets. cbv beta iota. unfold bind at 1. rewrite Hfetch.
  cbv beta iota. rewrite HA. cbn [BoundedVec.data].
  rewrite (reorg_block_number_fork fin) by
    first [done|eapply hashes_distinct_mono, Hd; intros h ?; by right].
  unfold bind at 1, modify. cbv beta iota. destruct (fork_point fin A B) as [n|]; cbn [from_option].
  - unfold bind at 1. cbn [current_block_number set_unfinalized].
    rewrite watcher_notify_run by (by destruct (_ <? _)).
    f_equal. f_equal. destruct (Z.ltb_spec n (current_block_number w)).
    + by rewrite Z.min_r by lia.
    + rewrite Z.min_l by lia. by destruct w.
  - unfold ret, notified. simpl. rewrite app_nil_r. by destruct w as [? ? ? ? [] ? ? ?].
Qed.

Lemma handle_latest_block_spec fuel fin A B latest w :
  follows fin A B w → last B = Some latest → (length B ≤ fuel)%nat →
  ∃ cap head, (HEADER_CAPACITY ≤ cap)%nat ∧ (A ≠ B → head = lh_number latest) ∧
    handle_latest_block fuel fin latest w =
      (Ok tt, notified (chain_notifications fin A B latest)
                (set_l1_state (mkL1State head (l1_finalized (l1_state w)))
                   (set_current
                      (from_option (Z.min (current_block_number w)) (current_block_number w)
                         (fork_point fin A B))
                      (set_unfinalized (BoundedVec.mk B cap) w)))).
Proof.
  intros Hfo Hlast Hfuel. pose proof Hfo as [HA Hc HlA HlB Hd Hn Hb Hs Ha].
  assert (∀ h, last A = Some h → lh_hash h = lh_hash latest → h = latest) as Hinj.
  { intros h Hh. apply Hd; right; apply elem_of_app; [left|right]; by apply last_Some_elem_of. }
  unfold handle_latest_block, bind at 1, gets, chain_notifications. cbv beta iota.
  unfold BoundedVec.vec_last. rewrite HA.
  destruct (bool_decide_reflect (last A = Some latest)) as [HlastA|HlastA].
  - assert (A = B) as <- by by eapply linked_same_last. rewrite HlastA. simpl.
    rewrite bool_decide_eq_true_2 by done. exists (BoundedVec.capacity (unfinalized_blocks w)).
    exists (l1_head (l1_state w)). split; [done|]. split; [done|].
    rewrite fork_point_same. unfold ret, notified. simpl. rewrite app_nil_r.
    destruct w as [? [] [] ? [] ? ? ?]; simpl in *. by subst.
  - rewrite bool_decide_eq_false_2 by
      (destruct (last A) eqn:E; [intros [= ?]; destruct HlastA; f_equal; auto|done]).
    case_bool_decide as Htail.
    + destruct (last A) as [t|] eqn:E; [|done]. simpl in Htail. injection Htail as Htail.
      assert (B = A ++ [latest]) as -> by by eapply linked_extension.
      exists (BoundedVec.capacity (unfinalized_blocks w)), (lh_number latest).
      split; [done|]. split; [done|]. rewrite fork_point_extension.
      unfold bind, modify. cbv beta iota. rewrite update_head_run by done.
      rewrite length_app in Hb. simpl in Hb.
      destruct (BoundedVec.push_back_spec grow (unfinalized_blocks w) latest) as [Hcap Hdata].
      { unfold BoundedVec.wf. rewrite HA. unfold HEADER_CAPACITY, MAX_UNFINALIZED_BLOCK_COUNT in *. lia. }
      destruct (BoundedVec.push_back grow _ _) as [d c]. simpl in Hcap, Hdata. subst c.
      rewrite HA, (proj2 (Nat.sub_0_le _ _)) in Hdata by lia. subst d. done.
    + destruct (replace_chain_spec _ _ _ _ _ _ Hfo Hlast Hfuel) as (cap & Hcap & Hrep).
      exists cap, (lh_number latest). split; [done|]. split; [done|].
      unfold bind. rewrite Hrep. cbv beta iota. rewrite update_head_run by done.
      unfold notified. simpl. by rewrite app_assoc.
Qed.

(** In a chain that continues to [fin], [fin] is not above the last block, and [position] finds it. *)
Lemma drain_position fin0 A0 P fin A :
  linked fin0 A0 → fin0 :: A0 = P ++ fin :: A → hashes_distinct (fin0 :: A0) →
  (∀ t, last A0 = Some t → lh_number fin <= lh_number t) ∧
  match position (λ h, lh_hash h =? lh_hash fin) A0 with
  | Some p => drop (S p) A0 = A
  | None => A0 = A
  end.
Proof.
  intros Hl Heq Hd. destruct P as [|y P]; simplify_eq/=.
  - split.
    + intros t Ht%last_Some_elem_of. pose proof (linked_above _ _ _ Hl Ht). lia.
    + destruct (position _ A) as [p|] eqn:Ep; [|done]. exfalso.
      apply position_Some in Ep as (x & Hx%list_elem_of_lookup_2 & He%Is_true_true%Z.eqb_eq).
      assert (x = fin) as -> by (apply Hd; [by right|left|done]).
      pose proof (linked_above _ _ _ Hl Hx). lia.
  - split.
    + intros t Ht. apply linked_app in Hl as [_ (_ & _ & Hl)].
      rewrite last_app_cons in Ht. destruct A as [|a A]; simplify_eq/=; [lia|].
      apply (last_Some_elem_of (a :: A)) in Ht. pose proof (linked_above _ (a :: A) _ Hl Ht). lia.
    + destruct (position _ _) as [p|] eqn:Ep.
      * apply position_Some in Ep as (x & Hx & He%Is_true_true%Z.eqb_eq).
        assert (x = fin) as ->.
        { apply Hd; [right; by eapply list_elem_of_lookup_2| |done].
          right. apply elem_of_app. right. left. }
        pose proof (linked_number _ _ _ _ Hl Hx) as H1.
        pose proof (linked_number y (P ++ fin :: A) (length P) fin Hl) as H2.
        rewrite lookup_app_r, Nat.sub_diag in H2 by lia. specialize (H2 eq_refl).
        replace p with (length P) by lia. rewrite drop_app_ge by lia.
        by replace (S (length P) - length P)%nat with 1%nat by lia.
      * exfalso. apply (position_None _ _ fin) in Ep; [|apply elem_of_app; right; left].
        cbv beta in Ep. by rewrite Z.eqb_refl in Ep.
Qed.

Lemma drain_finalized_spec fin0 A0 P fin A w :
  BoundedVec.data (unfinalized_blocks w) = A0 → linked fin0 A0 → fin0 :: A0 = P ++ fin :: A →
  hashes_distinct (fin0 :: A0) →
  drain_finalized fin w =
    (Ok tt, set_unfinalized (BoundedVec.mk A (BoundedVec.capacity (unfinalized_blocks w))) w).
Proof.
  intros HA Hl Heq Hd. destruct (drain_position _ _ _ _ _ Hl Heq Hd) as [Hle Hpos].
  assert (A0 = A → (@Ok StepFailure _ tt, w) = (Ok tt, set_unfinalized
    (BoundedVec.mk A (BoundedVec.capacity (unfinalized_blocks w))) w)) as Hkeep.
  { intros ->. destruct w as [? [] ? ? ? ? ? ?]. simpl in *. by subst. }
  unfold drain_finalized, bind, gets. cbv beta iota. unfold BoundedVec.vec_last. rewrite HA.
  destruct (last A0) as [t|] eqn:Et.
  - rewrite (proj2 (Z.ltb_ge _ _)) by by apply Hle.
    destruct (position _ A0) as [p|] eqn:Ep; [|by apply Hkeep].
    unfold modify, BoundedVec.drain_upto. by rewrite HA, Hpos.
  - apply Hkeep. apply last_None in Et. rewrite Et in Hpos. by rewrite Et.
Qed.

(** The finality part of the notifications. *)
Definition finality_notifications w fin : list L1Notification :=
  if l1_finalized (l1_state w) <? lh_number fin then [FinalizedAt (lh_number fin)] else [].

Lemma handle_finalized_block_spec fin0 A0 P fin A w :
  BoundedVec.data (unfinalized_blocks w) = A0 → linked fin0 A0 → fin0 :: A0 = P ++ fin :: A →
  hashes_distinct (fin0 :: A0) → receiver_alive (sender w) = true →
  handle_finalized_block fin w =
    (Ok tt, notified (finality_notifications w fin)
              (set_l1_state (mkL1State (l1_head (l1_state w))
                               (Z.max (l1_finalized (l1_state w)) (lh_number fin)))
                 (set_unfinalized
                    (BoundedVec.mk A (BoundedVec.capacity (unfinalized_blocks w))) w))).
Proof.
  intros HA Hl Heq Hd Ha. unfold handle_finalized_block, finality_notifications, bind at 1, gets.
  cbv beta iota. destruct (Z.ltb_spec (l1_finalized (l1_state w)) (lh_number fin)).
  - rewrite Z.max_r by lia. unfold bind at 1. unfold bind at 1, modify. cbv beta iota.
    rewrite watcher_notify_run by done. by erewrite drain_finalized_spec by done.
  - rewrite Z.max_l by lia. unfold bind, ret. erewrite drain_finalized_spec by done.
    unfold notified. simpl. rewrite app_nil_r. by destruct w as [? ? [] ? [] ? ? ?].
Qed.

(** What the watcher knows and what L1 answers when the finalized tag lags the head: the buffer
    holds the chain [A0] above an earlier finalized block [fin0]; the finalized block [fin] is on
    it, with [A] above; and the node serves [B] above [fin], up to the latest block. *)
Record lagging_l1 fin0 A0 fin A B w : Prop := {
  la_data : BoundedVec.data (unfinalized_blocks w) = A0;
  la_capacity : (HEADER_CAPACITY ≤ BoundedVec.capacity (unfinalized_blocks w))%nat;
  la_old : linked fin0 A0;
  la_finalized : fin :: A `suffix_of` fin0 :: A0;
  la_new : linked fin B;
  la_distinct : hashes_distinct (fin0 :: A0 ++ B);
  la_number : 0 <= lh_number fin;
  la_bound : (length B ≤ HEADER_CAPACITY)%nat;
  la_serves : serves (execution_provider w) B;
  la_alive : receiver_alive (sender w) = true
}.

Lemma linked_suffix fin0 A0 fin A :
  linked fin0 A0 → fin :: A `suffix_of` fin0 :: A0 → linked fin A.
Proof.
  intros Hl [P HP]. destruct P as [|y P]; simplify_eq/=; [done|].
  by apply linked_app in Hl as [_ (_ & _ & Hl)].
Qed.

(** C7: on an L1 whose finalized tag lags its head, one poll of the watcher replaces its buffer by
    exactly the chain the node serves above the finalized block.  It reports [Reorg] with the last
    common block when the served chain forks from the buffered one, and rewinds its cursor to it
    when it had indexed past it; it reports no reorg when the chain only grew.  A walk of as many
    rounds as there are unfinalized blocks is enough. *)
Theorem chain_followed fuel fin0 A0 fin A B latest w :
  lagging_l1 fin0 A0 fin A B w → last B = Some latest → (length B ≤ fuel)%nat →
  ∃ w', (handle_finalized_block fin ;;; handle_latest_block fuel fin latest) w = (Ok tt, w') ∧
    BoundedVec.data (unfinalized_blocks w') = B ∧
    sent (sender w') = sent (sender w) ++ finality_notifications w fin ++
                         chain_notifications fin A B latest ∧
    current_block_number w' =
      from_option (Z.min (current_block_number w)) (current_block_number w) (fork_point fin A B) ∧
    l1_finalized (l1_state w') = Z.max (l1_finalized (l1_state w)) (lh_number fin) ∧
    (A ≠ B → l1_head (l1_state w') = lh_number latest) ∧
    lagging_l1 fin B fin B B w'.
Proof.
  intros [HA Hc HlA HP HlB Hd Hn Hb Hs Ha] Hlast Hfuel.
  pose proof (linked_suffix _ _ _ _ HlA HP) as HlA'. destruct HP as [P HP].
  unfold bind. rewrite (handle_finalized_block_spec fin0 A0 P fin A w); [|done..| |done].
  2: { eapply hashes_distinct_mono, Hd. intros h. rewrite !elem_of_cons, elem_of_app. tauto. }
  set (w1 := notified _ _).
  assert (hashes_distinct (fin :: A ++ B)) as Hd'.
  { eapply hashes_distinct_mono, Hd. intros h. rewrite !app_comm_cons, HP, !elem_of_app.
    tauto. }
  destruct (handle_latest_block_spec fuel fin A B latest w1) as (cap & head & Hcap & Hhead & Hrun);
    [by split|done..|].
  eexists. split; [exact Hrun|]. split; [done|]. split; [simpl; by rewrite <- app_assoc|].
  do 2 (split; [done|]). split; [exact Hhead|]. split; try done.
  eapply hashes_distinct_mono, Hd'. intros h. rewrite !elem_of_cons, !elem_of_app. tauto.
Qed.

(** ** A walk without an end *)

(** The node serves the chain [g :: l] from the genesis block [g]; neither it nor the buffer leads
    to the finalized block [fin]. *)
Record foreign_chain fin g (l : list L1Header) w : Prop := {
  fc_linked : linked g l;
  fc_genesis : lh_number g = 0;
  fc_serves : serves (execution_provider w) (g :: l);
  fc_foreign : ∀ h, h ∈ g :: l →
    lh_hash h ≠ lh_hash fin ∧ lh_parent_hash h ≠ lh_hash fin ∧
    h ∉ BoundedVec.data (unfinalized_blocks w)
}.

Lemma walk_foreign_round fuel fin g l h b chain w :
  foreign_chain fin g l w → h ∈ g :: l → b ∈ g :: l →
  saturating_sub (lh_number h) 1 = lh_number b →
  walk (S fuel) fin h chain w = walk fuel fin b (chain ++ [b]) w ∧
  walk 0 fin h chain w = (Err StillRunning, w).
Proof.
  intros [_ _ Hs Hf] Hh Hb Hn. destruct (Hf h Hh) as (H1 & H2 & H3).
  assert (rposition (λ x, bool_decide (x = h)) (BoundedVec.data (unfinalized_blocks w)) = None) as Hp.
  { destruct (rposition _ _) as [i|] eqn:E; [|done]. destruct H3.
    apply rposition_Some in E as (x & Hx & ->%bool_decide_unpack). by eapply list_elem_of_lookup_2. }
  assert (bool_decide (is_Some (None : option nat)) = false) as Hno
    by (apply bool_decide_eq_false_2; by intros []).
  split; cbn [walk]; unfold bind at 1, gets; cbv beta iota;
    rewrite Hp, Hno, (proj2 (Z.eqb_neq _ _) H1), (proj2 (Z.eqb_neq _ _) H2); [|done].
  rewrite Hn. simpl. unfold bind at 1. by rewrite (rpc_served _ _ b w Hs Hb).
Qed.

(** The block the walk asks for below [h]. *)
Lemma foreign_below fin g l h w :
  foreign_chain fin g l w → h ∈ g :: l →
  ∃ b, b ∈ g :: l ∧ saturating_sub (lh_number h) 1 = lh_number b.
Proof.
  intros [Hl Hg _ _] [->|[i Hi]%list_elem_of_lookup]%elem_of_cons.
  { exists g. split; [left|by rewrite Hg]. }
  pose proof (linked_number _ _ _ _ Hl Hi). destruct i as [|i].
  { exists g. split; [left|unfold saturating_sub; lia]. }
  destruct (lookup_lt_is_Some_2 l i) as [b Hb]; [apply lookup_lt_Some in Hi; lia|].
  pose proof (linked_number _ _ _ _ Hl Hb). exists b.
  split; [right; by eapply list_elem_of_lookup_2|unfold saturating_sub; lia].
Qed.

Lemma walk_foreign fuel fin g l h chain w :
  foreign_chain fin g l w → h ∈ g :: l → walk fuel fin h chain w = (Err StillRunning, w).
Proof.
  intros Hc. revert h chain. induction fuel as [|fuel IH]; intros h chain Hh;
    destruct (foreign_below _ _ _ _ _ Hc Hh) as (b & Hb & Hn).
  - by destruct (walk_foreign_round 0 fin g l h b chain w Hc Hh Hb Hn).
  - destruct (walk_foreign_round fuel fin g l h b chain w Hc Hh Hb Hn) as [Hr _].
    rewrite Hr. by apply IH.
Qed.

(** when the finalized block the watcher just read is not on the chain the node now serves (the
    node switched chains between the two requests, or its finalized tag is its head), the walk over
    the unfinalized headers has no end on a chain served from genesis: at block 0 it asks for block
    0 again, and no amount of fuel gives a result. *)
Theorem foreign_finalized_walk_never_ends fuel fin g l latest w :
  foreign_chain fin g l w → last (g :: l) = Some latest →
  (∀ t, last (BoundedVec.data (unfinalized_blocks w)) = Some t →
     lh_hash t ≠ lh_hash latest ∧ lh_hash t ≠ lh_parent_hash latest) →
  handle_latest_block fuel fin latest w = (Err StillRunning, w).
Proof.
  intros Hc Hl Ht. unfold handle_latest_block, bind at 1, gets, BoundedVec.vec_last. cbv beta iota.
  rewrite !bool_decide_eq_false_2.
  2,3: destruct (last (BoundedVec.data _)) as [t|]; [|done]; intros [= Heq];
    by destruct (Ht t eq_refl).
  unfold replace_chain, bind, gets, fetch_unfinalized_chain, bind.
  by rewrite (walk_foreign _ _ g l) by (done || by apply last_Some_elem_of).
Qed.
End Follow.
