(* ===== verification/WatcherRuns.v ===== *)
(** * The logs the L1 watcher relays

    The logs of a range are relayed one by one and in the order of the chain, whatever way [step]
    groups them by event and transaction. *)

From S2P Require Import Prelude Sql Primitives DbModel Signing Watcher WatcherProps.

Section Runs.
Context `{L1Abi} `{!L1Node W} `{Allocation}.
Implicit Types (w : L1Watcher W).

Notation Wt A := (M (L1Watcher W) StepFailure A).

(** ** Computations that only talk to the L1 node *)

Definition reads_only {A} (m : Wt A) : Prop := ∀ w, ∃ p, (m w).2 = set_provider p w.

Lemma set_provider_same w : set_provider (execution_provider w) w = w.
Proof. by destruct w. Qed.

Lemma reads_id {A} (m : Wt A) : (∀ w, (m w).2 = w) → reads_only m.
Proof. intros Hm w. exists (execution_provider w). by rewrite Hm, set_provider_same. Qed.
Lemma reads_ret {A} (a : A) : reads_only (ret a).
Proof. by apply reads_id. Qed.
Lemma reads_panic {A} : reads_only (@panic _ _ A).
Proof. by apply reads_id. Qed.
Lemma reads_fail {A} e : reads_only (@fail _ _ A e).
Proof. by apply reads_id. Qed.
Lemma reads_lift {A} (o : outcome StepFailure A) : reads_only (lift o).
Proof. by apply reads_id. Qed.
Lemma reads_gets {A} (f : L1Watcher W → A) : reads_only (gets f).
Proof. by apply reads_id. Qed.
Lemma reads_get : reads_only get.
Proof. by apply reads_id. Qed.
Lemma reads_rpc {A} e (m : W → outcome string A * W) : reads_only (rpc e m).
Proof.
  intros w. unfold rpc, zoom, map_err. destruct (m (execution_provider w)) as [o p]. by exists p.
Qed.
Lemma reads_bind {A B} (m : Wt A) (k : A → Wt B) :
  reads_only m → (∀ a, reads_only (k a)) → reads_only (bind m k).
Proof.
  intros Hm Hk w. destruct (Hm w) as [p Hp]. unfold bind.
  destruct (m w) as [[a|e|] w1]; simpl in Hp; subst w1; [|by exists p..].
  destruct (Hk a (set_provider p w)) as [p' Hp']. exists p'. by rewrite Hp'.
Qed.
Lemma reads_gather {A} (f : A → Wt (list L1Notification)) l :
  (∀ x, reads_only (f x)) → reads_only (gather f l).
Proof.
  intros Hf. induction l; simpl; [apply reads_ret|].
  apply reads_bind; [done|]. intros. apply reads_bind; [done|]. intros. apply reads_ret.
Qed.
Lemma reads_if {A} (b : bool) (m1 m2 : Wt A) :
  reads_only m1 → reads_only m2 → reads_only (if b then m1 else m2).
Proof. by destruct b. Qed.

Create HintDb reads discriminated.
#[local] Hint Resolve reads_ret reads_panic reads_fail reads_lift reads_gets reads_get reads_rpc
  reads_bind reads_gather reads_if : reads.

Ltac reads :=
  repeat first
    [ progress intros
    | apply reads_bind | apply reads_gather | apply reads_if
    | progress auto with reads
    | case_out ].

Lemma timestamp_of_reads n ts : reads_only (timestamp_of n ts).
Proof. unfold timestamp_of. destruct ts; reads. Qed.
#[local] Hint Resolve timestamp_of_reads : reads.

Lemma handle_group_reads sig group : reads_only (handle_group sig group).
Proof.
  unfold handle_group, handle_l1_messages, handle_batch_commits, finalization_notifications,
    handle_batch_reverts, handle_batch_revert_ranges.
  repeat apply reads_if; try apply reads_gather; try apply reads_panic; intros x;
    unfold message_notification, handle_commit_transaction, finalization_notification,
      revert_notification, revert_range_notification, decode_event, logs_err, u256_to_u64; reads.
  unfold commit_notification, decode_event, u256_to_u64. destruct x0. reads.
Qed.

Lemma handle_logs_reads sig group logs : reads_only (handle_logs sig group logs).
Proof.
  revert sig group. induction logs as [|log logs IH]; intros sig group; simpl;
    [apply handle_group_reads|].
  apply reads_bind; [apply reads_lift|]. intros next. apply reads_if; [apply IH|].
  apply reads_bind; [apply handle_group_reads|]. intros. apply reads_bind; [apply IH|]. reads.
Qed.

Lemma notifications_of_reads logs : reads_only (notifications_of logs).
Proof.
  destruct logs; simpl; [apply reads_ret|]. apply reads_bind; [apply reads_lift|].
  intros. apply handle_logs_reads.
Qed.

Lemma next_filtered_logs_reads n : reads_only (next_filtered_logs n).
Proof. unfold next_filtered_logs. reads. Qed.

Lemma handle_system_contract_update_reads latest : reads_only (handle_system_contract_update latest).
Proof. unfold handle_system_contract_update. reads. Qed.

(** ** The logs are relayed in order *)

(** The position of every log among its neighbours of the same event and transaction, with the
    first of them. *)
Definition same_event (a b : Log) : bool :=
  bool_decide (head (topics a) = head (topics b)) && same_transaction a b.
Definition in_chunk (chunk : list Log) : list (Log * nat * Log) :=
  match chunk with
  | [] => []
  | first :: _ => imap (λ i log, (first, i, log)) chunk
  end.
Definition positions (logs : list Log) : list (Log * nat * Log) :=
  chunk_by same_event logs ≫= in_chunk.

Definition event_of (log : Log) (sig : B256) : Prop := head (topics log) = Some sig.
Definition block_of (log : Log) (block : BlockInfo) : Prop :=
  log_block_number log = Some (number block) ∧ log_block_hash log = Some (hash block).
(** The timestamp of the log, or of the block the node serves for it. *)
Definition time_of (log : Log) (n ts : Z) : Prop :=
  match log_block_timestamp log with
  | Some t => ts = t
  | None => ∃ p p' h, l1_get_block (Number n) p = (Ok (Some h), p') ∧ ts = lh_timestamp h
  end.

(** The notifications one log gives: [first] is the first log of its run of commits, [idx] its
    position in the run. *)
Inductive relays (first : Log) (idx : nat) (log : Log) : list L1Notification → Prop :=
| relays_message event block ts :
    event_of log QueueTransaction_SIGNATURE → QueueTransaction_decode_log log = Ok event →
    block_of log block → time_of log (number block) ts →
    relays first idx log [L1MessageSent (TxL1Message_from event) block ts]
| relays_genesis_commit event :
    event_of log CommitBatch_SIGNATURE → CommitBatch_decode_log log = Ok event →
    cb_batch_index event = 0 → relays first idx log []
| relays_commit event block ts h tx p p' :
    event_of log CommitBatch_SIGNATURE → CommitBatch_decode_log log = Ok event →
    0 ≠ cb_batch_index event → cb_batch_index event <= u64_max →
    block_of first block → time_of first (number block) ts → log_transaction_hash first = Some h →
    l1_get_transaction_by_hash h p = (Ok (Some tx), p') →
    relays first idx log
      [BatchCommit block
         {| bc_hash := cb_batch_hash event; bc_index := cb_batch_index event;
            bc_block_number := number block; bc_block_timestamp := ts;
            bc_calldata := l1_tx_input tx;
            bc_blob_versioned_hash := (l1_tx_blob_versioned_hashes tx ≫= (.!! idx));
            bc_finalized_block_number := None; bc_reverted_block_number := None |}]
| relays_genesis_finalization event :
    event_of log FinalizeBatch_SIGNATURE → FinalizeBatch_decode_log log = Ok event →
    fb_batch_index event = 0 → relays first idx log []
| relays_finalization event block :
    event_of log FinalizeBatch_SIGNATURE → FinalizeBatch_decode_log log = Ok event →
    0 ≠ fb_batch_index event → fb_batch_index event <= u64_max → block_of log block →
    relays first idx log [BatchFinalization (fb_batch_hash event) (fb_batch_index event) block]
| relays_revert event block :
    event_of log RevertBatch_0_SIGNATURE → RevertBatch_0_decode_log log = Ok event →
    rb_batchIndex event <= u64_max → block_of log block →
    relays first idx log
      [BatchRevert {| b_index := rb_batchIndex event; b_hash := rb_batchHash event |} block]
| relays_revert_range event block :
    event_of log RevertBatch_1_SIGNATURE → RevertBatch_1_decode_log log = Ok event →
    rb_startBatchIndex event <= u64_max → rb_finishBatchIndex event <= u64_max →
    block_of log block →
    relays first idx log
      [BatchRevertRange (rb_startBatchIndex event) (rb_finishBatchIndex event) block].

Definition relays_at (entry : Log * nat * Log) (ns : list L1Notification) : Prop :=
  relays entry.1.1 entry.1.2 entry.2 ns.

(** [ns] relays [entries] one by one and in order. *)
Definition relays_all (entries : list (Log * nat * Log)) (ns : list L1Notification) : Prop :=
  ∃ nss, ns = concat nss ∧ Forall2 relays_at entries nss.

Lemma relays_all_app e1 e2 ns ms :
  relays_all e1 ns → relays_all e2 ms → relays_all (e1 ++ e2) (ns ++ ms).
Proof.
  intros (nss & -> & H1) (mss & -> & H2). exists (nss ++ mss).
  split; [by rewrite concat_app|by apply Forall2_app].
Qed.

Lemma relays_all_one e ns : relays_at e ns → relays_all [e] ns.
Proof. intros He. exists [ns]. simpl. rewrite app_nil_r. auto. Qed.

Lemma gather_relays {A} (f : A → Wt (list L1Notification)) (entries : A → list (Log * nat * Log))
    (P : A → Prop) l w ns w' :
  (∀ x w ns w', P x → f x w = (Ok ns, w') → relays_all (entries x) ns) →
  Forall P l → gather f l w = (Ok ns, w') → relays_all (l ≫= entries) ns.
Proof.
  intros Hf HP. revert w ns w'. induction HP as [|x l Hx HP IH]; intros w ns w' Hrun; simpl in Hrun.
  - unfold ret in Hrun. simplify_eq. exists []. split; [done|constructor].
  - apply bind_Ok in Hrun as (ns1 & w1 & H1 & Hrun). apply bind_Ok in Hrun as (ms & w2 & H2 & Hrun).
    unfold ret in Hrun. simplify_eq. apply relays_all_app; eauto.
Qed.

Lemma timestamp_of_Ok n (log : Log) w ts w' :
  timestamp_of n (log_block_timestamp log) w = (Ok ts, w') → time_of log n ts.
Proof.
  unfold timestamp_of, time_of. destruct (log_block_timestamp log) as [t|].
  - unfold ret. intros. by simplify_eq.
  - intros (b & w1 & Hb & Hts)%bind_Ok. unfold rpc, zoom, map_err in Hb.
    destruct (l1_get_block (Number n) (execution_provider w)) as [[]] eqn:E; simplify_eq/=.
    apply lift_Ok in Hts as [Hts _]. destruct b as [h|]; simplify_eq/=. eauto 6.
Qed.

Lemma logs_err_Ok {A} e (o : option A) w a w' : logs_err e o w = (Ok a, w') → o = Some a ∧ w' = w.
Proof. unfold logs_err. intros [Ho ->]%lift_Ok. by destruct o; simplify_eq/=. Qed.
Lemma decode_event_Ok {A} ty (o : outcome string A) w a w' :
  decode_event ty o w = (Ok a, w') → o = Ok a ∧ w' = w.
Proof. unfold decode_event. intros [Ho ->]%lift_Ok. by destruct o; simplify_eq/=. Qed.
Lemma u256_to_u64_Ok z w a w' : u256_to_u64 z w = (Ok a, w') → a = z ∧ z <= u64_max ∧ w' = w.
Proof.
  unfold u256_to_u64. intros [Ho ->]%lift_Ok. destruct (Z.leb_spec z u64_max); by simplify_eq/=.
Qed.

Lemma rpc_Ok {A} e (m : W → outcome string A * W) w a w' :
  rpc e m w = (Ok a, w') →
  ∃ p', m (execution_provider w) = (Ok a, p') ∧ w' = set_provider p' w.
Proof.
  unfold rpc, zoom, map_err. destruct (m (execution_provider w)) as [[] p']; intros; simplify_eq/=.
  eauto.
Qed.

(** Splits a successful run into its steps. *)
Ltac wsteps :=
  repeat match goal with
  | Hr : bind _ _ _ = (Ok _, _) |- _ => apply bind_Ok in Hr as (? & ? & ? & Hr); cbv beta in Hr
  | Hr : logs_err _ _ _ = (Ok _, _) |- _ => apply logs_err_Ok in Hr as [? ->]
  | Hr : decode_event _ _ _ = (Ok _, _) |- _ => apply decode_event_Ok in Hr as [? ->]
  | Hr : u256_to_u64 _ _ = (Ok _, _) |- _ => apply u256_to_u64_Ok in Hr as (-> & ? & ->)
  | Hr : rpc _ _ _ = (Ok _, _) |- _ => apply rpc_Ok in Hr as (? & ? & ->)
  | Hr : timestamp_of _ _ _ = (Ok _, _) |- _ => apply timestamp_of_Ok in Hr
  | Hr : ret _ _ = (Ok _, _) |- _ => unfold ret in Hr; simplify_eq
  end.

Lemma message_relays log w ns w' :
  event_of log QueueTransaction_SIGNATURE → message_notification log w = (Ok ns, w') →
  ∀ first idx, relays first idx log ns.
Proof.
  intros He Hr first idx. unfold message_notification in Hr. wsteps. by eapply relays_message.
Qed.

Lemma finalization_relays log w ns w' :
  event_of log FinalizeBatch_SIGNATURE → finalization_notification log w = (Ok ns, w') →
  ∀ first idx, relays first idx log ns.
Proof.
  intros He Hr first idx. unfold finalization_notification in Hr. wsteps.
  destruct (Z.eqb_spec (fb_batch_index x) 0); wsteps; [by eapply relays_genesis_finalization|].
  by eapply relays_finalization.
Qed.

Lemma revert_relays log w ns w' :
  event_of log RevertBatch_0_SIGNATURE → revert_notification log w = (Ok ns, w') →
  ∀ first idx, relays first idx log ns.
Proof.
  intros He Hr first idx. unfold revert_notification in Hr. wsteps. by eapply relays_revert.
Qed.

Lemma revert_range_relays log w ns w' :
  event_of log RevertBatch_1_SIGNATURE → revert_range_notification log w = (Ok ns, w') →
  ∀ first idx, relays first idx log ns.
Proof.
  intros He Hr first idx. unfold revert_range_notification in Hr. wsteps.
  by eapply relays_revert_range.
Qed.

Lemma chunk_by_head {A} (p : A → A → bool) x l :
  ∃ c cs, chunk_by p (x :: l) = (x :: c) :: cs.
Proof. simpl. destruct (chunk_by p l) as [|[|y c] cs]; eauto. case_match; eauto. Qed.

Lemma chunk_by_app {A} (p : A → A → bool) l1 l2 :
  (∀ x y, last l1 = Some x → head l2 = Some y → p x y = false) →
  chunk_by p (l1 ++ l2) = chunk_by p l1 ++ chunk_by p l2.
Proof.
  induction l1 as [|x [|x' l1] IH]; intros Hp; [done| |].
  - destruct l2 as [|y l2]; [done|]. destruct (chunk_by_head p y l2) as (c & cs & E).
    change ([x] ++ y :: l2) with (x :: y :: l2). cbn [chunk_by] in *. rewrite E.
    by rewrite (Hp x y).
  - destruct (chunk_by_head p x' l1) as (c & cs & E).
    change ((x :: x' :: l1) ++ l2) with (x :: ((x' :: l1) ++ l2)).
    change (chunk_by p (x :: (x' :: l1) ++ l2)) with
      (match chunk_by p ((x' :: l1) ++ l2) with
       | (y :: c) :: cs => if p x y then (x :: y :: c) :: cs else [x] :: (y :: c) :: cs
       | cs => [x] :: cs end).
    change (chunk_by p (x :: x' :: l1)) with
      (match chunk_by p (x' :: l1) with
       | (y :: c) :: cs => if p x y then (x :: y :: c) :: cs else [x] :: (y :: c) :: cs
       | cs => [x] :: cs end).
    rewrite IH by (intros; by apply Hp). rewrite E. simpl. by destruct (p x x').
Qed.

Lemma chunk_by_concat {A} (p : A → A → bool) l : concat (chunk_by p l) = l.
Proof.
  induction l as [|x l IH]; [done|]. simpl. rewrite <- IH at 2.
  destruct (chunk_by p l) as [|[|y c] cs]; [done..|]. by destruct (p x y).
Qed.

Lemma chunk_by_ext {A} (p q : A → A → bool) l :
  (∀ x y, x ∈ l → y ∈ l → p x y = q x y) → chunk_by p l = chunk_by q l.
Proof.
  induction l as [|x l IH]; intros Hpq; [done|]. simpl.
  rewrite IH by (intros; apply Hpq; by right).
  destruct (chunk_by q l) as [|[|y c] cs] eqn:E; [done..|]. rewrite Hpq; [done|left|].
  right. rewrite <- (chunk_by_concat q l), E. left.
Qed.

Lemma in_chunk_snd c : (in_chunk c).*2 = c.
Proof.
  destruct c as [|x c]; [done|]. unfold in_chunk. rewrite fmap_imap.
  etrans; [apply (imap_const id)|apply list_fmap_id].
Qed.

Lemma positions_snd logs : (positions logs).*2 = logs.
Proof.
  unfold positions. rewrite <- (chunk_by_concat same_event logs) at 2.
  induction (chunk_by same_event logs) as [|c cs IH]; [done|].
  by rewrite bind_cons, fmap_app, IH, in_chunk_snd.
Qed.

Lemma gather_each (f : Log → Wt (list L1Notification)) sig :
  (∀ log w ns w', event_of log sig → f log w = (Ok ns, w') →
     ∀ first idx, relays first idx log ns) →
  ∀ group w ns w', Forall (λ log, event_of log sig) group → gather f group w = (Ok ns, w') →
  relays_all (positions group) ns.
Proof.
  intros Hf group w ns w' Hg Hrun.
  assert (∃ nss, ns = concat nss ∧
            Forall2 (λ log ns, ∀ first idx, relays first idx log ns) group nss) as (nss & -> & Hall).
  { revert w ns w' Hrun. induction Hg as [|log group Hlog Hg IH]; intros w ns w' Hrun; simpl in Hrun.
    - wsteps. by exists [].
    - wsteps. match goal with Hr : gather _ _ _ = _ |- _ => destruct (IH _ _ _ Hr) as (nss & -> & Hall) end. exists (x :: nss).
      split; [done|]. constructor; eauto. }
  exists nss. split; [done|]. rewrite <- (positions_snd group), Forall2_fmap_l in Hall.
  eapply Forall2_impl; [exact Hall|]. intros [[first idx] log] ms Hr. apply Hr.
Qed.

Lemma commit_relays first block ts h tx p p' entry w ns w' :
  event_of entry.2 CommitBatch_SIGNATURE → block_of first block → time_of first (number block) ts →
  log_transaction_hash first = Some h → l1_get_transaction_by_hash h p = (Ok (Some tx), p') →
  commit_notification block ts tx entry w = (Ok ns, w') →
  relays_all [(first, entry.1, entry.2)] ns.
Proof.
  intros He Hb Ht Hh Htx Hr. apply relays_all_one. destruct entry as [idx log].
  unfold commit_notification in Hr. wsteps.
  destruct (Z.eqb_spec (cb_batch_index x) 0); wsteps; [by eapply relays_genesis_commit|].
  by eapply relays_commit.
Qed.

Lemma in_chunk_bind first rest :
  imap pair (first :: rest) ≫= (λ x, [(first, x.1, x.2)]) = in_chunk (first :: rest).
Proof.
  assert (∀ l : list (nat * Log), l ≫= (λ x, [(first, x.1, x.2)]) = (λ x, (first, x.1, x.2)) <$> l)
    as -> by (intros l; by induction l as [|y l IH]; [|rewrite bind_cons, IH]).
  by rewrite fmap_imap.
Qed.

Lemma commit_transaction_relays chunk w ns w' :
  Forall (λ log, event_of log CommitBatch_SIGNATURE) chunk →
  handle_commit_transaction chunk w = (Ok ns, w') → relays_all (in_chunk chunk) ns.
Proof.
  intros Hc Hr. unfold handle_commit_transaction in Hr. wsteps.
  destruct chunk as [|first rest]; [done|]. cbn [head mbind option_bind] in *.
  match goal with Hl : lift (ok_or _ ?t) _ = _ |- _ =>
    apply lift_Ok in Hl as [Htx ->]; destruct t as [tx|]; [|done]; injection Htx as -> end.
  match goal with Hn : log_block_number first = Some ?n, Hh : log_block_hash first = Some ?h |- _ =>
    assert (block_of first {| number := n; hash := h |}) as Hb by done end.
  wsteps.
  eapply (gather_relays _ (λ x, [(first, x.1, x.2)]) (λ x, event_of x.2 CommitBatch_SIGNATURE))
    in Hr; [|by intros; eapply commit_relays|].
  - by rewrite in_chunk_bind in Hr.
  - apply Forall_lookup. intros i [j log] Hi. apply list_lookup_imap_Some in Hi as (l & Hl & Heq).
    simplify_eq. by eapply Forall_lookup in Hc.
Qed.

Lemma group_relays sig group w ns w' :
  Forall (λ log, event_of log sig) group → handle_group sig group w = (Ok ns, w') →
  relays_all (positions group) ns.
Proof.
  intros Hg. unfold handle_group.
  destruct (Z.eqb_spec sig QueueTransaction_SIGNATURE) as [->|_].
  { by apply (gather_each _ _ (λ log w ns w', message_relays log w ns w')). }
  destruct (Z.eqb_spec sig CommitBatch_SIGNATURE) as [->|_].
  { unfold handle_batch_commits, positions. intros Hr.
    rewrite (chunk_by_ext same_event same_transaction).
    - eapply (gather_relays _ in_chunk (Forall (λ log, event_of log CommitBatch_SIGNATURE))), Hr;
        [by intros; eapply commit_transaction_relays|].
      rewrite <- (chunk_by_concat same_transaction group) in Hg. by apply Forall_concat.
    - intros x y Hx Hy. unfold same_event. rewrite Forall_forall in Hg.
      by rewrite (Hg x Hx), (Hg y Hy), bool_decide_eq_true_2. }
  destruct (Z.eqb_spec sig FinalizeBatch_SIGNATURE) as [->|_].
  { by apply (gather_each _ _ (λ log w ns w', finalization_relays log w ns w')). }
  destruct (Z.eqb_spec sig RevertBatch_0_SIGNATURE) as [->|_].
  { by apply (gather_each _ _ (λ log w ns w', revert_relays log w ns w')). }
  destruct (Z.eqb_spec sig RevertBatch_1_SIGNATURE) as [->|_]; [|done].
  by apply (gather_each _ _ (λ log w ns w', revert_range_relays log w ns w')).
Qed.

Lemma handle_logs_relays sig group logs w ns w' :
  Forall (λ log, event_of log sig) group → handle_logs sig group logs w = (Ok ns, w') →
  relays_all (positions (group ++ logs)) ns.
Proof.
  revert sig group w ns w'. induction logs as [|log logs IH]; intros sig group w ns w' Hg Hr.
  { rewrite app_nil_r. by eapply group_relays. }
  simpl in Hr. apply bind_Ok in Hr as (next & w1 & [Hn ->]%lift_Ok & Hr).
  destruct (head (topics log)) as [next'|] eqn:Hlog; [|done]. injection Hn as ->.
  destruct (Z.eqb_spec next sig) as [->|Hne].
  - replace (group ++ log :: logs) with ((group ++ [log]) ++ logs) by (by rewrite <- app_assoc).
    eapply IH, Hr. apply Forall_app. split; [done|]. by apply Forall_singleton.
  - wsteps. unfold positions. rewrite chunk_by_app, bind_app.
    + apply relays_all_app; [by eapply group_relays|].
      eapply (IH next [log]); [by apply Forall_singleton|eassumption].
    + intros a b Ha Hb. simplify_eq/=. unfold same_event. apply andb_false_intro1.
      apply bool_decide_eq_false. rewrite Forall_forall in Hg.
      rewrite (Hg a) by by apply last_Some_elem_of. congruence.
Qed.

Lemma notifications_of_relays logs w ns w' :
  notifications_of logs w = (Ok ns, w') → relays_all (positions logs) ns.
Proof.
  destruct logs as [|log logs]; simpl; intros Hr; [unfold ret in Hr; simplify_eq; by exists []|].
  apply bind_Ok in Hr as (sig & w1 & [Hs ->]%lift_Ok & Hr).
  destruct (head (topics log)) as [sig'|] eqn:Hlog; [|done]. injection Hs as ->.
  eapply (handle_logs_relays sig [log]), Hr. by apply Forall_singleton.
Qed.

Lemma relays_all_length entries ns :
  relays_all entries ns → (length ns ≤ length entries)%nat.
Proof.
  intros (nss & -> & Hall). induction Hall as [|e ns entries nss He _ IH]; simpl; [done|].
  rewrite length_app. assert (length ns ≤ 1)%nat by (unfold relays_at in He; destruct He; simpl; lia). lia.
Qed.

Lemma positions_length logs : length (positions logs) = length logs.
Proof. rewrite <- (positions_snd logs) at 2. by rewrite length_fmap. Qed.

Lemma watcher_notify_Ok n w a w' :
  watcher_notify n w = (Ok a, w') → w' = notified [n] w ∧ receiver_alive (sender w) = true.
Proof.
  unfold watcher_notify, bind, gets. cbv beta iota. destruct (receiver_alive (sender w)) eqn:E; [|done].
  unfold modify, notified. intros Hr. simplify_eq. by rewrite E.
Qed.

Lemma notified_nil w : notified [] w = w.
Proof. unfold notified. rewrite app_nil_r. by destruct w as [? ? ? ? [] ? ? ?]. Qed.

Lemma notify_all_Ok ns w a w' : notify_all ns w = (Ok a, w') → w' = notified ns w.
Proof.
  unfold notify_all. revert w. induction ns as [|n ns IH]; intros w Hr; simpl in Hr.
  - unfold ret in Hr. simplify_eq. by rewrite notified_nil.
  - apply bind_Ok in Hr as (? & w1 & [-> _]%watcher_notify_Ok & Hr).
    apply IH in Hr as ->. by rewrite notified_app.
Qed.

(** C8: when the watcher indexes a range, it asks the L1 node for exactly the blocks after its
    cursor, up to the query range and no further than the latest block; it relays every log it
    gets, one by one and in the order of the chain, the i-th commit of a transaction with the i-th
    blob; and it ends with the range reported as processed and the cursor at its end.  The comment of
    [next_filtered_logs] gives the range as [current; current + range], but it starts one later: the
    block of the cursor was indexed with the range before. *)
Theorem range_indexed latest w w' :
  lh_number latest = l1_head (l1_state w) → index_range latest w = (Ok tt, w') →
  let book := address_book (watcher_config w) in
  let range := (saturating_add (current_block_number w) 1,
                Z.min (saturating_add (current_block_number w) (log_query_block_range w)) (lh_number latest)) in
  ∃ logs p ns,
    l1_get_logs (mkFilter [rollup_node_contract_address book; v1_message_queue_address book;
                           v2_message_queue_address book] range.1 range.2)
      (execution_provider w) = (Ok logs, p) ∧
    relays_all (positions logs) ns ∧
    sender w' = mkSender true (sent (sender w) ++ ns ++ [Processed range.2]) ∧
    current_block_number w' = range.2.
Proof.
  intros Hhead Hr book range. unfold index_range in Hr.
  apply bind_Ok in Hr as (logs & w1 & Hlogs & Hr).
  unfold next_filtered_logs, bind at 1, get in Hlogs. cbv beta iota in Hlogs.
  apply rpc_Ok in Hlogs as (p & Hlogs & ->).
  apply bind_Ok in Hr as (ns & w2 & Hns & Hr).
  pose proof (notifications_of_reads logs (set_provider p w)) as [p2 Hp2]. rewrite Hns in Hp2.
  simpl in Hp2. subst w2. apply notifications_of_relays in Hns.
  apply bind_Ok in Hr as (update & w3 & Hupdate & Hr).
  unfold handle_system_contract_update, bind at 1, gets in Hupdate. cbv beta iota in Hupdate.
  cbn in Hupdate. rewrite (proj2 (Z.eqb_eq _ _) Hhead) in Hupdate. unfold ret in Hupdate. simplify_eq/=.
  rewrite app_nil_r in Hr. destruct (Nat.ltb _ _); [done|].
  apply bind_Ok in Hr as (? & w4 & ->%notify_all_Ok & Hr).
  unfold update_current_block, bind, modify, gets in Hr. cbv beta iota in Hr.
  apply watcher_notify_Ok in Hr as [-> Halive].
  exists logs, p, ns. split; [exact Hlogs|]. split; [done|]. split; [|done].
  simpl. simpl in Halive. by rewrite Halive, <- app_assoc.
Qed.
End Runs.
