(* ===== verification/WatcherInv.v ===== *)
(** * Runs of the L1 watcher

    Over every run of the watcher, of any length and whatever L1 answers, the buffer stays within
    its capacity and ends at the recorded head, and the notifications sent so far determine the
    cursor. *)

From S2P Require Import Prelude Sql Primitives DbModel Signing Watcher WatcherProps WatcherRuns.

Section Invariant.
Context `{L1Abi} `{!L1Node W} `{Allocation}.
Implicit Types (w : L1Watcher W).

Notation Wt A := (M (L1Watcher W) StepFailure A).

(** The block hash commits to the number: what the node serves under a hash has its number. *)
Context (number_of : B256 → Z).
Definition committed (h : L1Header) : Prop := lh_number h = number_of (lh_hash h).
Hypothesis node_serves_committed :
  ∀ tag p h p', l1_get_block tag p = (Ok (Some h), p') → committed h.

Hypothesis numbers_unsigned : ∀ h, 0 <= number_of h.

(** The cursor a reader of the notifications computes. *)
Definition cursor_after (cursor : Z) (ns : list L1Notification) : Z :=
  foldl (λ c n, match n with Processed m => m | L1ReorgTo m => Z.min c m | _ => c end) cursor ns.

Definition not_consensus (n : L1Notification) : Prop :=
  match n with ConsensusUpdated _ => False | _ => True end.

Record watcher_inv w : Prop := {
  wi_wf : BoundedVec.wf (unfinalized_blocks w);
  wi_committed : Forall committed (BoundedVec.data (unfinalized_blocks w));
  wi_tail : ∀ t, last (BoundedVec.data (unfinalized_blocks w)) = Some t →
              lh_number t = l1_head (l1_state w)
}.

(** [w'] sent more than [w], and moved its cursor accordingly. *)
Definition advances w w' : Prop :=
  ∃ ns, sender w' = mkSender (receiver_alive (sender w)) (sent (sender w) ++ ns) ∧
    Forall not_consensus ns ∧
    current_block_number w' = cursor_after (current_block_number w) ns.

Lemma advances_refl w w' :
  sender w' = sender w → current_block_number w' = current_block_number w → advances w w'.
Proof.
  intros Hs Hc. exists []. rewrite Hs, app_nil_r. split; [by destruct (sender w)|]. by split.
Qed.

Lemma advances_trans w1 w2 w3 : advances w1 w2 → advances w2 w3 → advances w1 w3.
Proof.
  intros (ns & Hs & Hn & Hc) (ms & Hs' & Hm & Hc'). exists (ns ++ ms).
  rewrite Hs', Hs, Hc', Hc. simpl. split; [by rewrite app_assoc|].
  split; [by apply Forall_app|]. unfold cursor_after. by rewrite foldl_app.
Qed.

(** [w'] is a good state to go on from after [w]. *)
Definition good w w' : Prop := watcher_inv w' ∧ advances w w'.

Lemma good_provider w0 w p : good w0 w → good w0 (set_provider p w).
Proof. intros [[] (ns & ?)]. split; [by split|]. by exists ns. Qed.

(** Weakest precondition: [Q] after [Ok], [E] after an error or a panic, nothing when the channel
    was closed. *)
Definition wp {A} (E : L1Watcher W → Prop) (m : Wt A) w (Q : A → L1Watcher W → Prop) : Prop :=
  match m w with
  | (Ok a, w') => Q a w'
  | (Err (Failed (SendError _)), _) => True
  | (_, w') => E w'
  end.

Lemma wp_bind {A B} E (m : Wt A) (k : A → Wt B) w Q :
  wp E m w (λ a w', wp E (k a) w' Q) → wp E (bind m k) w Q.
Proof. unfold wp, bind. by destruct (m w) as [[a|[[]|]|] w']. Qed.
Lemma wp_seq {A B} E (m : Wt A) (k : A → Wt B) w Q1 Q :
  wp E m w Q1 → (∀ a w', Q1 a w' → wp E (k a) w' Q) → wp E (bind m k) w Q.
Proof. unfold wp, bind. intros Hm Hk. destruct (m w) as [[a|[[]|]|] w']; auto; by apply Hk. Qed.
Lemma wp_ret {A} E (a : A) w Q : Q a w → wp E (ret a) w Q.
Proof. done. Qed.
Lemma wp_gets {A} E (f : L1Watcher W → A) w Q : Q (f w) w → wp E (gets f) w Q.
Proof. done. Qed.
Lemma wp_get E w (Q : L1Watcher W → L1Watcher W → Prop) : Q w w → wp E get w Q.
Proof. done. Qed.
Lemma wp_modify E f w (Q : unit → L1Watcher W → Prop) : Q tt (f w) → wp E (modify f) w Q.
Proof. done. Qed.
Lemma wp_notify E n w (Q : unit → L1Watcher W → Prop) :
  Q tt (notified [n] w) → wp E (watcher_notify n) w Q.
Proof.
  unfold wp, watcher_notify, bind, gets, notified. cbv beta iota.
  by destruct (receiver_alive (sender w)).
Qed.
Lemma wp_reads {A} w0 (m : Wt A) w (Q : A → L1Watcher W → Prop) :
  reads_only m → good w0 w → (∀ a p, m w = (Ok a, set_provider p w) → Q a (set_provider p w)) →
  wp (good w0) m w Q.
Proof.
  intros Hm Hg HQ. unfold wp. destruct (Hm w) as [p Hp].
  destruct (m w) as [o w'] eqn:E. simpl in Hp. subst w'.
  destruct o as [a|[[]|]|]; auto using good_provider.
Qed.

Lemma good_notified w0 n w :
  good w0 w → match n with Processed _ | L1ReorgTo _ | ConsensusUpdated _ => False | _ => True end →
  good w0 (notified [n] w).
Proof.
  intros [Hi Ha] Hn. split; [by destruct Hi; split|]. eapply advances_trans; [exact Ha|].
  exists [n]. split; [done|]. split; [|by destruct n]. constructor; [by destruct n|constructor].
Qed.

(** ** The parts of a step *)

Lemma fetched_committed e tag w b w' :
  rpc e (l1_get_block tag) w = (Ok (Some b), w') → committed b.
Proof. intros (p & Hb & _)%rpc_Ok. by eapply node_serves_committed. Qed.

Lemma walk_reads fuel fin cur chain : reads_only (walk fuel fin cur chain).
Proof.
  revert cur chain. induction fuel as [|fuel IH]; intros cur chain; simpl.
  all: apply reads_bind; [apply reads_gets|]; intros blocks.
  all: apply reads_if; [apply reads_ret|].
  1: apply reads_fail.
  apply reads_bind; [apply reads_rpc|]. intros b. apply reads_bind; [apply reads_lift|]. auto.
Qed.

Lemma fetch_reads fuel fin latest : reads_only (fetch_unfinalized_chain fuel fin latest).
Proof.
  unfold fetch_unfinalized_chain. apply reads_bind; [apply walk_reads|]. intros [pos chain].
  apply reads_bind; [apply reads_gets|]. intros. apply reads_ret.
Qed.

(** The walk only adds committed headers, after the ones it has. *)
Lemma walk_chain fuel fin cur chain w pos chain' w' :
  Forall committed chain → walk fuel fin cur chain w = (Ok (pos, chain'), w') →
  Forall committed chain' ∧ ∃ l, chain' = chain ++ l.
Proof.
  revert cur chain w. induction fuel as [|fuel IH]; intros cur chain w Hc Hr; simpl in Hr.
  all: unfold bind at 1, gets in Hr; cbv beta iota in Hr.
  all: destruct (_ || _) in Hr; [unfold ret in Hr; simplify_eq; split; [done|]; exists [];
    by rewrite app_nil_r|].
  1: done.
  apply bind_Ok in Hr as (b & w1 & Hb & Hr). apply bind_Ok in Hr as (h & w2 & [Hh ->]%lift_Ok & Hr).
  destruct b as [h'|]; [|done]. injection Hh as ->. apply fetched_committed in Hb.
  apply IH in Hr as [Hc' [l ->]].
  - split; [done|]. exists (h :: l). by rewrite <- app_assoc.
  - apply Forall_app. split; [done|]. by apply Forall_singleton.
Qed.

Lemma fetch_Ok fuel fin latest w chain w' :
  committed latest → Forall committed (BoundedVec.data (unfinalized_blocks w)) →
  fetch_unfinalized_chain fuel fin latest w = (Ok chain, w') →
  BoundedVec.wf chain ∧ Forall committed (BoundedVec.data chain) ∧
  last (BoundedVec.data chain) = Some latest.
Proof.
  intros Hlatest Hold Hr. unfold fetch_unfinalized_chain in Hr.
  apply bind_Ok in Hr as ([pos l] & w1 & Hw & Hr).
  pose proof (walk_reads fuel fin latest [latest] w) as [p Hp]. rewrite Hw in Hp. simpl in Hp.
  subst w1. apply walk_chain in Hw as [Hc [l' ->]]; [|by apply Forall_singleton].
  unfold bind, gets, ret in Hr. simplify_eq.
  set (v := BoundedVec_new HEADER_CAPACITY).
  pose proof (BoundedVec_new_wf : BoundedVec.wf v) as Hwf.
  set (l1 := take _ _). unfold BoundedVec.extend. rewrite <- foldl_app.
  fold (BoundedVec.extend grow v (l1 ++ rev l' ++ [latest])).
  split; [by apply BoundedVec.extend_wf|].
  destruct (BoundedVec.extend_spec grow v (l1 ++ rev l' ++ [latest]) Hwf) as [_ ->].
  split.
  - apply Forall_drop, Forall_app. split; [constructor|]. apply Forall_app.
    split; [by apply Forall_take|]. by apply (Forall_rev (l:=[latest] ++ l')).
  - simpl. rewrite (app_assoc l1 (rev l') [latest]), drop_app_le; [by rewrite last_snoc|].
    destruct Hwf as [Hpos _]. simpl in Hpos. rewrite !length_app. simpl. lia.
Qed.

(** After the latest block is handled, it is the last header of the buffer and the recorded head. *)
Lemma wp_update_head w0 latest w :
  BoundedVec.wf (unfinalized_blocks w) → Forall committed (BoundedVec.data (unfinalized_blocks w)) →
  last (BoundedVec.data (unfinalized_blocks w)) = Some latest → advances w0 w →
  wp (good w0) (update_head latest) w
    (λ _ w', good w0 w' ∧ l1_head (l1_state w') = lh_number latest).
Proof.
  intros Hwf Hc Hl Ha. unfold update_head. apply wp_bind, wp_modify, wp_notify.
  split; [|done]. apply good_notified; [|done]. split; [|by destruct Ha as (ns & ?); exists ns].
  split; [done..|]. simpl. intros t Ht. congruence.
Qed.

Lemma wp_handle_latest_block w0 fuel fin latest w :
  good w0 w → committed latest →
  wp (good w0) (handle_latest_block fuel fin latest) w
    (λ _ w', good w0 w' ∧ l1_head (l1_state w') = lh_number latest).
Proof.
  intros [Hi Ha] Hlatest. pose proof Hi as [Hwf Hc Htail].
  unfold handle_latest_block. apply wp_bind, wp_gets. unfold BoundedVec.vec_last.
  case_bool_decide as Hsame.
  { apply wp_ret. split; [done|].
    destruct (last _) as [t|] eqn:Et; [|done]. simpl in Hsame. injection Hsame as Hsame.
    rewrite <- (Htail t eq_refl), Hlatest, <- Hsame.
    rewrite Forall_forall in Hc. by apply Hc, last_Some_elem_of. }
  apply wp_bind. case_bool_decide.
  - apply wp_modify.
    destruct (BoundedVec.push_back_spec grow (unfinalized_blocks w) latest Hwf) as [_ Hdata].
    apply wp_update_head; cbn [unfinalized_blocks set_unfinalized].
    + by apply BoundedVec.push_back_wf.
    + rewrite Hdata. apply Forall_drop, Forall_app. split; [done|by apply Forall_singleton].
    + destruct Hwf as [Hpos Hle]. rewrite Hdata, drop_app_le by lia. apply last_snoc.
    + by destruct Ha as (ns & ?); exists ns.
  - unfold replace_chain. apply wp_bind, wp_gets. apply wp_bind.
    apply wp_reads; [apply fetch_reads|done|]. intros chain p Hfetch.
    apply (fetch_Ok fuel fin latest) in Hfetch as (Hwf' & Hc' & Hlast); [|done..].
    assert (advances w0 (set_unfinalized chain (set_provider p w))) as Ha'
      by (by destruct Ha as (ns & ?); exists ns).
    apply wp_bind, wp_modify. destruct (reorg_block_number _ _) as [n|].
    + apply wp_bind, wp_modify, wp_notify. cbn [current_block_number set_unfinalized set_provider].
      apply wp_update_head; [by destruct (_ <? _)..|].
      eapply advances_trans; [exact Ha'|]. exists [L1ReorgTo n].
      cbn. destruct (Z.ltb_spec n (current_block_number w)); cbn.
      * split; [done|]. split; [by constructor|]. unfold cursor_after. simpl. lia.
      * split; [done|]. split; [by constructor|]. unfold cursor_after. simpl. lia.
    + apply wp_ret. by apply wp_update_head.
Qed.

Lemma last_drop_some {A} k (l : list A) t : last (drop k l) = Some t → last l = Some t.
Proof.
  intros Hl. rewrite <- (take_drop k l). destruct (drop k l) as [|x d]; [done|].
  by rewrite last_app_cons.
Qed.

Lemma wp_handle_finalized_block w0 fin w :
  good w0 w → wp (good w0) (handle_finalized_block fin) w (λ _ w', good w0 w').
Proof.
  assert (∀ w1, good w0 w1 → wp (good w0) (drain_finalized fin) w1 (λ _ w', good w0 w')) as Hdrain.
  { intros w1 Hg1. pose proof Hg1 as [[Hwf Hc Ht] Ha]. unfold drain_finalized. apply wp_bind, wp_gets.
    unfold BoundedVec.vec_last. destruct (last _) as [t|] eqn:El; [|by apply wp_ret].
    destruct (_ <? _).
    - apply wp_modify. split; [|by destruct Ha as (ns & ?); exists ns].
      destruct Hwf. split; [split; simpl; lia|constructor|done].
    - destruct (position _ _) as [p|]; [|by apply wp_ret]. apply wp_modify.
      split; [|by destruct Ha as (ns & ?); exists ns]. destruct Hwf. split; cbn.
      + split; [done|]. cbn. rewrite length_drop. lia.
      + by apply Forall_drop.
      + intros t' Ht'%(last_drop_some (S p)). apply Ht. congruence. }
  intros Hg. unfold handle_finalized_block. apply wp_bind, wp_gets. apply wp_bind.
  destruct (_ <? _); [|by apply wp_ret, Hdrain]. apply wp_bind, wp_modify, wp_notify, Hdrain.
  apply good_notified; [|done]. destruct Hg as [[] (ns & ?)]. split; [by split|by exists ns].
Qed.

Lemma relays_not_consensus entries ns : relays_all entries ns → Forall not_consensus ns.
Proof.
  intros (nss & -> & Hall). apply Forall_concat. induction Hall as [|e ns' entries nss He _ IH].
  { constructor. }
  constructor; [|done]. unfold relays_at in He. destruct He; repeat constructor.
Qed.
Lemma relays_cursor entries ns c : relays_all entries ns → cursor_after c ns = c.
Proof.
  intros (nss & -> & Hall). unfold cursor_after.
  induction Hall as [|e ns' entries nss He _ IH]; [done|]. simpl. rewrite foldl_app.
  unfold relays_at in He. by destruct He.
Qed.

Lemma wp_notify_all w0 ns w (Q : unit → L1Watcher W → Prop) :
  Q tt (notified ns w) → wp (good w0) (notify_all ns) w Q.
Proof.
  unfold notify_all. revert w. induction ns as [|n ns IH]; intros w HQ; simpl.
  - apply wp_ret. by rewrite notified_nil in HQ.
  - apply wp_bind, wp_notify, IH. by rewrite notified_app.
Qed.

Lemma wp_index_range w0 latest w :
  good w0 w → lh_number latest = l1_head (l1_state w) →
  wp (good w0) (index_range latest) w (λ _ w', good w0 w').
Proof.
  intros Hg Hhead. unfold index_range.
  apply wp_bind, wp_reads; [apply next_filtered_logs_reads|done|]. intros logs p _.
  apply wp_bind, wp_reads; [apply notifications_of_reads|by apply good_provider|].
  intros ns p' Hns%notifications_of_relays.
  apply wp_bind. unfold handle_system_contract_update. apply wp_bind, wp_gets.
  cbn [l1_state set_provider]. rewrite (proj2 (Z.eqb_eq _ _) Hhead). apply wp_ret.
  cbn [option_list]. rewrite app_nil_r.
  pose proof (relays_all_length _ _ Hns) as Hlen. rewrite positions_length in Hlen.
  rewrite (proj2 (Nat.ltb_ge _ _) Hlen).
  apply wp_bind, wp_notify_all. unfold update_current_block. apply wp_bind, wp_modify.
  apply wp_bind, wp_gets, wp_notify. destruct Hg as [[Hwf Hc Ht] Ha]. split; [by split|].
  eapply advances_trans; [exact Ha|]. eexists (ns ++ [Processed _]).
  split; [cbn; by rewrite <- app_assoc|]. split.
  - apply Forall_app. split; [by eapply relays_not_consensus|by constructor].
  - unfold cursor_after. by rewrite foldl_app.
Qed.

Lemma latest_block_reads : reads_only latest_block.
Proof. unfold latest_block. apply reads_bind; [apply reads_rpc|]. intros. apply reads_lift. Qed.
Lemma finalized_block_reads : reads_only finalized_block.
Proof. unfold finalized_block. apply reads_bind; [apply reads_rpc|]. intros. apply reads_lift. Qed.

Lemma latest_block_committed w h w' : latest_block w = (Ok h, w') → committed h.
Proof.
  unfold latest_block. intros (b & w1 & Hb & [Hh ->]%lift_Ok)%bind_Ok.
  destruct b as [b|]; [|done]. injection Hh as ->. by eapply fetched_committed.
Qed.

Lemma wp_watcher_step w0 fuel w :
  good w0 w → wp (good w0) (watcher_step fuel) w (λ _ w', good w0 w').
Proof.
  intros Hg. unfold watcher_step.
  apply wp_bind, wp_reads; [apply finalized_block_reads|done|]. intros fin p _.
  eapply wp_seq; [by apply wp_handle_finalized_block, good_provider|]. intros ? w1 Hg1. apply wp_bind, wp_reads; [apply latest_block_reads|done|].
  intros latest p' Hl%latest_block_committed.
  eapply wp_seq; [by apply wp_handle_latest_block; [apply good_provider|]|].
  intros ? w2 [Hg2 Hhead]. apply wp_bind, wp_gets.
  destruct (negb _); [|by apply wp_ret]. by apply wp_index_range.
Qed.

Lemma wp_bind_try {A B} w0 (m : Wt A) (k : A + StepFailure → Wt B) w Q :
  wp (good w0) m w (λ _ w', good w0 w') →
  (∀ r w', good w0 w' ∨ (∃ n, r = inr (Failed (SendError n))) → wp (good w0) (k r) w' Q) →
  wp (good w0) (bind (try m) k) w Q.
Proof.
  intros Hm Hk. unfold wp at 1, bind, try. unfold wp in Hm.
  destruct (m w) as [[a|e|] w1]; [by apply (Hk (inl a)); left| |done].
  apply (Hk (inr e)). destruct e as [[]|]; eauto.
Qed.

(** A round without commands. *)
Lemma wp_round w0 fuel w :
  good w0 w → wp (good w0) (run_round fuel []) w (λ b w', b = true → good w0 w').
Proof.
  intros Hg. unfold run_round. apply wp_bind, wp_ret. apply wp_bind_try; [by apply wp_watcher_step|].
  intros r w1 Hr.
  assert (∀ w1, good w0 w1 → wp (good w0)
    (let* w := get in
     if is_synced w then ret true
     else if current_block_number w =? l1_head (l1_state w) then
       let* r := try (watcher_notify Synced) in
       match r with
       | inr StillRunning => fail StillRunning
       | inr (Failed (SendError _)) => ret false
       | _ => modify (set_is_synced true) ;;; ret true
       end
     else ret true) w1 (λ b w', b = true → good w0 w')) as Hrest.
  { clear r w1 Hr. intros w1 Hg1. apply wp_bind, wp_get.
    destruct (is_synced w1); [by apply wp_ret|]. destruct (_ =? _); [|by apply wp_ret].
    assert (∀ w2, good w0 w2 → wp (good w0) (modify (set_is_synced true) ;;; ret true) w2
      (λ b w', b = true → good w0 w')) as Hset.
    { intros w2 [[] (ns & ?)]. apply wp_bind, wp_modify, wp_ret. intros _.
      split; [by split|by exists ns]. }
    apply wp_bind_try; [by apply wp_notify, good_notified|].
    intros r w2 [Hg2|[n ->]]; [|by apply wp_ret].
    destruct r as [|[[]|]]; first [by apply Hset|by apply wp_ret|done]. }
  destruct Hr as [Hg1|[n ->]]; [|by apply wp_ret].
  destruct r as [|[[]|]]; first [by apply Hrest|by apply wp_ret|done].
Qed.

(** The states of a running watcher.  The index is where the cursor stood when the current channel
    was installed: the start of the node, or the block of the last reset. *)
Definition reset_cursor (cursor : Z) (commands : list L1WatcherCommand) : Z :=
  foldl (λ _ '(ResetToBlock block _), block) cursor commands.
Definition fresh_channel '(ResetToBlock _ tx) : Prop := sent tx = [].

Inductive watcher_reachable : Z → L1Watcher W → Prop :=
| wr_spawn fuel info config range p w p' :
    match info with UnsafeBlocks blocks => Forall (λ b, 0 <= number b) blocks | _ => True end →
    spawn fuel info config range p = (Ok w, p') → watcher_reachable (current_block_number w) w
| wr_l1_moves cursor w p : watcher_reachable cursor w → watcher_reachable cursor (set_provider p w)
| wr_receiver_dropped cursor w :
    watcher_reachable cursor w →
    watcher_reachable cursor (set_sender (mkSender false (sent (sender w))) w)
| wr_round cursor fuel commands w w' :
    watcher_reachable cursor w → Forall fresh_channel commands →
    run_round fuel commands w = (Ok true, w') →
    watcher_reachable (reset_cursor cursor commands) w'.

Definition reports cursor w : Prop :=
  watcher_inv w ∧ Forall not_consensus (sent (sender w)) ∧
  current_block_number w = cursor_after cursor (sent (sender w)).

Lemma reports_good cursor w w' : reports cursor w → good w w' → reports cursor w'.
Proof.
  intros (_ & Hn & Hc) [Hi (ns & Hs & Hns & Hc')]. split; [done|]. rewrite Hs. cbn.
  split; [by apply Forall_app|]. rewrite Hc', Hc. unfold cursor_after. by rewrite foldl_app.
Qed.

Lemma good_refl w : watcher_inv w → good w w.
Proof. intros Hi. split; [done|]. by apply advances_refl. Qed.

Lemma handle_commands_run commands w :
  ∃ w', for_each watcher_handle_command commands w = (Ok tt, w') ∧
    ∀ cursor, Forall fresh_channel commands → reports cursor w →
      reports (reset_cursor cursor commands) w'.
Proof.
  revert w. induction commands as [|[block tx] commands IH]; intros w; [by exists w|].
  simpl. unfold bind at 1, modify.
  destruct (IH (set_sender tx (set_is_synced false (set_current block w)))) as (w' & Hr & Hrep).
  exists w'. split; [done|]. intros cursor [Htx Hc]%Forall_cons ([] & _). apply Hrep; [done|].
  split; [by split|]. simpl in Htx. simpl. rewrite Htx. by split.
Qed.

Lemma fetch_block_info_unsigned fuel tag (p : W) b p' :
  fetch_block_info fuel tag p = (Ok b, p') → 0 <= number b.
Proof.
  revert p. induction fuel as [|fuel IH]; intros p; [done|]. simpl. unfold bind at 1, try.
  destruct (l1_get_block tag p) as [[[h|]|e|] p1] eqn:E; [|eauto..|done].
  unfold ret. intros Hr. simplify_eq. simpl.
  by rewrite (node_serves_committed _ _ _ _ E).
Qed.

Lemma find_unsafe_unsigned fuel i blocks start (p : W) reorg n p' :
  0 <= start → find_unsafe fuel i blocks start p = (Ok (reorg, n), p') → 0 <= n.
Proof.
  intros Hs. revert i p. induction blocks as [|b blocks IH]; intros i p Hr; simpl in Hr.
  { unfold ret in Hr. by simplify_eq. }
  apply bind_Ok in Hr as (c & p1 & Hc%fetch_block_info_unsigned & Hr).
  destruct (_ =? _); [unfold ret in Hr; by simplify_eq|eauto].
Qed.

Lemma startup_unsigned fuel info config (p : W) n p' :
  match info with UnsafeBlocks blocks => Forall (λ b, 0 <= number b) blocks | _ => True end →
  startup_block fuel info config p = (Ok (true, n), p') → 0 <= n.
Proof.
  destruct info as [blocks|m|]; simpl; intros Hb Hr; [|done..].
  apply bind_Ok in Hr as (first & p1 & [Hf ->]%lift_Ok & Hr).
  destruct blocks as [|b blocks]; simplify_eq/=. apply Forall_cons in Hb as [Hb _].
  by eapply find_unsafe_unsigned.
Qed.

Lemma spawn_reports fuel info config range p w p' :
  match info with UnsafeBlocks blocks => Forall (λ b, 0 <= number b) blocks | _ => True end →
  spawn fuel info config range p = (Ok w, p') → reports (current_block_number w) w.
Proof.
  intros Hinfo. unfold spawn. intros (h & p1 & _ & Hr)%bind_Ok.
  apply bind_Ok in Hr as (f & p2 & _ & Hr). apply bind_Ok in Hr as ([reorg start] & p3 & Hs & Hr).
  unfold bind, get, ret in Hr. simplify_eq. split.
  - split; [apply BoundedVec_new_wf|constructor|done].
  - split; cbn; [destruct reorg; by repeat constructor|].
    destruct reorg; [|done]. apply startup_unsigned in Hs; [|done].
    unfold cursor_after. simpl. unfold saturating_sub. lia.
Qed.

(** C6: in every state a running watcher reaches, whatever L1 answered, however it reorganised and
    whichever requests failed: the buffer of headers is within its capacity and ends at the
    recorded head; the cursor is the one a reader of the notifications computes from the blocks
    processed and the reorgs, so nothing is skipped or indexed twice unreported; and no signer
    update was ever sent (the refresh of the signer compares the latest block with a head that has
    just been set to it). *)
Theorem watcher_reachable_inv cursor w :
  watcher_reachable cursor w →
  watcher_inv w ∧ current_block_number w = cursor_after cursor (sent (sender w)) ∧
  ∀ signer, ConsensusUpdated (AuthorizedSigner signer) ∉ sent (sender w).
Proof.
  intros Hw. assert (reports cursor w) as (Hi & Hn & Hc).
  { induction Hw as [|cursor w p Hw IH|cursor w Hw IH|cursor fuel commands w w' Hw IH Hcs Hr].
    - by eapply spawn_reports.
    - destruct IH as ([] & ?). by split.
    - destruct IH as ([] & ?). by split.
    - destruct (handle_commands_run commands w) as (w1 & Hrun & Hrep).
      specialize (Hrep cursor Hcs IH). eapply reports_good; [exact Hrep|].
      pose proof (wp_round w1 fuel w1 (good_refl w1 (proj1 Hrep))) as Hwp.
      assert (run_round fuel commands w = run_round fuel [] w1) as Heq
        by (unfold run_round, bind at 1; by rewrite Hrun).
      unfold wp in Hwp. rewrite <- Heq, Hr in Hwp. by apply Hwp. }
  split; [done|]. split; [done|]. intros signer Hin.
  rewrite Forall_forall in Hn. by apply Hn in Hin.
Qed.
End Invariant.
