(* ===== verification/ConcreteL1.v ===== *)
(** * A concrete L1

    A small L1 of numbered blocks on two branches with a deposit and a batch in every block, on
    which the watcher runs: witnesses of the watcher's theorems, and the behaviours its authors
    pinned in crates/watcher/src/finalized_head_tests.rs. *)

From S2P Require Import Prelude Sql Primitives DbModel Signing Watcher WatcherProps WatcherRuns.
From S2P Require Import WatcherInv.

(** The branch of every block, how far the finalized tag lags, and the branches served after the
    next query of the finalized block. *)
Record ToyL1 := mkToyL1 { branches : list Z; lag : nat; switch : option (list Z) }.

Definition toy_hash (n : nat) (branch : Z) : B256 := Z.of_nat n * 1000 + branch mod 1000.
Definition toy_number_of (h : B256) : Z := Z.abs (h / 1000).

Definition toy_header (bs : list Z) (n : nat) : option L1Header :=
  branch ← bs !! n;
  Some (mkL1Header (Z.of_nat n) (toy_hash n branch)
          (match n with O => 0 | S m => toy_hash m (default 0 (bs !! m)) end)
          (1000 + Z.of_nat n)).

Definition toy_get_block (tag : BlockNumberOrTag) (p : ToyL1) :
    outcome string (option L1Header) * ToyL1 :=
  match tag with
  | Latest => (Ok (toy_header (branches p) (length (branches p) - 1)), p)
  | Finalized_tag =>
      (Ok (toy_header (branches p) (length (branches p) - 1 - lag p)),
       match switch p with Some bs => mkToyL1 bs (lag p) None | None => p end)
  | Number n => (Ok (if n <? 0 then None else toy_header (branches p) (Z.to_nat n)), p)
  end.

(** A deposit with the block's number as queue index, and the commits of two batches in one
    transaction; the first block carries the genesis batch. *)
Definition toy_logs (h : L1Header) : list Log :=
  let mk ts := mkLog ts [] (Some (lh_number h)) (Some (lh_hash h)) (Some (lh_timestamp h))
                 (Some (lh_hash h)) in
  [mk [1; lh_number h]; mk [2; 2 * lh_number h - 2]; mk [2; 2 * lh_number h - 1]].

#[local] Instance toy_abi : L1Abi := {
  QueueTransaction_SIGNATURE := 1;
  CommitBatch_SIGNATURE := 2;
  FinalizeBatch_SIGNATURE := 3;
  RevertBatch_0_SIGNATURE := 4;
  RevertBatch_1_SIGNATURE := 5;
  QueueTransaction_decode_log log :=
    match topics log with
    | [_; q] => Ok (mkQueueTransaction 17 34 1000 q 100000 [])
    | _ => Err "topics"%string
    end;
  CommitBatch_decode_log log :=
    match topics log with [_; i] => Ok (mkCommitBatchEvent i (7000 + i)) | _ => Err "topics"%string end;
  FinalizeBatch_decode_log _ := Err "none"%string;
  RevertBatch_0_decode_log _ := Err "none"%string;
  RevertBatch_1_decode_log _ := Err "none"%string
}.

#[local] Instance toy_l1_node : L1Node ToyL1 := {
  l1_get_block := toy_get_block;
  l1_get_logs f p :=
    (Ok (omap (toy_header (branches p)) (seq 0 (length (branches p))) ≫= λ h,
         if (from_block f <=? lh_number h) && (lh_number h <=? to_block f) then toy_logs h else []),
     p);
  l1_get_transaction_by_hash h p := (Ok (Some (mkL1Transaction [] (Some [h + 1; h + 2]))), p);
  l1_authorized_signer _ p := (Ok 77, p)
}.

#[local] Instance toy_allocation : Allocation.
Proof. by refine {| with_capacity := id; grow := λ n, (2 * n + 1)%nat |}. Defined.

Lemma toy_serves_committed tag (p : ToyL1) h p' :
  l1_get_block tag p = (Ok (Some h), p') → committed toy_number_of h.
Proof.
  assert (∀ bs n, toy_header bs n = Some h → committed toy_number_of h) as Hh.
  { intros bs n Hn. unfold toy_header in Hn. destruct (bs !! n) as [b|]; simplify_eq/=.
    unfold committed, toy_number_of, toy_hash. cbn [lh_number lh_hash].
    rewrite Z.div_add_l, (Z.div_small (b mod 1000)) by (pose proof (Z.mod_pos_bound b 1000); lia).
    lia. }
  destruct tag; simpl; intros Hr; [by simplify_eq/=; eauto..|].
  destruct (n <? 0); simplify_eq/=. eauto.
Qed.

Lemma toy_numbers_unsigned h : 0 <= toy_number_of h.
Proof. unfold toy_number_of. lia. Qed.

(** ** A watcher of this L1 *)

Definition toy_config : NodeConfig := mkNodeConfig (mkAddressBook 1 2 3 4) 1.
Definition toy_l1 : ToyL1 := mkToyL1 [0; 0; 0; 0] 2 None.
Definition toy_spawned := spawn 1 NoStartupInfo toy_config 2 toy_l1.
Definition toy_idle : L1Watcher ToyL1 :=
  mkL1Watcher toy_l1 (BoundedVec_new HEADER_CAPACITY) (mkL1State 0 0) 0 (mkSender true []) false 2
    toy_config.
Definition toy_watcher : L1Watcher ToyL1 := ok_value toy_idle toy_spawned.1.
Definition toy_round := run_round 10 [] toy_watcher.
Definition toy_after : L1Watcher ToyL1 := toy_round.2.

(** Two blocks above the finalized one are replaced. *)
Definition toy_forked : L1Watcher ToyL1 := set_provider (mkToyL1 [0; 0; 1; 1] 2 None) toy_after.
Definition header_at (bs : list Z) (n : nat) : L1Header :=
  default (mkL1Header 0 0 0 0) (toy_header bs n).

Definition sent_after (p : outcome StepFailure unit * L1Watcher ToyL1) : list L1Notification :=
  sent (sender p.2).

Lemma distinct_decided l :
  bool_decide (Forall (λ a, Forall (λ b, lh_hash a = lh_hash b → a = b) l) l) = true →
  hashes_distinct l.
Proof.
  intros Hl%bool_decide_eq_true a b Ha Hb. rewrite Forall_forall in Hl.
  specialize (Hl a Ha). rewrite Forall_forall in Hl. by apply Hl.
Qed.

Lemma serves_decided bs k lg sw :
  serves (mkToyL1 bs lg sw) (omap (toy_header bs) (seq k (length bs - k))).
Proof.
  intros h (n & _ & Hn)%list_elem_of_omap. simpl.
  assert (lh_number h = Z.of_nat n) as ->.
  { unfold toy_header in Hn. by destruct (bs !! n); simplify_eq/=. }
  rewrite (proj2 (Z.ltb_ge _ _)) by lia. by rewrite Nat2Z.id, Hn.
Qed.

(** The watcher indexed up to block 2 of the old branch; blocks 2 and 3 are replaced. *)
Lemma chain_followed_witness :
  ∃ w', (handle_finalized_block (header_at [0; 0] 1) ;;;
         handle_latest_block 2 (header_at [0; 0] 1) (header_at [0; 0; 1; 1] 3)) toy_forked =
        (Ok tt, w') ∧
    sent (sender w') = sent (sender toy_after) ++ [L1ReorgTo 1; NewBlock (mkBlockInfo 3 3001)] ∧
    current_block_number toy_forked = 2 ∧ current_block_number w' = 1.
Proof.
  assert (lagging_l1 (header_at [0; 0] 1)
            (BoundedVec.data (unfinalized_blocks toy_forked)) (header_at [0; 0] 1)
            (BoundedVec.data (unfinalized_blocks toy_forked))
            (omap (toy_header [0; 0; 1; 1]) (seq 2 2)) toy_forked) as Hl.
  { split.
    - reflexivity.
    - apply Nat.leb_le. vm_compute. reflexivity.
    - vm_compute. tauto.
    - exists []. reflexivity.
    - vm_compute. tauto.
    - apply distinct_decided. vm_compute. reflexivity.
    - vm_compute. discriminate.
    - apply Nat.leb_le. vm_compute. reflexivity.
    - apply (serves_decided [0; 0; 1; 1] 2 2 None).
    - vm_compute. reflexivity. }
  destruct (chain_followed 2 _ _ _ _ _ (header_at [0; 0; 1; 1] 3) toy_forked Hl)
    as (w' & Hr & _ & Hs & Hc & _); [vm_compute; reflexivity|vm_compute; lia|].
  exists w'. split; [exact Hr|]. split; [rewrite Hs; vm_compute; reflexivity|].
  split; [vm_compute; reflexivity|]. rewrite Hc. vm_compute. reflexivity.
Defined.

Definition toy_polled : L1Watcher ToyL1 :=
  ((handle_finalized_block (header_at [0; 0] 1) ;;;
    handle_latest_block 2 (header_at [0; 0] 1) (header_at [0; 0; 1; 1] 3)) toy_forked).2.
#[local] Notation toy_indexed := (index_range (header_at [0; 0; 1; 1] 3) toy_polled).

Lemma range_indexed_witness :
  current_block_number toy_polled = 1 ∧ current_block_number toy_indexed.2 = 3 ∧
  ∃ logs ns, relays_all (positions logs) ns ∧
    sent (sender toy_indexed.2) = sent (sender toy_polled) ++ ns ++ [Processed 3].
Proof.
  assert (is_ok toy_indexed.1 = true) as Hok by (vm_compute; reflexivity).
  assert (lh_number (header_at [0; 0; 1; 1] 3) = l1_head (l1_state toy_polled)) as Hhead
    by (vm_compute; reflexivity).
  assert (∃ u, toy_indexed = (Ok u, toy_indexed.2)) as [[] Hr]
    by (exists (ok_value tt toy_indexed.1); exact (ok_run tt toy_indexed Hok)).
  assert (Z.min (saturating_add (current_block_number toy_polled) (log_query_block_range toy_polled))
            (lh_number (header_at [0; 0; 1; 1] 3)) = 3) as Hto by (vm_compute; reflexivity).
  pose proof (range_indexed (header_at [0; 0; 1; 1] 3) toy_polled toy_indexed.2 Hhead Hr) as Hspec.
  cbv zeta in Hspec. cbn [snd] in Hspec. rewrite Hto in Hspec. destruct Hspec as (logs & p & ns & _ & Hns & Hs & Hc).
  split; [vm_compute; reflexivity|]. split; [exact Hc|].
  exists logs, ns. split; [exact Hns|]. rewrite Hs. reflexivity.
Defined.

Lemma toy_after_reachable : watcher_reachable 0 toy_after.
Proof.
  apply (wr_round 0 10 [] toy_watcher toy_after); [|constructor|vm_compute; reflexivity].
  apply (wr_spawn 1 NoStartupInfo toy_config 2 toy_l1 toy_watcher toy_spawned.2); [done|].
  apply (ok_run toy_idle toy_spawned). vm_compute. reflexivity.
Qed.

Lemma watcher_reachable_inv_witness :
  watcher_reachable 0 toy_after ∧
  current_block_number toy_after = cursor_after 0 (sent (sender toy_after)) ∧
  ConsensusUpdated (AuthorizedSigner 77) ∉ sent (sender toy_after).
Proof.
  destruct (watcher_reachable_inv toy_number_of toy_serves_committed toy_numbers_unsigned 0
              toy_after toy_after_reachable) as (_ & Hc & Hs).
  split; [exact toy_after_reachable|]. split; [exact Hc|apply Hs].
Defined.

(** ** Behaviours of the watcher its authors call bugs *)

(** The node answers the finalized block from the old branch and then serves the new one. *)
Definition toy_race : L1Watcher ToyL1 :=
  set_provider (mkToyL1 [0; 0; 0; 0] 0 (Some [0; 1; 1])) toy_idle.

Lemma foreign_finalized_walk_never_ends_witness :
  (handle_latest_block 1000 (header_at [0; 0; 0; 0] 3) (header_at [0; 1; 1] 2)
     (set_provider (mkToyL1 [0; 1; 1] 0 None) toy_race)).1 = Err StillRunning.
Proof.
  rewrite (foreign_finalized_walk_never_ends 1000 (header_at [0; 0; 0; 0] 3)
    (header_at [0; 1; 1] 0) [header_at [0; 1; 1] 1; header_at [0; 1; 1] 2]
    (header_at [0; 1; 1] 2) (set_provider (mkToyL1 [0; 1; 1] 0 None) toy_race)); [reflexivity|..].
  - split.
    + vm_compute. tauto.
    + reflexivity.
    + apply (serves_decided [0; 1; 1] 0 0 None).
    + intros h Hh. split; [|split; [|apply not_elem_of_nil]];
        repeat (apply elem_of_cons in Hh as [->|Hh]; [vm_compute; discriminate|]);
        by apply not_elem_of_nil in Hh.
  - reflexivity.
  - vm_compute. discriminate.
Defined.

Definition is_reorg (n : L1Notification) : bool :=
  match n with L1ReorgTo _ => true | _ => false end.
Definition reorgs_of (ns : list L1Notification) : list Z :=
  ns ≫= λ n, match n with L1ReorgTo m => [m] | _ => [] end.

(** With a finalized tag that lags by one block, a head lowered from 3 to 2 is reported as a new
    block only: what was indexed above it stays. *)
Definition toy_indexed_to_3 : L1Watcher ToyL1 :=
  (watcher_step 10 (watcher_step 10 (set_provider (mkToyL1 [0; 0; 0; 0] 2 None) toy_watcher)).2).2.
Lemma lowered_head_unreported :
  let w := set_provider (mkToyL1 [0; 0; 0] 1 None) toy_indexed_to_3 in
  current_block_number w = 3 ∧
  (watcher_step 10 w).1 = Ok tt ∧ reorgs_of (sent_after (watcher_step 10 w)) = [] ∧
  l1_head (l1_state (watcher_step 10 w).2) = 2.
Proof. by vm_compute. Qed.

(** On an L1 whose finalized block is its head, a replacement of two blocks is reported one block
    below the head, above the fork point. *)
Lemma finalized_head_misreports_fork :
  let w := (watcher_step 10 (watcher_step 10
              (set_provider (mkToyL1 [0; 0; 0; 0] 0 None) toy_watcher)).2).2 in
  let replaced := set_provider (mkToyL1 [0; 0; 1; 1] 0 None) w in
  fork_point (header_at [0; 0] 1) [header_at [0; 0; 0; 0] 2; header_at [0; 0; 0; 0] 3]
    [header_at [0; 0; 1; 1] 2; header_at [0; 0; 1; 1] 3] = Some 1 ∧
  reorgs_of (sent_after (watcher_step 10 replaced)) = [2].
Proof. by vm_compute. Qed.

(** A replacement that is already longer than the old head is not reported at all. *)
Lemma finalized_head_misses_longer_replacement :
  let w := (watcher_step 10 (watcher_step 10
              (set_provider (mkToyL1 [0; 0; 0; 0] 0 None) toy_watcher)).2).2 in
  let replaced := set_provider (mkToyL1 [0; 0; 1; 1; 1] 0 None) w in
  (watcher_step 10 replaced).1 = Ok tt ∧
  reorgs_of (sent_after (watcher_step 10 replaced)) = [].
Proof. by vm_compute. Qed.

(** A reset that arrives while the watcher sends on the old channel, whose receiver the reset
    dropped, is lost: the watcher stops with the command unread. *)
Lemma reset_lost_when_channel_drops :
  let old := set_sender (mkSender false (sent (sender toy_watcher))) toy_watcher in
  (run_round 10 [] old).1 = Ok false ∧
  (run_round 10 [ResetToBlock 0 (mkSender true [])] old).1 = Ok true.
Proof. by vm_compute. Qed.
