(* ===== verification/Orchestrator.v ===== *)
(** * The chain orchestrator (crates/chain-orchestrator/src)

    The state of the orchestrator and its handlers, one definition per method of lib.rs: signer
    and sequencer events, commands, L1 notifications, blocks from peers, the import and the
    consolidation of the L2 chain, and the step of the run loop; with the sync state (sync.rs), the
    status (status.rs) and the events (event.rs).  Messages that leave the orchestrator (events to
    listeners, announcements, import outcomes, requests to the signer and the L1 watcher) are
    appended to an outbox in the order they are sent. *)

From S2P Require Import Prelude Sql Primitives BigEndian Codec Engine DbModel DbOps World Signing.
From S2P Require Import Sequencer Pipeline Consolidation Driver Watcher.

(** ** Sync state (sync.rs) *)

Inductive SyncMode := ModeSyncing | ModeSynced.

Definition mode_is_syncing (m : SyncMode) : bool := match m with ModeSyncing => true | _ => false end.
Definition mode_is_synced (m : SyncMode) : bool := match m with ModeSynced => true | _ => false end.

Record SyncState := mkSync { sync_l1 : SyncMode; sync_l2 : SyncMode }.

Definition SyncState_default : SyncState := mkSync ModeSyncing ModeSynced.

Definition state_is_synced (s : SyncState) : bool :=
  mode_is_synced (sync_l1 s) && mode_is_synced (sync_l2 s).
Definition state_is_syncing (s : SyncState) : bool :=
  mode_is_syncing (sync_l1 s) || mode_is_syncing (sync_l2 s).

(** ** Data of blocks, events and status *)

Definition PeerId : Type := Z.

Section Data.
Context `{Chain}.

Record NewBlockWithPeer := mkNewBlock {
  nb_peer_id : PeerId;
  nb_block : DogeosBlock;
  nb_signature : Signature
}.

(** [ChainImport] (primitives/src/chain.rs). *)
Record ChainImport := mkImport {
  ci_chain : list DogeosBlock;
  ci_peer_id : PeerId;
  ci_signature : Signature;
  ci_result : ForkchoiceUpdated
}.

(** A block import waiting on an L1 message that is not indexed yet. *)
Record BlockedImport := mkBlocked {
  block_with_peer : NewBlockWithPeer;
  missing_l1_message : B256;
  ancestors : list B256
}.

(** The events the orchestrator emits (event.rs). *)
Inductive ChainOrchestratorEvent :=
| BlockFailedConsensusChecks (h : B256) (peer : PeerId)
| L2FinalizedBlockReceived (h : B256) (peer : PeerId)
| BlockAlreadyKnown (h : B256) (peer : PeerId)
| OldForkReceived (headers : list Header) (peer : PeerId) (signature : Signature)
| OptimisticSync (bi : BlockInfo)
| ChainExtended (i : ChainImport)
| ChainReorged (i : ChainImport)
| BatchCommitIndexed (batch : BatchInfo) (l1_block : Z)
| BatchFinalizeIndexed (bi : BlockInfo) (triggered : list BatchInfo)
| BatchReverted (batch : BatchInfo) (safe_head : BlockInfo)
| NewL1Block (n : Z)
| L1BlockFinalized (n : Z) (triggered : list BatchInfo)
| L1MessageCommitted (index : Z)
| L1Reorg (n : Z) (queue_index : option Z) (head safe : option BlockInfo)
| UnwoundToL1Block (n : Z)
| L1Synced
| BlockSequenced (b : DogeosBlock)
| BlockBuildingSkipped
| SignedBlock (b : DogeosBlock) (signature : Signature)
| L1MessageNotFoundInDatabase (key : L1MessageKey)
| BlockedImportDropped (h : B256)
| L1MessageMismatchEvent (expected actual : B256)
| NewBlockReceived (b : NewBlockWithPeer)
| BatchConsolidated (o : BatchConsolidationOutcome)
| BlockConsolidated (o : BlockConsolidationOutcome)
| ChainConsolidated (from to : Z)
| FcsHeadUpdated (bi : BlockInfo)
| Shutdown.

(** [BlockImportOutcome::result] (network/src/import.rs). *)
Inductive BlockImportResult :=
| ImportValidBlock (b : DogeosBlock) (signature : Bytes)
| ImportValidHeader (b : DogeosBlock) (signature : Bytes)
| ImportConsensusError (e : ConsensusError)
| ImportInvalidBlock
| ImportFinalizedBlock.

(** What leaves the orchestrator. *)
Inductive Output :=
| Notified (e : ChainOrchestratorEvent)
| AnnounceBlock (b : DogeosBlock) (signature : Signature)
| ImportOutcome (peer : PeerId) (r : BlockImportResult)
| SignRequest (b : DogeosBlock)
| UpdateSyncStateIdle
| WatcherReset (n : Z).
End Data.

(** ** The orchestrator *)

Record ChainOrchestratorConfig := mkOrchestratorConfig {
  optimistic_sync_threshold : Z;
  l1_v2_message_queue_start_index : Z
}.

(** The client's end of the derivation pipeline: the length it sees and the requests pushed. *)
Record PipelineHandle := mkPipelineHandle {
  pipeline_len : Z;
  pushed_batches : list BatchDerivationRequest
}.

(** The handle of the signer: its address and whether its request channel is open. *)
Record SignerHandle := mkSignerHandle { signer_address : Address; request_open : bool }.

(** The peers a block range is downloaded from ([FullBlockClient]) and the serialization of a
    signature ([SignatureAsBytes] on the components alloy reports). *)
Class BlockClient `{Chain} (W : Type) := {
  get_full_block_range : B256 → Z → W → list DogeosBlock * W
}.
Class SignatureBytes := sig_as_bytes : Signature → Bytes.

Record Orchestrator `{Chain} `{Timers} (W : Type) := mkOrchestrator {
  env : Env W;
  sync_state : SyncState;
  consensus : Consensus;
  sequencer : option Sequencer;
  signer : option SignerHandle;
  derivation_pipeline : PipelineHandle;
  derivation_driver : DerivationDriver;
  blocked_import : option BlockedImport;
  listening : bool;
  outbox : list Output
}.
Arguments mkOrchestrator {_ _ W} _ _ _ _ _ _ _ _ _ _.
Arguments env {_ _ W} _.
Arguments sync_state {_ _ W} _.
Arguments consensus {_ _ W} _.
Arguments sequencer {_ _ W} _.
Arguments signer {_ _ W} _.
Arguments derivation_pipeline {_ _ W} _.
Arguments derivation_driver {_ _ W} _.
Arguments blocked_import {_ _ W} _.
Arguments listening {_ _ W} _.
Arguments outbox {_ _ W} _.

Section Fields.
Context `{Chain} `{Timers} {W : Type}.
Implicit Types o : Orchestrator W.

Definition set_env (v : Env W) o := mkOrchestrator v (sync_state o) (consensus o) (sequencer o) (signer o)
  (derivation_pipeline o) (derivation_driver o) (blocked_import o) (listening o) (outbox o).
Definition set_sync_state v o := mkOrchestrator (env o) v (consensus o) (sequencer o) (signer o)
  (derivation_pipeline o) (derivation_driver o) (blocked_import o) (listening o) (outbox o).
Definition set_consensus v o := mkOrchestrator (env o) (sync_state o) v (sequencer o) (signer o)
  (derivation_pipeline o) (derivation_driver o) (blocked_import o) (listening o) (outbox o).
Definition set_sequencer v o := mkOrchestrator (env o) (sync_state o) (consensus o) v (signer o)
  (derivation_pipeline o) (derivation_driver o) (blocked_import o) (listening o) (outbox o).
Definition set_pipeline v o := mkOrchestrator (env o) (sync_state o) (consensus o) (sequencer o)
  (signer o) v (derivation_driver o) (blocked_import o) (listening o) (outbox o).
Definition set_driver v o := mkOrchestrator (env o) (sync_state o) (consensus o) (sequencer o)
  (signer o) (derivation_pipeline o) v (blocked_import o) (listening o) (outbox o).
Definition set_blocked_import v o := mkOrchestrator (env o) (sync_state o) (consensus o)
  (sequencer o) (signer o) (derivation_pipeline o) (derivation_driver o) v (listening o) (outbox o).
Definition set_listening v o := mkOrchestrator (env o) (sync_state o) (consensus o) (sequencer o)
  (signer o) (derivation_pipeline o) (derivation_driver o) (blocked_import o) v (outbox o).
Definition set_outbox v o := mkOrchestrator (env o) (sync_state o) (consensus o) (sequencer o)
  (signer o) (derivation_pipeline o) (derivation_driver o) (blocked_import o) (listening o) v.

Definition orchestrator_fcs o : ForkchoiceState := fcs (engine (env o)).
End Fields.

(** ** Status (status.rs) and commands (handle/command.rs) *)

Record ChainOrchestratorStatus := mkStatus {
  st_l1_status : SyncMode;
  st_l1_latest : Z;
  st_l1_finalized : Z;
  st_l1_processed : Z;
  st_l2_status : SyncMode;
  st_l2_fcs : ForkchoiceState;
  st_derivation : DerivationStatus
}.

Definition status_is_synced (s : ChainOrchestratorStatus) : bool :=
  mode_is_synced (st_l1_status s) && mode_is_synced (st_l2_status s) &&
  derivation_is_idle (st_derivation s).

Inductive ChainOrchestratorCommand `{Chain} :=
| BuildBlock
| EventListener
| Status
| NetworkHandle
| UpdateFcsHead (head : BlockInfo)
| EnableAutomaticSequencing
| DisableAutomaticSequencing
| GetL1MessageByKey (key : L1MessageKey)
| RevertToL1Block (n : Z)
| ImportBlock (b : NewBlockWithPeer).

(** What a command sends back on its channel; an import answers with its result. *)
Inductive Reply `{Chain} :=
| NoReply
| ListenerReply
| StatusReply (s : ChainOrchestratorStatus)
| NetworkReply
| UnitReply
| BoolReply (b : bool)
| MessageReply (m : option L1MessageEnvelope)
| ImportReply (r : ChainImport + ChainOrchestratorError).

(** The clock at the time a handler runs: the runtime's milliseconds and the Unix time. *)
Record Clock := mkClock { now_ms : Z; unix_secs : Z }.

Definition HEADER_FETCH_COUNT : Z := 100.
Definition BATCH_SIZE : nat := 100.

Definition l1_notification_receiver_may_poll
    (l2_synced derivation_pipeline_empty derivation_driver_can_accept_batch : bool) : bool :=
  l2_synced && derivation_pipeline_empty && derivation_driver_can_accept_batch.

(** The text of an engine error, as it appears in a fail-stop record. *)
Definition fcs_error_text (e : FcsError) : string :=
  match e with
  | NoUpdateProvided => "No update provided for head, safe or finalized"
  | FinalizedBlockNumberNotIncreasing => "Finalized block number not increasing"
  | HeadBelowSafe => "head block number can not be below the safe block number"
  | SafeBelowFinalized => "Safe block number can not be below the finalized block number"
  end.
Definition engine_error_text (e : EngineError) : string :=
  match e with
  | EngineFcsError e => "Fork choice state error: " +:+ fcs_error_text e
  | TransportError msg => "Transport error: " +:+ msg
  end.

(** [buffered(n)] followed by [try_chunks(n)]: the stream in chunks of [n]. *)
Fixpoint chunks_of {A} (fuel n : nat) (l : list A) : list (list A) :=
  match fuel, l with
  | O, _ | _, [] => []
  | S fuel, _ => take n l :: chunks_of fuel n (drop n l)
  end.

(** [from..=to]. *)
Definition range_inclusive (from to : Z) : list Z := seqZ from (to - from + 1).

Section Handlers.
Context `{SqlEngine} `{Chain} `{!PayloadConversion} `{Timers} `{Rlp} `{SignerRecovery}
  `{SignatureBytes} `{!EngineApi W} `{!L2Provider W} `{!BlockClient W}.
Variable config : ChainOrchestratorConfig.
Variable clock : Clock.

Notation Act := (M (Orchestrator W) ChainOrchestratorError).

(** ** The resources of a handler *)

Definition in_env {A} (m : M (Env W) ChainOrchestratorError A) : Act A := zoom env set_env m.
Definition tx {A} (m : M Db ChainOrchestratorError A) : Act A := in_env (on_database (λ e, e) m).
Definition db {A} (m : DB A) : Act A := in_env (on_database CoDatabaseError m).
Definition in_tx {A} (m : DB A) : M Db ChainOrchestratorError A := map_err CoDatabaseError m.
Definition on_engine_driver {A} (m : M (Engine W) EngineError A) : Act A :=
  in_env (on_engine CoEngineError m).
Definition on_l2_client {A} (m : M W string A) : Act A := in_env (on_client RpcError m).

Definition send (m : Output) : Act unit := modify (λ o, set_outbox (outbox o ++ [m]) o).
Definition notify (e : ChainOrchestratorEvent) : Act unit :=
  let* l := gets listening in when l then send (Notified e).
Definition notify_opt (e : option ChainOrchestratorEvent) : Act unit :=
  match e with Some e => notify e | None => ret tt end.

Definition get_fcs : Act ForkchoiceState := gets orchestrator_fcs.
Definition synced : Act bool := gets (λ o, state_is_synced (sync_state o)).
Definition set_l1_mode (m : SyncMode) : Act unit :=
  modify (λ o, set_sync_state (mkSync m (sync_l2 (sync_state o))) o).
Definition set_l2_mode (m : SyncMode) : Act unit :=
  modify (λ o, set_sync_state (mkSync (sync_l1 (sync_state o)) m) o).

Definition push_batch (status : BatchStatus) (bi : BatchInfo) : Act unit :=
  modify (λ o, set_pipeline
    (mkPipelineHandle (pipeline_push_len (pipeline_len (derivation_pipeline o)))
       (pushed_batches (derivation_pipeline o) ++ [{| rq_batch_info := bi; rq_target_status := status |}])) o).

(** A call of the sequencer; a missing one panics ([expect]). *)
Definition on_sequencer {A} (m : M (Sequencer * Env W) SequencerError A) : M (Orchestrator W) SequencerError A :=
  λ o, match sequencer o with
       | None => (Panic, o)
       | Some s => let '(r, (s, e)) := m (s, env o) in (r, set_sequencer (Some s) (set_env e o))
       end.
Definition modify_sequencer (f : Sequencer → Sequencer) : Act unit :=
  modify (λ o, set_sequencer (f <$> sequencer o) o).
Definition modify_driver (f : DerivationDriver → DerivationDriver) : Act unit :=
  modify (λ o, set_driver (f (derivation_driver o)) o).

Definition has_pending_derivation_work (o : Orchestrator W) : bool :=
  negb (can_accept_batch (derivation_driver o)) ||
  negb (pipeline_len (derivation_pipeline o) =? 0).

(** [get_block_by_number(..).full().await?.ok_or(L2BlockNotFoundInL2Client)]. *)
Definition l2_block_at (n : Z) : Act DogeosBlock :=
  let* block := on_l2_client (get_block_by_number n) in
  match block with
  | Some b => ret (rpc_block b)
  | None => fail (L2BlockNotFoundInL2Client n)
  end.

(** ** Signer and sequencer events *)

Definition handle_signer_event (block : DogeosBlock) (signature : Signature) :
    Act (option ChainOrchestratorEvent) :=
  tx (in_tx (set_l2_head_block_number (block_number block) ;;;
             insert_signature (block_hash_slow block) signature)) ;;;
  send (AnnounceBlock block signature) ;;;
  ret (Some (SignedBlock block signature)).

Definition sign_block_request (block : DogeosBlock) : Act unit :=
  let* s := gets signer in
  let* s := lift (expect s) in
  if request_open s then send (SignRequest block) else fail (CoSignerError RequestChannelClosed).

Definition handle_sequencer_event (event : SequencerEvent) : Act (option ChainOrchestratorEvent) :=
  match event with
  | NewSlot =>
      let* s := gets signer in
      let* s := lift (expect s) in
      let* c := gets consensus in
      when should_sequence_block c (signer_address s) then
        map_err CoSequencerError (on_sequencer (start_payload_building (unix_secs clock))) ;;;
      ret None
  | PayloadReady pid =>
      let* r := try (on_sequencer (finalize_payload_building pid)) in
      match r with
      | inr (InvalidPayload bi lvh e) => fail (CoSequencerError (InvalidPayload bi lvh e))
      | inr _ => ret (Some BlockBuildingSkipped)
      | inl (Some block) =>
          db (update_l1_messages_from_l2_blocks [L2BlockInfo_from_block block]) ;;;
          sign_block_request block ;;;
          ret (Some (BlockSequenced block))
      | inl None => ret (Some BlockBuildingSkipped)
      end
  end.

(** ** L1 messages of blocks *)

(** [compute_l1_message_queue_hash]: the rolling commitment to the V2 message queue. *)
Definition hash_msg_queue (rolling_hash tx_hash : B256) : B256 :=
  keccak256 (be_bytes 32 rolling_hash ++ be_bytes 32 tx_hash).

Definition compute_l1_message_queue_hash (message : TxL1Message) : Act (option B256) :=
  let start := l1_v2_message_queue_start_index config in
  if queue_index message =? start then ret (Some (hash_msg_queue 0 (l1_tx_hash message)))
  else if start <? queue_index message then
    let index := queue_index message - 1 in
    let* msgs := db (get_n_l1_messages (Some (QueueIndex index)) 1) in
    let* previous := lift (ok_or (CoDatabaseError (DbL1MessageNotFound (QueueIndex index)))
                             (queue_hash <$> List.hd_error msgs)) in
    ret (Some (hash_msg_queue (default 0 previous) (l1_tx_hash message)))
  else ret None.

Definition block_l1_hashes (block : DogeosBlock) : list B256 :=
  map trie_hash (List.filter is_l1_message (transactions block)).

(** The comparison of the hashes in the blocks with the expected messages, in order. *)
Fixpoint compare_l1_messages (hashes : list B256) (expected : list L1MessageEnvelope) : Act unit :=
  match hashes with
  | [] => ret tt
  | message_hash :: hashes =>
      match expected with
      | [] =>
          notify (L1MessageNotFoundInDatabase (TransactionHash message_hash)) ;;;
          fail (CoL1MessageNotFound (TransactionHash message_hash))
      | m :: expected =>
          let expected_hash := l1_tx_hash (transaction m) in
          if negb (message_hash =? expected_hash) then
            notify (L1MessageMismatchEvent expected_hash message_hash) ;;;
            fail (L1MessageMismatch expected_hash message_hash)
          else compare_l1_messages hashes expected
      end
  end.

Definition validate_l1_messages (blocks : list DogeosBlock) : Act unit :=
  let l1_message_hashes := concat (map block_l1_hashes blocks) in
  if bool_decide (l1_message_hashes = []) then ret tt
  else
    let* first := lift (expect (List.hd_error blocks)) in
    let* database_messages :=
      db (get_n_l1_messages (Some (BlockNumber (block_number first))) (length l1_message_hashes)) in
    compare_l1_messages l1_message_hashes database_messages.

(** ** Consolidation of the unsafe chain *)

(** One chunk of the block stream; any failure to fetch is reported as an invalid block. *)
Fixpoint fetch_blocks (numbers : list Z) : Act (list DogeosBlock) :=
  match numbers with
  | [] => ret []
  | n :: numbers =>
      let* b := map_err (λ _, InvalidBlock) (l2_block_at n) in
      let* bs := fetch_blocks numbers in
      ret (b :: bs)
  end.

Definition consolidate_chunk (numbers : list Z) : Act unit :=
  let* blocks_to_validate := fetch_blocks numbers in
  let* r := try (validate_l1_messages blocks_to_validate) in
  match r with
  | inr e => db (purge_l1_message_to_l2_block_mappings None) ;;; fail e
  | inl _ => db (update_l1_messages_from_l2_blocks (map L2BlockInfo_from_block blocks_to_validate))
  end.

Definition consolidate_chain : Act unit :=
  let* f := get_fcs in
  let safe_block_number := number (fcs_safe f) in
  let head_block_number := number (fcs_head f) in
  when negb (head_block_number =? safe_block_number) then
    (let numbers := range_inclusive (wrapping_add safe_block_number 1) head_block_number in
     for_each consolidate_chunk (chunks_of (length numbers) BATCH_SIZE numbers)) ;;;
  send UpdateSyncStateIdle ;;;
  let* committed_batches := db fetch_and_update_unprocessed_committed_batches in
  for_each (push_batch Consolidated) committed_batches ;;;
  notify (ChainConsolidated safe_block_number head_block_number).

(** ** Import of a chain of blocks *)

Definition submit_block (peer : PeerId) (block : DogeosBlock) : Act unit :=
  let* st := on_engine_driver (new_payload (from_block_slow block)) in
  if status_is_invalid st then
    send (ImportOutcome peer ImportInvalidBlock) ;;; fail InvalidBlock
  else ret tt.

Definition import_chain (chain : list DogeosBlock) (bp : NewBlockWithPeer) : Act ChainImport :=
  let* tip := lift (expect (last chain)) in
  let* s := synced in
  when s then validate_l1_messages chain ;;;
  for_each (submit_block (nb_peer_id bp)) chain ;;;
  let head := {| number := block_number tip; hash := block_hash_slow tip |} in
  let* l2_syncing := gets (λ o, mode_is_syncing (sync_l2 (sync_state o))) in
  let* result := if l2_syncing then on_engine_driver (optimistic_sync head)
                 else on_engine_driver (update_fcs (Some head) None None) in
  if fcu_is_invalid result then fail InvalidBlock else
  when fcu_is_valid result && l2_syncing then
    (set_l2_mode ModeSynced ;;; let* s := synced in when s then consolidate_chain) ;;;
  let* s := synced in
  when s && fcu_is_valid result then
    (tx (in_tx (update_l1_messages_from_l2_blocks (map L2BlockInfo_from_block chain) ;;;
                set_l2_head_block_number (block_number (nb_block bp)))) ;;;
     send (ImportOutcome (nb_peer_id bp)
             (ImportValidBlock (nb_block bp) (sig_as_bytes (nb_signature bp))))) ;;;
  ret (mkImport chain (nb_peer_id bp) (nb_signature bp) result).

(** ** Blocks from peers *)

(** A handler that also accumulates the ancestors of the block it handles. *)
Notation Anc := (M (Orchestrator W * list B256) ChainOrchestratorError).
Definition in_orchestrator {A} (m : Act A) : Anc A := zoom fst (λ o s, (o, snd s)) m.
Definition extend_ancestors (hs : list B256) : Anc unit := modify (λ s, (fst s, snd s ++ hs)).

Definition block_range (h : B256) (count : Z) : Act (list DogeosBlock) :=
  on_l2_client (λ w, let '(bs, w) := get_full_block_range h count w in (Ok bs, w)).

(** The position of the first fetched header that is in the canonical chain. *)
Fixpoint common_ancestor (i : nat) (headers : list DogeosBlock) : Act (option nat) :=
  match headers with
  | [] => ret None
  | header :: headers =>
      let* current_block := l2_block_at (block_number header) in
      if block_hash_slow header =? block_hash_slow current_block then ret (Some i)
      else common_ancestor (S i) headers
  end.

(** The loop that walks a fork back to the canonical chain, newest fetched header first. *)
Fixpoint fork_loop (fuel : nat) (bp : NewBlockWithPeer) (current_safe_block_number : Z)
    (new_headers : list DogeosBlock) : Anc ChainOrchestratorEvent :=
  match fuel with
  | 0%nat => panic
  | S fuel =>
      let* front := lift (expect (List.hd_error new_headers)) in
      if negb (wrapping_add current_safe_block_number 1 <? block_number front)
      then fail L2SafeBlockReorgDetected
      else
        let parent_number := block_number front - 1 in
        let fetch_count := Z.min HEADER_FETCH_COUNT (parent_number - current_safe_block_number) in
        let* headers := in_orchestrator (block_range (parent_hash (header front)) fetch_count) in
        extend_ancestors (map block_hash_slow headers) ;;;
        let* index := in_orchestrator (common_ancestor 0 headers) in
        match index with
        | Some index =>
            let* chain_import :=
              in_orchestrator (import_chain (rev (take index headers) ++ new_headers) bp) in
            ret (ChainReorged chain_import)
        | None => fork_loop fuel bp current_safe_block_number (rev headers ++ new_headers)
        end
  end.

(** A block above the head: its missing parents are fetched; [inl] when it extends the head. *)
Definition extend_head (bp : NewBlockWithPeer) (current_head : BlockInfo) :
    Anc (ChainOrchestratorEvent + list DogeosBlock) :=
  let received := nb_block bp in
  let fetch_count := block_number received - number current_head in
  let* new_headers :=
    if wrapping_add (number current_head) 1 <? block_number received
    then let* bs := in_orchestrator (block_range (block_hash_slow received) fetch_count) in
         ret (rev bs)
    else ret [received] in
  extend_ancestors (map (λ b, parent_hash (header b)) new_headers) ;;;
  let* first := lift (expect (List.hd_error new_headers)) in
  if parent_hash (header first) =? hash current_head
  then let* chain_import := in_orchestrator (import_chain new_headers bp) in
       ret (inl (ChainExtended chain_import))
  else ret (inr new_headers).

(** A block at or below the head: known, too old, a sibling of a canonical block, or the tip of a
    fork. *)
Definition fork_below_head (bp : NewBlockWithPeer) (f : ForkchoiceState) :
    Act (ChainOrchestratorEvent + list DogeosBlock) :=
  let received := nb_block bp in
  let received_hash := block_hash_slow received in
  let* current_chain_block := l2_block_at (block_number received) in
  if block_hash_slow current_chain_block =? received_hash
  then ret (inl (BlockAlreadyKnown received_hash (nb_peer_id bp)))
  else
    let* now_f := get_fcs in
    if block_number received <=? number (fcs_safe now_f) then fail L2SafeBlockReorgDetected
    else
      let* current_head := l2_block_at (number (fcs_head f)) in
      if timestamp (header received) <=? timestamp (header current_head)
      then ret (inl (OldForkReceived [header received] (nb_peer_id bp) (nb_signature bp)))
      else
        let* parent_block := on_l2_client (get_block_by_hash (parent_hash (header received))) in
        match parent_block with
        | Some parent_block =>
            if number (fcs_safe f) <=? block_number (rpc_block parent_block)
            then let* chain_import := import_chain [received] bp in
                 ret (inl (ChainReorged chain_import))
            else fail L2SafeBlockReorgDetected
        | None => ret (inr [received])
        end.

(** The fuel of the fork loop: one round per block number up to the received one. *)
Definition fork_fuel (received : DogeosBlock) : nat := S (Z.to_nat (block_number received)).

Definition optimistic_sync_to (received : DogeosBlock) : Act ChainOrchestratorEvent :=
  let bi := {| number := block_number received; hash := block_hash_slow received |} in
  on_engine_driver (optimistic_sync bi) ;;;
  set_l2_mode ModeSyncing ;;;
  db (purge_l1_message_to_l2_block_mappings None) ;;;
  ret (OptimisticSync bi).

Definition handle_block_from_peer (bp : NewBlockWithPeer) : Anc (option ChainOrchestratorEvent) :=
  let received := nb_block bp in
  let received_hash := block_hash_slow received in
  let* f := in_orchestrator get_fcs in
  if block_number received <=? number (fcs_finalized f) then
    in_orchestrator (send (ImportOutcome (nb_peer_id bp) ImportFinalizedBlock)) ;;;
    ret (Some (L2FinalizedBlockReceived received_hash (nb_peer_id bp)))
  else
    let* c := in_orchestrator (gets consensus) in
    match validate_new_block c received (nb_signature bp) with
    | Panic => panic
    | Err err =>
        in_orchestrator (send (ImportOutcome (nb_peer_id bp) (ImportConsensusError err))) ;;;
        ret (Some (BlockFailedConsensusChecks received_hash (nb_peer_id bp)))
    | Ok _ =>
        in_orchestrator (db (insert_signature received_hash (nb_signature bp))) ;;;
        let head := fcs_head f in
        if wrapping_add (number head) (optimistic_sync_threshold config) <? block_number received
        then let* e := in_orchestrator (optimistic_sync_to received) in ret (Some e)
        else
          let* r := if number head <? block_number received then extend_head bp head
                    else in_orchestrator (fork_below_head bp f) in
          match r with
          | inl e => ret (Some e)
          | inr new_headers =>
              let* e := fork_loop (fork_fuel received) bp (number (fcs_safe f)) new_headers in
              ret (Some e)
          end
    end.

(** ** Imports held for a missing L1 message *)

Definition is_chain_import (e : ChainOrchestratorEvent) : bool :=
  match e with ChainExtended _ | ChainReorged _ | OptimisticSync _ => true | _ => false end.

Definition supersedes_blocked_import
    (result : outcome ChainOrchestratorError (option ChainOrchestratorEvent))
    (block_number blocked_number : Z) : bool :=
  (blocked_number <=? block_number) &&
  match result with Ok (Some e) => is_chain_import e | _ => false end.

Definition track_blocked_import (bp : NewBlockWithPeer) (block_ancestors : list B256)
    (result : outcome ChainOrchestratorError (option ChainOrchestratorEvent))
    (o : Orchestrator W) : Orchestrator W :=
  match result with
  | Err (CoL1MessageNotFound (TransactionHash missing)) =>
      let keep_held :=
        match blocked_import o with
        | Some held =>
            existsb (Z.eqb (block_hash_slow (nb_block bp))) (ancestors held) &&
            is_ok (validate_new_block (consensus o) (nb_block (block_with_peer held))
                     (nb_signature (block_with_peer held)))
        | None => false
        end in
      if keep_held then o
      else set_blocked_import (Some (mkBlocked bp missing block_ancestors)) o
  | _ =>
      match blocked_import o with
      | Some held =>
          if supersedes_blocked_import result (block_number (nb_block bp))
               (block_number (nb_block (block_with_peer held)))
          then set_blocked_import None o else o
      | None => o
      end
  end.

Definition import_peer_block (bp : NewBlockWithPeer) : Act (option ChainOrchestratorEvent) :=
  λ o, match handle_block_from_peer bp (o, [parent_hash (header (nb_block bp))]) with
       | (Panic, (o, _)) => (Panic, o)
       | (result, (o, block_ancestors)) => (result, track_blocked_import bp block_ancestors result o)
       end.

Definition handle_network_event (bp : NewBlockWithPeer) : Act (option ChainOrchestratorEvent) :=
  notify (NewBlockReceived bp) ;;; import_peer_block bp.

Definition unblocks_import (n : L1Notification) (o : Orchestrator W) : bool :=
  match blocked_import o, n with
  | Some blocked, L1MessageSent message _ _ => l1_tx_hash message =? missing_l1_message blocked
  | _, _ => false
  end.

Definition retry_blocked_import : Act (option ChainOrchestratorEvent) :=
  let* held := gets blocked_import in
  match held with
  | None => ret None
  | Some held =>
      modify (set_blocked_import None) ;;;
      let bp := block_with_peer held in
      let h := block_hash_slow (nb_block bp) in
      let* f := get_fcs in
      if block_number (nb_block bp) <=? number (fcs_finalized f)
      then ret (Some (BlockedImportDropped h))
      else
        let* c := gets consensus in
        match validate_new_block c (nb_block bp) (nb_signature bp) with
        | Panic => panic
        | Err _ => ret (Some (BlockedImportDropped h))
        | Ok _ => import_peer_block bp
        end
  end.
(** ** L1 notifications *)

Definition handle_l1_new_block (bi : BlockInfo) : Act (option ChainOrchestratorEvent) :=
  db (set_latest_l1_block_number (number bi)) ;;; ret (Some (NewL1Block (number bi))).

(** The L2 transactions of the blocks [from..=to] that are not L1 messages. *)
Fixpoint collect_reverted_txs (numbers : list Z) : Act (list Tx) :=
  match numbers with
  | [] => ret []
  | n :: numbers =>
      let* block := l2_block_at n in
      let* txs := collect_reverted_txs numbers in
      ret (List.filter (λ t, negb (is_l1_message t)) (transactions block) ++ txs)
  end.
Definition collect_reverted_txs_in_range (from to : Z) : Act (list Tx) :=
  collect_reverted_txs (range_inclusive from to).

(** A transaction the pool refuses is logged and dropped. *)
Definition reinsert_txs_into_pool (txs : list Tx) : Act unit :=
  for_each (λ t, let* _ := try (on_l2_client (send_raw_transaction (encoded_2718 t))) in ret tt) txs.

Definition unwind_and_revalidate_held_batch (ancestor : Z) : Act (UnwindResult * HeldReorgOutcome) :=
  modify (set_blocked_import None) ;;;
  (λ o, let '(r, (d, db)) :=
          unwind_and_revalidate ancestor (derivation_driver o, database (env o)) in
        (r, set_driver d (set_env (mkEnv (engine (env o)) db) o))).

Definition update_fcs_after_unwind (operation : string) (head safe : option BlockInfo) : Act unit :=
  let* r := try (on_engine_driver (update_fcs_checked head safe None)) in
  let refuse (reason : string) : Act unit :=
    let* f := get_fcs in
    fail (UnwindForkchoiceUpdateFailed operation safe (fcs_safe f) reason) in
  match r with
  | inl response =>
      match status (payload_status response) with
      | Valid => ret tt
      | Invalid validation_error => refuse ("Engine returned INVALID: " +:+ validation_error)
      | Syncing => refuse "Engine returned SYNCING"
      | Accepted => refuse "Engine returned ACCEPTED"
      end
  | inr (CoEngineError error) => refuse (engine_error_text error)
  | inr e => fail e
  end.

Definition job_l1_origin (o : Orchestrator W) : option Z :=
  match sequencer o with
  | Some s => match payload_building_job s with Some j => l1_origin j | None => None end
  | None => None
  end.

Definition is_survived (r : HeldReorgOutcome) : bool :=
  match r with Survived _ => true | _ => false end.

(** The new head after an unwind that removed executed messages, and the transactions of the
    blocks above it. *)
Definition new_l2_head (l2_head_block_number : option Z) : Act (option BlockInfo * list Tx) :=
  match l2_head_block_number with
  | Some block_number =>
      let* block := l2_block_at block_number in
      modify_sequencer cancel_payload_building_job ;;;
      let* f := get_fcs in
      let* reverted :=
        collect_reverted_txs_in_range (saturating_add block_number 1) (number (fcs_head f)) in
      ret (Some {| number := block_number; hash := block_hash_slow block |}, reverted)
  | None => ret (None, [])
  end.

Definition handle_l1_reorg (block_number : Z) : Act (option ChainOrchestratorEvent) :=
  modify_driver cancel_attempt ;;;
  let* (unwind_result, held_outcome) := unwind_and_revalidate_held_batch block_number in
  let* (l2_head_block_info, reverted) := new_l2_head (ur_l2_head_block_number unwind_result) in
  let* origin := gets job_l1_origin in
  when match origin with Some n => ur_l1_block_number unwind_result <? n | None => false end then
    modify_sequencer cancel_payload_building_job ;;;
  let safe := ur_l2_safe_block_info unwind_result in
  when negb (bool_decide (l2_head_block_info = None) && bool_decide (safe = None)) then
    update_fcs_after_unwind "L1 reorg" l2_head_block_info safe ;;;
  reinsert_txs_into_pool reverted ;;;
  when is_survived held_outcome then
    modify_driver (schedule_fresh_reconciliation (now_ms clock)) ;;;
  ret (Some (L1Reorg (ur_l1_block_number unwind_result) (ur_queue_index unwind_result)
               l2_head_block_info safe)).

Definition handle_l1_finalized (block_number : Z) : Act (option ChainOrchestratorEvent) :=
  let* (finalized_block_info, triggered_batches) :=
    tx (in_tx (set_finalized_l1_block_number block_number) ;;;
        let* finalized_block_info := in_tx (finalize_consolidated_batches block_number) in
        let* triggered := in_tx (fetch_and_update_unprocessed_finalized_batches block_number) in
        ret (finalized_block_info, triggered)) in
  match finalized_block_info with
  | Some bi => let* _ := on_engine_driver (update_fcs None None (Some bi)) in ret tt
  | None => ret tt
  end ;;;
  for_each (push_batch Finalized) triggered_batches ;;;
  ret (Some (L1BlockFinalized block_number triggered_batches)).

Definition batch_commit_tx (bi : BlockInfo) (batch : BatchCommitData) :
    M Db ChainOrchestratorError ChainOrchestratorEvent :=
  let prev_batch_index := wrapping_sub (bc_index batch) 1 in
  let* prev := in_tx (get_batch_by_index prev_batch_index) in
  match prev with
  | None => fail (BatchCommitGap (bc_index batch))
  | Some _ =>
      in_tx (insert_batch batch) ;;;
      in_tx (insert_l1_block_info bi) ;;;
      ret (BatchCommitIndexed (BatchInfo_from batch) (bc_block_number batch))
  end.

Definition handle_batch_commit (bi : BlockInfo) (batch : BatchCommitData) :
    Act (option ChainOrchestratorEvent) :=
  let* event := tx (batch_commit_tx bi batch) in
  let* s := synced in
  when s then push_batch Consolidated (BatchInfo_from batch) ;;;
  ret (Some event).

Definition handle_batch_finalization (batch_index : Z) (bi : BlockInfo) :
    Act (option ChainOrchestratorEvent) :=
  let* triggered_batches :=
    tx (in_tx (insert_l1_block_info bi) ;;;
        in_tx (finalize_batches_up_to_index batch_index (number bi)) ;;;
        let* finalized_block_number := in_tx get_finalized_l1_block_number in
        if number bi <=? finalized_block_number
        then in_tx (fetch_and_update_unprocessed_finalized_batches finalized_block_number)
        else ret []) in
  for_each (push_batch Finalized) triggered_batches ;;;
  ret (Some (BatchFinalizeIndexed bi triggered_batches)).

Definition handle_batch_revert (start_index end_index : Z) (bi : BlockInfo) :
    Act (option ChainOrchestratorEvent) :=
  let* (safe_block_info, batch_info) :=
    tx (in_tx (insert_l1_block_info bi) ;;;
        in_tx (set_batch_revert_block_number_for_batch_range start_index end_index bi) ;;;
        in_tx get_latest_safe_l2_info) in
  let* s := synced in
  when s then update_fcs_after_unwind "batch revert" None (Some safe_block_info) ;;;
  ret (Some (BatchReverted batch_info safe_block_info)).

Definition l1_message_tx (m : L1MessageEnvelope) (bi : BlockInfo) :
    M Db ChainOrchestratorError unit :=
  let index := queue_index (transaction m) in
  let* gap :=
    if 0 <? index
    then let* previous := in_tx (get_n_l1_messages (Some (QueueIndex (index - 1))) 1) in
         ret (bool_decide (previous = []))
    else ret false in
  if gap then fail (L1MessageQueueGap index)
  else in_tx (insert_l1_message m) ;;; in_tx (insert_l1_block_info bi).

Definition handle_l1_message (message : TxL1Message) (bi : BlockInfo) :
    Act (option ChainOrchestratorEvent) :=
  let* qh := compute_l1_message_queue_hash message in
  tx (l1_message_tx (mkL1MessageEnvelope message (number bi) None qh) bi) ;;;
  ret (Some (L1MessageCommitted (queue_index message))).

Definition handle_l1_notification (n : L1Notification) : Act (option ChainOrchestratorEvent) :=
  match n with
  | Processed block_number => db (set_processed_l1_block_number block_number) ;;; ret None
  | L1ReorgTo block_number => handle_l1_reorg block_number
  | ConsensusUpdated update =>
      modify (λ o, set_consensus (update_config update (consensus o)) o) ;;; ret None
  | NewBlock bi => handle_l1_new_block bi
  | FinalizedAt block_number => handle_l1_finalized block_number
  | BatchCommit bi data => handle_batch_commit bi data
  | BatchRevert batch bi => handle_batch_revert (b_index batch) (b_index batch) bi
  | BatchRevertRange start fin bi => handle_batch_revert start fin bi
  | L1MessageSent message bi _ => handle_l1_message message bi
  | Synced =>
      set_l1_mode ModeSynced ;;;
      let* s := synced in
      when s then consolidate_chain ;;;
      notify L1Synced ;;;
      ret None
  | BatchFinalization _ index bi => handle_batch_finalization index bi
  end.
End Handlers.
