(* ===== verification/Network.v ===== *)
(** * The network manager and the scroll-wire protocol (crates/network/src, crates/scroll-wire/src)

    The gossip of blocks: the scroll-wire messages and connections, the eth-wire bridge, and the
    manager that deduplicates the blocks of peers, penalizes peers and announces blocks.  The inner
    network of reth, its LRU cache and the derived RLP codec of a message are parameters. *)

From S2P Require Import Prelude Sql Primitives BigEndian Engine DbModel Signing Watcher Orchestrator.

(** ** What the crates in use provide *)

(** [reth_network::cache::LruCache]. *)
Class LruCache := {
  lru : Type → Type;
  lru_new {A} : nat → lru A;
  lru_contains {A} `{!EqDecision A} : A → lru A → bool;
  lru_insert {A} `{!EqDecision A} : A → lru A → lru A
}.

(** The RLP codec of [NewBlock] and [Signature::from_raw]. *)
Class WireCodec `{Chain} := {
  rlp_encode_new_block : Bytes * DogeosBlock → Bytes;
  rlp_decode_new_block : Bytes → option ((Bytes * DogeosBlock) * Bytes);
  from_raw : Bytes → option Signature
}.

Section Network.
Context `{Chain} `{Rlp} `{SignerRecovery} `{SignatureBytes} `{LruCache} `{!WireCodec}.

(** ** scroll-wire messages (scroll-wire/src/protocol/proto.rs) *)

Definition LRU_CACHE_SIZE : nat := 100.

Record WireNewBlock := mkWireBlock { wire_signature : Bytes; wire_block : DogeosBlock }.
Definition NewBlock_new (signature : Signature) (block : DogeosBlock) : WireNewBlock :=
  mkWireBlock (sig_as_bytes signature) block.

Inductive ScrollMessage := MessageNewBlock (new_block : WireNewBlock).

Definition message_id (m : ScrollMessage) : Z := match m with MessageNewBlock _ => 0 end.

Definition encoded (m : ScrollMessage) : Bytes :=
  message_id m :: match m with
                  | MessageNewBlock b => rlp_encode_new_block (wire_signature b, wire_block b)
                  end.

(** What follows the message in the buffer is ignored. *)
Definition decode_message (buffer : Bytes) : option ScrollMessage :=
  match buffer with
  | [] => None
  | id :: buffer =>
      if id =? 0
      then '((signature, block), _) ← rlp_decode_new_block buffer;
           Some (MessageNewBlock (mkWireBlock signature block))
      else None
  end.

(** ** A scroll-wire connection (connection/mod.rs) *)

Inductive ScrollWireEvent :=
| ConnectionEstablished (peer : PeerId)
| WireNewBlockEvent (peer : PeerId) (block : DogeosBlock) (signature : Signature).

(** What is queued in both directions: messages to the peer, frames from it, and whether the peer
    closed the connection after them. *)
Record ScrollWireConnection := mkConnection {
  conn_peer : PeerId;
  outbound : list ScrollMessage;
  inbound : list Bytes;
  inbound_closed : bool
}.

Inductive ConnectionPoll := Frame (bytes : Bytes) | Disconnected | Idle.

(** [connection_poll]: the frame to send, with the events emitted on the way. *)
Fixpoint receive (peer : PeerId) (frames : list Bytes) (closed : bool) :
    ConnectionPoll * list Bytes * list ScrollWireEvent :=
  match frames with
  | [] => (if closed then Disconnected else Idle, [], [])
  | frame :: frames =>
      match decode_message frame with
      | None => (Disconnected, frames, [])
      | Some (MessageNewBlock b) =>
          match from_raw (wire_signature b) with
          | None => (Disconnected, frames, [])
          | Some signature =>
              let '(r, rest, events) := receive peer frames closed in
              (r, rest, WireNewBlockEvent peer (wire_block b) signature :: events)
          end
      end
  end.

Definition connection_poll (c : ScrollWireConnection) :
    ConnectionPoll * ScrollWireConnection * list ScrollWireEvent :=
  match outbound c with
  | msg :: rest =>
      (Frame (encoded msg), mkConnection (conn_peer c) rest (inbound c) (inbound_closed c), [])
  | [] =>
      let '(r, rest, events) := receive (conn_peer c) (inbound c) (inbound_closed c) in
      (r, mkConnection (conn_peer c) [] rest (inbound_closed c), events)
  end.

(** ** The scroll-wire manager (scroll-wire/src/manager.rs) *)

(** The sending half of a connection's queue. *)
Record ToConnection := mkToConnection { connection_open : bool; queued : list ScrollMessage }.

Inductive AnnounceBlockError := PeerNotConnected (p : PeerId) | SendFailed (p : PeerId).

Record ScrollWireManager := mkWireManager {
  wire_events : list ScrollWireEvent;
  connections : gmap PeerId ToConnection
}.

Definition is_connected (peer : PeerId) (m : ScrollWireManager) : bool :=
  bool_decide (is_Some (connections m !! peer)).

Definition wire_announce_block (peer : PeerId) (block : WireNewBlock) :
    M ScrollWireManager AnnounceBlockError unit :=
  let* m := get in
  match connections m !! peer with
  | None => fail (PeerNotConnected peer)
  | Some to_connection =>
      if connection_open to_connection then
        modify (λ m, mkWireManager (wire_events m)
          (<[peer := mkToConnection true (queued to_connection ++ [MessageNewBlock block])]>
             (connections m)))
      else
        modify (λ m, mkWireManager (wire_events m) (delete peer (connections m))) ;;;
        fail (SendFailed peer)
  end.

(** [poll]: registers connections up to the next block. *)
Fixpoint poll_events (events : list ScrollWireEvent) (cs : gmap PeerId ToConnection) :
    option ScrollWireEvent * ScrollWireManager :=
  match events with
  | [] => (None, mkWireManager [] cs)
  | ConnectionEstablished peer :: events =>
      poll_events events (<[peer := mkToConnection true []]> cs)
  | e :: events => (Some e, mkWireManager events cs)
  end.
Definition wire_poll (m : ScrollWireManager) : option ScrollWireEvent * ScrollWireManager :=
  poll_events (wire_events m) (connections m).

(** ** The network manager (network/src/manager.rs) *)

Definition ECDSA_SIGNATURE_LEN : nat := 65.
Definition u128_max : Z := 2 ^ 128 - 1.

(** [compute_td]. *)
Definition compute_td (td_constant block_number : Z) : Z := Z.min u128_max (td_constant + block_number).

(** The calls on the inner network and the events sent to the subscribers, in order. *)
Inductive NetworkAction :=
| ReputationBadBlock (peer : PeerId)
| EthWireAnnounce (peer : PeerId) (block : DogeosBlock) (td : Z) (hash : B256)
| NewBlockEvent (b : NewBlockWithPeer)
| ShutdownAcknowledged
| ListenerAdded.

Record ScrollNetworkManager := mkNetworkManager {
  scroll_wire : ScrollWireManager;
  blocks_seen : lru (B256 * Signature);
  peer_state : gmap PeerId (lru B256);
  td_constant : Z;
  network_signer : option Address;
  actions : list NetworkAction
}.

(** [from_parts]. *)
Definition NetworkManager_from_parts (td : Z) (authorized_signer : option Address) :
    ScrollNetworkManager :=
  mkNetworkManager (mkWireManager [] ∅) (lru_new LRU_CACHE_SIZE) ∅ td authorized_signer [].

Definition set_scroll_wire (x : ScrollWireManager) (nm : ScrollNetworkManager) :=
  mkNetworkManager x (blocks_seen nm) (peer_state nm) (td_constant nm) (network_signer nm)
    (actions nm).
Definition set_blocks_seen (x : lru (B256 * Signature)) (nm : ScrollNetworkManager) :=
  mkNetworkManager (scroll_wire nm) x (peer_state nm) (td_constant nm) (network_signer nm)
    (actions nm).
Definition set_peer_state (x : gmap PeerId (lru B256)) (nm : ScrollNetworkManager) :=
  mkNetworkManager (scroll_wire nm) (blocks_seen nm) x (td_constant nm) (network_signer nm)
    (actions nm).
Definition act (a : NetworkAction) (nm : ScrollNetworkManager) :=
  mkNetworkManager (scroll_wire nm) (blocks_seen nm) (peer_state nm) (td_constant nm)
    (network_signer nm) (actions nm ++ [a]).

Definition peer_has_seen_block (peer : PeerId) (h : B256) (nm : ScrollNetworkManager) : bool :=
  match peer_state nm !! peer with Some state => lru_contains h state | None => false end.

(** Whether the block is a duplicate. *)
Definition mark_block_seen (peer : PeerId) (h : B256) (nm : ScrollNetworkManager) :
    bool * ScrollNetworkManager :=
  let state := default (lru_new LRU_CACHE_SIZE) (peer_state nm !! peer) in
  if lru_contains h state
  then (true, set_peer_state (<[peer := state]> (peer_state nm)) nm)
  else (false, set_peer_state (<[peer := lru_insert h state]> (peer_state nm)) nm).

(** The signature is valid, or there is no authorized signer. *)
Definition verify_block_signature (b : WireNewBlock) (nm : ScrollNetworkManager) : bool :=
  match network_signer nm with
  | None => true
  | Some authorized_signer =>
      match from_raw (wire_signature b) with
      | None => false
      | Some signature =>
          match recover_signer signature (sig_encode_hash (header (wire_block b))) with
          | Ok recovered_signer => authorized_signer =? recovered_signer
          | _ => false
          end
      end
  end.

(** [block.header.extra_data = extra_data]. *)
Definition with_extra_data (extra : Bytes) (b : DogeosBlock) : DogeosBlock :=
  let h := header b in
  mkBlock
    {| parent_hash := parent_hash h; ommers_hash := ommers_hash h; beneficiary := beneficiary h;
       state_root := state_root h; transactions_root := transactions_root h;
       receipts_root := receipts_root h; logs_bloom := logs_bloom h; difficulty := difficulty h;
       h_number := h_number h; gas_limit := gas_limit h; gas_used := gas_used h;
       timestamp := timestamp h; extra_data := extra; mix_hash := mix_hash h; nonce := nonce h;
       base_fee_per_gas := base_fee_per_gas h |}
    (transactions b).

(** One peer of the announcement. *)
Definition announce_to (b : WireNewBlock) (hash : B256) (eth_wire : bool)
    (nm : ScrollNetworkManager) (peer : PeerId) : ScrollNetworkManager :=
  if peer_has_seen_block peer hash nm then nm
  else if is_connected peer (scroll_wire nm) then
    match wire_announce_block peer b (scroll_wire nm) with
    | (Ok _, m) => set_scroll_wire m nm
    | (_, m) => set_peer_state (delete peer (peer_state nm)) (set_scroll_wire m nm)
    end
  else if eth_wire then
    act (EthWireAnnounce peer (with_extra_data (wire_signature b) (wire_block b))
           (compute_td (td_constant nm) (block_number (wire_block b))) hash) nm
  else nm.

(** [announce_block]; [peers] is what the inner network answers. *)
Definition announce_block (b : WireNewBlock) (peers : option (list PeerId))
    (nm : ScrollNetworkManager) : ScrollNetworkManager :=
  match peers with
  | None => nm
  | Some peers =>
      foldl (announce_to b (block_hash_slow (wire_block b)) (verify_block_signature b nm)) nm peers
  end.

(** The part [on_scroll_wire_event] and [handle_eth_wire_block] share: penalize a peer that sends
    a block twice, and emit a block not seen yet. *)
Definition receive_block (peer : PeerId) (block : DogeosBlock) (signature : Signature)
    (nm : ScrollNetworkManager) : ScrollNetworkManager :=
  let block_hash := block_hash_slow block in
  let (duplicate, nm) := mark_block_seen peer block_hash nm in
  if duplicate then act (ReputationBadBlock peer) nm
  else if lru_contains (block_hash, signature) (blocks_seen nm) then nm
  else act (NewBlockEvent (mkNewBlock peer block signature))
         (set_blocks_seen (lru_insert (block_hash, signature) (blocks_seen nm)) nm).

Definition on_scroll_wire_event (event : ScrollWireEvent) (nm : ScrollNetworkManager) :
    outcome Empty_set ScrollNetworkManager :=
  match event with
  | WireNewBlockEvent peer block signature => Ok (receive_block peer block signature nm)
  | ConnectionEstablished _ => Panic
  end.

(** The signature at the end of the extra data. *)
Definition signature_of_extra_data (extra : Bytes) : option Signature :=
  if Nat.leb ECDSA_SIGNATURE_LEN (length extra)
  then from_raw (drop (length extra - ECDSA_SIGNATURE_LEN) extra) else None.

Definition handle_eth_wire_block (peer : PeerId) (block : DogeosBlock) (nm : ScrollNetworkManager) :
    ScrollNetworkManager :=
  match signature_of_extra_data (extra_data (header block)) with
  | Some signature => receive_block peer (with_extra_data [] block) signature nm
  | None => act (ReputationBadBlock peer) nm
  end.

Definition on_block_import_result (peer : PeerId) (r : BlockImportResult)
    (peers : option (list PeerId)) (nm : ScrollNetworkManager) : ScrollNetworkManager :=
  match r with
  | ImportValidBlock b signature | ImportValidHeader b signature =>
      announce_block (mkWireBlock signature b) peers nm
  | ImportConsensusError _ | ImportInvalidBlock | ImportFinalizedBlock =>
      act (ReputationBadBlock peer) nm
  end.

(** [NetworkHandleMessage]; a shutdown comes with whether its caller still waits for the answer. *)
Inductive NetworkHandleMessage :=
| HandleAnnounceBlock (block : DogeosBlock) (signature : Signature)
| HandleImportOutcome (peer : PeerId) (r : BlockImportResult)
| HandleShutdown (awaited : bool)
| HandleEventListener.

(** [tx.send(()).unwrap()] panics when the caller of the shutdown is gone. *)
Definition on_handle_message (message : NetworkHandleMessage) (peers : option (list PeerId))
    (nm : ScrollNetworkManager) : outcome Empty_set ScrollNetworkManager :=
  match message with
  | HandleAnnounceBlock block signature => Ok (announce_block (NewBlock_new signature block) peers nm)
  | HandleImportOutcome peer r => Ok (on_block_import_result peer r peers nm)
  | HandleShutdown awaited => if awaited then Ok (act ShutdownAcknowledged nm) else Panic
  | HandleEventListener => Ok (act ListenerAdded nm)
  end.

(** What one round of [run] can find ready; new scroll-wire events may arrive before it. *)
Inductive NetworkInput :=
| FromHandle (message : NetworkHandleMessage) (peers : option (list PeerId))
| FromWire (events : list ScrollWireEvent)
| FromEthWire (peer : PeerId) (block : DogeosBlock)
| ConnectionDropped (peer : PeerId).

(** A connection's queue is closed from the other side. *)
Definition drop_connection (peer : PeerId) (m : ScrollWireManager) : ScrollWireManager :=
  mkWireManager (wire_events m)
    (alter (λ c, mkToConnection false (queued c)) peer (connections m)).

(** One round of [run]. *)
Definition network_step (input : NetworkInput) (nm : ScrollNetworkManager) :
    outcome Empty_set ScrollNetworkManager :=
  match input with
  | FromHandle message peers => on_handle_message message peers nm
  | FromWire events =>
      let (event, m) := wire_poll (mkWireManager (wire_events (scroll_wire nm) ++ events)
                                     (connections (scroll_wire nm))) in
      match event with
      | Some event => on_scroll_wire_event event (set_scroll_wire m nm)
      | None => Ok (set_scroll_wire m nm)
      end
  | FromEthWire peer block => Ok (handle_eth_wire_block peer block nm)
  | ConnectionDropped peer => Ok (set_scroll_wire (drop_connection peer (scroll_wire nm)) nm)
  end.

(** ** The eth-wire bridge (network/src/eth_wire.rs); times in seconds *)

Definition ETH_WIRE_BLOCK_CHANNEL_SIZE : nat := 1000.
Definition DROP_LOG_INTERVAL : Z := 5.

Record EthWireBlockImport := mkEthWireImport {
  bridge : list (PeerId * DogeosBlock);
  bridge_open : bool;
  dropped_since_log : Z;
  last_drop_log : option Z
}.

Definition on_new_block (now : Z) (peer : PeerId) (block : DogeosBlock) (i : EthWireBlockImport) :
    EthWireBlockImport :=
  if negb (bridge_open i) then i
  else if Nat.ltb (length (bridge i)) ETH_WIRE_BLOCK_CHANNEL_SIZE then
    mkEthWireImport (bridge i ++ [(peer, block)]) true (dropped_since_log i) (last_drop_log i)
  else
    let due := match last_drop_log i with
               | Some last => DROP_LOG_INTERVAL <=? now - last
               | None => true
               end in
    if due then mkEthWireImport (bridge i) true 0 (Some now)
    else mkEthWireImport (bridge i) true (wrapping_add (dropped_since_log i) 1) (last_drop_log i).
End Network.
