(* ===== verification/NetworkProps.v ===== *)
(** * What the network manager promises

    It panics on an abandoned shutdown only, a block is passed on once per window of the cache, announcements reach exactly the peers that
    have not sent the block, a block survives the relay over both protocols, and a peer that
    behaves is never penalized. *)

From S2P Require Import Prelude Sql Primitives BigEndian Engine DbModel Signing Watcher.
From S2P Require Import Orchestrator Network.

(** The recency list of an LRU cache, latest first. *)
Class LruLaws `{LruCache} := {
  lru_recent {A} : lru A → list A;
  lru_size {A} : lru A → nat;
  lru_new_laws {A} n : lru_recent (lru_new (A:=A) n) = [] ∧ lru_size (lru_new (A:=A) n) = n;
  lru_contains_law {A} `{!EqDecision A} (x : A) c :
    lru_contains x c = bool_decide (x ∈ lru_recent c);
  lru_insert_law {A} `{!EqDecision A} (x : A) c :
    lru_recent (lru_insert x c) = take (lru_size c) (x :: filter (λ y, y ≠ x) (lru_recent c)) ∧
    lru_size (lru_insert x c) = lru_size c
}.

(** What the codecs promise: what is encoded is decoded. *)
Class WireLaws `{Chain} `{SignatureBytes} `{!WireCodec} := {
  rlp_new_block_law b rest :
    rlp_decode_new_block (rlp_encode_new_block b ++ rest) = Some (b, rest);
  from_raw_law s : from_raw (sig_as_bytes s) = Some s;
  signature_length s : length (sig_as_bytes s) = ECDSA_SIGNATURE_LEN
}.

Section Gossip.
Context `{Chain} `{Rlp} `{SignerRecovery} `{SignatureBytes} `{LruCache} `{!LruLaws} `{!WireCodec}.
Implicit Types nm : ScrollNetworkManager.

(** ** Runs of the manager *)

Fixpoint network_run (inputs : list NetworkInput) nm : outcome Empty_set ScrollNetworkManager :=
  match inputs with
  | [] => Ok nm
  | input :: inputs => obind (network_step input nm) (network_run inputs)
  end.

(** The keys of the blocks passed on to the subscribers. *)
Definition event_key (a : NetworkAction) : option (B256 * Signature) :=
  match a with
  | NewBlockEvent b => Some (block_hash_slow (nb_block b), nb_signature b)
  | _ => None
  end.
Definition emitted nm : list (B256 * Signature) := omap event_key (actions nm).

(** Two occurrences of a key have at least [n] other emissions between them. *)
Definition spaced {A} (n : nat) (l : list A) : Prop :=
  ∀ l1 k l2 l3, l = l1 ++ k :: l2 ++ k :: l3 → (n ≤ length l2)%nat.

Lemma spaced_snoc {A} n (l : list A) k :
  spaced n l → k ∉ take n (reverse l) → spaced n (l ++ [k]).
Proof.
  intros Hs Hk l1 k' l2 l3 Heq. destruct l3 as [|x l3 _] using rev_ind.
  - change (l1 ++ k' :: l2 ++ [k']) with (l1 ++ (k' :: l2) ++ [k']) in Heq.
    rewrite app_assoc in Heq. apply app_inj_tail in Heq as [-> ->].
    destruct (decide (n ≤ length l2)%nat) as [|Hn]; [done|]. exfalso. apply Hk.
    rewrite reverse_app, reverse_cons, <- app_assoc, take_app_ge by (rewrite length_reverse; lia).
    apply elem_of_app. right. rewrite length_reverse.
    destruct (n - length l2)%nat as [|m] eqn:E; [lia|]. left.
  - rewrite !app_comm_cons, !app_assoc in Heq. apply app_inj_tail in Heq as [-> _].
    eapply (Hs l1 k' l2 l3). by rewrite <- !app_assoc, <- !app_comm_cons.
Qed.

Lemma filter_absent {A} `{!EqDecision A} (x : A) (l : list A) : x ∉ l → filter (λ y, y ≠ x) l = l.
Proof.
  induction l as [|y l IH]; intros Hx; [done|]. rewrite not_elem_of_cons in Hx.
  rewrite filter_cons_True by naive_solver. by rewrite IH by naive_solver.
Qed.

Record dedup_inv nm : Prop := {
  di_recent : lru_recent (blocks_seen nm) = take LRU_CACHE_SIZE (reverse (emitted nm));
  di_size : lru_size (blocks_seen nm) = LRU_CACHE_SIZE;
  di_spaced : spaced LRU_CACHE_SIZE (emitted nm)
}.

(** Steps that touch neither the cache nor the events. *)
Lemma dedup_inv_same nm nm' :
  blocks_seen nm' = blocks_seen nm → emitted nm' = emitted nm → dedup_inv nm → dedup_inv nm'.
Proof. intros Hb He []. split; rewrite ?Hb, ?He; done. Qed.

Lemma emitted_act a nm : event_key a = None → emitted (act a nm) = emitted nm.
Proof. intros Ha. unfold emitted. simpl. rewrite omap_app. simpl. by rewrite Ha, app_nil_r. Qed.

Lemma mark_block_seen_frame peer h nm dup nm' :
  mark_block_seen peer h nm = (dup, nm') →
  blocks_seen nm' = blocks_seen nm ∧ actions nm' = actions nm.
Proof. unfold mark_block_seen. case_match; intros; by simplify_eq. Qed.

Lemma receive_block_dedup peer block signature nm :
  dedup_inv nm → dedup_inv (receive_block peer block signature nm).
Proof.
  intros Hi. unfold receive_block.
  destruct (mark_block_seen peer (block_hash_slow block) nm) as [dup nm'] eqn:E.
  apply mark_block_seen_frame in E as [Hb Ha].
  assert (dedup_inv nm') as Hi' by (eapply dedup_inv_same, Hi; [done|unfold emitted; by rewrite Ha]).
  destruct dup; [eapply dedup_inv_same, Hi'; [done|by apply emitted_act]|].
  rewrite lru_contains_law. case_bool_decide as Hseen; [done|].
  destruct Hi' as [Hrec Hsize Hsp]. set (k := (block_hash_slow block, signature)) in *.
  destruct (lru_insert_law k (blocks_seen nm')) as [Hr Hsz].
  assert (emitted (act (NewBlockEvent (mkNewBlock peer block signature))
            (set_blocks_seen (lru_insert k (blocks_seen nm')) nm')) = emitted nm' ++ [k]) as He.
  { unfold emitted. simpl. by rewrite omap_app. }
  split; rewrite ?He; cbn [blocks_seen act set_blocks_seen].
  - rewrite Hr, Hsize, (filter_absent k), Hrec, reverse_snoc by done.
    change LRU_CACHE_SIZE with (S 99). cbn [take]. f_equal. by rewrite take_take.
  - by rewrite Hsz.
  - apply spaced_snoc; [done|by rewrite <- Hrec].
Qed.

Lemma announce_to_frame b h eth nm peer :
  blocks_seen (announce_to b h eth nm peer) = blocks_seen nm ∧
  emitted (announce_to b h eth nm peer) = emitted nm.
Proof.
  unfold announce_to. destruct (peer_has_seen_block peer h nm); [done|].
  destruct (is_connected peer (scroll_wire nm)).
  { by destruct (wire_announce_block peer b (scroll_wire nm)) as [[] m]. }
  destruct eth; [|done]. split; [done|]. by apply emitted_act.
Qed.

Lemma announce_block_frame b peers nm :
  blocks_seen (announce_block b peers nm) = blocks_seen nm ∧
  emitted (announce_block b peers nm) = emitted nm.
Proof.
  destruct peers as [peers|]; [|done]. simpl. generalize (verify_block_signature b nm) as eth.
  revert nm. induction peers as [|peer peers IH]; intros nm eth; [done|]. simpl.
  destruct (IH (announce_to b (block_hash_slow (wire_block b)) eth nm peer) eth) as [-> ->].
  apply announce_to_frame.
Qed.

Lemma poll_events_block events cs e m :
  poll_events events cs = (Some e, m) → ∃ peer block s, e = WireNewBlockEvent peer block s.
Proof.
  revert cs. induction events as [|[peer|peer block s] events IH]; intros cs Hp; simplify_eq/=;
    eauto.
Qed.

Lemma import_result_dedup peer r peers nm :
  dedup_inv nm → dedup_inv (on_block_import_result peer r peers nm).
Proof.
  intros Hi. destruct r; simpl;
    (eapply dedup_inv_same, Hi; [by try apply announce_block_frame|]);
    first [apply announce_block_frame|by apply emitted_act].
Qed.

(** A shutdown whose caller does not wait for its answer any more. *)
Definition abandoned_shutdown (input : NetworkInput) : bool :=
  match input with FromHandle (HandleShutdown awaited) _ => negb awaited | _ => false end.

(** A round panics on an abandoned shutdown only, and keeps the deduplication. *)
Lemma network_step_dedup input nm :
  dedup_inv nm →
  if abandoned_shutdown input then network_step input nm = Panic
  else ∃ nm', network_step input nm = Ok nm' ∧ dedup_inv nm'.
Proof.
  intros Hi. destruct input as [message peers|events|peer block|peer]; simpl.
  - destruct message as [b s|peer r|[]|]; simpl; try (eexists; split; [done|]).
    + eapply dedup_inv_same, Hi; apply announce_block_frame.
    + by apply import_result_dedup.
    + eapply dedup_inv_same, Hi; [done|by apply emitted_act].
    + done.
    + eapply dedup_inv_same, Hi; [done|by apply emitted_act].
  - unfold wire_poll. destruct (poll_events _ _) as [[e|] m] eqn:E.
    + apply poll_events_block in E as (peer & block & s & ->). eexists. split; [done|].
      apply receive_block_dedup. by eapply dedup_inv_same, Hi.
    + eexists. split; [done|]. by eapply dedup_inv_same, Hi.
  - eexists. split; [done|]. unfold handle_eth_wire_block. case_match.
    + by apply receive_block_dedup.
    + eapply dedup_inv_same, Hi; [done|by apply emitted_act].
  - eexists. split; [done|]. by eapply dedup_inv_same, Hi.
Qed.

Lemma network_run_dedup inputs : ∀ nm,
  dedup_inv nm →
  if existsb abandoned_shutdown inputs then network_run inputs nm = Panic
  else ∃ nm', network_run inputs nm = Ok nm' ∧ dedup_inv nm'.
Proof.
  induction inputs as [|input inputs IH]; intros nm Hi; simpl; [eauto|].
  pose proof (network_step_dedup input nm Hi) as Hs.
  destruct (abandoned_shutdown input); simpl; [by rewrite Hs|].
  destruct Hs as (nm1 & -> & Hi1). by apply IH.
Qed.

(** A block is passed on exactly when its peer has not sent it before and it is not among the last
    deliveries. *)
Lemma receive_block_emits peer block signature nm :
  dedup_inv nm →
  emitted (receive_block peer block signature nm) =
    emitted nm ++
    if peer_has_seen_block peer (block_hash_slow block) nm ||
       bool_decide ((block_hash_slow block, signature) ∈ take LRU_CACHE_SIZE (reverse (emitted nm)))
    then [] else [(block_hash_slow block, signature)].
Proof.
  intros [Hrec _ _]. unfold receive_block.
  destruct (mark_block_seen peer (block_hash_slow block) nm) as [dup nm'] eqn:E.
  pose proof (mark_block_seen_frame _ _ _ _ _ E) as [Hb Ha].
  assert (peer_has_seen_block peer (block_hash_slow block) nm = dup) as ->.
  { unfold peer_has_seen_block, mark_block_seen in *. destruct (peer_state nm !! peer) as [c|]; simpl in E.
    - by destruct (lru_contains _ c); simplify_eq.
    - rewrite lru_contains_law, (proj1 (lru_new_laws LRU_CACHE_SIZE)) in E.
      by rewrite bool_decide_eq_false_2 in E by apply not_elem_of_nil; simplify_eq. }
  assert (emitted nm' = emitted nm) as He by (unfold emitted; by rewrite Ha).
  destruct dup; simpl; [by rewrite emitted_act, He, app_nil_r|].
  rewrite lru_contains_law, Hb, Hrec. case_bool_decide; [by rewrite He, app_nil_r|].
  unfold emitted. simpl. by rewrite omap_app, Ha.
Qed.

(** C27: whatever peers send and in whatever order, the network manager panics on one input only, a
    shutdown whose caller does not wait for the answer any more, and then always.  It passes a block
    with a given signature on at most once per window of its cache: between two deliveries of the same
    block and signature at least [LRU_CACHE_SIZE] other blocks were delivered.  And it passes a block
    on whenever its peer has not sent it before and it is not among the last [LRU_CACHE_SIZE]
    deliveries. *)
Theorem blocks_delivered_once inputs td signer :
  let o := network_run inputs (NetworkManager_from_parts td signer) in
  (o = Panic ↔ existsb abandoned_shutdown inputs = true) ∧
  (existsb abandoned_shutdown inputs = false → ∃ nm, o = Ok nm ∧
    spaced LRU_CACHE_SIZE (emitted nm) ∧
    ∀ peer block signature,
      emitted (receive_block peer block signature nm) =
        emitted nm ++
        if peer_has_seen_block peer (block_hash_slow block) nm ||
           bool_decide ((block_hash_slow block, signature) ∈ take LRU_CACHE_SIZE (reverse (emitted nm)))
        then [] else [(block_hash_slow block, signature)]).
Proof.
  simpl. assert (dedup_inv (NetworkManager_from_parts td signer)) as Hi.
  { destruct (lru_new_laws (A:=B256 * Signature) LRU_CACHE_SIZE) as [Hr Hsz].
    split; [done..|]. by intros [] ? ? ?. }
  pose proof (network_run_dedup inputs _ Hi) as Hrun.
  destruct (existsb abandoned_shutdown inputs); [by rewrite Hrun|].
  destruct Hrun as (nm & -> & Hnm). split; [done|]. intros _. exists nm. split; [done|].
  split; [apply Hnm|]. intros. by apply receive_block_emits.
Qed.

(** ** Announcements *)

(** How a block goes to a peer. *)
Inductive Route := NotSent | ScrollWire | BrokenConnection | EthWire.

Definition route (b : WireNewBlock) nm (peer : PeerId) : Route :=
  if peer_has_seen_block peer (block_hash_slow (wire_block b)) nm then NotSent
  else match connections (scroll_wire nm) !! peer with
       | Some c => if connection_open c then ScrollWire else BrokenConnection
       | None => if verify_block_signature b nm then EthWire else NotSent
       end.

Definition eth_wire_announcement (b : WireNewBlock) nm (peer : PeerId) : NetworkAction :=
  EthWireAnnounce peer (with_extra_data (wire_signature b) (wire_block b))
    (compute_td (td_constant nm) (block_number (wire_block b))) (block_hash_slow (wire_block b)).

(** What the announcement leaves of the connection and the record of a peer it addresses. *)
Definition connection_after (b : WireNewBlock) (r : Route) (c : option ToConnection) :
    option ToConnection :=
  match r with
  | ScrollWire => (λ c, mkToConnection true (queued c ++ [MessageNewBlock b])) <$> c
  | BrokenConnection => None
  | _ => c
  end.
Definition record_after {A} (r : Route) (c : option A) : option A :=
  match r with BrokenConnection => None | _ => c end.

Definition eth_wire_routed (b : WireNewBlock) nm (peers : list PeerId) : list NetworkAction :=
  omap (λ p, match route b nm p with EthWire => Some (eth_wire_announcement b nm p) | _ => None end)
    peers.

(** [announce_to] for one peer, in terms of its route. *)
Lemma announce_to_spec b nm peer nm' :
  announce_to b (block_hash_slow (wire_block b)) (verify_block_signature b nm) nm peer = nm' →
  actions nm' = actions nm ++ eth_wire_routed b nm [peer] ∧
  (∀ p, connections (scroll_wire nm') !! p =
     if bool_decide (p = peer)
     then connection_after b (route b nm p) (connections (scroll_wire nm) !! p)
     else connections (scroll_wire nm) !! p) ∧
  (∀ p, peer_state nm' !! p =
     if bool_decide (p = peer) then record_after (route b nm p) (peer_state nm !! p)
     else peer_state nm !! p) ∧
  td_constant nm' = td_constant nm ∧ network_signer nm' = network_signer nm.
Proof.
  intros <-. unfold announce_to, eth_wire_routed, route, is_connected, wire_announce_block.
  simpl omap. destruct (peer_has_seen_block peer _ nm) eqn:Eseen.
  { rewrite app_nil_r. split; [done|]. split; [|split; [|done]]; intros p;
      case_bool_decide; subst; by rewrite ?Eseen. }
  destruct (connections (scroll_wire nm) !! peer) as [c|] eqn:Ec.
  - rewrite bool_decide_eq_true_2 by eauto. unfold bind, get. cbv beta iota. rewrite Ec.
    destruct (connection_open c) eqn:Eo; simpl; rewrite app_nil_r; split; [done| |done|];
      (split; [|split; [|done]]); intros p; case_bool_decide; subst;
      rewrite ?Eseen, ?Ec, ?Eo; simpl;
      rewrite ?lookup_insert_eq, ?lookup_delete_eq, ?lookup_insert_ne, ?lookup_delete_ne by done;
      done.
  - rewrite bool_decide_eq_false_2 by by intros []. destruct (verify_block_signature b nm) eqn:Ev;
      simpl; rewrite ?app_nil_r; (split; [done|]); (split; [|split; [|done]]); intros p;
      case_bool_decide; subst; by rewrite ?Eseen, ?Ec, ?Ev.
Qed.

(** an announcement reaches every peer the inner network lists by exactly one route: peers that
    sent the block get nothing; connected scroll-wire peers get one message, and are forgotten when
    their connection is broken; the others get the block over eth-wire, with the signature in the
    extra data, when it verifies against the authorized signer.  No other peer is affected. *)
Theorem announce_block_spec b peers nm :
  NoDup peers →
  let nm' := announce_block b (Some peers) nm in
  actions nm' = actions nm ++ eth_wire_routed b nm peers ∧
  (∀ p, connections (scroll_wire nm') !! p =
     if bool_decide (p ∈ peers)
     then connection_after b (route b nm p) (connections (scroll_wire nm) !! p)
     else connections (scroll_wire nm) !! p) ∧
  (∀ p, peer_state nm' !! p =
     if bool_decide (p ∈ peers) then record_after (route b nm p) (peer_state nm !! p)
     else peer_state nm !! p).
Proof.
  simpl. revert nm. induction peers as [|peer peers IH]; intros nm Hnd.
  { simpl. unfold eth_wire_routed. simpl. by rewrite app_nil_r. }
  apply NoDup_cons in Hnd as [Hnotin Hnd]. simpl.
  destruct (announce_to_spec b nm peer _ eq_refl) as (Ha & Hc & Hp & Htd & Hs).
  set (nm1 := announce_to b _ _ nm peer) in *.
  assert (verify_block_signature b nm1 = verify_block_signature b nm) as Hv
    by (unfold verify_block_signature; by rewrite Hs).
  assert (∀ p, p ≠ peer → route b nm1 p = route b nm p) as Hroute.
  { intros p Hne. unfold route, peer_has_seen_block. rewrite Hv, Hc, Hp.
    by rewrite !bool_decide_eq_false_2. }
  destruct (IH nm1 Hnd) as (Ha' & Hc' & Hp'). rewrite Hv in Ha', Hc', Hp'. split; [|split].
  - assert (eth_wire_routed b nm1 peers = eth_wire_routed b nm peers) as Heq.
    { clear -Hroute Hnotin Htd. unfold eth_wire_routed, eth_wire_announcement. rewrite Htd.
      apply list_omap_ext, Forall_Forall2_diag, Forall_forall. intros p Hp.
      rewrite Hroute by (intros ->; done). done. }
    rewrite Ha', Ha, <- app_assoc, Heq. unfold eth_wire_routed. simpl.
    by destruct (route b nm peer).
  - intros p. rewrite Hc', Hc. destruct (decide (p = peer)) as [->|Hne].
    + rewrite bool_decide_eq_false_2 by done.
      rewrite !bool_decide_eq_true_2 by (done || left). done.
    + rewrite (bool_decide_eq_false_2 (p = peer)), Hroute by done.
      by rewrite (bool_decide_ext (p ∈ peer :: peers) (p ∈ peers)) by (rewrite elem_of_cons; naive_solver).
  - intros p. rewrite Hp', Hp. destruct (decide (p = peer)) as [->|Hne].
    + rewrite bool_decide_eq_false_2 by done.
      rewrite !bool_decide_eq_true_2 by (done || left). done.
    + rewrite (bool_decide_eq_false_2 (p = peer)), Hroute by done.
      by rewrite (bool_decide_ext (p ∈ peer :: peers) (p ∈ peers)) by (rewrite elem_of_cons; naive_solver).
Qed.

(** ** Relaying *)

Lemma with_extra_data_cleared extra block :
  extra_data (header block) = [] → with_extra_data [] (with_extra_data extra block) = block.
Proof. destruct block as [[] ?]. unfold with_extra_data. simpl. by intros ->. Qed.

Context `{!WireLaws}.

(** A block survives the relay over both protocols.  A scroll-wire frame decodes to the message
    it encodes, whatever follows it; and a block announced over eth-wire arrives as the same block
    with the same signature, so a node treats it as if it had come over scroll-wire. *)
Theorem block_relay_roundtrip signature block junk sender receiver :
  extra_data (header block) = [] →
  decode_message (encoded (MessageNewBlock (NewBlock_new signature block)) ++ junk) =
    Some (MessageNewBlock (NewBlock_new signature block)) ∧
  ∀ peer, match eth_wire_announcement (NewBlock_new signature block) sender peer with
          | EthWireAnnounce _ announced _ h =>
              h = block_hash_slow block ∧
              handle_eth_wire_block peer announced receiver =
                receive_block peer block signature receiver
          | _ => False
          end.
Proof.
  intros Hextra. split.
  - unfold decode_message, encoded. simpl. by rewrite rlp_new_block_law.
  - intros peer. simpl. split; [done|]. unfold handle_eth_wire_block.
    assert (signature_of_extra_data (sig_as_bytes signature) = Some signature) as Hsig.
    { unfold signature_of_extra_data. rewrite signature_length, Nat.leb_refl, Nat.sub_diag, drop_0.
      apply from_raw_law. }
    change (extra_data (header (with_extra_data (sig_as_bytes signature) block)))
      with (sig_as_bytes signature).
    by rewrite Hsig, with_extra_data_cleared.
Qed.

(** ** Peers that behave *)

Section Honest.
Variable p : PeerId.

(** The hashes of the blocks of [p] in a list of scroll-wire events, and in the inputs to come. *)
Definition wire_hashes (events : list ScrollWireEvent) : list B256 :=
  omap (λ e, match e with
             | WireNewBlockEvent peer block _ =>
                 if bool_decide (peer = p) then Some (block_hash_slow block) else None
             | ConnectionEstablished _ => None
             end) events.
Definition arrivals (input : NetworkInput) : list B256 :=
  match input with
  | FromWire events => wire_hashes events
  | FromEthWire peer block =>
      if bool_decide (peer = p) then [block_hash_slow (with_extra_data [] block)] else []
  | _ => []
  end.

(** [p] signs what it sends over eth-wire, and no import of its blocks fails. *)
Definition behaves (input : NetworkInput) : Prop :=
  match input with
  | FromEthWire peer block =>
      peer = p → is_Some (signature_of_extra_data (extra_data (header block)))
  | FromHandle (HandleImportOutcome peer r) _ =>
      peer = p → match r with ImportValidBlock _ _ | ImportValidHeader _ _ => True | _ => False end
  | _ => True
  end.

Definition record_of nm : list B256 :=
  match peer_state nm !! p with Some c => lru_recent c | None => [] end.

(** What [p] sent and will send has no repetition, and [p] was not penalized. *)
Definition honest nm (inputs : list NetworkInput) : Prop :=
  NoDup (record_of nm ++ wire_hashes (wire_events (scroll_wire nm)) ++ (inputs ≫= arrivals)) ∧
  Forall behaves inputs ∧ ReputationBadBlock p ∉ actions nm.

Lemma take_sublist {A} n (l : list A) : take n l `sublist_of` l.
Proof. rewrite <- (take_drop n l) at 2. apply sublist_inserts_r. reflexivity. Qed.

Lemma record_insert (h : B256) c : lru_recent (lru_insert h c) `sublist_of` h :: lru_recent c.
Proof.
  destruct (lru_insert_law h c) as [-> _]. etrans; [apply take_sublist|].
  apply sublist_skip, sublist_filter.
Qed.

Lemma mark_block_seen_record peer h nm dup nm' :
  mark_block_seen peer h nm = (dup, nm') →
  scroll_wire nm' = scroll_wire nm ∧ actions nm' = actions nm ∧
  (peer ≠ p → record_of nm' = record_of nm) ∧
  (peer = p → h ∉ record_of nm →
   dup = false ∧ record_of nm' `sublist_of` h :: record_of nm).
Proof.
  unfold mark_block_seen, record_of. intros Hm.
  set (c := default (lru_new LRU_CACHE_SIZE) (peer_state nm !! peer)) in *.
  assert (∀ c', peer ≠ p → (<[peer := c']> (peer_state nm) : gmap _ _) !! p = peer_state nm !! p) as Hne
    by (intros; by rewrite lookup_insert_ne).
  destruct (lru_contains h c) eqn:Ec; simplify_eq; (split; [done|]); (split; [done|]);
    (split; [intros; simpl; by rewrite Hne|]); intros -> Hh; simpl.
  - exfalso. apply Hh. rewrite lru_contains_law, bool_decide_eq_true in Ec. unfold c in Ec.
    destruct (peer_state nm !! p) as [c'|]; [done|]. simpl in Ec.
    by rewrite (proj1 (lru_new_laws LRU_CACHE_SIZE)) in Ec.
  - split; [done|]. rewrite lookup_insert_eq. etrans; [apply record_insert|].
    apply sublist_skip. unfold c. destruct (peer_state nm !! p) as [c'|]; [done|]. simpl.
    by rewrite (proj1 (lru_new_laws LRU_CACHE_SIZE)).
Qed.

(** What [receive_block] consumes. *)
Definition heard (peer : PeerId) (block : DogeosBlock) : list B256 :=
  if bool_decide (peer = p) then [block_hash_slow block] else [].

Lemma receive_block_honest peer block signature nm rest :
  NoDup (record_of nm ++ heard peer block ++ rest) → ReputationBadBlock p ∉ actions nm →
  let nm' := receive_block peer block signature nm in
  NoDup (record_of nm' ++ rest) ∧ ReputationBadBlock p ∉ actions nm' ∧
  scroll_wire nm' = scroll_wire nm.
Proof.
  intros Hnd Hp. simpl. unfold receive_block.
  destruct (mark_block_seen peer (block_hash_slow block) nm) as [dup nm1] eqn:E.
  apply mark_block_seen_record in E as (Hw & Ha & Hother & Hmine).
  assert (NoDup (record_of nm1 ++ rest) ∧ (dup = true → peer ≠ p)) as [Hnd1 Hdup].
  { unfold heard in Hnd. case_bool_decide as Hpeer; [|by rewrite Hother].
    simpl in Hnd. apply NoDup_app in Hnd as Hnd'. destruct Hnd' as (_ & Hnotin & _).
    destruct Hmine as [-> Hsub]; [done| |].
    { intros Hin. apply (Hnotin _ Hin). left. }
    split; [|done]. eapply sublist_NoDup; [|by apply sublist_app; [exact Hsub|reflexivity]].
    assert ((block_hash_slow block :: record_of nm) ++ rest ≡ₚ
            record_of nm ++ block_hash_slow block :: rest) as -> by apply Permutation_middle.
    exact Hnd. }
  rewrite <- Hw, <- Ha in *. destruct dup; [|destruct (lru_contains _ _)]; simpl;
    (split; [exact Hnd1|]); (split; [|done]); [|done|];
    rewrite not_elem_of_app, not_elem_of_cons; (split; [done|]);
    (split; [|apply not_elem_of_nil]); [|done].
  intros [= ->]. by apply Hdup.
Qed.

(** Announcing changes nothing [honest] depends on, except that it may forget a peer. *)
Definition kept nm nm' : Prop :=
  (ReputationBadBlock p ∉ actions nm → ReputationBadBlock p ∉ actions nm') ∧
  wire_events (scroll_wire nm') = wire_events (scroll_wire nm) ∧
  record_of nm' `sublist_of` record_of nm.

Lemma kept_trans nm1 nm2 nm3 : kept nm1 nm2 → kept nm2 nm3 → kept nm1 nm3.
Proof. intros (Ha & Hw1 & Hr1) (Ha' & Hw2 & Hr2). split; [auto|]. split; [congruence|by etrans]. Qed.

Lemma kept_act a nm : a ≠ ReputationBadBlock p → kept nm (act a nm).
Proof.
  intros Ha. split; [|split; [done|reflexivity]]. simpl.
  rewrite not_elem_of_app, elem_of_cons. intros Hn. split; [done|].
  intros [Heq|Hin]; [by symmetry in Heq|by apply not_elem_of_nil in Hin].
Qed.

Lemma announce_to_kept b h eth nm peer : kept nm (announce_to b h eth nm peer).
Proof.
  assert (kept nm nm) as Hrefl by (split; [done|]; split; [done|reflexivity]).
  unfold announce_to. destruct (peer_has_seen_block peer h nm); [done|].
  destruct (is_connected peer (scroll_wire nm)); [|destruct eth; [by apply kept_act|done]].
  unfold wire_announce_block, bind, get. cbv beta iota.
  destruct (connections (scroll_wire nm) !! peer) as [c|]; [destruct (connection_open c)|]; simpl.
  - split; [done|]. split; [done|reflexivity].
  - split; [done|]. split; [done|]. unfold record_of. simpl.
    destruct (decide (peer = p)) as [->|]; [rewrite lookup_delete_eq|by rewrite lookup_delete_ne].
    apply sublist_nil_l.
  - split; [done|]. split; [done|]. unfold record_of. simpl.
    destruct (decide (peer = p)) as [->|]; [rewrite lookup_delete_eq|by rewrite lookup_delete_ne].
    apply sublist_nil_l.
Qed.

Lemma announce_block_kept b peers nm : kept nm (announce_block b peers nm).
Proof.
  assert (∀ nm, kept nm nm) as Hrefl by (intros; split; [done|]; split; [done|reflexivity]).
  destruct peers as [peers|]; [|apply Hrefl]. simpl.
  generalize (verify_block_signature b nm) as eth.
  revert nm. induction peers as [|peer peers IH]; intros nm eth; [apply Hrefl|]. simpl.
  eapply kept_trans; [apply announce_to_kept|apply IH].
Qed.

Lemma kept_honest nm nm' inputs : kept nm nm' → honest nm inputs → honest nm' inputs.
Proof.
  intros (Ha & Hw & Hr) (Hnd & Hb & Hp). split; [|auto]. rewrite Hw.
  eapply sublist_NoDup; [exact Hnd|]. by apply sublist_app.
Qed.

(** The next block among the queued events. *)
Lemma poll_events_hashes events cs e m :
  poll_events events cs = (e, m) →
  wire_hashes events =
    match e with
    | Some (WireNewBlockEvent peer block _) => heard peer block
    | _ => []
    end ++ wire_hashes (wire_events m).
Proof.
  revert cs. induction events as [|[peer|peer block s] events IH]; intros cs Hp; simplify_eq/=;
    [done|by eapply IH|]. unfold heard. by case_bool_decide.
Qed.

Lemma network_step_honest input inputs nm nm' :
  honest nm (input :: inputs) → network_step input nm = Ok nm' → honest nm' inputs.
Proof.
  intros (Hnd & Hb & Hp) Hstep. apply Forall_cons in Hb as [Hbi Hb].
  rewrite bind_cons in Hnd.
  assert (arrivals input = [] → honest nm inputs) as Hquiet by (intros Ha; by rewrite Ha in Hnd).
  destruct input as [message peers|events|peer block|peer]; simpl in Hstep.
  - specialize (Hquiet eq_refl).
    destruct message as [b s|peer r|[]|]; simplify_eq/=; try by (eapply kept_honest, Hquiet; apply kept_act).
    + eapply kept_honest, Hquiet. apply announce_block_kept.
    + simpl in Hbi. destruct r; simpl; eapply kept_honest, Hquiet;
        first [apply announce_block_kept|apply kept_act; intros [= ->]; by destruct Hbi].
  - destruct (wire_poll _) as [e m] eqn:E. apply poll_events_hashes in E. simpl in E.
    assert (wire_hashes (wire_events (scroll_wire nm)) ++ arrivals (FromWire events) =
            wire_hashes (wire_events (scroll_wire nm) ++ events)) as Hw
      by (unfold wire_hashes; by rewrite omap_app).
    rewrite (app_assoc (wire_hashes _)), Hw, E in Hnd.
    destruct e as [[peer|peer block s]|]; simplify_eq/=; [|by split].
    rewrite <- (app_assoc (heard peer block)) in Hnd.
    destruct (receive_block_honest peer block s (set_scroll_wire m nm) _ Hnd Hp)
      as (Hnd' & Hp' & Hw').
    split; [|done]. by rewrite Hw'.
  - simplify_eq. unfold handle_eth_wire_block.
    assert (NoDup (record_of nm ++ heard peer (with_extra_data [] block) ++
              wire_hashes (wire_events (scroll_wire nm)) ++ (inputs ≫= arrivals))) as Hnd'.
    { eapply NoDup_Permutation_proper; [|exact Hnd]. apply Permutation_app; [done|].
      rewrite !app_assoc. apply Permutation_app; [|done]. rewrite Permutation_app_comm.
      unfold arrivals, heard. done. }
    destruct (signature_of_extra_data _) as [s|] eqn:Es.
    + destruct (receive_block_honest peer (with_extra_data [] block) s nm _ Hnd' Hp)
        as (Hnd2 & Hp2 & Hw2). split; [|done]. by rewrite Hw2.
    + simpl in Hbi. rewrite Es in Hbi.
      assert (peer ≠ p) as Hne by (intros Hpeer; by destruct (Hbi Hpeer)).
      eapply (kept_honest nm); [apply kept_act; by intros [= ->]|].
      split; [|done]. unfold heard in Hnd'. by rewrite bool_decide_eq_false_2 in Hnd'.
  - simplify_eq. eapply (kept_honest nm); [|by apply Hquiet].
    split; [done|]. split; [done|reflexivity].
Qed.

(** A peer that never repeats a block (over either protocol), signs the blocks it sends over
    eth-wire, and whose blocks import, is never penalized, whatever the other peers do. *)
Theorem honest_peer_not_penalized inputs td signer nm :
  NoDup (inputs ≫= arrivals) → Forall behaves inputs →
  network_run inputs (NetworkManager_from_parts td signer) = Ok nm →
  ReputationBadBlock p ∉ actions nm.
Proof.
  intros Hnd Hb Hrun.
  assert (∀ nm, honest nm inputs → ∀ nm', network_run inputs nm = Ok nm' → honest nm' []) as Hind.
  { clear. induction inputs as [|input inputs IH]; intros nm Hh nm' Hr; simplify_eq/=; [done|].
    destruct (network_step input nm) as [nm1|[]|] eqn:E; [|done]. simpl in Hr.
    eapply IH, Hr. by eapply network_step_honest. }
  apply (Hind _) in Hrun as (_ & _ & Hp); [done|].
  split; [done|]. split; [done|]. apply not_elem_of_nil.
Qed.
End Honest.
End Gossip.
