(* ===== verification/ConcreteNetwork.v ===== *)
(** * A concrete network

    LRU caches as lists, a codec for the toy chain's blocks, and three peers: witnesses of the
    network manager's theorems. *)

From S2P Require Import Prelude Sql Primitives BigEndian Engine Concrete DbModel Signing ConcreteRlp.
From S2P Require Import Watcher Orchestrator Network NetworkProps.

(** ** Caches *)

#[local] Instance toy_lru : LruCache := {
  lru A := (list A * nat)%type;
  lru_new A n := ([], n);
  lru_contains A _ x c := bool_decide (x ∈ c.1);
  lru_insert A _ x c := (take c.2 (x :: filter (λ y, y ≠ x) c.1), c.2)
}.
#[local] Instance toy_lru_laws : LruLaws.
Proof. by refine {| lru_recent A c := c.1; lru_size A c := c.2 |}. Defined.

(** ** Codecs *)

Definition put_bytes (b : Bytes) : Bytes := Z.of_nat (length b) :: b.
Definition take_bytes (b : Bytes) : option (Bytes * Bytes) :=
  match b with
  | n :: b => Some (take (Z.to_nat n) b, drop (Z.to_nat n) b)
  | [] => None
  end.

Lemma take_put_bytes b rest : take_bytes (put_bytes b ++ rest) = Some (b, rest).
Proof. unfold put_bytes. simpl. by rewrite Nat2Z.id, take_app_length, drop_app_length. Qed.

Definition put_header (h : Header) : Bytes :=
  [parent_hash h; ommers_hash h; beneficiary h; state_root h; transactions_root h; receipts_root h;
   logs_bloom h; difficulty h; h_number h; gas_limit h; gas_used h; timestamp h; mix_hash h;
   nonce h] ++
  match base_fee_per_gas h with Some fee => [1; fee] | None => [0; 0] end ++
  put_bytes (extra_data h).
Definition take_header (b : Bytes) : option (Header * Bytes) :=
  match b with
  | ph :: oh :: be :: sr :: tr :: rr :: lb :: di :: nu :: gl :: gu :: ts :: mh :: no :: some :: fee
      :: b =>
      '(extra, b) ← take_bytes b;
      Some ({| parent_hash := ph; ommers_hash := oh; beneficiary := be; state_root := sr;
               transactions_root := tr; receipts_root := rr; logs_bloom := lb; difficulty := di;
               h_number := nu; gas_limit := gl; gas_used := gu; timestamp := ts;
               extra_data := extra; mix_hash := mh; nonce := no;
               base_fee_per_gas := if some =? 1 then Some fee else None |}, b)
  | _ => None
  end.

Lemma take_put_header h rest : take_header (put_header h ++ rest) = Some (h, rest).
Proof.
  unfold put_header. rewrite <- !app_assoc.
  destruct h as [? ? ? ? ? ? ? ? ? ? ? ? extra ? ? [fee|]]; simpl;
    by rewrite Nat2Z.id, take_app_length, drop_app_length.
Qed.

Fixpoint put_txs (txs : list toy_tx) : Bytes :=
  match txs with
  | [] => []
  | (l1, i) :: txs => (if l1 : bool then 1 else 0) :: i :: put_txs txs
  end.
Fixpoint take_txs (n : nat) (b : Bytes) : option (list toy_tx * Bytes) :=
  match n, b with
  | O, b => Some ([], b)
  | S n, l1 :: i :: b => '(txs, b) ← take_txs n b; Some ((l1 =? 1, i) :: txs, b)
  | _, _ => None
  end.
Lemma take_put_txs txs rest : take_txs (length txs) (put_txs txs ++ rest) = Some (txs, rest).
Proof. induction txs as [|[[] i] txs IH]; simpl; [done|by rewrite IH..]. Qed.

#[local] Instance toy_sig_65 : SignatureBytes := λ s, s :: replicate 64 0.

#[local] Instance toy_codec : @WireCodec toy_chain := {
  rlp_encode_new_block b :=
    put_bytes b.1 ++ put_header (header b.2) ++
    Z.of_nat (length (transactions b.2)) :: put_txs (transactions b.2);
  rlp_decode_new_block b :=
    '(s, b) ← take_bytes b; '(h, b) ← take_header b;
    match b with
    | n :: b => '(txs, b) ← take_txs (Z.to_nat n) b; Some ((s, @mkBlock toy_chain h txs), b)
    | [] => None
    end;
  from_raw b := match b with s :: r => if Nat.eqb (length r) 64 then Some s else None | [] => None end
}.

#[local] Instance toy_wire_laws : @WireLaws toy_chain toy_sig_65 toy_codec.
Proof.
  split.
  - intros [s [h txs]] rest. unfold rlp_decode_new_block, rlp_encode_new_block, toy_codec.
    rewrite <- !app_assoc, take_put_bytes. cbn [mbind option_bind]. rewrite take_put_header.
    cbn [mbind option_bind app]. by rewrite Nat2Z.id, take_put_txs.
  - done.
  - done.
Qed.

#[local] Instance toy_recovery : SignerRecovery := λ s _, Ok s.
#[local] Existing Instances toy_chain ethereum_rlp.

(** ** A run with three peers *)

Definition toy_b1 : DogeosBlock := toy_block 1 101 100 1001 [(true, 3)].
Definition toy_b2 : DogeosBlock := toy_block 2 102 101 1002 [].
(** Peer 1 sends block 1 twice, peer 2 sends both blocks over eth-wire, peer 3 nothing. *)
Definition toy_inputs : list NetworkInput :=
  [ FromWire [ConnectionEstablished 1; WireNewBlockEvent 1 toy_b1 9];
    FromWire [WireNewBlockEvent 1 toy_b1 9];
    FromEthWire 2 (with_extra_data (sig_as_bytes 9) toy_b1);
    FromEthWire 2 (with_extra_data (sig_as_bytes 9) toy_b2);
    FromHandle (HandleImportOutcome 2 (ImportValidBlock toy_b2 (sig_as_bytes 9))) (Some [1; 2; 3]) ].

Definition toy_manager : ScrollNetworkManager := NetworkManager_from_parts 7 (Some 9).
Definition toy_network : outcome Empty_set ScrollNetworkManager := network_run toy_inputs toy_manager.
Definition toy_network_after : ScrollNetworkManager := ok_value toy_manager toy_network.

(** The run ends well, and so does a shutdown at its end, unless its caller has left. *)
Lemma blocks_delivered_once_witness :
  (∃ nm, network_run (toy_inputs ++ [FromHandle (HandleShutdown true) None]) toy_manager = Ok nm ∧
     spaced LRU_CACHE_SIZE (emitted nm)) ∧
  network_run (toy_inputs ++ [FromHandle (HandleShutdown false) None]) toy_manager = Panic.
Proof.
  split.
  - destruct (proj2 (blocks_delivered_once (toy_inputs ++ [FromHandle (HandleShutdown true) None]) 7 (Some 9))
                eq_refl) as (nm & Hrun & Hs & _).
    exists nm. split; [exact Hrun|exact Hs].
  - exact (proj2 (proj1 (blocks_delivered_once (toy_inputs ++ [FromHandle (HandleShutdown false) None]) 7 (Some 9)))
             eq_refl).
Defined.

(** Block 2 goes to peer 1 over scroll-wire and to peer 3 over eth-wire; peer 2 sent it. *)
Lemma announce_block_spec_witness :
  NoDup [1; 2; 3] ∧
  actions (announce_block (NewBlock_new 9 toy_b2) (Some [1; 2; 3]) toy_network_after) =
    actions toy_network_after ++
    eth_wire_routed (NewBlock_new 9 toy_b2) toy_network_after [1; 2; 3].
Proof.
  assert (NoDup [1; 2; 3]) as Hnd by (apply (bool_decide_unpack _); vm_compute; exact I).
  split; [exact Hnd|].
  exact (proj1 (announce_block_spec (NewBlock_new 9 toy_b2) [1; 2; 3] toy_network_after Hnd)).
Defined.

Lemma block_relay_roundtrip_witness :
  extra_data (header toy_b1) = [] ∧
  decode_message (encoded (MessageNewBlock (NewBlock_new 9 toy_b1)) ++ [5; 5]) =
    Some (MessageNewBlock (NewBlock_new 9 toy_b1)).
Proof.
  split; [reflexivity|].
  exact (proj1 (block_relay_roundtrip 9 toy_b1 [5; 5] toy_manager toy_manager eq_refl)).
Defined.

(** Peer 2 behaves in this run; peer 1, which repeats block 1, is penalized. *)
Lemma honest_peer_not_penalized_witness :
  ReputationBadBlock 2 ∉ actions toy_network_after ∧
  existsb (λ a, match a with ReputationBadBlock 1 => true | _ => false end)
    (actions toy_network_after) = true.
Proof.
  split; [|vm_compute; reflexivity].
  apply (honest_peer_not_penalized 2 toy_inputs 7 (Some 9)).
  - apply (bool_decide_unpack _). vm_compute. exact I.
  - repeat constructor; simpl; intros; done.
  - assert (is_ok toy_network = true) as Hok by (vm_compute; reflexivity).
    unfold toy_network_after. revert Hok. destruct toy_network as [nm|[]|] eqn:E; [|done].
    intros _. exact E.
Defined.
