(* ===== verification/SignerRotation.v ===== *)
(** * The follower's signer-rotation watchdog (crates/node/src/signer_rotation.rs)

    The detector that confirms a rotation of the authorized signer, the polling loop around it, and
    the condition under which it fires. *)

From S2P Require Import Prelude Primitives.

Definition u32_max : Z := 2 ^ 32 - 1.
Definition EXIT_CODE_SIGNER_ROTATION : Z := 70.
Definition DEFAULT_CONFIRMATIONS : Z := 3.
Definition FAILURE_WARNING_INTERVAL : Z := 25.

Record Rotation := mkRotation { rot_baseline : Address; rot_observed : Address }.

(** ** The detector *)

Record RotationDetector := mkDetector {
  confirmations : Z;
  baseline : option Address;
  candidate : option Address;
  streak : Z
}.

(** [RotationDetector::new]: asserts a positive number of confirmations. *)
Definition RotationDetector_new (confirmations : Z) : outcome Empty_set RotationDetector :=
  if 0 <? confirmations then Ok (mkDetector confirmations None None 0) else Panic.

Definition observe (value : option Address) (d : RotationDetector) :
    option Rotation * RotationDetector :=
  match value with
  | None => (None, d)
  | Some value =>
      match baseline d with
      | None => (None, mkDetector (confirmations d) (Some value) (candidate d) (streak d))
      | Some b =>
          if value =? b then (None, mkDetector (confirmations d) (Some b) None 0)
          else
            let streak' := if bool_decide (candidate d = Some value)
                           then Z.min u32_max (streak d + 1) else 1 in
            (if confirmations d <=? streak' then Some (mkRotation b value) else None,
             mkDetector (confirmations d) (Some b) (Some value) streak')
      end
  end.

(** ** The watchdog: one round of [wait_for_rotation] *)

Record Watchdog := mkWatchdog { detector : RotationDetector; consecutive_failures : Z }.

(** The answer of the system contract; [None] is a failed or timed out read. *)
Definition watchdog_round (observation : option Address) (w : Watchdog) :
    option Rotation * bool * Watchdog :=
  let failures := match observation with
                  | Some _ => 0
                  | None => Z.min u32_max (consecutive_failures w + 1)
                  end in
  let warn := bool_decide (observation = None) && (failures =? FAILURE_WARNING_INTERVAL) in
  let (rotation, d) := observe observation (detector w) in
  (rotation, warn, mkWatchdog d (if warn then 0 else failures)).

(** [wait_for_rotation] over the answers of the polls: the rotation it returns, if any, and the
    number of polls used. *)
Fixpoint wait_for_rotation (observations : list (option Address)) (w : Watchdog) :
    option (Rotation * nat) :=
  match observations with
  | [] => None
  | o :: observations =>
      match watchdog_round o w with
      | (Some rotation, _, _) => Some (rotation, 1%nat)
      | (None, _, w) => prod_map id S <$> wait_for_rotation observations w
      end
  end.

Definition Watchdog_new : outcome Empty_set Watchdog :=
  omap_ok (λ d, mkWatchdog d 0) (RotationDetector_new DEFAULT_CONFIRMATIONS).

(** ** When it fires *)

(** The successful reads. *)
Definition reads (observations : list (option Address)) : list Address := omap id observations.

(** The last [n] reads are [v], the first read is [b], and [v] is another signer. *)
Definition confirmed (n : nat) (b v : Address) (rs : list Address) : Prop :=
  head rs = Some b ∧ v ≠ b ∧ replicate n v `suffix_of` rs.

(** How many of the last reads are [v]. *)
Fixpoint run_of (v : Address) (latest_first : list Address) : nat :=
  match latest_first with
  | [] => 0%nat
  | x :: l => if x =? v then S (run_of v l) else 0%nat
  end.

(** The detector after the reads [rs]. *)
Definition detector_after (n : Z) (rs : list Address) : RotationDetector :=
  match last rs with
  | None => mkDetector n None None 0
  | Some v =>
      if bool_decide (head rs = Some v) then mkDetector n (head rs) None 0
      else mkDetector n (head rs) (Some v) (Z.min u32_max (Z.of_nat (run_of v (reverse rs))))
  end.

Lemma run_of_prefix v l n : (n ≤ run_of v l)%nat ↔ replicate n v `prefix_of` l.
Proof.
  revert n. induction l as [|x l IH]; intros [|n]; simpl; [split; [|lia]|split; [lia|]|split; [|lia]|].
  1,3: intros _; apply prefix_nil.
  - by intros ?%prefix_nil_not.
  - destruct (Z.eqb_spec x v) as [->|Hne].
    + rewrite <- Nat.succ_le_mono, IH. split; [apply prefix_cons|apply prefix_cons_inv_2].
    + split; [lia|]. intros ?%prefix_cons_inv_1. congruence.
Qed.

Lemma run_of_suffix v rs n : (n ≤ run_of v (reverse rs))%nat ↔ replicate n v `suffix_of` rs.
Proof. by rewrite run_of_prefix, suffix_prefix_reverse, reverse_replicate. Qed.

Lemma run_of_snoc v rs : run_of v (reverse (rs ++ [v])) = S (run_of v (reverse rs)).
Proof. rewrite reverse_snoc. simpl. by rewrite Z.eqb_refl. Qed.

Lemma run_of_other v rs : last rs ≠ Some v → run_of v (reverse rs) = 0%nat.
Proof.
  rewrite <- (reverse_involutive rs) at 1. rewrite last_reverse.
  destruct (reverse rs) as [|x l]; [done|]. simpl. intros Hne.
  destruct (Z.eqb_spec x v); [by subst|done].
Qed.

Lemma observe_read n b rs v :
  observe (Some v) (detector_after n (b :: rs)) =
  (if bool_decide (v ≠ b ∧ n ≤ Z.min u32_max (Z.of_nat (run_of v (reverse (b :: rs ++ [v])))))
   then Some (mkRotation b v) else None,
   detector_after n (b :: rs ++ [v])).
Proof.
  assert (baseline (detector_after n (b :: rs)) = Some b ∧
          confirmations (detector_after n (b :: rs)) = n) as [Hb Hn].
  { unfold detector_after. destruct (last (b :: rs)) eqn:E; [|by apply last_None in E].
    by case_bool_decide. }
  unfold observe. rewrite Hb, Hn. change (b :: rs ++ [v]) with ((b :: rs) ++ [v]).
  destruct (Z.eqb_spec v b) as [->|Hne].
  { rewrite bool_decide_eq_false_2 by tauto. unfold detector_after. rewrite last_snoc. simpl.
    by rewrite bool_decide_eq_true_2. }
  set (streak' := if bool_decide _ then _ else _).
  assert (streak' = Z.min u32_max (Z.of_nat (run_of v (reverse ((b :: rs) ++ [v]))))) as ->.
  { unfold streak', detector_after. rewrite run_of_snoc.
    destruct (last (b :: rs)) as [u|] eqn:E; [|by apply last_None in E].
    destruct (decide (u = v)) as [->|Hu].
    - rewrite (bool_decide_eq_false_2 (head _ = _)) by (simpl; congruence). simpl candidate.
      rewrite bool_decide_eq_true_2 by done. simpl streak. unfold u32_max. lia.
    - rewrite bool_decide_eq_false_2
        by (case_bool_decide; simpl; congruence).
      rewrite run_of_other by congruence. done. }
  f_equal.
  - case_bool_decide; destruct (Z.leb_spec n (Z.min u32_max
      (Z.of_nat (run_of v (reverse ((b :: rs) ++ [v])))))); try done; tauto || lia.
  - unfold detector_after at 1. rewrite last_snoc.
    rewrite bool_decide_eq_false_2; [done|simpl; congruence].
Qed.

Lemma observe_first n v : observe (Some v) (detector_after n []) = (None, detector_after n [v]).
Proof. unfold detector_after. simpl. by rewrite bool_decide_eq_true_2. Qed.

Lemma confirmed_snoc n b u v rs :
  (0 < n)%nat → confirmed n b u (rs ++ [v]) → u = v ∧ rs ≠ [].
Proof.
  intros Hn (Hh & Hne & [k Hk]). destruct n as [|n]; [lia|].
  rewrite replicate_S_end, app_assoc in Hk. apply app_inj_tail in Hk as [_ ->].
  split; [done|]. intros ->. simpl in Hh. congruence.
Qed.

Lemma confirmed_read n b v b0 rs :
  (0 < n)%nat → Z.of_nat n ≤ u32_max →
  confirmed n b v (b0 :: rs ++ [v]) ↔
  b0 = b ∧ v ≠ b ∧ Z.of_nat n ≤ Z.min u32_max (Z.of_nat (run_of v (reverse (b0 :: rs ++ [v])))).
Proof.
  intros Hn Hmax. unfold confirmed. rewrite <- run_of_suffix. split.
  - intros ([= ->] & ? & ?). split_and!; [done|done|lia].
  - intros (-> & ? & ?). split_and!; [done|done|lia].
Qed.

Lemma observe_spec n rs o :
  (0 < n)%nat → Z.of_nat n ≤ u32_max →
  ∃ r, observe o (detector_after (Z.of_nat n) rs) =
         (r, detector_after (Z.of_nat n) (rs ++ option_list o)) ∧
       (o = None → r = None) ∧
       (is_Some o → ∀ b v, r = Some (mkRotation b v) ↔ confirmed n b v (rs ++ option_list o)).
Proof.
  intros Hn Hmax. destruct o as [v|]; simpl option_list.
  2: { exists None. rewrite app_nil_r. split_and!; [done|done|by intros []]. }
  destruct rs as [|b0 rs].
  - exists None. rewrite observe_first. split_and!; [done|done|]. intros _ b u.
    split; [done|]. intros H. by apply (confirmed_snoc n b u v []) in H as [_ ?].
  - rewrite observe_read. eexists. split_and!; [done|done|]. intros _ b u. split.
    + case_bool_decide as H; [|done]. intros [= <- <-]. apply confirmed_read; tauto.
    + intros Hc. destruct (confirmed_snoc n b u v (b0 :: rs) Hn Hc) as [-> _].
      apply confirmed_read in Hc as (-> & Hne & Hle); [|done..].
      by rewrite bool_decide_eq_true_2.
Qed.

Lemma wait_spec n obs : (0 < n)%nat → Z.of_nat n ≤ u32_max → ∀ rs f b v k,
  (∀ b' v', ¬ confirmed n b' v' rs) →
  wait_for_rotation obs (mkWatchdog (detector_after (Z.of_nat n) rs) f) = Some (mkRotation b v, k) ↔
  (k ≤ length obs)%nat ∧ confirmed n b v (rs ++ reads (take k obs)) ∧
  ∀ j b' v', (j < k)%nat → ¬ confirmed n b' v' (rs ++ reads (take j obs)).
Proof.
  intros Hn Hmax. induction obs as [|o obs IH]; intros rs f b v k Hrs.
  { simpl. split; [done|]. intros (Hk & Hc & _). rewrite take_nil in Hc. simpl in Hc.
    rewrite app_nil_r in Hc. by destruct (Hrs b v). }
  assert (∀ j, rs ++ reads (take (S j) (o :: obs)) =
               (rs ++ option_list o) ++ reads (take j obs)) as Happ.
  { intros j. rewrite <- app_assoc. f_equal. by destruct o. }
  cbn [wait_for_rotation]. unfold watchdog_round. cbn [detector].
  destruct (observe_spec n rs o Hn Hmax) as (r & -> & Hnone & Hsome).
  destruct r as [[b0 v0]|].
  - assert (is_Some o) as Ho by (destruct o; [eauto|by specialize (Hnone eq_refl)]).
    pose proof (proj1 (Hsome Ho b0 v0) eq_refl) as Hfire. split.
    + intros [= -> -> <-]. split_and!; [simpl; lia| |].
      * rewrite (Happ 0%nat). simpl. by rewrite app_nil_r.
      * intros j b' v' Hj. assert (j = 0%nat) as -> by lia. simpl. rewrite app_nil_r. apply Hrs.
    + intros (Hk & Hc & Hmin). destruct k as [|k].
      { simpl in Hc. rewrite app_nil_r in Hc. by destruct (Hrs b v). }
      destruct k as [|k].
      2: { destruct (Hmin 1%nat b0 v0 ltac:(lia)). rewrite (Happ 0%nat). simpl.
           by rewrite app_nil_r. }
      rewrite (Happ 0%nat) in Hc. simpl in Hc. rewrite app_nil_r in Hc.
      by apply (Hsome Ho) in Hc as [= -> ->].
  - assert (∀ b' v', ¬ confirmed n b' v' (rs ++ option_list o)) as Hnot.
    { intros b' v' Hc. destruct o as [u|]; [by apply (Hsome ltac:(eauto)) in Hc|].
      simpl in Hc. rewrite app_nil_r in Hc. by destruct (Hrs b' v'). }
    set (f' := if _ && _ then _ else _). split.
    + intros H. apply fmap_Some in H as ([r k'] & H & Heq). destruct r as [b1 v1].
      simpl in Heq. injection Heq as -> -> ->.
      apply (IH _ f' b1 v1 k' Hnot) in H as (Hk & Hc & Hmin). split_and!.
      * simpl. lia.
      * by rewrite Happ.
      * intros [|j] b' v' Hj; [simpl; rewrite app_nil_r; apply Hrs|].
        rewrite Happ. apply Hmin. lia.
    + intros (Hk & Hc & Hmin). destruct k as [|k].
      { simpl in Hc. rewrite app_nil_r in Hc. by destruct (Hrs b v). }
      rewrite Happ in Hc. simpl in Hk.
      assert (wait_for_rotation obs (mkWatchdog (detector_after (Z.of_nat n) (rs ++ option_list o)) f')
              = Some (mkRotation b v, k)) as ->; [|done].
      apply (IH _ f' b v k Hnot). split_and!; [lia|done|].
      intros j b' v' Hj. rewrite <- Happ. apply Hmin. lia.
Qed.

(** the watchdog's polling loop returns the rotation from [b] to [v] after exactly [k] polls if
    and only if [k] is the first number of polls after which the successful reads confirm it: their
    first one is [b] and their last [DEFAULT_CONFIRMATIONS] ones are all the same other signer [v].
    Failed and timed out reads count for nothing, wherever they fall. *)
Theorem wait_for_rotation_spec w obs b v k :
  Watchdog_new = Ok w →
  wait_for_rotation obs w = Some (mkRotation b v, k) ↔
  (k ≤ length obs)%nat ∧
  confirmed (Z.to_nat DEFAULT_CONFIRMATIONS) b v (reads (take k obs)) ∧
  ∀ j b' v', (j < k)%nat →
    ¬ confirmed (Z.to_nat DEFAULT_CONFIRMATIONS) b' v' (reads (take j obs)).
Proof.
  intros [= <-]. apply (wait_spec 3 obs ltac:(lia) ltac:(done) [] 0 b v k).
  by intros b' v' (? & _).
Qed.

Lemma wait_for_rotation_spec_witness : ∃ w,
  Watchdog_new = Ok w ∧
  confirmed 3 17 34 (reads (take 7 [None; Some 17; Some 34; None; Some 34; None; Some 34])).
Proof.
  eexists. split; [reflexivity|].
  apply (wait_for_rotation_spec _ [None; Some 17; Some 34; None; Some 34; None; Some 34; Some 17]
           17 34 7 eq_refl). vm_compute. reflexivity.
Defined.
