(* ===== verification/Config.v ===== *)
(** * The node's configuration (crates/node/src/args.rs, constants.rs, primitives/src/node/config.rs)

    The argument groups and their defaults, their validation, the constants of the networks, the
    addresses read from a chain specification, and the choice of the consensus and of the signer.
    URL parsing, the file system, hexadecimal decoding and the key backends are parameters. *)

From S2P Require Import Prelude Primitives Sequencer Signing Migration Watcher SignerRotation.

(** ** Constants *)

Definition L1_PROVIDER_MAX_RETRIES : Z := 10.
Definition L1_PROVIDER_INITIAL_BACKOFF : Z := 100.
Definition L1_PROVIDER_CACHE_MAX_ITEMS : Z := 100.
Definition L1_LIVENESS_THRESHOLD : Z := 60.
Definition L1_LIVENESS_CHECK_INTERVAL : Z := 12.
Definition LOGS_QUERY_BLOCK_RANGE : Z := 500.
Definition PROVIDER_COMPUTE_UNITS_PER_SECOND : Z := 10000.
Definition BLOCK_GAP_TRIGGER : Z := 1000.
Definition CHAIN_BUFFER_SIZE : Z := 2000.
Definition SCROLL_GAS_LIMIT : Z := 20000000.
Definition DOGEOS_MAINNET_TD_CONSTANT : Z := 14906960.
Definition DOGEOS_CHIKYU_TD_CONSTANT : Z := 8484488.
Definition DOGEOS_MAINNET_V2_MESSAGE_QUEUE_START_INDEX : Z := 953885.
Definition DOGEOS_CHIKYU_V2_MESSAGE_QUEUE_START_INDEX : Z := 1062110.
Definition DOGEOS_MAINNET_SIGNER : Address := 0xD83C4892BB5aA241B63d8C4C134920111E142A20.
Definition DOGEOS_CHIKYU_SIGNER : Address := 0x687E0E85AD67ff71aC134CF61b65905b58Ab43b2.

Definition is_some {A} (o : option A) : bool := match o with Some _ => true | None => false end.
Definition is_none {A} (o : option A) : bool := negb (is_some o).

(** ** The chain specification *)

(** JSON values, of the genesis' extra fields and of the RPC. *)
Inductive Json :=
| JNull
| JBool (b : bool)
| JNumber (n : Z)
| JString (s : string)
| JArray (values : list Json)
| JObject (fields : list (string * Json)).

Definition json_get (key : string) (j : Json) : option Json :=
  match j with
  | JObject fields => snd <$> List.find (λ f, bool_decide (f.1 = key)) fields
  | _ => None
  end.
Definition as_u64_json (j : Json) : option Z :=
  match j with JNumber n => if (0 <=? n) && (n <=? u64_max) then Some n else None | _ => None end.
Definition as_str (j : Json) : option string := match j with JString s => Some s | _ => None end.

Record L1Config := mkL1Config {
  scroll_chain_address : Address;
  l1_message_queue_address : Address;
  l1_message_queue_v2_address : Address;
  num_l1_messages_per_block : Z
}.

(** What the node reads of a chain specification ([dogeos_chainspec], [reth_chainspec]). *)
Record ChainSpec := mkChainSpec {
  named : option NamedChain;
  chain_id : Z;
  spec_genesis_hash : B256;
  l1_config : L1Config;
  extra_fields : Json
}.

(** ** The addresses of the networks (primitives/src/node/config.rs) *)

Definition mainnet : NodeConfig :=
  mkNodeConfig
    (mkAddressBook 0xa13BAF47339d63B743e7Da8741db5456DAc1E556
       0x0d7E906BD9cAFa154b048cFa766Cc1E54E39AF9B 0x56971da63A3C0205184FEF096E9ddFc7A8C2D18a
       0x8432728A257646449245558B8b7Dbe51A16c7a4D) 18306000.
Definition sepolia : NodeConfig :=
  mkNodeConfig
    (mkAddressBook 0x2D567EcE699Eabe5afCd141eDB7A4f2D0D6ce8a0
       0xF0B2293F5D834eAe920c6974D50957A1732de763 0xA0673eC0A48aa924f067F1274EcD281A10c5f19F
       0xC706Ba9fa4fedF4507CB7A898b4766c1bbf9be57) 4038000.
Definition dev : NodeConfig :=
  mkNodeConfig
    (mkAddressBook 0x5FC8d32690cc91D4c39d9d3abcBD16989F875707
       0xCf7Ed3AccA5a467e9e704C703E8D87F634fB0Fc9 0xDc64a140Aa3E981100a9becA4E685f962f0cF6C9
       0x9fE46736679d2D9a65F0992F2272dE9f3c7fa6e0) 0.

(** Another named chain panics. *)
Definition from_named_chain (chain : NamedChain) : outcome string NodeConfig :=
  match chain with
  | Scroll => Ok mainnet
  | ScrollSepolia => Ok sepolia
  | Dev => Ok dev
  | OtherChain => Panic
  end.

Definition l1_config_field (key : string) (spec : ChainSpec) : option Json :=
  scroll ← json_get "scroll" (extra_fields spec);
  l1 ← json_get "l1Config" scroll;
  json_get key l1.

Section Spec.
(** [s.parse::<Address>().ok()]. *)
Variable parse_address : string → option Address.

Definition from_chainspec (spec : ChainSpec) : outcome string NodeConfig :=
  match named spec with
  | Some named_chain => from_named_chain named_chain
  | None =>
      obind (ok_or "Invalid or missing 'startL1Block'"%string
               (v ← l1_config_field "startL1Block" spec; as_u64_json v)) (λ start_l1_block,
      obind (ok_or "Invalid or missing 'systemContractAddress'"%string
               (v ← l1_config_field "systemContractAddress" spec; s ← as_str v; parse_address s))
        (λ system_contract_address,
      let c := l1_config spec in
      Ok (mkNodeConfig
            (mkAddressBook (scroll_chain_address c) (l1_message_queue_address c)
               (l1_message_queue_v2_address c) system_contract_address)
            start_l1_block)))
  end.
End Spec.

Definition td_constant_of (chain : option NamedChain) : Z :=
  match chain with
  | Some Scroll => DOGEOS_MAINNET_TD_CONSTANT
  | Some ScrollSepolia => DOGEOS_CHIKYU_TD_CONSTANT
  | _ => 0
  end.

Definition l1_v2_message_queue_start_index_of (chain : option NamedChain) : Z :=
  match chain with
  | Some Scroll => DOGEOS_MAINNET_V2_MESSAGE_QUEUE_START_INDEX
  | Some ScrollSepolia => DOGEOS_CHIKYU_V2_MESSAGE_QUEUE_START_INDEX
  | _ => 0
  end.

(** ** The argument groups *)

Record TestArgs := mkTestArgs { test : bool; skip_l1_synced : bool }.

Inductive ConsensusAlgorithm := SystemContract | Noop.
#[global] Instance ConsensusAlgorithm_eq_dec : EqDecision ConsensusAlgorithm.
Proof. solve_decision. Defined.

Record ConsensusArgs := mkConsensusArgs {
  algorithm : ConsensusAlgorithm;
  authorized_signer_arg : option Address;
  exit_on_signer_rotation : bool
}.
Definition ConsensusArgs_noop : ConsensusArgs := mkConsensusArgs Noop None false.

(** [ConsensusArgs::consensus]: the configured signer takes precedence over the one of L1. *)
Definition ConsensusArgs_consensus (authorized_signer : option Address) (args : ConsensusArgs) :
  outcome string Consensus :=
  match algorithm args with
  | Noop => Ok NoopConsensus
  | SystemContract =>
      match authorized_signer_arg args with
      | Some address => Ok (SystemContractConsensus address)
      | None =>
          match authorized_signer with
          | Some address => Ok (SystemContractConsensus address)
          | None => Err "System contract consensus requires either an authorized signer or a L1 provider URL"%string
          end
      end
  end.

Record EngineDriverArgs := mkEngineDriverArgs { sync_at_startup : bool }.
Definition EngineDriverArgs_default : EngineDriverArgs := mkEngineDriverArgs true.

Record ChainOrchestratorArgs := mkChainOrchestratorArgs {
  optimistic_sync_trigger : Z;
  chain_buffer_size : Z
}.
Definition ChainOrchestratorArgs_default : ChainOrchestratorArgs :=
  mkChainOrchestratorArgs BLOCK_GAP_TRIGGER CHAIN_BUFFER_SIZE.

Record RollupNodeNetworkArgs := mkNetworkArgs {
  enable_eth_scroll_wire_bridge : bool;
  enable_scroll_wire : bool;
  sequencer_url : option string;
  signer_address_arg : option Address;
  legacy_geth_header_transform : bool
}.
Definition RollupNodeNetworkArgs_default : RollupNodeNetworkArgs :=
  mkNetworkArgs true true None None false.

Definition default_authorized_signer (chain : option NamedChain) : option Address :=
  match chain with
  | Some Scroll => Some DOGEOS_MAINNET_SIGNER
  | Some ScrollSepolia => Some DOGEOS_CHIKYU_SIGNER
  | _ => None
  end.

Definition effective_signer (chain : option NamedChain) (args : RollupNodeNetworkArgs) : option Address :=
  match signer_address_arg args with
  | Some signer => Some signer
  | None => default_authorized_signer chain
  end.

Record L1ProviderArgs := mkL1ProviderArgs {
  l1_url : option string;
  compute_units_per_second : Z;
  max_retries : Z;
  initial_backoff : Z;
  logs_query_block_range : Z;
  cache_max_items : Z;
  liveness_threshold : Z;
  liveness_check_interval : Z
}.
Definition L1ProviderArgs_default : L1ProviderArgs :=
  mkL1ProviderArgs None PROVIDER_COMPUTE_UNITS_PER_SECOND L1_PROVIDER_MAX_RETRIES
    L1_PROVIDER_INITIAL_BACKOFF LOGS_QUERY_BLOCK_RANGE L1_PROVIDER_CACHE_MAX_ITEMS
    L1_LIVENESS_THRESHOLD L1_LIVENESS_CHECK_INTERVAL.

(** The last three settings are printed, and read by nothing else. *)
Record BlobProviderArgs := mkBlobProviderArgs {
  beacon_node_urls : option (list string);
  s3_url : option string;
  anvil_url : option string;
  blob_mock : bool;
  blob_compute_units_per_second : Z;
  blob_max_retries : Z;
  blob_initial_backoff : Z
}.

Record SequencerArgs := mkSequencerArgs {
  sequencer_enabled : bool;
  auto_start_arg : bool;
  block_time_arg : Z;
  payload_building_duration_arg : Z;
  fee_recipient_arg : Address;
  l1_message_inclusion_mode_arg : L1MessageInclusionMode;
  allow_empty_blocks_arg : bool;
  max_l1_messages : option Z
}.

(** [PrivateKeySigner]: its address and the chain it signs for. *)
Record PrivateKeySigner := mkPrivateKeySigner { key_address : Address; key_chain_id : option Z }.
Definition with_chain_id (id : option Z) (k : PrivateKeySigner) : PrivateKeySigner :=
  mkPrivateKeySigner (key_address k) id.

Record SignerArgs := mkSignerArgs {
  key_file : option string;
  aws_kms_key_id : option string;
  private_key : option PrivateKeySigner
}.

Record RpcArgs := mkRpcArgs { basic_enabled : bool; admin_enabled : bool }.

Record RemoteBlockSourceArgs := mkRemoteArgs {
  remote_enabled : bool;
  remote_url : option string;
  poll_interval_ms : Z;
  remote_build : bool
}.

(** [ScrollRollupNodeConfig], without the limits of the execution layer and the profiler. *)
Record ScrollRollupNodeConfig := mkNodeArgs {
  test_args : TestArgs;
  consensus_args : ConsensusArgs;
  chain_orchestrator_args : ChainOrchestratorArgs;
  engine_driver_args : EngineDriverArgs;
  blob_provider_args : BlobProviderArgs;
  l1_provider_args : L1ProviderArgs;
  sequencer_args : SequencerArgs;
  network_args : RollupNodeNetworkArgs;
  rpc_args : RpcArgs;
  signer_args : SignerArgs;
  remote_block_source_args : RemoteBlockSourceArgs
}.

(** ** Validation *)

Definition signer_sources (a : SignerArgs) : Z :=
  Z.b2z (is_some (key_file a)) + Z.b2z (is_some (aws_kms_key_id a)) + Z.b2z (is_some (private_key a)).

(** The checks in order; the first that fails gives the message. *)
Definition first_error (checks : list (bool * string)) : outcome string unit :=
  match List.find fst checks with Some (_, e) => Err e | None => Ok tt end.

Definition is_noop (a : ConsensusAlgorithm) : bool := match a with Noop => true | _ => false end.

Definition validate (c : ScrollRollupNodeConfig) : outcome string unit :=
  let rotation := exit_on_signer_rotation (consensus_args c) in
  let signs := sequencer_enabled (sequencer_args c) && negb (is_noop (algorithm (consensus_args c))) in
  let s := signer_args c in
  first_error [
    (rotation && sequencer_enabled (sequencer_args c),
     "--consensus.exit-on-signer-rotation must not be used on a sequencer");
    (signs && (is_none (key_file s) && is_none (aws_kms_key_id s) && is_none (private_key s)),
     "A signer is required when the sequencer is enabled: pass --signer.key-file or --signer.aws-kms-key-id");
    (signs && (1 <? signer_sources s)%Z, "Cannot specify more than one signer key source");
    (rotation && is_none (l1_url (l1_provider_args c)),
     "--consensus.exit-on-signer-rotation requires --l1.url");
    (rotation && is_some (authorized_signer_arg (consensus_args c)),
     "--consensus.exit-on-signer-rotation cannot be used with --consensus.authorized-signer because restart would re-pin the same signer");
    (rotation && negb (bool_decide (algorithm (consensus_args c) = SystemContract)),
     "--consensus.exit-on-signer-rotation requires --consensus.algorithm system-contract");
    (bool_decide (algorithm (consensus_args c) = SystemContract) &&
     is_none (authorized_signer_arg (consensus_args c)) && is_none (l1_url (l1_provider_args c)),
     "System contract consensus requires either an authorized signer or a L1 provider URL");
    (remote_enabled (remote_block_source_args c) && is_none (remote_url (remote_block_source_args c)),
     "Remote source URL required when remote source is enabled")
  ]%string.

(** What the watchdog watches: the L1 node and the contract. *)
Record SignerRotationWatchdog := mkRotationWatchdog {
  watchdog_l1_url : string;
  watchdog_system_contract : Address
}.

Definition signer_rotation_watchdog (parse_address : string → option Address) (spec : ChainSpec)
  (c : ScrollRollupNodeConfig) : outcome string (option SignerRotationWatchdog) :=
  if negb (exit_on_signer_rotation (consensus_args c)) then Ok None
  else
    obind (validate c) (λ _,
    obind (ok_or "--consensus.exit-on-signer-rotation requires --l1.url"%string
             (l1_url (l1_provider_args c))) (λ l1_url,
    omap_ok (λ node_config,
        Some (mkRotationWatchdog l1_url (system_contract_address (address_book node_config))))
      (from_chainspec parse_address spec))).

(** ** The signer *)

(** The encodings in UTF-8 of the characters with the White_Space property, which [str::trim]
    strips: U+0009 to U+000D, U+0020, U+0085, U+00A0, U+1680, U+2000 to U+200A, U+2028, U+2029,
    U+202F, U+205F and U+3000. *)
Definition white_space : list Bytes :=
  map (λ c, [c]) (seqZ 9 5) ++ [[32]; [194; 133]; [194; 160]; [225; 154; 128]] ++
  map (λ c, [226; 128; c]) (seqZ 128 11) ++
  [[226; 128; 168]; [226; 128; 169]; [226; 128; 175]; [226; 129; 159]; [227; 128; 128]].

Definition starts_with (p s : Bytes) : bool := bool_decide (take (length p) s = p).

(** Strips the patterns at the start as long as one matches. *)
Fixpoint trim_start (fuel : nat) (patterns : list Bytes) (s : Bytes) : Bytes :=
  match fuel, List.find (λ p, starts_with p s) patterns with
  | S fuel, Some p => trim_start fuel patterns (drop (length p) s)
  | _, _ => s
  end.

(** [str::trim]; the end is the start of the reversed string. *)
Definition trim (s : Bytes) : Bytes :=
  let s := trim_start (length s) white_space s in
  rev (trim_start (length s) (map (@rev Z) white_space) (rev s)).

(** [strip_prefix("0x").unwrap_or]. *)
Definition strip_0x (s : Bytes) : Bytes := if starts_with [48; 120] s then drop 2 s else s.

(** The file system, [hex::decode], [PrivateKeySigner::from_slice] and AWS KMS. *)
Class SignerBackends := {
  read_to_string : string → Bytes + string;
  hex_decode : Bytes → Bytes + string;
  private_key_from_slice : Bytes → PrivateKeySigner + string;
  aws_signer_address : string → Z → Address + string
}.

Inductive ConfiguredSigner := LocalKey (k : PrivateKeySigner) | AwsKms (address : Address) (chain : Z).

Definition configured_address (s : ConfiguredSigner) : Address :=
  match s with LocalKey k => key_address k | AwsKms address _ => address end.

Definition or_report {A} (what : string) (r : A + string) : outcome string A :=
  match r with inl a => Ok a | inr e => Err (what +:+ e)%string end.

Definition SignerArgs_signer `{SignerBackends} (chain_id : Z) (a : SignerArgs) :
  outcome string (option ConfiguredSigner) :=
  match key_file a, aws_kms_key_id a, private_key a with
  | Some key_file_path, _, _ =>
      obind (or_report ("Failed to read signer key file " +:+ key_file_path +:+ ": ")
               (read_to_string key_file_path)) (λ content,
      obind (or_report ("Failed to decode hex private key from file " +:+ key_file_path +:+ ": ")
               (hex_decode (strip_0x (trim content)))) (λ key_bytes,
      omap_ok (λ k, Some (LocalKey (with_chain_id (Some chain_id) k)))
        (or_report "Failed to create signer from key file: " (private_key_from_slice key_bytes))))
  | None, Some key_id, _ =>
      omap_ok (λ address, Some (AwsKms address chain_id))
        (or_report "Failed to initialize AWS KMS signer: " (aws_signer_address key_id chain_id))
  | None, None, Some k => Ok (Some (LocalKey (with_chain_id (Some chain_id) k)))
  | None, None, None => Ok None
  end.

(** ** The exit code (main.rs) *)

(** How the process ends: the node's own exit, or the watchdog's rotation, which lets the runtime
    shut down and may then report an error of its own. *)
Inductive NodeEnd := NodeExited (r : unit + string) | SignerRotated (shutdown : unit + string).

Definition exit_code (e : NodeEnd) : Z :=
  match e with
  | SignerRotated _ => EXIT_CODE_SIGNER_ROTATION
  | NodeExited (inl _) => 0
  | NodeExited (inr _) => 1
  end.
