(* ===== verification/Redaction.v ===== *)
(** * What reaches the logs (crates/node/src/args.rs, add_ons/remote_block_source.rs)

    The configuration holds credentials: API keys in URLs, basic authentication, the signing key.
    The dump of the configuration prints a URL as scheme, host and port and a key as its presence;
    an error of the remote is scrubbed of the URL and of its parts before it is logged.  Text is a
    list of Unicode scalar values.  The parser of URLs and the JSON encoder are parameters. *)

From Stdlib Require Import Ascii.
From S2P Require Import Prelude Primitives Config.

Definition Text : Type := list Z.
Definition text_of (s : string) : Text := map (λ a, Z.of_nat (nat_of_ascii a)) (String.list_ascii_of_string s).
Coercion text_of : string >-> Text.

(** ** Text operations of the standard library *)

Definition starts (p t : Text) : bool := bool_decide (take (length p) t = p).

(** [str::find]: the first occurrence. *)
Fixpoint find_text (needle t : Text) : option nat :=
  if starts needle t then Some 0%nat
  else match t with [] => None | _ :: t => S <$> find_text needle t end.

(** [str::replace] of a pattern that is not empty: at most [fuel] replacements. *)
Fixpoint replace_all (fuel : nat) (from to t : Text) : Text :=
  match fuel, find_text from t with
  | S fuel, Some i => take i t ++ to ++ replace_all fuel from to (drop (i + length from) t)
  | _, _ => t
  end.

(** [str::replace]: the empty pattern matches around every character. *)
Definition replace (from to t : Text) : Text :=
  match from with
  | [] => to ++ flat_map (λ c, c :: to) t
  | _ => replace_all (length t) from to t
  end.

(** [str::split] and [str::split_once] on a character. *)
Fixpoint split (c : Z) (t : Text) : list Text :=
  match t with
  | [] => [[]]
  | x :: t =>
      if x =? c then [] :: split c t
      else match split c t with [] => [[x]] | p :: ps => (x :: p) :: ps end
  end.
Fixpoint split_once (c : Z) (t : Text) : option (Text * Text) :=
  match t with
  | [] => None
  | x :: t => if x =? c then Some ([], t) else '(a, b) ← split_once c t; Some (x :: a, b)
  end.

(** [trim_end_matches('.')] and [trim_start_matches('.')]. *)
Fixpoint trim_dots (t : Text) : Text :=
  match t with x :: t' => if x =? 46 then trim_dots t' else t | [] => [] end.
Definition trim_end_dots (t : Text) : Text := rev (trim_dots (rev t)).

(** ** UTF-8 *)

Definition utf8_char (c : Z) : Bytes :=
  if c <? 0x80 then [c]
  else if c <? 0x800 then [0xC0 + c / 64; 0x80 + c mod 64]
  else if c <? 0x10000 then [0xE0 + c / 4096; 0x80 + c / 64 mod 64; 0x80 + c mod 64]
  else [0xF0 + c / 262144; 0x80 + c / 4096 mod 64; 0x80 + c / 64 mod 64; 0x80 + c mod 64].
Definition utf8 (t : Text) : Bytes := flat_map utf8_char t.

Definition within (lo hi b : Z) : bool := (lo <=? b) && (b <=? hi).
Definition continuation : Z → bool := within 0x80 0xBF.
Definition REPLACEMENT : Z := 0xFFFD.

(** The second bytes a first byte of three or four allows. *)
Definition second_byte (b0 : Z) : Z → bool :=
  if b0 =? 0xE0 then within 0xA0 0xBF
  else if b0 =? 0xED then within 0x80 0x9F
  else if b0 =? 0xF0 then within 0x90 0xBF
  else if b0 =? 0xF4 then within 0x80 0x8F
  else continuation.

(** One step of [String::from_utf8_lossy]: the first character of the bytes, or the replacement
    character for the longest prefix that starts a character; with the bytes left.  A byte past the
    end reads as 0. *)
Definition next_char (b0 : Z) (r0 : Bytes) : Z * Bytes :=
  let b1 := hd 0 r0 in let r1 := tl r0 in
  let b2 := hd 0 r1 in let r2 := tl r1 in
  let b3 := hd 0 r2 in let r3 := tl r2 in
  if b0 <? 0x80 then (b0, r0)
  else if within 0xC2 0xDF b0 then
    if continuation b1 then ((b0 - 0xC0) * 64 + (b1 - 0x80), r1) else (REPLACEMENT, r0)
  else if within 0xE0 0xEF b0 then
    if second_byte b0 b1 then
      if continuation b2 then ((b0 - 0xE0) * 4096 + (b1 - 0x80) * 64 + (b2 - 0x80), r2)
      else (REPLACEMENT, r1)
    else (REPLACEMENT, r0)
  else if within 0xF0 0xF4 b0 then
    if second_byte b0 b1 then
      if continuation b2 then
        if continuation b3 then
          ((b0 - 0xF0) * 262144 + (b1 - 0x80) * 4096 + (b2 - 0x80) * 64 + (b3 - 0x80), r3)
        else (REPLACEMENT, r2)
      else (REPLACEMENT, r1)
    else (REPLACEMENT, r0)
  else (REPLACEMENT, r0).

Fixpoint lossy (fuel : nat) (bs : Bytes) : Text :=
  match fuel, bs with
  | S fuel, b0 :: r0 => let (c, r) := next_char b0 r0 in c :: lossy fuel r
  | _, _ => []
  end.
(** [String::from_utf8_lossy]. *)
Definition from_utf8_lossy (bs : Bytes) : Text := lossy (length bs) bs.

(** ** Percent-decoding *)

Definition is_hex (b : Z) : bool := within 48 57 b || within 65 70 b || within 97 102 b.
Definition hex_value (b : Z) : Z := if b <=? 57 then b - 48 else if b <=? 70 then b - 55 else b - 87.

Fixpoint percent_bytes (rest : Bytes) : Bytes :=
  match rest with
  | [] => []
  | first :: tail =>
      match tail with
      | hi :: lo :: rest' =>
          if (first =? 37) && is_hex hi && is_hex lo
          then (16 * hex_value hi + hex_value lo) :: percent_bytes rest'
          else first :: percent_bytes tail
      | _ => first :: percent_bytes tail
      end
  end.
Definition percent_decode (raw : Text) : Text := from_utf8_lossy (percent_bytes (utf8 raw)).

(** ** Replacing a token *)

Definition is_url_char (c : Z) : bool :=
  within 48 57 c || within 65 90 c || within 97 122 c ||
  existsb (Z.eqb c) [45; 46; 95; 126; 37; 47].

Definition begins_url (t : Text) : bool := match t with c :: _ => is_url_char c | [] => false end.
Definition ends_url (t : Text) : bool := begins_url (rev t).

(** Whether an occurrence of [needle] with [before] and [after] around it is a whole token. *)
Definition bounded (needle before after : Text) : bool :=
  negb (begins_url needle && ends_url (trim_end_dots before)
        || ends_url needle && begins_url (trim_dots after)).

(** The loop: [seen] is the text before the cursor, [rest] the text from it on. *)
Fixpoint replace_tokens (fuel : nat) (needle marker seen rest : Text) : Text :=
  match fuel, find_text needle rest with
  | S fuel, Some offset =>
      let before := seen ++ take offset rest in
      let after := drop (offset + length needle) rest in
      if bounded needle before after
      then take offset rest ++ marker ++
           replace_tokens fuel needle marker (before ++ needle) after
      else take (S offset) rest ++
           replace_tokens fuel needle marker (seen ++ take (S offset) rest) (drop (S offset) rest)
  | _, _ => rest
  end.
Definition replace_token (text needle marker : Text) : Text :=
  match needle with [] => text | _ => replace_tokens (length text) needle marker [] text end.

(** ** URLs *)

(** The crate [url] (a URL is its serialization) and [serde_json::to_string] of a string. *)
Class Urls := {
  scheme : string → string;
  host_str : string → option string;
  port_or_known_default : string → option Z;
  username : string → string;
  password : string → option string;
  query : string → option string;
  path : string → string;
  query_pairs : string → list (Text * Text);
  without_userinfo : string → option string;
  parse_url : string → string + string;
  json_string : Text → option Text;
  u16_to_string : Z → string
}.

Section Redaction.
Context `{Urls}.

(** [scheme://host:port]. *)
Definition safe_remote_host (url : string) : string :=
  scheme url +:+ "://" +:+ default "<none>"%string (host_str url) +:+ ":" +:+
  u16_to_string (default 0 (port_or_known_default url)).

Definition replace_url (message url host : Text) : Text :=
  if starts [47] (rev url) then replace url (host ++ [47]) message else replace url host message.

Definition push (raw marker : Text) : list (Text * Text) :=
  match raw with
  | [] => []
  | _ =>
      let decoded := percent_decode raw in
      let normalized_decoded := percent_decode decoded in
      (if bool_decide (normalized_decoded = decoded) then [] else [(normalized_decoded, marker)]) ++
      (if bool_decide (decoded = raw) then [] else [(decoded, marker)]) ++
      [(raw, marker)]
  end.

Definition push_query_values (query : Text) : list (Text * Text) :=
  flat_map (λ pair, match split_once 61 pair with
                    | Some (_, value) => push value "<query>"%string
                    | None => []
                    end) (split 38 query).

Definition push_path (path : Text) : list (Text * Text) :=
  if bool_decide (path = [47]) then []
  else push path "<path>"%string ++
       flat_map (λ segment, push segment "<path>"%string) (split 47 path).

Definition url_components (url : string) : list (Text * Text) :=
  let query := text_of (default ""%string (query url)) in
  push (default ""%string (password url)) "<password>"%string ++
  match text_of (username url) with
  | [] => []
  | username => push (username ++ [58]) "<username>:"%string ++ push (username ++ [64]) "<username>@"%string
  end ++
  push query "<query>"%string ++ push_query_values query ++
  flat_map (λ pair, push pair.2 "<query>"%string) (query_pairs url) ++
  push_path (path url).

(** The spellings of the components inside a JSON string. *)
Definition json_components (components : list (Text * Text)) : list (Text * Text) :=
  omap (λ c, json ← json_string c.1;
             let encoded := percent_decode (removelast (tl json)) in
             if bool_decide (encoded = c.1) then None else Some (encoded, c.2)) components.

Definition longest_first (c c' : Text * Text) : Prop := Z.of_nat (length (utf8 c'.1)) <= Z.of_nat (length (utf8 c.1)).
#[local] Instance longest_first_dec : RelDecision longest_first.
Proof. intros c c'. unfold longest_first. apply _. Defined.

Definition scrub_components (url : string) (text : Text) : Text :=
  let components := url_components url in
  fold_left (λ text c, replace_token text c.1 c.2)
    (merge_sort longest_first (components ++ json_components components)) text.

Definition redact_remote (url : option string) (message : Text) : Text :=
  match url with
  | None => message
  | Some url =>
      let host := safe_remote_host url in
      let redacted := replace_url (percent_decode message) (percent_decode url) host in
      let redacted :=
        match without_userinfo url with
        | Some stripped =>
            if bool_decide (stripped = url) then redacted
            else replace_url redacted (percent_decode stripped) host
        | None => redacted
        end in
      scrub_components url redacted
  end.

(** ** The dump of the configuration *)

Inductive DebugValue :=
| DText (t : string)
| DNumber (n : Z)
| DFlag (b : bool)
| DUrls (urls : option (list string))
| DAddress (a : option Address)
| DAlgorithm (a : ConsensusAlgorithm).
Definition DebugStruct : Type := string * list (string * DebugValue).

Definition debug_url (url : option string) : string :=
  match url with Some url => safe_remote_host url | None => "<unset>" end.

Definition L1ProviderArgs_fmt (a : L1ProviderArgs) : DebugStruct :=
  ("L1ProviderArgs", [("url", DText (debug_url (l1_url a)));
     ("compute_units_per_second", DNumber (compute_units_per_second a));
     ("max_retries", DNumber (max_retries a)); ("initial_backoff", DNumber (initial_backoff a));
     ("logs_query_block_range", DNumber (logs_query_block_range a));
     ("cache_max_items", DNumber (cache_max_items a));
     ("liveness_threshold", DNumber (liveness_threshold a));
     ("liveness_check_interval", DNumber (liveness_check_interval a))])%string.

Definition BlobProviderArgs_fmt (a : BlobProviderArgs) : DebugStruct :=
  ("BlobProviderArgs", [
     ("beacon_node_urls", DUrls (map (λ url, debug_url (Some url)) <$> beacon_node_urls a));
     ("s3_url", DText (debug_url (s3_url a))); ("anvil_url", DText (debug_url (anvil_url a)));
     ("mock", DFlag (blob_mock a));
     ("compute_units_per_second", DNumber (blob_compute_units_per_second a));
     ("max_retries", DNumber (blob_max_retries a));
     ("initial_backoff", DNumber (blob_initial_backoff a))])%string.

Definition SignerArgs_fmt (a : SignerArgs) : DebugStruct :=
  ("SignerArgs", [("key_file_set", DFlag (is_some (key_file a)));
     ("aws_kms_key_id_set", DFlag (is_some (aws_kms_key_id a)));
     ("private_key_set", DFlag (is_some (private_key a)))])%string.

Definition RemoteBlockSourceArgs_fmt (a : RemoteBlockSourceArgs) : DebugStruct :=
  ("RemoteBlockSourceArgs", [("enabled", DFlag (remote_enabled a));
     ("url", DText (debug_url (remote_url a))); ("poll_interval_ms", DNumber (poll_interval_ms a));
     ("build", DFlag (remote_build a))])%string.

Definition debug_sequencer_url (raw : option string) : string :=
  match raw with
  | None => "<unset>"
  | Some raw =>
      match parse_url raw with
      | inl url => debug_url (Some url)
      | inr e => "<unparsable: " +:+ e +:+ ">"
      end
  end.

Definition RollupNodeNetworkArgs_fmt (a : RollupNodeNetworkArgs) : DebugStruct :=
  ("RollupNodeNetworkArgs", [
     ("enable_eth_scroll_wire_bridge", DFlag (enable_eth_scroll_wire_bridge a));
     ("enable_scroll_wire", DFlag (enable_scroll_wire a));
     ("sequencer_url", DText (debug_sequencer_url (sequencer_url a)));
     ("signer_address", DAddress (signer_address_arg a));
     ("legacy_geth_header_transform", DFlag (legacy_geth_header_transform a))])%string.

(** The flag is printed only when it is set. *)
Definition ConsensusArgs_fmt (a : ConsensusArgs) : DebugStruct :=
  ("ConsensusArgs", ("algorithm", DAlgorithm (algorithm a)) ::
     ("authorized_signer", DAddress (authorized_signer_arg a)) ::
     if exit_on_signer_rotation a then [("exit_on_signer_rotation", DFlag true)] else [])%string.

(** The groups of the configuration whose [Debug] is written by hand, in its order. *)
Definition config_dump (c : ScrollRollupNodeConfig) : list DebugStruct :=
  [ConsensusArgs_fmt (consensus_args c); BlobProviderArgs_fmt (blob_provider_args c);
   L1ProviderArgs_fmt (l1_provider_args c); RollupNodeNetworkArgs_fmt (network_args c);
   SignerArgs_fmt (signer_args c); RemoteBlockSourceArgs_fmt (remote_block_source_args c)].
End Redaction.
