(* ===== verification/RpcServer.v ===== *)
(** * The rollup node's JSON-RPC (crates/node/src/add_ons/rpc.rs, mod.rs)

    The methods of the two namespaces, the commands they stand for, and how a request gets the
    handle of the orchestrator: the server answers before the node is built, so the handle comes
    through a one-shot channel whose receiver the first request takes.  A request can be cancelled
    while it waits, when its client disconnects. *)

From S2P Require Import Prelude Primitives DbModel Sequencer Consolidation Driver Orchestrator Config.

(** ** The methods *)

Inductive RpcMethod :=
| RpcStatus
| RpcGetL1MessageByIndex (index : Z)
| RpcGetL1MessageByKey (key : L1MessageKey)
| RpcEnableAutomaticSequencing
| RpcDisableAutomaticSequencing
| RpcRevertToL1Block (n : Z).

(** The namespace of a method: [rollupNodeAdmin] or [rollupNode]. *)
Definition is_admin_method (m : RpcMethod) : bool :=
  match m with
  | RpcStatus | RpcGetL1MessageByIndex _ | RpcGetL1MessageByKey _ => false
  | _ => true
  end.

(** The modules that are merged into the transports. *)
Definition is_registered (a : RpcArgs) (m : RpcMethod) : bool :=
  if is_admin_method m then admin_enabled a else basic_enabled a.

Definition rpc_command `{Chain} (m : RpcMethod) : ChainOrchestratorCommand :=
  match m with
  | RpcStatus => Status
  | RpcGetL1MessageByIndex index => GetL1MessageByKey (QueueIndex index)
  | RpcGetL1MessageByKey key => GetL1MessageByKey key
  | RpcEnableAutomaticSequencing => EnableAutomaticSequencing
  | RpcDisableAutomaticSequencing => DisableAutomaticSequencing
  | RpcRevertToL1Block n => RevertToL1Block n
  end.

(** ** The wire format: positional parameters, in JSON *)

(** The hexadecimal text of alloy's [B256]. *)
Class HashText := { hash_text : B256 → string; hash_of_text : string → option B256 }.
Class HashTextOk `{HashText} : Prop := hash_text_ok h : hash_of_text (hash_text h) = Some h.

Section Wire.
Context `{HashText}.
Open Scope string_scope.

Definition hash_of_json (j : Json) : option B256 := s ← as_str j; hash_of_text s.

(** [L1MessageKey] is externally tagged, with the names of its serde attributes
    (crates/database/db/src/operations.rs). *)
Definition not_included_json (k : NotIncludedKey) : Json :=
  match k with
  | FinalizedWithBlockDepth n => JObject [("notIncludedFinalizedWithBlockDepth", JNumber n)]
  | BlockDepth n => JObject [("notIncludedBlockDepth", JNumber n)]
  end.
Definition key_json (k : L1MessageKey) : Json :=
  match k with
  | QueueIndex n => JObject [("queueIndex", JNumber n)]
  | QueueHash h => JObject [("queueHash", JString (hash_text h))]
  | TransactionHash h => JObject [("transactionHash", JString (hash_text h))]
  | BlockNumber n => JObject [("blockNumber", JNumber n)]
  | NotIncluded k => JObject [("notIncluded", not_included_json k)]
  end.

Definition not_included_of_json (j : Json) : option NotIncludedKey :=
  match j with
  | JObject [(tag, v)] =>
      if String.eqb tag "notIncludedFinalizedWithBlockDepth" then FinalizedWithBlockDepth <$> as_u64_json v
      else if String.eqb tag "notIncludedBlockDepth" then BlockDepth <$> as_u64_json v
      else None
  | _ => None
  end.
Definition key_of_json (j : Json) : option L1MessageKey :=
  match j with
  | JObject [(tag, v)] =>
      if String.eqb tag "queueIndex" then QueueIndex <$> as_u64_json v
      else if String.eqb tag "queueHash" then QueueHash <$> hash_of_json v
      else if String.eqb tag "transactionHash" then TransactionHash <$> hash_of_json v
      else if String.eqb tag "blockNumber" then BlockNumber <$> as_u64_json v
      else if String.eqb tag "notIncluded" then NotIncluded <$> not_included_of_json v
      else None
  | _ => None
  end.

Definition rpc_name (m : RpcMethod) : string :=
  match m with
  | RpcStatus => "rollupNode_status"
  | RpcGetL1MessageByIndex _ => "rollupNode_getL1MessageByIndex"
  | RpcGetL1MessageByKey _ => "rollupNode_getL1MessageByKey"
  | RpcEnableAutomaticSequencing => "rollupNodeAdmin_enableAutomaticSequencing"
  | RpcDisableAutomaticSequencing => "rollupNodeAdmin_disableAutomaticSequencing"
  | RpcRevertToL1Block _ => "rollupNodeAdmin_revertToL1Block"
  end.
Definition rpc_params (m : RpcMethod) : Json :=
  match m with
  | RpcGetL1MessageByIndex n | RpcRevertToL1Block n => JArray [JNumber n]
  | RpcGetL1MessageByKey k => JArray [key_json k]
  | _ => JArray []
  end.

(** The first positional parameter. *)
Definition first_param (params : Json) : option Json := match params with JArray (j :: _) => Some j | _ => None end.

(** The method a request is for, if there is one with its name and parameters. *)
Definition rpc_request (name : string) (params : Json) : option RpcMethod :=
  if String.eqb name "rollupNode_status" then Some RpcStatus
  else if String.eqb name "rollupNode_getL1MessageByIndex" then
    RpcGetL1MessageByIndex <$> (first_param params ≫= as_u64_json)
  else if String.eqb name "rollupNode_getL1MessageByKey" then
    RpcGetL1MessageByKey <$> (first_param params ≫= key_of_json)
  else if String.eqb name "rollupNodeAdmin_enableAutomaticSequencing" then Some RpcEnableAutomaticSequencing
  else if String.eqb name "rollupNodeAdmin_disableAutomaticSequencing" then Some RpcDisableAutomaticSequencing
  else if String.eqb name "rollupNodeAdmin_revertToL1Block" then
    RpcRevertToL1Block <$> (first_param params ≫= as_u64_json)
  else None.
End Wire.

(** What a failed command is reported as. *)
Definition rpc_failure (m : RpcMethod) (e : string) : string :=
  (match m with
   | RpcStatus => "Failed to get rollup node status: "
   | RpcGetL1MessageByIndex _ => "Failed to get L1 message by index: "
   | RpcGetL1MessageByKey _ => "Failed to get L1 message by key: "
   | RpcEnableAutomaticSequencing => "Failed to enable automatic sequencing: "
   | RpcDisableAutomaticSequencing => "Failed to disable automatic sequencing: "
   | RpcRevertToL1Block n => "Failed to revert to L1 block " +:+ u64_to_string n +:+ ": "
   end +:+ e)%string.

(** A method with its handle: the command is sent and its channel awaited. *)
Definition rpc_call `{Chain} {W} (submit : ChainOrchestratorCommand → W → option Reply * W)
  (m : RpcMethod) (w : W) : outcome string Reply * W :=
  let (r, w) := submit (rpc_command m) w in
  (ok_or (rpc_failure m "channel closed") r, w).

(** ** The handle (RollupNodeRpcExt) *)

Section Handle.
Context {H : Type}.

(** The receiver: still in its mutex, with what was sent so far; awaited by a request, inside
    [OnceCell::get_or_try_init]; or taken and gone. *)
Inductive Receiver :=
| InMutex (sent : option H)
| AwaitedBy (request : nat)
| Consumed.

(** The cell, the receiver, and the requests that wait for the one that initializes the cell. *)
Record RollupNodeRpcExt := mkRpcExt {
  handle_cell : option H;
  receiver : Receiver;
  waiting : list nat
}.

Definition RollupNodeRpcExt_new : RollupNodeRpcExt := mkRpcExt None (InMutex None) [].

(** The answers given, with the handle or the error. *)
Definition Answers : Type := list (nat * (H + string)).

Definition consumed_error : string := "receiver already consumed".

(** [rollup_manager_handle] for a new request. *)
Definition rollup_manager_handle (r : nat) (s : RollupNodeRpcExt) : Answers * RollupNodeRpcExt :=
  match handle_cell s with
  | Some h => ([(r, inl h)], s)
  | None =>
      match receiver s with
      | InMutex (Some h) => ([(r, inl h)], mkRpcExt (Some h) Consumed (waiting s))
      | InMutex None => ([], mkRpcExt None (AwaitedBy r) (waiting s))
      | AwaitedBy _ => ([], mkRpcExt None (receiver s) (waiting s ++ [r]))
      | Consumed => ([(r, inr consumed_error)], s)
      end
  end.

(** The client of a request disconnects: the receiver is dropped with the request that awaits it,
    and the ones that wait for the cell find the mutex empty. *)
Definition cancel_request (r : nat) (s : RollupNodeRpcExt) : Answers * RollupNodeRpcExt :=
  match receiver s with
  | AwaitedBy r' =>
      if Nat.eqb r r'
      then (map (λ w, (w, inr consumed_error)) (waiting s), mkRpcExt (handle_cell s) Consumed [])
      else ([], mkRpcExt (handle_cell s) (receiver s) (List.filter (λ w, negb (Nat.eqb w r)) (waiting s)))
  | _ => ([], s)
  end.

(** [tx.send(handle)]: it fails when the receiver is gone. *)
Definition send_handle (h : H) (s : RollupNodeRpcExt) :
  outcome string (Answers * RollupNodeRpcExt) :=
  match receiver s with
  | InMutex _ => Ok ([], mkRpcExt (handle_cell s) (InMutex (Some h)) (waiting s))
  | AwaitedBy r =>
      Ok ((r, inl h) :: map (λ w, (w, inl h)) (waiting s), mkRpcExt (Some h) Consumed [])
  | Consumed => Err "failed to send rollup manager handle"%string
  end.

(** The part of [launch_add_ons] after the node is built: an error stops the launch. *)
Definition launch_rpc (a : RpcArgs) (h : H) (s : RollupNodeRpcExt) :
  outcome string (Answers * RollupNodeRpcExt) :=
  if basic_enabled a || admin_enabled a then send_handle h s else Ok ([], s).

Inductive RpcEvent := NewRequest (r : nat) | Disconnected (r : nat).

#[export] Instance RpcEvent_eq_dec : EqDecision RpcEvent.
Proof. solve_decision. Defined.

Definition rpc_event (e : RpcEvent) (s : RollupNodeRpcExt) : Answers * RollupNodeRpcExt :=
  match e with NewRequest r => rollup_manager_handle r s | Disconnected r => cancel_request r s end.

Fixpoint rpc_events (es : list RpcEvent) (s : RollupNodeRpcExt) : Answers * RollupNodeRpcExt :=
  match es with
  | [] => ([], s)
  | e :: es => let (a1, s) := rpc_event e s in let (a2, s) := rpc_events es s in (a1 ++ a2, s)
  end.

(** ** Properties *)

Definition is_request (e : RpcEvent) : bool := match e with NewRequest _ => true | _ => false end.

(** The first request of the events is cancelled after it. *)
Definition first_request_cancelled (es : list RpcEvent) : Prop :=
  ∃ pre r rest, es = pre ++ NewRequest r :: rest ∧ Forall (λ e, is_request e = false) pre ∧
    Disconnected r ∈ rest.

(** The requests whose clients are still connected, in the order they came. *)
Definition connected (es : list RpcEvent) (rs : list nat) : list nat :=
  filter (λ r, Disconnected r ∉ es) rs.
Fixpoint pending (es : list RpcEvent) : list nat :=
  match es with
  | [] => []
  | NewRequest r :: es => connected es [r] ++ pending es
  | Disconnected _ :: es => pending es
  end.

Lemma connected_disconnect r es ws :
  connected es (List.filter (λ w, negb (Nat.eqb w r)) ws) = connected (Disconnected r :: es) ws.
Proof.
  unfold connected. induction ws as [|w ws IH]; [done|]. cbn [List.filter].
  destruct (Nat.eqb_spec w r) as [->|Hne]; cbn [negb].
  - rewrite filter_cons_False; [done|]. intros Hn. apply Hn. left.
  - assert (Disconnected w ∉ Disconnected r :: es ↔ Disconnected w ∉ es) as Hw.
    { rewrite elem_of_cons. naive_solver. }
    destruct (decide (Disconnected w ∉ es)).
    + rewrite !filter_cons_True by tauto. by f_equal.
    + rewrite !filter_cons_False by tauto. done.
Qed.

Lemma connected_nil ws : connected [] ws = ws.
Proof.
  unfold connected. induction ws as [|w ws IH]; [done|].
  rewrite filter_cons_True by apply not_elem_of_nil. by f_equal.
Qed.

(** A request does not end another. *)
Lemma connected_request r es ws : connected (NewRequest r :: es) ws = connected es ws.
Proof. apply list_filter_iff. intros x. rewrite elem_of_cons. naive_solver. Qed.

Lemma consumed_run es : ∀ s,
  receiver s = Consumed → handle_cell s = None → receiver (rpc_events es s).2 = Consumed.
Proof.
  induction es as [|e es IH]; intros [c rx w] Hr Hc; [done|]. cbn in Hr, Hc. subst.
  destruct e as [r|r]; cbn; specialize (IH (mkRpcExt None Consumed w) eq_refl eq_refl);
    by destruct (rpc_events es _).
Qed.

(** Once a request awaits the receiver, it is gone exactly when that request is cancelled; until then
    nothing is answered and the connected requests wait, in order. *)
Lemma awaited_run r es : ∀ ws,
  let '(early, s) := rpc_events es (mkRpcExt None (AwaitedBy r) ws) in
  if decide (Disconnected r ∈ es) then receiver s = Consumed
  else early = [] ∧ s = mkRpcExt None (AwaitedBy r) (connected es ws ++ pending es).
Proof.
  induction es as [|e es IH]; intros ws.
  - cbn. rewrite decide_False by (by apply not_elem_of_nil). split; [done|]. by rewrite app_nil_r, connected_nil.
  - destruct e as [r'|r']; cbn [rpc_events rpc_event rollup_manager_handle handle_cell receiver waiting].
    + specialize (IH (ws ++ [r'])). destruct (rpc_events es _) as [early s].
      destruct (decide (Disconnected r ∈ es)) as [Hd|Hd].
      { rewrite decide_True by by right. done. }
      rewrite decide_False by (rewrite elem_of_cons; naive_solver).
      destruct IH as [-> ->]. split; [done|]. f_equal. cbn [pending]. rewrite app_assoc. f_equal.
      rewrite connected_request. unfold connected. by rewrite filter_app.
    + unfold cancel_request. cbn [receiver handle_cell waiting]. destruct (Nat.eqb_spec r' r) as [->|Hne].
      { pose proof (consumed_run es (mkRpcExt None Consumed []) eq_refl eq_refl).
        destruct (rpc_events es _). by rewrite decide_True by by left. }
      specialize (IH (List.filter (λ w, negb (Nat.eqb w r')) ws)). destruct (rpc_events es _) as [early s].
      rewrite connected_disconnect in IH.
      destruct (decide (Disconnected r ∈ es)) as [Hd|Hd]; [by rewrite decide_True by by right|].
      rewrite decide_False by (rewrite elem_of_cons; naive_solver). by destruct IH as [-> ->].
Qed.

Lemma no_request_run es s :
  receiver s = InMutex None → Forall (λ e, is_request e = false) es → rpc_events es s = ([], s).
Proof.
  intros Hr Hes. induction Hes as [|e es He _ IH]; [done|]. cbn.
  destruct e as [|r]; [done|]. cbn. unfold cancel_request. rewrite Hr. by rewrite IH.
Qed.

Lemma no_request_pending es : Forall (λ e, is_request e = false) es → pending es = [].
Proof. induction 1 as [|[] es He _ IH]; done. Qed.

Lemma pending_app pre es : Forall (λ e, is_request e = false) pre → pending (pre ++ es) = pending es.
Proof. induction 1 as [|[] es' He _ IH]; done. Qed.

Lemma split_first_request es :
  Forall (λ e, is_request e = false) es ∨
  ∃ pre r rest, es = pre ++ NewRequest r :: rest ∧ Forall (λ e, is_request e = false) pre.
Proof.
  induction es as [|[r|r] es IH]; [by left|right; by exists [], r, es|].
  destruct IH as [Hn|(pre & r' & rest & -> & Hpre)]; [left; by constructor|right].
  exists (Disconnected r :: pre), r', rest. split; [done|by constructor].
Qed.

Lemma rpc_events_app es1 es2 s :
  rpc_events (es1 ++ es2) s =
    let (a1, s) := rpc_events es1 s in let (a2, s) := rpc_events es2 s in (a1 ++ a2, s).
Proof.
  revert s. induction es1 as [|x es IH]; intros s; cbn; [by destruct (rpc_events es2 s)|].
  destruct (rpc_event x s) as [a1 s1]. rewrite IH. destruct (rpc_events es s1) as [a2 s2].
  destruct (rpc_events es2 s2) as [a3 s3]. by rewrite app_assoc.
Qed.

Lemma first_request_unique pre r rest pre' r' rest' :
  pre ++ NewRequest r :: rest = pre' ++ NewRequest r' :: rest' →
  Forall (λ e, is_request e = false) pre → Forall (λ e, is_request e = false) pre' →
  r = r' ∧ rest = rest'.
Proof.
  revert pre'. induction pre as [|e pre IH]; intros [|e' pre'] He Hp Hp'; simplify_eq/=.
  - done.
  - inversion Hp'; subst. done.
  - inversion Hp; subst. done.
  - inversion Hp; inversion Hp'; subst. by eapply IH.
Qed.

(** The state of a start during which a request [r] came first. *)
Lemma first_request_run pre r rest :
  Forall (λ e, is_request e = false) pre →
  let '(early, s) := rpc_events (pre ++ NewRequest r :: rest) RollupNodeRpcExt_new in
  if decide (Disconnected r ∈ rest) then receiver s = Consumed
  else early = [] ∧ s = mkRpcExt None (AwaitedBy r) (pending rest).
Proof.
  intros Hpre. rewrite rpc_events_app, no_request_run by done.
  cbn [rpc_events rpc_event rollup_manager_handle RollupNodeRpcExt_new handle_cell receiver waiting].
  pose proof (awaited_run r rest []) as Hr. by destruct (rpc_events rest _).
Qed.

(** C38: the start of a node that serves RPC fails exactly when the client of the first request that
    came while it was starting has disconnected before it was built: that request had taken the
    receiver of the handle, and with the receiver gone the handle cannot be sent, which the launch
    reports as its own failure.  Otherwise nothing was answered during the start, and the launch
    answers, each once and in the order they came, exactly the requests of the start whose clients
    are still connected, the first one included, with the handle; so is every later request. *)
Theorem launch_rpc_iff a h es :
  basic_enabled a || admin_enabled a = true →
  let '(early, s) := rpc_events es RollupNodeRpcExt_new in
  (is_ok (launch_rpc a h s) = false ↔ first_request_cancelled es) ∧
  (¬ first_request_cancelled es →
   early = [] ∧
   ∃ s', launch_rpc a h s = Ok (map (λ r, (r, inl h)) (pending es), s') ∧
     ∀ r, ∃ s'', rollup_manager_handle r s' = ([(r, inl h)], s'')).
Proof.
  intros Ha. unfold launch_rpc. rewrite Ha.
  destruct (split_first_request es) as [Hn|(pre & r & rest & -> & Hpre)].
  - rewrite no_request_run, no_request_pending by done. cbn. split.
    + split; [done|]. intros (pre & r & rest & -> & _ & _).
      apply Forall_app in Hn as [_ Hn]. by inversion Hn.
    + intros _. split; [done|]. eexists. split; [done|]. intros r. by eexists.
  - pose proof (first_request_run pre r rest Hpre) as Hs. destruct (rpc_events _ _) as [early s].
    assert (first_request_cancelled (pre ++ NewRequest r :: rest) ↔ Disconnected r ∈ rest) as ->.
    { split; [|intros; by exists pre, r, rest]. intros (pre' & r' & rest' & He & Hp' & Hin).
      by destruct (first_request_unique _ _ _ _ _ _ He Hpre Hp') as [-> ->]. }
    unfold send_handle. destruct (decide (Disconnected r ∈ rest)) as [Hd|Hd]; [by rewrite Hs|].
    destruct Hs as [-> ->]. cbn. split; [done|]. intros _. split; [done|]. eexists.
    rewrite pending_app by done. cbn [pending]. unfold connected. rewrite filter_cons_True by done.
    split; [done|]. intros r'. by eexists.
Qed.
End Handle.

(** With the second of three requests gone, the other two are served; with the first gone, the launch
    fails. *)
Lemma launch_rpc_iff_witness :
  (∃ s', launch_rpc (mkRpcArgs true false) 7
           (rpc_events [NewRequest 1; NewRequest 2; NewRequest 3; Disconnected 2] RollupNodeRpcExt_new).2 =
         Ok ([(1%nat, inl 7); (3%nat, inl 7)], s')) ∧
  is_ok (launch_rpc (mkRpcArgs true false) 7
           (rpc_events [NewRequest 1; NewRequest 2; Disconnected 1] RollupNodeRpcExt_new).2) = false.
Proof.
  split.
  - destruct (proj2 (launch_rpc_iff (mkRpcArgs true false) 7
      [NewRequest 1; NewRequest 2; NewRequest 3; Disconnected 2] eq_refl)) as (_ & s' & Hl & _).
    + intros Hc. apply (proj1 (launch_rpc_iff (mkRpcArgs true false) 7
        [NewRequest 1; NewRequest 2; NewRequest 3; Disconnected 2] eq_refl)) in Hc.
      vm_compute in Hc. discriminate Hc.
    + exists s'. exact Hl.
  - apply (proj1 (launch_rpc_iff (mkRpcArgs true false) 7
      [NewRequest 1; NewRequest 2; Disconnected 1] eq_refl)).
    exists [], 1%nat, [NewRequest 2; Disconnected 1]. split_and!; [done|done|]. right. left.
Defined.

(** ** The wire format *)

Section WireProps.
Context `{HashTextOk}.

(** The numbers of a method are [u64]s. *)
Definition key_in_range (k : L1MessageKey) : Prop :=
  match k with
  | QueueIndex n | BlockNumber n | NotIncluded (FinalizedWithBlockDepth n) | NotIncluded (BlockDepth n) => in_u64 n
  | _ => True
  end.
Definition method_in_range (m : RpcMethod) : Prop :=
  match m with
  | RpcGetL1MessageByIndex n | RpcRevertToL1Block n => in_u64 n
  | RpcGetL1MessageByKey k => key_in_range k
  | _ => True
  end.

Lemma as_u64_number n : in_u64 n → as_u64_json (JNumber n) = Some n.
Proof.
  intros [Hl Hu]. unfold as_u64_json. by rewrite (proj2 (Z.leb_le 0 n)), (proj2 (Z.leb_le n u64_max)) by (unfold u64_max; lia).
Qed.

Lemma key_of_key_json k : key_in_range k → key_of_json (key_json k) = Some k.
Proof.
  destruct k as [n|h|h|n|[n|n]]; intros Hk; cbn -[as_u64_json]; rewrite ?as_u64_number by done;
    rewrite ?hash_text_ok; done.
Qed.

(** Every request a client writes for a method is served as that method: names and parameters of the
    two namespaces are unambiguous, and a message key arrives as it was sent. *)
Theorem rpc_request_roundtrip m : method_in_range m → rpc_request (rpc_name m) (rpc_params m) = Some m.
Proof.
  destruct m as [|n|k| | |n]; intros Hm; cbn -[as_u64_json key_of_json key_json]; rewrite ?as_u64_number by done; try done.
  by rewrite key_of_key_json.
Qed.
End WireProps.
