(* ===== verification/NetworkBuilder.v ===== *)
(** * The network builder (crates/node/src/builder/network.rs)

    The transform of the headers downloaded from peers: for the crossover from l2geth, whose headers
    carry the block's signature in [extra_data], it strips that field and looks at the signature for
    the log only.  And the choice of whether the transform is installed. *)

From S2P Require Import Prelude Primitives BigEndian Engine Signing Migration Orchestrator Network NetworkProps Config.

(** Why a signature was not verified. *)
Inductive HeaderTransformError :=
| InvalidSignature
| InvalidSigner (signer : Address)
| RecoveryFailed.

Record ScrollHeaderTransform := mkHeaderTransform { transform_signer : option Address }.

(** [resolve_header_transform]. *)
Definition resolve_header_transform (legacy_enabled : bool) (chain : option NamedChain)
  (authorized_signer : option Address) : outcome string (option ScrollHeaderTransform) :=
  if negb legacy_enabled then Ok None
  else match chain with
       | Some Scroll =>
           Err "network.legacy-geth-header-transform must not be enabled on DogeOS Mainnet"%string
       | _ => Ok (Some (mkHeaderTransform authorized_signer))
       end.

(** The configuration of the builder and the transform [build_network] installs. *)
Record ScrollNetworkBuilder := mkNetworkBuilder {
  builder_signer : option Address;
  builder_legacy_transform : bool
}.

Definition network_builder_of (args : RollupNodeNetworkArgs) : ScrollNetworkBuilder :=
  mkNetworkBuilder (signer_address_arg args) (legacy_geth_header_transform args).

Definition build_network_transform (chain : option NamedChain) (b : ScrollNetworkBuilder) :
  outcome string (option ScrollHeaderTransform) :=
  let authorized_signer := match builder_signer b with
                           | None => default_authorized_signer chain
                           | Some signer => Some signer
                           end in
  resolve_header_transform (builder_legacy_transform b) chain authorized_signer.

Section Transform.
Context `{Chain} `{Rlp} `{SignerRecovery} `{SignatureBytes} `{!WireCodec}.

(** [parse_65b_signature]. *)
Definition parse_65b_signature (bytes : Bytes) : Signature + HeaderTransformError :=
  if negb (Nat.eqb (length bytes) 65) then inr InvalidSignature
  else match from_raw bytes with Some signature => inl signature | None => inr InvalidSignature end.

(** [header_to_alloy]: the header type is alloy's own, whose fields are copied. *)
Definition header_to_alloy (h : Header) : Header :=
  {| parent_hash := parent_hash h; ommers_hash := ommers_hash h; beneficiary := beneficiary h;
     state_root := state_root h; transactions_root := transactions_root h;
     receipts_root := receipts_root h; logs_bloom := logs_bloom h; difficulty := difficulty h;
     h_number := h_number h; gas_limit := gas_limit h; gas_used := gas_used h;
     timestamp := timestamp h; extra_data := extra_data h;
     mix_hash := default 0 (mix_hash_opt h); nonce := default 0 (nonce_opt h);
     base_fee_per_gas := base_fee_per_gas h |}.

Definition recover_and_verify_signer (signature : Signature) (header : Header)
  (authorized_signer : option Address) : Address + HeaderTransformError :=
  match recover_signer signature (sig_encode_hash (header_to_alloy header)) with
  | Ok signer =>
      if bool_decide (Some signer = authorized_signer) then inl signer else inr (InvalidSigner signer)
  | _ => inr RecoveryFailed
  end.

(** [std::mem::take(&mut header.extra_data)]. *)
Definition strip_extra_data (h : Header) : Header := header (with_extra_data [] (mkBlock h [])).

(** One header: what it becomes, and what is logged about its signature. *)
Definition transform_header (signer : option Address) (h : Header) :
  Header * option HeaderTransformError :=
  let canonical := strip_extra_data h in
  match parse_65b_signature (extra_data h) with
  | inr e => (canonical, Some e)
  | inl signature =>
      match recover_and_verify_signer signature canonical signer with
      | inr e => (canonical, Some e)
      | inl _ => (canonical, None)
      end
  end.

(** [HeaderTransform::map]. *)
Definition transform_headers (t : ScrollHeaderTransform) (headers : list Header) : list Header :=
  map (λ h, (transform_header (transform_signer t) h).1) headers.

(** ** Properties *)

Lemma transform_header_strips signer h : (transform_header signer h).1 = strip_extra_data h.
Proof. unfold transform_header. repeat case_match; done. Qed.

Lemma header_to_alloy_id h : header_to_alloy h = h.
Proof. by destruct h. Qed.

Context `{!WireLaws}.

(** The downloaded headers are the sequenced ones.  For blocks sequenced with an empty
    [extra_data] whose headers peers serve with any signatures in it, the transform gives back
    exactly the sequenced headers, in order and none dropped, whoever the configured signer is; a
    signature is reported as good exactly when its signer is the configured one. *)
Theorem headers_canonicalized t (headers : list Header) (served : list Header) :
  Forall2 (λ h s, extra_data h = [] ∧ ∃ extra, s = header (with_extra_data extra (mkBlock h [])))
    headers served →
  transform_headers t served = headers ∧
  ∀ h signature, extra_data h = [] →
    (transform_header (transform_signer t)
       (header (with_extra_data (sig_as_bytes signature) (mkBlock h [])))).2 = None ↔
    ∃ signer, recover_signer signature (sig_encode_hash h) = Ok signer ∧
              transform_signer t = Some signer.
Proof.
  intros Hall. split.
  - unfold transform_headers. induction Hall as [|h s hs ss [He [extra ->]] _ IH]; [done|].
    cbn [map]. rewrite transform_header_strips, IH. f_equal.
    change (header (with_extra_data [] (with_extra_data extra (mkBlock h []))) = h).
    by rewrite with_extra_data_cleared.
  - intros h signature He. unfold transform_header, parse_65b_signature.
    change (extra_data (header (with_extra_data (sig_as_bytes signature) (mkBlock h []))))
      with (sig_as_bytes signature).
    pose proof (signature_length signature) as Hl. unfold ECDSA_SIGNATURE_LEN in Hl.
    rewrite Hl, from_raw_law. cbn [Nat.eqb negb].
    assert (strip_extra_data (header (with_extra_data (sig_as_bytes signature) (mkBlock h []))) = h) as ->.
    { change (header (with_extra_data [] (with_extra_data (sig_as_bytes signature) (mkBlock h []))) = h).
      by rewrite with_extra_data_cleared. }
    unfold recover_and_verify_signer. rewrite header_to_alloy_id.
    destruct (recover_signer signature (sig_encode_hash h)) as [signer|e|]; cbn.
    + case_bool_decide; naive_solver.
    + naive_solver.
    + naive_solver.
Qed.

(** Mainnet never runs the transform: there an enabled transform refuses the start, and by
    default none is installed on any chain. *)
Theorem transform_gated chain args t :
  build_network_transform chain (network_builder_of args) = Ok (Some t) →
  chain ≠ Some Scroll ∧ legacy_geth_header_transform args = true ∧
  transform_signer t = effective_signer chain args.
Proof.
  unfold build_network_transform, resolve_header_transform, network_builder_of, effective_signer. cbn.
  destruct (legacy_geth_header_transform args); cbn; [|done].
  destruct chain as [[]|]; intros; simplify_eq; by destruct (signer_address_arg args).
Qed.
End Transform.
