(* ===== verification/Startup.v ===== *)
(** * The start of the node (crates/node/src/args.rs, node.rs)

    [ScrollRollupNodeConfig::build] and the checks before it: the migrations, the reconciliation of
    the genesis, the fork choice read from the execution client, the search for the L2 head both the
    database and the client have, and the components it wires together.  The state is the database
    with its migrations, the execution client and the L1 node. *)

From S2P Require Import Prelude Sql Primitives Watcher Engine DbModel DbOps World Signing Sequencer.
From S2P Require Import Consolidation Driver Migration Orchestrator Network BlobSources Config.

(** Reading the block of a tag; the tagged blocks are read without their transactions. *)
Inductive BlockTag := TagLatest | TagSafe | TagFinalized.
Class TaggedBlocks (W : Type) := get_block_by_tag : BlockTag → W → outcome string (option BlockInfo) * W.

Inductive BuildError :=
| BuildReport (msg : string)
| BuildDatabase (e : DatabaseError)
| BuildFcs (e : FcsError)
| BuildStillRunning.

(** The database file with the number of migrations already applied, the execution client and L1. *)
Record World (W V : Type) := mkWorld {
  rows : Migrated;
  applied : nat;
  l2 : W;
  l1 : V
}.
Arguments mkWorld {W V} _ _ _ _.
Arguments rows {W V} _.
Arguments applied {W V} _.
Arguments l2 {W V} _.
Arguments l1 {W V} _.

Definition set_tables (d : Db) (m : Migrated) : Migrated := mkMigrated d (block_data_table m).

Section Genesis.
(** The genesis hashes of [dogeos_chainspec]. *)
Variables DOGEOS_MAINNET_GENESIS_HASH DOGEOS_CHIKYU_GENESIS_HASH : B256.

(** [genesis_hash_from_chain_spec] (engine/src/fcs.rs). *)
Definition genesis_hash_from_chain_spec (spec : ChainSpec) : option B256 :=
  match named spec with
  | Some Scroll => Some DOGEOS_MAINNET_GENESIS_HASH
  | Some ScrollSepolia => Some DOGEOS_CHIKYU_GENESIS_HASH
  | Some Dev | None => Some (spec_genesis_hash spec)
  | Some OtherChain => None
  end.

Definition head_from_chain_spec (spec : ChainSpec) : option ForkchoiceState :=
  from_genesis <$> genesis_hash_from_chain_spec spec.

(** The genesis the node reconciles with, and the one its migration seeded. *)
Definition node_genesis_hash (spec : ChainSpec) : B256 :=
  default (spec_genesis_hash spec) (genesis_hash_from_chain_spec spec).

Definition seeded_genesis (spec : ChainSpec) : B256 :=
  match named spec with
  | Some Scroll => @genesis_hash (ScrollMainnetMigrationInfo DOGEOS_MAINNET_GENESIS_HASH)
  | Some ScrollSepolia => @genesis_hash (ScrollSepoliaMigrationInfo DOGEOS_CHIKYU_GENESIS_HASH)
  | _ => @genesis_hash ScrollDevMigrationInfo
  end.
End Genesis.

Section Startup.
Context `{SqlEngine} `{Chain} `{!HttpClient} `{Timers} `{Rlp} `{SignerRecovery} `{SignatureBytes}
  `{LruCache} `{!WireCodec} `{!Kzg} `{!BlobCache} `{!BlobServices} `{!SignerBackends}
  `{!EngineApi W} `{!L2Provider W} `{!TaggedBlocks W} `{!L1Node V} `{Allocation}.
Variable parse_address : string → option Address.
Variables DOGEOS_MAINNET_GENESIS_HASH DOGEOS_CHIKYU_GENESIS_HASH : B256.
(** The sample of the test mode, how SQL text is run, and the random key of the test mode. *)
Variable mainnet_sample : string.
Variable execute_unprepared : string → M (list BlockDataModel) string unit.
Variable random_key : Address.
(** Whether the [test-utils] feature is compiled in. *)
Variable test_utils : bool.

Notation St := (M (World W V) BuildError).

Definition on_rows {A} (m : M Migrated string A) : St A :=
  map_err BuildReport (zoom rows (λ r s, mkWorld r (applied s) (l2 s) (l1 s)) m).
Definition on_db {A} (f : DatabaseError → BuildError) (m : DB A) : St A :=
  zoom (λ s, tables (rows s))
    (λ d s, mkWorld (set_tables d (rows s)) (applied s) (l2 s) (l1 s)) (map_err f (tx_mut m)).
Definition on_l2 {A} (m : W → outcome string A * W) : St A :=
  map_err BuildReport (zoom l2 (λ w s, mkWorld (rows s) (applied s) w (l1 s)) m).
Definition on_l1 {E A} (f : E → BuildError) (m : V → outcome E A * V) : St A :=
  map_err f (zoom l1 (λ v s, mkWorld (rows s) (applied s) (l2 s) v) m).

(** [.expect(..)]: an error stops the node. *)
Definition or_panic {A} (m : St A) : St A := λ s,
  match m s with
  | (Err _, s) => (Panic, s)
  | r => r
  end.

(** ** Migrations and genesis *)

(** [MigratorTrait::up]: the migrations that are not applied yet, in order. *)
Definition migrate_up (MI : MigrationInfo) : St unit :=
  let* s := get in
  on_rows (foldr (λ m rest, m ;;; rest) (ret tt)
             (drop (applied s) (migrations execute_unprepared MI))) ;;;
  modify (λ s', mkWorld (rows s') (Nat.max (applied s) (length (migrations execute_unprepared MI)))
                  (l2 s') (l1 s')).

Definition migrate_node (spec : ChainSpec) (test : bool) : St unit :=
  or_panic
    match named spec with
    | Some chain =>
        let* MI := lift (omap_err BuildReport
                     (migration_info DOGEOS_MAINNET_GENESIS_HASH DOGEOS_CHIKYU_GENESIS_HASH
                        mainnet_sample chain test)) in
        migrate_up MI
    | None => migrate_up ScrollDevMigrationInfo
    end.

Definition reconcile_node_genesis (spec : ChainSpec) : St Z :=
  on_db BuildDatabase
    (reconcile_genesis_block
       (node_genesis_hash DOGEOS_MAINNET_GENESIS_HASH DOGEOS_CHIKYU_GENESIS_HASH spec)
       (seeded_genesis DOGEOS_MAINNET_GENESIS_HASH DOGEOS_CHIKYU_GENESIS_HASH spec)).

(** ** The fork choice state *)

(** A read that fails or finds nothing: [.await.ok()??]. *)
Definition tagged (t : BlockTag) : St (option BlockInfo) :=
  let* r := try (on_l2 (get_block_by_tag t)) in
  ret match r with inl b => b | inr _ => None end.

(** [ForkchoiceState::from_provider]: it stops at the first block it misses. *)
Definition fcs_from_provider : St (option ForkchoiceState) :=
  let* latest := tagged TagLatest in
  match latest with
  | None => ret None
  | Some _ =>
      let* safe := tagged TagSafe in
      match safe with
      | None => ret None
      | Some _ =>
          let* finalized := tagged TagFinalized in
          ret (from_provider latest safe finalized)
      end
  end.

Definition startup_fcs (spec : ChainSpec) : St ForkchoiceState :=
  let* provided := fcs_from_provider in
  match provided with
  | Some f => ret f
  | None => lift (expect (head_from_chain_spec DOGEOS_MAINNET_GENESIS_HASH
                            DOGEOS_CHIKYU_GENESIS_HASH spec))
  end.

(** The search for the highest block the execution client has at or below the stored head, while
    above the finalized block; every turn lowers the number, so its value bounds the turns. *)
Fixpoint find_l2_head (turns : nat) (l2_head_block_number finalized_block_number : Z)
  (fcs : ForkchoiceState) : St ForkchoiceState :=
  match turns with
  | O => ret fcs
  | S turns =>
      if finalized_block_number <? l2_head_block_number then
        let* block := on_l2 (get_block_by_number l2_head_block_number) in
        match block with
        | Some b =>
            let* fcs := lift (omap_err BuildFcs
                          (update_head_block_info (BlockInfo_from_header (header (rpc_block b))) fcs)) in
            on_db BuildDatabase
              (set_l2_head_block_number l2_head_block_number ;;;
               purge_l1_message_to_l2_block_mappings (Some (wrapping_add l2_head_block_number 1))) ;;;
            ret fcs
        | None => find_l2_head turns (l2_head_block_number - 1) finalized_block_number fcs
        end
      else ret fcs
  end.

(** The database and the execution client brought to the same head. *)
Definition restore_chain (spec : ChainSpec) (test : bool) :
  St (ForkchoiceState * L1BlockStartupInfo) :=
  migrate_node spec test ;;;
  reconcile_node_genesis spec ;;;
  let* fcs := startup_fcs spec in
  let* (info, l2_head) := on_db BuildDatabase
    (let* info := prepare_l1_watcher_start_info in
     let* l2_head := get_l2_head_block_number in
     ret (info, l2_head)) in
  let* fcs := find_l2_head (Z.to_nat l2_head) l2_head (number (fcs_finalized fcs)) fcs in
  ret (fcs, info).

(** ** The components *)

Record Built := mkBuilt {
  orchestrator : Orchestrator W;
  orchestrator_config : ChainOrchestratorConfig;
  watcher : option (L1Watcher V);
  network_manager : ScrollNetworkManager;
  listens_to_eth_wire : bool;
  l1_provider : FullL1Provider unit
}.

(** The authorized signer of L1, when an L1 node is configured, and the consensus. *)
Definition build_consensus (c : ScrollRollupNodeConfig) (node_config : NodeConfig) : St Consensus :=
  let* authorized_signer :=
    match l1_url (l1_provider_args c) with
    | Some _ =>
        let* a := on_l1 BuildReport
                    (l1_authorized_signer (system_contract_address (address_book node_config))) in
        ret (Some a)
    | None => ret None
    end in
  lift (omap_err BuildReport (ConsensusArgs_consensus authorized_signer (consensus_args c))).

Definition spawns_watcher (c : ScrollRollupNodeConfig) : bool :=
  is_some (l1_url (l1_provider_args c)) &&
  (negb (test (test_args c)) || is_some (anvil_url (blob_provider_args c))).

(** The watcher; [Some None] is the handle the tests inject. *)
Definition build_watcher (fuel : nat) (c : ScrollRollupNodeConfig) (node_config : NodeConfig)
  (info : L1BlockStartupInfo) : St (option (option (L1Watcher V))) :=
  if spawns_watcher c then
    let* w := on_l1 (λ _ : StepFailure, BuildStillRunning)
                (spawn fuel info node_config (logs_query_block_range (l1_provider_args c))) in
    ret (Some (Some w))
  else if test_utils then ret (Some None) else ret None.

Definition blob_builder (a : BlobProviderArgs) : BlobProvidersBuilder :=
  mkBlobBuilder (beacon_node_urls a) (s3_url a) (anvil_url a) (blob_mock a).

Definition sequencer_config (c : ScrollRollupNodeConfig) (spec : ChainSpec) (block_gas_limit : Z) :
  SequencerConfig :=
  let args := sequencer_args c in
  mkSequencerConfig (fee_recipient_arg args) (auto_start_arg args)
    (mkPayloadBuilding block_gas_limit
       (default (num_l1_messages_per_block (l1_config spec)) (max_l1_messages args))
       (l1_message_inclusion_mode_arg args))
    (block_time_arg args) (payload_building_duration_arg args) (allow_empty_blocks_arg args).

Definition build_sequencer (c : ScrollRollupNodeConfig) (spec : ChainSpec) (block_gas_limit now : Z) :
  St (option Sequencer) :=
  if sequencer_enabled (sequencer_args c) then
    let* s := lift (Sequencer_new (sequencer_config c spec block_gas_limit) now) in ret (Some s)
  else ret None.

Definition build_signer (c : ScrollRollupNodeConfig) (spec : ChainSpec) : St (option SignerHandle) :=
  let* configured := lift (omap_err BuildReport (SignerArgs_signer (chain_id spec) (signer_args c))) in
  ret match configured with
      | Some s => Some (mkSignerHandle (configured_address s) true)
      | None => if test (test_args c) then Some (mkSignerHandle random_key true) else None
      end.

(** [ChainOrchestrator::new]. *)
Definition ChainOrchestrator_new (fcs : ForkchoiceState) (w : W) (d : Db) (consensus : Consensus)
  (sequencer : option Sequencer) (signer : option SignerHandle) : Orchestrator W :=
  mkOrchestrator (mkEnv (mkEngine fcs w) d) SyncState_default consensus sequencer signer
    (mkPipelineHandle 0 []) DerivationDriver_default None false [].

(** [ScrollRollupNodeConfig::build]; [fuel] bounds the walk of the watcher's start, [now] is the time
    and [calls] the number of requests the blob services have answered. *)
Definition build (fuel : nat) (now : Z) (calls : nat) (block_gas_limit : Z) (spec : ChainSpec)
  (c : ScrollRollupNodeConfig) : St Built :=
  let* node_config := lift (omap_err BuildReport (from_chainspec parse_address spec)) in
  let* (fcs, info) := restore_chain spec (test (test_args c)) in
  let manager := NetworkManager_from_parts (td_constant_of (named spec))
                   (effective_signer (named spec) (network_args c)) in
  let* consensus := build_consensus c node_config in
  let* watcher := build_watcher fuel c node_config info in
  let* blob_provider :=
    or_panic (lift (omap_err BuildReport
      (build_blob_providers (blob_builder (blob_provider_args c)) calls))) in
  let* sequencer := build_sequencer c spec block_gas_limit now in
  let* signer := build_signer c spec in
  let start_index := l1_v2_message_queue_start_index_of (named spec) in
  let* watcher := lift (expect watcher) in
  let* s := get in
  ret (mkBuilt
         (ChainOrchestrator_new fcs (l2 s) (tables (rows s)) consensus sequencer signer)
         (mkOrchestratorConfig (optimistic_sync_trigger (chain_orchestrator_args c)) start_index)
         watcher manager (enable_eth_scroll_wire_bridge (network_args c))
         (mkFullL1Provider blob_provider tt)).

(** [ScrollRollupNode::new] and the launch of the add-ons: the configuration is validated first. *)
Definition start_node (fuel : nat) (now : Z) (calls : nat) (block_gas_limit : Z) (spec : ChainSpec)
  (c : ScrollRollupNodeConfig) : St Built :=
  or_panic (lift (omap_err BuildReport (validate c))) ;;;
  build fuel now calls block_gas_limit spec c.

End Startup.
