(* ===== verification/RemoteSource.v ===== *)
(** * The remote block source (crates/node/src/add_ons/remote_block_source.rs)

    The add-on follows a trusted L2 node: it finds the highest block it shares with the remote,
    imports the remote's blocks one by one through the orchestrator, and has a block built on each
    imported one.  The remote node, the local block reader and the orchestrator behind its handle
    are an environment: any state [W] with the answers of each call.  The loops take fuel; running
    out of it is the error [StillRunning]. *)

From S2P Require Import Prelude Sql Primitives Engine DbModel World Consolidation Driver Orchestrator.

(** An [eyre::Report], or a loop that has not ended yet. *)
Inductive RemoteError := Report (msg : string) | StillRunning.

(** The RPC endpoint of the remote. *)
Class RemoteNode `{Chain} (W : Type) := {
  remote_block_number : M W string Z;
  remote_latest : M W string (option RpcBlock);
  remote_block : Z → M W string (option RpcBlock)
}.

(** [BlockReader::block_hash] of the local node. *)
Class BlockReader (W : Type) := { local_block_hash : Z → M W string (option B256) }.

(** What the event stream of the orchestrator brings next. *)
Inductive StreamPoll `{Chain} := Item (e : ChainOrchestratorEvent) | Ended | Pending.

(** The other end of the orchestrator's handle: what happens when a command is sent, with the reply
    on its channel ([None] when the channel is closed), and what the event stream brings next. *)
Class OrchestratorHandle `{Chain} (W : Type) := {
  submit : ChainOrchestratorCommand → W → option Reply * W;
  next_event : W → StreamPoll * W
}.

Record RemoteBlockSource (W : Type) := mkRemoteSource {
  rs_build : bool;
  last_imported_block : option Z;
  world : W
}.
Arguments mkRemoteSource {W} _ _ _.
Arguments rs_build {W} _.
Arguments last_imported_block {W} _.
Arguments world {W} _.

Section Source.
Context `{Chain} {W : Type} `{!RemoteNode W} `{!BlockReader W} `{!OrchestratorHandle W}.

Notation Rs := (M (RemoteBlockSource W) RemoteError).

Definition set_last_imported (n : option Z) (s : RemoteBlockSource W) :=
  mkRemoteSource (rs_build s) n (world s).
Definition set_world (w : W) (s : RemoteBlockSource W) :=
  mkRemoteSource (rs_build s) (last_imported_block s) w.

Definition in_world {A} (m : M W string A) : Rs A := map_err Report (zoom world (λ w s, set_world w s) m).

(** [ChainOrchestratorHandle::send_command] and the calls that wait for its reply. *)
Definition send_command (c : ChainOrchestratorCommand) : Rs (option Reply) :=
  λ s, let (r, w) := submit c (world s) in (Ok r, set_world w s).

Definition handle_status : Rs ChainOrchestratorStatus :=
  let* r := send_command Status in
  match r with Some (StatusReply s) => ret s | _ => fail (Report "channel closed") end.

Definition handle_import_block (b : NewBlockWithPeer) : Rs (ChainImport + ChainOrchestratorError) :=
  let* r := send_command (ImportBlock b) in
  match r with
  | Some (ImportReply r) => ret r
  | _ => fail (Report "chain orchestrator command channel error: channel closed")
  end.

Definition handle_build_block : Rs unit := let* _ := send_command BuildBlock in ret tt.

(** The loop of [init_last_imported_block]: at most one turn per block number. *)
Fixpoint highest_common (fuel : nat) (search : Z) : Rs Z :=
  if search =? 0 then ret 0
  else
    match fuel with
    | O => fail StillRunning
    | S fuel =>
        let* local_hash := in_world (local_block_hash search) in
        let* remote := in_world (remote_block search) in
        match local_hash, remote with
        | Some lh, Some rb =>
            if lh =? rpc_hash rb then ret search
            else highest_common fuel (saturating_sub search 1)
        | _, _ => highest_common fuel (saturating_sub search 1)
        end
    end.

Definition init_last_imported_block : Rs Z :=
  let* st := handle_status in
  let local_head := number (fcs_head (st_l2_fcs st)) in
  let* remote_head := in_world remote_block_number in
  let search := Z.min local_head remote_head in
  highest_common (Z.to_nat search) search.

Definition ends_wait (e : ChainOrchestratorEvent) : bool :=
  match e with BlockSequenced _ | BlockBuildingSkipped => true | _ => false end.

(** The loop that waits for the built block; [Pending] is an event that never comes. *)
Fixpoint wait_for_build (fuel : nat) : Rs unit :=
  match fuel with
  | O => fail StillRunning
  | S fuel =>
      let* event := λ s, let (e, w) := next_event (world s) in (Ok e, set_world w s) in
      match event with
      | Item e => if ends_wait e then ret tt else wait_for_build fuel
      | Ended => fail (Report "Event stream ended unexpectedly")
      | Pending => fail StillRunning
      end
  end.

(** The default peer and the zero signature of a trusted block. *)
Definition trusted_block (block : DogeosBlock) : NewBlockWithPeer := mkNewBlock 0 block 0.

Definition ok_or_report {A} (msg : string) (o : option A) : Rs A := lift (ok_or (Report msg) o).

(** One turn of the loop of [follow_and_build]: [true] when it goes on. *)
Definition follow_step (fuel : nat) : Rs bool :=
  let* s := get in
  let* last_imported := lift (expect (last_imported_block s)) in
  let* latest := in_world remote_latest in
  let* latest := ok_or_report "Remote block not found" latest in
  let remote_head := block_number (rpc_block latest) in
  if remote_head <=? last_imported then ret false
  else
    let next_block_num := wrapping_add last_imported 1 in
    let* block := in_world (remote_block next_block_num) in
    let* block := ok_or_report "Block not found" block in
    let* imported := handle_import_block (trusted_block (rpc_block block)) in
    match imported with
    | inr _ => fail (Report "Import block failed")
    | inl chain_import =>
        modify (set_last_imported (Some next_block_num)) ;;;
        if negb (fcu_is_valid (ci_result chain_import)) then ret true
        else if negb (rs_build s) then ret true
        else
          let* st := handle_status in
          if negb (status_is_synced st) then ret true
          else handle_build_block ;;; wait_for_build fuel ;;; ret true
    end.

Fixpoint follow_loop (fuel : nat) : Rs unit :=
  match fuel with
  | O => fail StillRunning
  | S fuel => let* more := follow_step fuel in if more then follow_loop fuel else ret tt
  end.

Definition follow_and_build (fuel : nat) : Rs unit :=
  let* last := gets last_imported_block in
  match last with
  | Some _ => ret tt
  | None =>
      let* resume := init_last_imported_block in modify (set_last_imported (Some resume))
  end ;;;
  follow_loop fuel.

(** [run_until_shutdown]: each tick of the interval polls once; an error is logged and the next tick
    retries.  A poll that has not ended keeps the source busy. *)
Definition poll_tick (fuel : nat) : M (RemoteBlockSource W) RemoteError unit :=
  let* r := try (follow_and_build fuel) in
  match r with
  | inl _ | inr (Report _) => ret tt
  | inr StillRunning => fail StillRunning
  end.

(** [RemoteBlockSourceAddOn::new]: no remote I/O, only the event stream is asked for. *)
Definition RemoteBlockSource_new (url_configured build : bool) :
    W → outcome RemoteError (RemoteBlockSource W) * W := λ w,
  if negb url_configured then (Err (Report "URL required when remote-source is enabled"), w)
  else
    match submit EventListener w with
    | (Some ListenerReply, w) => (Ok (mkRemoteSource build None w), w)
    | (_, w) => (Err (Report "channel closed"), w)
    end.
End Source.
