(* ===== verification/RemoteProps.v ===== *)
(** * Properties of the remote block source

    Where it resumes, the order in which it imports, and that it catches up with a cooperative
    remote and node. *)

From S2P Require Import Prelude Sql Primitives Engine DbModel World Consolidation Driver Orchestrator.
From S2P Require Import RemoteSource.

(** ** Specifications *)

(** The local node and the remote hold the same block at [n]; they share the genesis. *)
Definition common `{Chain} (L : Z → option B256) (R : Z → option RpcBlock) (n : Z) : Prop :=
  n = 0 ∨ ∃ b, R n = Some b ∧ L n = Some (rpc_hash b).

(** What the source exchanges: the blocks the remote serves, the commands sent to the node with their
    replies, and what its event stream brings. *)
Inductive Exchange `{Chain} :=
| Served (n : Z) (answer : outcome string (option RpcBlock))
| Sent (c : ChainOrchestratorCommand) (reply : option Reply)
| Received (e : StreamPoll).

(** An environment that also records what is exchanged with it. *)
Record Logged `{Chain} (W : Type) := mkLogged { logged_world : W; log : list Exchange }.
Arguments mkLogged {_ W} _ _.
Arguments logged_world {_ W} _.
Arguments log {_ W} _.

Definition lift_log `{Chain} {W A} (m : M W string A) : M (Logged W) string A :=
  zoom logged_world (λ w l, mkLogged w (log l)) m.

#[global] Instance logged_remote `{Chain} {W} `{!RemoteNode W} : RemoteNode (Logged W) := {|
  remote_block_number := lift_log remote_block_number;
  remote_latest := lift_log remote_latest;
  remote_block n l :=
    let (o, w) := remote_block n (logged_world l) in (o, mkLogged w (log l ++ [Served n o]))
|}.
#[global] Instance logged_reader `{Chain} {W} `{!BlockReader W} : BlockReader (Logged W) :=
  {| local_block_hash n := lift_log (local_block_hash n) |}.
#[global] Instance logged_handle `{Chain} {W} `{!OrchestratorHandle W} : OrchestratorHandle (Logged W) := {|
  submit c l := let (r, w) := submit c (logged_world l) in (r, mkLogged w (log l ++ [Sent c r]));
  next_event l := let (e, w) := next_event (logged_world l) in (e, mkLogged w (log l ++ [Received e]))
|}.

(** The steps of a poll: a block handed over for import, accepted or not, a build asked for, and the
    event that ends the wait for it. *)
Inductive Step := Accepted (m : Z) | Refused (m : Z) | BuildAsked | BuildEnded.

Definition step_of `{Chain} (x : Exchange) : option Step :=
  match x with
  | Sent (ImportBlock b) (Some (ImportReply (inl _))) => Some (Accepted (block_number (nb_block b)))
  | Sent (ImportBlock b) _ => Some (Refused (block_number (nb_block b)))
  | Sent BuildBlock _ => Some BuildAsked
  | Received (Item e) => if ends_wait e then Some BuildEnded else None
  | _ => None
  end.
Definition steps `{Chain} (l : list Exchange) : list Step := omap step_of l.

Definition is_submission (x : Step) : bool :=
  match x with Accepted _ | Refused _ => true | BuildAsked | BuildEnded => false end.
Definition submissions `{Chain} (l : list Exchange) : list Step := List.filter is_submission (steps l).

(** Every block handed over is the one the remote has just served for its number. *)
Definition as_served `{Chain} (l : list Exchange) : Prop :=
  ∀ i b r, l !! i = Some (Sent (ImportBlock b) r) →
  ∃ k rb, i = S k ∧ l !! k = Some (Served (block_number (nb_block b)) (Ok (Some rb))) ∧
          b = trusted_block (rpc_block rb).

Section Props.
Context `{Chain} {W : Type} `{!RemoteNode W} `{!BlockReader W} `{!OrchestratorHandle W}.

(** A remote that answers with the block it was asked for. *)
Record honest_remote : Prop := {
  honest_block n w b w' : remote_block n w = (Ok (Some b), w') → block_number (rpc_block b) = n;
  honest_latest w b w' : remote_latest w = (Ok (Some b), w') → in_u64 (block_number (rpc_block b))
}.

(** A remote at the height [h], and a node that imports what it is given and reports every build. *)
Record cooperative (h : Z) : Prop := {
  co_latest w : ∃ b w', remote_latest w = (Ok (Some b), w') ∧ block_number (rpc_block b) = h;
  co_block n w : n <= h → ∃ b w', remote_block n w = (Ok (Some b), w') ∧ block_number (rpc_block b) = n;
  co_import b w : ∃ i w', submit (ImportBlock b) w = (Some (ImportReply (inl i)), w') ∧
    fcu_is_valid (ci_result i) = true;
  co_status w : ∃ st w', submit Status w = (Some (StatusReply st), w') ∧ status_is_synced st = true;
  co_event w : ∃ e w', next_event w = (Item e, w') ∧ ends_wait e = true
}.

(** ** Where it resumes *)

Section Resume.
Variable L : Z → option B256.
Variable R : Z → option RpcBlock.
Hypothesis local_reads : ∀ n w, ∃ w', local_block_hash n w = (Ok (L n), w').
Hypothesis remote_reads : ∀ n w, ∃ w', remote_block n w = (Ok (R n), w').

Lemma in_world_Ok {A} (m : M W string A) (s : RemoteBlockSource W) a w' :
  m (world s) = (Ok a, w') → in_world m s = (Ok a, set_world w' s).
Proof. unfold in_world, map_err, zoom. by intros ->. Qed.

Lemma highest_common_spec fuel : ∀ search (s : RemoteBlockSource W),
  0 <= search <= Z.of_nat fuel →
  ∃ n s', highest_common fuel search s = (Ok n, s') ∧
    0 <= n <= search ∧ common L R n ∧ ∀ m, n < m <= search → ¬ common L R m.
Proof.
  induction fuel as [|fuel IH]; intros search s Hs; cbn [highest_common].
  - assert (search = 0) as -> by lia. exists 0, s. split_and!; try done; [by left|lia].
  - destruct (Z.eqb_spec search 0) as [->|Hne].
    { exists 0, s. split_and!; try done; [by left|lia]. }
    destruct (local_reads search (world s)) as [w1 H1].
    rewrite (bind_step _ _ _ _ _ (in_world_Ok _ _ _ _ H1)).
    destruct (remote_reads search (world (set_world w1 s))) as [w2 H2].
    rewrite (bind_step _ _ _ _ _ (in_world_Ok _ _ _ _ H2)).
    assert (common L R search ∨ ¬ common L R search) as Hdec.
    { unfold common. destruct (R search) as [b|]; [|right; intros [?|(?&?&?)]; done].
      destruct (decide (L search = Some (rpc_hash b))); [left; eauto|].
      right. intros [?|(b'&?&?)]; [done|simplify_eq]. }
    assert (¬ common L R search → ∃ n s',
      highest_common fuel (saturating_sub search 1) (set_world w2 (set_world w1 s)) = (Ok n, s') ∧
      0 <= n <= search ∧ common L R n ∧ ∀ m, n < m <= search → ¬ common L R m) as Hdown.
    { intros Hno. assert (saturating_sub search 1 = search - 1) as -> by (unfold saturating_sub; lia).
      destruct (IH (search - 1) (set_world w2 (set_world w1 s))) as (n & s' & Hrun & Hn & Hc & Hm); [lia|].
      exists n, s'. split_and!; [done|lia|lia|done|].
      intros m Hm'. destruct (decide (m = search)) as [->|]; [done|]. apply Hm. lia. }
    destruct (L search) as [lh|] eqn:EL; [destruct (R search) as [rb|] eqn:ER|].
    2,3: apply Hdown; intros [?|(b & Hb & Hl)]; congruence.
    destruct (Z.eqb_spec lh (rpc_hash rb)) as [->|Hdiff].
    + exists search, (set_world w2 (set_world w1 s)).
      split_and!; [done|lia|lia|right; eauto|lia].
    + apply Hdown. intros [?|(b & Hb & Hl)]; congruence.
Qed.

(** the source resumes at the highest block the local chain and the remote share: after one
    search that always ends, every block above it up to both heads differs, and nothing is imported
    below it. *)
Theorem resumes_at_highest_common (s : RemoteBlockSource W) st remote_head w1 w2 :
  submit Status (world s) = (Some (StatusReply st), w1) →
  remote_block_number w1 = (Ok remote_head, w2) →
  0 <= number (fcs_head (st_l2_fcs st)) → 0 <= remote_head →
  ∃ n s', init_last_imported_block s = (Ok n, s') ∧
    0 <= n <= Z.min (number (fcs_head (st_l2_fcs st))) remote_head ∧ common L R n ∧
    ∀ m, n < m <= Z.min (number (fcs_head (st_l2_fcs st))) remote_head → ¬ common L R m.
Proof.
  intros Hst Hrb Hl Hr. unfold init_last_imported_block, handle_status, send_command.
  rewrite bind_assoc. erewrite bind_step; [|rewrite Hst; done].
  cbv beta iota. rewrite bind_ret_l. cbv zeta.
  rewrite (bind_step _ _ _ _ _ (in_world_Ok remote_block_number (set_world w1 s) remote_head w2 Hrb)).
  apply highest_common_spec. lia.
Qed.
End Resume.

(** ** The order of the imports *)

Lemma bind_cases {S E A B} (m : M S E A) (k : A → M S E B) s o s' :
  bind m k s = (o, s') →
  (∃ a s1, m s = (Ok a, s1) ∧ k a s1 = (o, s')) ∨
  (is_ok o = false ∧ ∃ o1, m s = (o1, s') ∧ is_ok o1 = false).
Proof. unfold bind. destruct (m s) as [[a|e|] s1]; intros; simplify_eq; eauto 8. Qed.

Abbreviation Source := (RemoteBlockSource (Logged W)).
Implicit Types s : Source.

(** Nothing but the environment changed, and [new] was exchanged. *)
Definition sent (new : list Exchange) s s' : Prop :=
  rs_build s' = rs_build s ∧ last_imported_block s' = last_imported_block s ∧
  log (world s') = log (world s) ++ new.

Lemma sent_refl s : sent [] s s.
Proof. unfold sent. by rewrite app_nil_r. Qed.

Lemma sent_trans l1 l2 s s1 s2 : sent l1 s s1 → sent l2 s1 s2 → sent (l1 ++ l2) s s2.
Proof. intros (B1 & L1 & G1) (B2 & L2 & G2). unfold sent. by rewrite B2, L2, G2, B1, L1, G1, app_assoc. Qed.

(** No import among what was exchanged. *)
Definition is_import (x : Exchange) : bool := match x with Sent (ImportBlock _) _ => true | _ => false end.
Definition quiet (new : list Exchange) s s' : Prop :=
  sent new s s' ∧ Forall (λ x, is_import x = false) new.

Lemma quiet_refl s : quiet [] s s.
Proof. split; [apply sent_refl|done]. Qed.

Lemma quiet_trans l1 l2 s s1 s2 : quiet l1 s s1 → quiet l2 s1 s2 → quiet (l1 ++ l2) s s2.
Proof. intros [S1 Q1] [S2 Q2]. split; [by eapply sent_trans|by apply Forall_app]. Qed.

Lemma submissions_app l1 l2 : submissions (l1 ++ l2) = submissions l1 ++ submissions l2.
Proof. unfold submissions, steps. by rewrite omap_app, List.filter_app. Qed.

Lemma quiet_submissions new : Forall (λ x, is_import x = false) new → submissions new = [].
Proof.
  unfold submissions, steps. induction 1 as [|x l Hx _ IH]; [done|]. simpl.
  destruct x as [?|[] ?|[]]; simpl; try done. by destruct (ends_wait _).
Qed.

Lemma quiet_served new : Forall (λ x, is_import x = false) new → as_served new.
Proof. intros Hq i b r Hi. eapply Forall_lookup_1 in Hq; [|exact Hi]. done. Qed.

Lemma as_served_app l1 l2 : as_served l1 → as_served l2 → as_served (l1 ++ l2).
Proof.
  intros H1 H2 i b r [Hi|[Hle Hi]]%lookup_app_Some.
  - destruct (H1 _ _ _ Hi) as (k & rb & -> & Hk & ->). exists k, rb. split_and!; try done.
    by apply lookup_app_l_Some.
  - destruct (H2 _ _ _ Hi) as (k & rb & Hik & Hk & ->). exists (length l1 + k)%nat, rb.
    split_and!; [lia| |done]. rewrite lookup_app_r by lia. by rewrite Nat.add_comm, Nat.add_sub.
Qed.

Lemma in_world_quiet {A} (m : M W string A) s o s' : in_world (lift_log m) s = (o, s') → quiet [] s s'.
Proof.
  unfold in_world, map_err, zoom, lift_log, zoom. simpl.
  destruct (m (logged_world (world s))) as [r w]. intros; simplify_eq. split; [|done].
  unfold sent. simpl. by rewrite app_nil_r.
Qed.

Lemma in_world_answer {A} (m : M W string A) s a s' :
  in_world (lift_log m) s = (Ok a, s') → ∃ w, m (logged_world (world s)) = (Ok a, w).
Proof.
  unfold in_world, map_err, zoom, lift_log, zoom. simpl.
  destruct (m (logged_world (world s))) as [[b| |] w]; intros; simplify_eq/=; eauto.
Qed.

(** What the remote serves is recorded. *)
Lemma remote_block_sent n s o s' :
  in_world (remote_block n) s = (o, s') →
  ∃ answer w, remote_block n (logged_world (world s)) = (answer, w) ∧ quiet [Served n answer] s s' ∧
    ∀ b, o = Ok b → answer = Ok b.
Proof.
  unfold in_world, map_err, zoom. cbn [remote_block logged_remote].
  destruct (remote_block n (logged_world (world s))) as [r w].
  intros Hr. exists r, w. split; [done|]. destruct r; simplify_eq/=; split; repeat constructor; naive_solver.
Qed.

(** A call of the handle sends one command. *)
Lemma handle_sent {A} c (k : option Reply → M Source RemoteError A) s o s' :
  (∀ r s o s', k r s = (o, s') → s' = s) →
  bind (send_command c) k s = (o, s') → ∃ r, sent [Sent c r] s s' ∧ k r s' = (o, s').
Proof.
  intros Hk. unfold bind, send_command. simpl. destruct (submit c (logged_world (world s))) as [r w].
  intros Hr. pose proof (Hk _ _ _ _ Hr) as ->. by exists r.
Qed.

Lemma handle_status_quiet s o s' : handle_status s = (o, s') → ∃ r, quiet [Sent Status r] s s'.
Proof.
  intros Hs. apply handle_sent in Hs as (r & Hs & _); [by exists r; repeat constructor; apply Hs|].
  intros [[]|] ? ? ?; intros [= _ <-]; done.
Qed.

Lemma handle_build_block_quiet s o s' : handle_build_block s = (o, s') → ∃ r, quiet [Sent BuildBlock r] s s'.
Proof.
  intros Hs. apply handle_sent in Hs as (r & Hs & _); [by exists r; repeat constructor; apply Hs|].
  by intros ? ? ? ? [= _ <-].
Qed.

(** The reply to an import tells whether the block was accepted. *)
Lemma handle_import_block_sent b s o s' :
  handle_import_block b s = (o, s') →
  ∃ r, sent [Sent (ImportBlock b) r] s s' ∧
    step_of (Sent (ImportBlock b) r) =
      Some (match o with Ok (inl _) => Accepted (block_number (nb_block b))
            | _ => Refused (block_number (nb_block b)) end).
Proof.
  intros Hs. apply handle_sent in Hs as (r & Hs & Hr).
  - exists r. split; [done|]. unfold ret, fail in Hr.
    by destruct r as [[| | | | | | |[]]|]; simplify_eq/=.
  - intros [[]|] ? ? ?; intros [= _ <-]; done.
Qed.

Lemma next_event_quiet s e s' :
  (let (e, w) := next_event (world s) in (Ok e : outcome RemoteError StreamPoll, set_world w s)) = (Ok e, s') →
  quiet [Received e] s s'.
Proof.
  simpl. destruct (next_event (logged_world (world s))) as [e' w]. intros; simplify_eq.
  by repeat constructor.
Qed.

Lemma wait_for_build_quiet fuel : ∀ s o s', wait_for_build fuel s = (o, s') → ∃ new, quiet new s s'.
Proof.
  induction fuel as [|fuel IH]; intros s o s'; cbn [wait_for_build].
  { intros [= _ <-]. exists []. apply quiet_refl. }
  intros [(e & s1 & He%next_event_quiet & Hk)|(? & o1 & He & ?)]%bind_cases.
  - destruct e as [e| |]; [destruct (ends_wait e)|..]; try (injection Hk as _ <-; eauto).
    apply IH in Hk as [new Hk]. eexists. by eapply quiet_trans.
  - by destruct (next_event (world s)); simplify_eq.
Qed.

(** After an accepted import a step hands nothing over, keeps the new resume point, and goes on unless
    it fails. *)
Lemma after_import_shape fuel i (build : bool) s o s' :
  (if negb (fcu_is_valid (ci_result i)) then ret true
   else if negb build then ret true
   else
     let* st := handle_status in
     if negb (status_is_synced st) then ret true
     else handle_build_block ;;; wait_for_build fuel ;;; ret true) s = (o, s') →
  ∃ new, quiet new s s' ∧ o ≠ Ok false.
Proof.
  destruct (negb _); [intros [= <- <-]; exists []; split; [apply quiet_refl|done]|].
  destruct (negb _); [intros [= <- <-]; exists []; split; [apply quiet_refl|done]|].
  intros Hb. apply bind_cases in Hb as [(st & s1 & Hst & Hb)|(Ho & o1 & Hst & _)];
    apply handle_status_quiet in Hst as [r1 Hst]; [|eexists; split; [done|by intros ->]].
  destruct (negb _); [injection Hb as <- <-; by eexists|].
  apply bind_cases in Hb as [([] & s2 & Hbuild & Hb)|(Ho & o1 & Hbuild & _)];
    apply handle_build_block_quiet in Hbuild as [r2 Hbuild];
    pose proof (quiet_trans _ _ _ _ _ Hst Hbuild) as Q; [|eexists; split; [done|by intros ->]].
  apply bind_cases in Hb as [([] & s3 & Hw & Hb)|(Ho & o1 & Hw & _)];
    apply wait_for_build_quiet in Hw as [new Hw]; pose proof (quiet_trans _ _ _ _ _ Q Hw).
  - injection Hb as <- <-. by eexists.
  - eexists. split; [done|by intros ->].
Qed.

(** From [n], [j] blocks were handed over and accepted, and then those of [rest]. *)
Definition imported (n j : Z) (rest : list Step) s s' : Prop :=
  ∃ new, log (world s') = log (world s) ++ new ∧
    submissions new = map Accepted (seqZ (n + 1) j) ++ rest ∧
    last_imported_block s' = Some (n + j) ∧ as_served new.

Lemma quiet_imported n new s s' :
  last_imported_block s = Some n → quiet new s s' → imported n 0 [] s s'.
Proof.
  intros Hlast [(_ & Hl & Hg) Hq]. exists new. rewrite Z.add_0_r, Hl.
  split_and!; [done|by apply quiet_submissions|done|by apply quiet_served].
Qed.

(** A block handed over right after it was served. *)
Lemma handed_over n rb r x :
  block_number (rpc_block rb) = n + 1 →
  step_of (Sent (ImportBlock (trusted_block (rpc_block rb))) r) = Some x → is_submission x = true →
  let new := [Served (n + 1) (Ok (Some rb)); Sent (ImportBlock (trusted_block (rpc_block rb))) r] in
  submissions new = [x] ∧ as_served new.
Proof.
  intros Hnum Hx Hsub new. split.
  - unfold submissions, steps, new. cbn [omap list_omap]. rewrite Hx. simpl. by rewrite Hsub.
  - intros [|[|i]] b r' Hi; [done| |done]. injection Hi as <- <-. exists 0%nat, rb.
    split_and!; [done| |done]. simpl. by rewrite Hnum.
Qed.

Lemma follow_step_imported fuel n s o s' :
  honest_remote → 0 <= n → last_imported_block s = Some n → follow_step fuel s = (o, s') →
  match o with
  | Ok true => imported n 1 [] s s'
  | Ok false => imported n 0 [] s s'
  | _ => imported n 0 [] s s' ∨ imported n 0 [Refused (n + 1)] s s' ∨ imported n 1 [] s s'
  end.
Proof.
  intros Hh Hn Hlast Hs.
  assert (∀ o1 : outcome RemoteError bool, is_ok o1 = false →
    imported n 0 [] s s' ∨ imported n 0 [Refused (n + 1)] s s' →
    match o1 with Ok true => imported n 1 [] s s' | Ok false => imported n 0 [] s s'
    | _ => imported n 0 [] s s' ∨ imported n 0 [Refused (n + 1)] s s' ∨ imported n 1 [] s s' end) as Hfail.
  { intros [[]| |] ? [|]; auto; done. }
  unfold follow_step in Hs. rewrite (bind_step get _ s s s eq_refl) in Hs. rewrite Hlast in Hs.
  rewrite (bind_step (lift (expect (Some n))) _ s n s eq_refl) in Hs.
  apply bind_cases in Hs as [(latest & s1 & Hl & Hs)|(Ho & o1 & Hl & _)];
    pose proof (in_world_quiet _ _ _ _ Hl) as S1; [|by apply Hfail; [|left; by eapply quiet_imported]].
  destruct latest as [lb|]; [|injection Hs as <- <-; left; by eapply quiet_imported].
  rewrite (bind_step (ok_or_report _ (Some lb)) _ s1 lb s1 eq_refl) in Hs.
  assert (in_u64 (block_number (rpc_block lb))) as Hu64.
  { apply in_world_answer in Hl as [w Hl]. by eapply (honest_latest Hh). }
  destruct (Z.leb_spec (block_number (rpc_block lb)) n) as [Hle|Hgt].
  { injection Hs as <- <-. by eapply quiet_imported. }
  assert (wrapping_add n 1 = n + 1) as Hnext
    by (unfold wrapping_add, u64_mod, in_u64 in *; rewrite Z.mod_small; lia).
  rewrite Hnext in Hs.
  apply bind_cases in Hs as [(block & s2 & Hb & Hs)|(Ho & o1 & Hb & _)];
    apply remote_block_sent in Hb as (answer & w & Hw & S2 & Hans);
    pose proof (quiet_trans _ _ _ _ _ S1 S2) as S3; [|by apply Hfail; [|left; by eapply quiet_imported]].
  destruct block as [rb|]; [|injection Hs as <- <-; left; by eapply quiet_imported].
  specialize (Hans _ eq_refl) as ->.
  rewrite (bind_step (ok_or_report _ (Some rb)) _ s2 rb s2 eq_refl) in Hs.
  pose proof (honest_block Hh _ _ _ _ Hw) as Hnum.
  apply bind_cases in Hs as [(r & s3 & Hi & Hs)|(Ho & o1 & Hi & Ho1)];
    apply handle_import_block_sent in Hi as (reply & Hi & Hx);
    destruct (sent_trans _ _ _ _ _ (proj1 S3) Hi) as (_ & Hl3 & Hg3); simpl in Hg3;
    change (block_number (nb_block _)) with (block_number (rpc_block rb)) in Hx; rewrite Hnum in Hx.
  2: { destruct (handed_over n rb reply (Refused (n + 1)) Hnum) as [Hsub Hsrv]; [by destruct o1 as [[]| |]|done|].
       apply Hfail; [done|]. right. eexists. rewrite Z.add_0_r, Hl3. by split_and!. }
  destruct r as [i|e].
  2: { destruct (handed_over n rb reply _ Hnum Hx eq_refl) as [Hsub Hsrv].
       injection Hs as <- <-. right. left. eexists. rewrite Z.add_0_r, Hl3. by split_and!. }
  destruct (handed_over n rb reply _ Hnum Hx eq_refl) as [Hsub Hsrv].
  rewrite (bind_step (modify _) _ _ tt _ eq_refl) in Hs.
  apply after_import_shape in Hs as (new & [(_ & Hl4 & Hg4) Q] & Ho).
  assert (imported n 1 [] s s') as Hdone.
  { eexists. rewrite Hl4, Hg4. simpl in Hg3 |- *. rewrite Hg3, <- app_assoc. split; [reflexivity|].
    rewrite submissions_app, Hsub, (quiet_submissions _ Q). split_and!; [done|done|].
    apply as_served_app; [done|by apply quiet_served]. }
  destruct o as [[]| |]; auto; done.
Qed.

Lemma follow_loop_imported fuel : ∀ n s o s',
  honest_remote → 0 <= n → last_imported_block s = Some n → follow_loop fuel s = (o, s') →
  ∃ j rest, 0 <= j ∧ imported n j rest s s' ∧ (rest = [] ∨ rest = [Refused (n + j + 1)] ∧ is_ok o = false).
Proof.
  induction fuel as [|fuel IH]; intros n s o s' Hh Hn Hlast Hl; cbn [follow_loop] in Hl.
  { injection Hl as <- <-. exists 0, []. split_and!; [done| |by left].
    by apply (quiet_imported _ _ _ _ Hlast (quiet_refl s)). }
  apply bind_cases in Hl as [(more & s1 & Hs & Hl)|(Ho & o1 & Hs & Ho1)];
    pose proof (follow_step_imported _ _ _ _ _ Hh Hn Hlast Hs) as Hi.
  - destruct more; [|injection Hl as <- <-; exists 0, []; split_and!; [done|done|by left]].
    destruct Hi as (new & Hg & Hnew & Hlast1 & Hsrv).
    destruct (IH (n + 1) s1 o s' Hh ltac:(lia) Hlast1 Hl) as (j & rest & Hj & (new' & Hg' & Hnew' & Hlast' & Hsrv') & Hr).
    exists (j + 1), rest. replace (n + (j + 1)) with (n + 1 + j) by lia. split_and!; [lia| |done].
    exists (new ++ new'). replace (n + (j + 1)) with (n + 1 + j) by lia.
    rewrite Hg', Hg, app_assoc, submissions_app, Hnew, Hnew'. split_and!; [done| |done|by apply as_served_app].
    rewrite (seqZ_cons (n + 1) (j + 1)) by lia. simpl. f_equal. f_equal. f_equal. f_equal; lia.
  - destruct o1 as [[]| |]; [done..| |]; destruct Hi as [Hi|[Hi|Hi]];
      eexists _, _; (split; [|split; [exact Hi|rewrite ?Z.add_0_r; auto]]); lia.
Qed.

(** C34: the source hands the remote's blocks over for import one by one, in order and without a gap.
    From the resume point [n], one poll submits the blocks [n + 1 .. n + j], each of which the node
    accepts, and after them at most one more, [n + j + 1], which the node did not accept and which
    ends the poll with an error.  Each is the block the remote served just before for that number.
    The resume point is then [n + j], the last accepted block: the next poll submits the refused one
    again, and no accepted one.  This holds whatever the node answers and whenever calls fail. *)
Theorem imports_in_order fuel n s o s' :
  honest_remote → 0 <= n → last_imported_block s = Some n →
  follow_and_build fuel s = (o, s') →
  ∃ new j rest, log (world s') = log (world s) ++ new ∧ 0 <= j ∧
    submissions new = map Accepted (seqZ (n + 1) j) ++ rest ∧
    (rest = [] ∨ rest = [Refused (n + j + 1)] ∧ is_ok o = false) ∧
    last_imported_block s' = Some (n + j) ∧ as_served new.
Proof.
  intros Hh Hn Hlast. unfold follow_and_build.
  rewrite (bind_step (gets _) _ s (Some n) s) by (unfold gets; by rewrite Hlast).
  rewrite (bind_step (ret tt) _ s tt s eq_refl). intros Hl.
  destruct (follow_loop_imported _ _ _ _ _ Hh Hn Hlast Hl) as (j & rest & ? & (new & ? & ? & ? & ?) & ?).
  by exists new, j, rest.
Qed.

(** ** Catching up *)

Lemma steps_app l1 l2 : steps (l1 ++ l2) = steps l1 ++ steps l2.
Proof. apply omap_app. Qed.

(** What a poll does for one block. *)
Definition turn (build : bool) (m : Z) : list Step :=
  if build then [Accepted m; BuildAsked; BuildEnded] else [Accepted m].

Lemma in_world_lift {A} (m : M W string A) s a w :
  m (logged_world (world s)) = (Ok a, w) →
  in_world (lift_log m) s = (Ok a, set_world (mkLogged w (log (world s))) s).
Proof. unfold in_world, map_err, zoom, lift_log, zoom. simpl. by intros ->. Qed.

Lemma cooperative_step h n fuel s :
  cooperative h → 0 <= n < h → h <= u64_max → last_imported_block s = Some n → (0 < fuel)%nat →
  ∃ s1 new, follow_step fuel s = (Ok true, s1) ∧ rs_build s1 = rs_build s ∧
    last_imported_block s1 = Some (n + 1) ∧ log (world s1) = log (world s) ++ new ∧
    steps new = turn (rs_build s) (n + 1).
Proof.
  intros Hco Hn Hh Hlast Hf. unfold follow_step.
  rewrite (bind_step get _ s s s eq_refl), Hlast.
  rewrite (bind_step (lift (expect (Some n))) _ s n s eq_refl).
  destruct (co_latest h Hco (logged_world (world s))) as (lb & w1 & Hl & Hlb).
  rewrite (bind_step _ _ _ _ _ (in_world_lift _ _ _ _ Hl)).
  set (s1 := set_world _ s). rewrite (bind_step (ok_or_report _ (Some lb)) _ s1 lb s1 eq_refl).
  rewrite Hlb, (proj2 (Z.leb_gt _ _)) by lia.
  assert (wrapping_add n 1 = n + 1) as ->
    by (unfold wrapping_add, u64_max, u64_mod in *; rewrite Z.mod_small; lia).
  destruct (co_block h Hco (n + 1) (logged_world (world s1))) as (rb & w2 & Hb & Hrb); [lia|].
  set (x1 := Served (n + 1) (Ok (Some rb))).
  rewrite (bind_step _ _ _ (Some rb) (set_world (mkLogged w2 (log (world s1) ++ [x1])) s1)).
  2: { unfold in_world, map_err, zoom. cbn [remote_block logged_remote]. by rewrite Hb. }
  set (s2 := set_world _ s1). rewrite (bind_step (ok_or_report _ (Some rb)) _ s2 rb s2 eq_refl).
  destruct (co_import h Hco (trusted_block (rpc_block rb)) (logged_world (world s2)))
    as (i & w3 & Hi & Hvalid).
  set (x2 := Sent (ImportBlock (trusted_block (rpc_block rb))) (Some (ImportReply (inl i)))).
  rewrite (bind_step _ _ s2 (inl i) (set_world (mkLogged w3 (log (world s2) ++ [x2])) s2)).
  2: { unfold handle_import_block. erewrite bind_step; [|unfold send_command; cbn [submit logged_handle]; by rewrite Hi].
       done. }
  rewrite (bind_step (modify _) _ _ tt _ eq_refl), Hvalid. cbn [negb].
  set (s3 := set_last_imported _ _).
  assert (steps [x1; x2] = [Accepted (n + 1)]) as Hx by (by rewrite <- Hrb).
  destruct (rs_build s) eqn:Ebuild; cbn [negb].
  2: { exists s3, [x1; x2]. split_and!; try done. simpl. by rewrite <- app_assoc. }
  destruct (co_status h Hco (logged_world (world s3))) as (st & w4 & Hst & Hsync).
  set (x3 := Sent Status (Some (StatusReply st))).
  rewrite (bind_step _ _ s3 st (set_world (mkLogged w4 (log (world s3) ++ [x3])) s3)).
  2: { unfold handle_status. erewrite bind_step; [|unfold send_command; cbn [submit logged_handle]; by rewrite Hst]. done. }
  rewrite Hsync. cbn [negb]. set (s4 := set_world _ s3).
  destruct (submit BuildBlock (logged_world (world s4))) as [r w5] eqn:Eb.
  set (x4 := Sent BuildBlock r).
  rewrite (bind_step _ _ s4 tt (set_world (mkLogged w5 (log (world s4) ++ [x4])) s4)).
  2: { unfold handle_build_block. erewrite bind_step; [|unfold send_command; cbn [submit logged_handle]; by rewrite Eb]. done. }
  set (s5 := set_world _ s4). destruct fuel as [|fuel]; [lia|].
  destruct (co_event h Hco (logged_world (world s5))) as (e & w6 & He & Hends).
  set (x5 := Received (Item e)).
  rewrite (bind_step _ _ s5 tt (set_world (mkLogged w6 (log (world s5) ++ [x5])) s5)).
  2: { cbn [wait_for_build]. erewrite bind_step; [|cbn [next_event logged_handle]; by rewrite He].
       cbv beta iota; by rewrite Hends. }
  eexists _, ([x1; x2] ++ [x3; x4; x5]). split_and!; try done; [simpl; by rewrite <- !app_assoc|].
  rewrite steps_app, Hx. simpl. by rewrite Hends.
Qed.

(** C35: the source catches up: with a remote at the height [h] and a node that imports, is synced and
    reports its builds, one poll from the resume point [n] ends at [h].  Its steps are exactly these,
    in this order: for each of the blocks [n + 1 .. h], the block is submitted and accepted; then, when
    the source is configured to build, a build is asked for, which therefore is on that block, and its
    end is awaited before the next block is submitted. *)
Theorem catches_up h n fuel s :
  cooperative h → 0 <= n <= h → h <= u64_max → last_imported_block s = Some n →
  h - n < Z.of_nat fuel →
  ∃ s' new, follow_and_build fuel s = (Ok tt, s') ∧ last_imported_block s' = Some h ∧
    log (world s') = log (world s) ++ new ∧
    steps new = concat (map (turn (rs_build s)) (seqZ (n + 1) (h - n))).
Proof.
  intros Hco Hn Hmax Hlast Hf. unfold follow_and_build.
  rewrite (bind_step (gets _) _ s (Some n) s) by (unfold gets; by rewrite Hlast).
  rewrite (bind_step (ret tt) _ s tt s eq_refl). revert n s Hn Hlast Hf.
  induction fuel as [|fuel IH]; intros n s Hn Hlast Hf; [lia|]. cbn [follow_loop].
  destruct (decide (n = h)) as [->|Hne].
  - destruct (co_latest h Hco (logged_world (world s))) as (lb & w1 & Hl & Hlb).
    erewrite bind_step.
    2: { unfold follow_step. rewrite (bind_step get _ s s s eq_refl), Hlast.
         rewrite (bind_step (lift (expect (Some h))) _ s h s eq_refl).
         rewrite (bind_step _ _ _ _ _ (in_world_lift _ _ _ _ Hl)).
         rewrite (bind_step (ok_or_report _ (Some lb)) _ _ lb _ eq_refl).
         rewrite Hlb, (proj2 (Z.leb_le _ _)) by lia. done. }
    eexists _, []. rewrite Z.sub_diag, app_nil_r. by split_and!.
  - destruct (cooperative_step h n fuel s) as (s1 & new & Hs & Hb & Hl & Hg & Hst); [done|lia|done..|lia|].
    rewrite (bind_step _ _ _ _ _ Hs).
    destruct (IH (n + 1) s1) as (s' & new' & Hrun & Hl' & Hg' & Hst'); [lia|done|lia|].
    exists s', (new ++ new'). split_and!; [done|done|by rewrite Hg', Hg, app_assoc|].
    rewrite steps_app, Hst, Hst', Hb, (seqZ_cons (n + 1) (h - n)) by lia. simpl.
    f_equal. f_equal. f_equal. f_equal; lia.
Qed.
End Props.
