(* ===== verification/RunLoop.v ===== *)
(** * Commands and the run loop of the orchestrator (chain-orchestrator/src/lib.rs)

    [handle_command], and [run_until_shutdown] as a step function: one iteration of the loop takes
    the input of the branch the [select!] chose.  [enabled] gives the branch conditions; an input
    is consumed only when its branch is enabled.  An iteration continues, stops cleanly, or ends
    the loop with the error it returns. *)

From S2P Require Import Prelude Sql Primitives Watcher BigEndian Codec Engine DbModel DbOps World Signing.
From S2P Require Import Sequencer Pipeline Consolidation Driver Orchestrator.

Section RunLoop.
Context `{SqlEngine} `{Chain} `{!PayloadConversion} `{Timers} `{Rlp} `{SignerRecovery}
  `{SignatureBytes} `{!EngineApi W} `{!L2Provider W} `{!BlockClient W}.
Variable config : ChainOrchestratorConfig.
Variable clock : Clock.

Notation Act := (M (Orchestrator W) ChainOrchestratorError).

(** ** Commands *)

Definition job_on_head (o : Orchestrator W) : bool :=
  match sequencer o with
  | Some s => match payload_building_job s with
              | Some j => bool_decide (parent j = fcs_head (orchestrator_fcs o))
              | None => false
              end
  | None => false
  end.

(** A second request while a payload is built on the current head joins the running job. *)
Definition build_block : Act Reply :=
  let* s := gets sequencer in
  match s with
  | None => ret NoReply
  | Some _ =>
      let* coalesce := gets job_on_head in
      if coalesce then ret NoReply
      else
        modify_sequencer cancel_payload_building_job ;;;
        map_err CoSequencerError (on_sequencer (start_payload_building (unix_secs clock))) ;;;
        ret NoReply
  end.

Definition orchestrator_status : Act Reply :=
  let* (l1_latest, l1_finalized, l1_processed) :=
    tx (let* l1_latest := in_tx get_latest_l1_block_number in
        let* l1_finalized := in_tx get_finalized_l1_block_number in
        let* l1_processed := in_tx get_processed_l1_block_number in
        ret (l1_latest, l1_finalized, l1_processed)) in
  let* o := get in
  ret (StatusReply (mkStatus (sync_l1 (sync_state o)) l1_latest l1_finalized l1_processed
    (sync_l2 (sync_state o)) (orchestrator_fcs o)
    (driver_status (now_ms clock) (pipeline_len (derivation_pipeline o)) (derivation_driver o)))).

Definition update_fcs_head (head : BlockInfo) : Act Reply :=
  let* f := get_fcs in
  let* reverted :=
    collect_reverted_txs_in_range (saturating_add (number head) 1) (number (fcs_head f)) in
  on_engine_driver (update_fcs (Some head) None None) ;;;
  tx (in_tx (purge_l1_message_to_l2_block_mappings (Some (wrapping_add (number head) 1)) ;;;
             set_l2_head_block_number (number head))) ;;;
  reinsert_txs_into_pool reverted ;;;
  notify (FcsHeadUpdated head) ;;;
  ret UnitReply.

(** [Sequencer::enable] panics on a block time of zero, as tokio's interval does. *)
Definition enable_sequencing : Act Reply :=
  let* s := gets sequencer in
  match s with
  | None => ret (BoolReply false)
  | Some s =>
      let* s := lift (enable (now_ms clock) s) in
      modify (set_sequencer (Some s)) ;;; ret (BoolReply true)
  end.

Definition disable_sequencing : Act Reply :=
  let* s := gets sequencer in
  match s with
  | None => ret (BoolReply false)
  | Some _ => modify_sequencer disable ;;; ret (BoolReply true)
  end.

Definition revert_to_l1_block (block_number : Z) : Act Reply :=
  set_l1_mode ModeSyncing ;;;
  modify_driver cancel_attempt ;;;
  let* (unwind_result, held_outcome) := unwind_and_revalidate_held_batch block_number in
  match ur_l2_safe_block_info unwind_result with
  | Some bi =>
      let* f := get_fcs in
      let target := if number (fcs_finalized f) <=? number bi then bi else fcs_finalized f in
      let* _ := on_engine_driver (update_fcs None (Some target) None) in ret tt
  | None => ret tt
  end ;;;
  send (WatcherReset block_number) ;;;
  when is_survived held_outcome then
    modify_driver (schedule_fresh_reconciliation (now_ms clock)) ;;;
  notify (UnwoundToL1Block block_number) ;;;
  ret (BoolReply true).

Definition handle_command (c : ChainOrchestratorCommand) : Act Reply :=
  match c with
  | BuildBlock => build_block
  | EventListener => modify (set_listening true) ;;; ret ListenerReply
  | Status => orchestrator_status
  | NetworkHandle => ret NetworkReply
  | UpdateFcsHead head => update_fcs_head head
  | EnableAutomaticSequencing => enable_sequencing
  | DisableAutomaticSequencing => disable_sequencing
  | GetL1MessageByKey key =>
      let* msgs := db (get_n_l1_messages (Some key) 1) in ret (MessageReply (last msgs))
  | RevertToL1Block n => revert_to_l1_block n
  | ImportBlock bp =>
      let* r := try (import_chain [nb_block bp] bp) in ret (ImportReply r)
  end.

(** ** The run loop *)

Inductive Input :=
| ShutdownSignal
| AttemptDue
| CommandIn (c : ChainOrchestratorCommand)
| SignerEventIn (b : DogeosBlock) (signature : Signature)
| SequencerPoll
| BatchDerived (r : BatchDerivationResult)
| NetworkBlockIn (bp : NewBlockWithPeer)
| NotificationIn (n : L1Notification).

Definition enabled (i : Input) (o : Orchestrator W) : bool :=
  match i with
  | ShutdownSignal | CommandIn _ | NetworkBlockIn _ => true
  | AttemptDue => is_attempt_scheduled (derivation_driver o)
  | SignerEventIn _ _ => match signer o with Some _ => true | None => false end
  | SequencerPoll =>
      match sequencer o with Some _ => true | None => false end &&
      state_is_synced (sync_state o) && negb (has_pending_derivation_work o)
  | BatchDerived _ => can_accept_batch (derivation_driver o)
  | NotificationIn _ =>
      l1_notification_receiver_may_poll (mode_is_synced (sync_l2 (sync_state o)))
        (pipeline_len (derivation_pipeline o) =? 0) (can_accept_batch (derivation_driver o))
  end.

(** [handle_outcome]: an event is sent to the listeners, an error is logged. *)
Definition handle_outcome (r : option ChainOrchestratorEvent + ChainOrchestratorError) : Act unit :=
  match r with inl e => notify_opt e | inr _ => ret tt end.

(** The end of an attempt. *)
Definition attempt_outcome (step : AttemptStep) : Act bool :=
  match step with
  | Completed consolidated =>
      for_each (λ oc, notify (BlockConsolidated oc)) (block_outcomes consolidated) ;;;
      notify (BatchConsolidated (batch_outcome consolidated)) ;;;
      ret true
  | Held => ret true
  | Fatal f => fail (fatal_error f)
  end.

Definition attempt_step : Act bool :=
  let* step := (λ o, let '(r, (d, e)) := run_attempt (now_ms clock) (derivation_driver o, env o) in
                     (r, set_driver d (set_env e o))) in
  attempt_outcome step.

Definition held_operation (c : ChainOrchestratorCommand) (o : Orchestrator W) : bool :=
  match c with
  | RevertToL1Block _ => negb (can_accept_batch (derivation_driver o))
  | _ => false
  end.

Definition command_step (c : ChainOrchestratorCommand) : Act bool :=
  let* held := gets (held_operation c) in
  let* r := try (handle_command c) in
  match r with
  | inr err => if held then fail err else ret true
  | inl _ => ret true
  end.

Definition sequencer_step : Act bool :=
  let* s := gets sequencer in
  match s with
  | None => panic
  | Some s =>
      let '(event, s) := poll_next (now_ms clock) s in
      modify (set_sequencer (Some s)) ;;;
      match event with
      | None => ret true
      | Some event =>
          let* r := try (handle_sequencer_event clock event) in
          match r with
          | inr (CoSequencerError (InvalidPayload bi lvh e)) =>
              fail (CoSequencerError (InvalidPayload bi lvh e))
          | r => handle_outcome r ;;; ret true
          end
      end
  end.

Definition is_unwind_failure (e : ChainOrchestratorError) : bool :=
  match e with UnwindForkchoiceUpdateFailed _ _ _ _ => true | _ => false end.

Definition notification_step (n : L1Notification) : Act bool :=
  let* r := try (handle_l1_notification config clock n) in
  match r with
  | inr err =>
      if is_unwind_failure err then fail err else ret true
  | inl e =>
      let* unblocks := gets (unblocks_import n) in
      handle_outcome (inl e) ;;;
      when unblocks then
        (let* r := try (retry_blocked_import config) in handle_outcome r) ;;;
      ret true
  end.

(** [hold_batch] of a derived result; the client's length counts it out. *)
Definition hold_step (r : BatchDerivationResult) : Act bool :=
  modify (λ o, set_pipeline (mkPipelineHandle (pipeline_poll_len (pipeline_len (derivation_pipeline o)))
                               (pushed_batches (derivation_pipeline o))) o) ;;;
  zoom derivation_driver set_driver (hold_batch (now_ms clock) r) ;;;
  ret true.

(** One iteration: [Ok true] continues, [Ok false] is a shutdown, an error stops the node. *)
Definition run_step (i : Input) : Act bool :=
  match i with
  | ShutdownSignal => notify Shutdown ;;; ret false
  | AttemptDue => attempt_step
  | CommandIn c => command_step c
  | SignerEventIn b signature =>
      let* r := try (handle_signer_event b signature) in handle_outcome r ;;; ret true
  | SequencerPoll => sequencer_step
  | BatchDerived r => hold_step r
  | NetworkBlockIn bp =>
      let* r := try (handle_network_event config bp) in handle_outcome r ;;; ret true
  | NotificationIn n => notification_step n
  end.
End RunLoop.
