(* ===== verification/Handle.v ===== *)
(** * The orchestrator's handle (crates/chain-orchestrator/src/handle/mod.rs)

    A call of the handle sends a command with a one-shot channel and waits for the reply; when the
    handler fails the sender is dropped and the call ends in [RecvError].  The commands of [RunLoop]
    answer with an untyped [Reply]; here each call has the type of its reply, and no call ever
    receives the reply of another. *)

From S2P Require Import Prelude Sql Primitives BigEndian Codec Engine DbModel DbOps World Signing.
From S2P Require Import Sequencer Pipeline Consolidation Driver Orchestrator RunLoop.

Section Handle.
Context `{SqlEngine} `{Chain} `{!PayloadConversion} `{Timers} `{Rlp} `{SignerRecovery}
  `{SignatureBytes} `{!EngineApi W} `{!L2Provider W} `{!BlockClient W}.
Variable config : ChainOrchestratorConfig.
Variable clock : Clock.

Inductive HandleCall : Type → Type :=
| CallNetworkHandle : HandleCall unit
| CallEventListener : HandleCall unit
| CallUpdateFcsHead (head : BlockInfo) : HandleCall unit
| CallEnableAutomaticSequencing : HandleCall bool
| CallDisableAutomaticSequencing : HandleCall bool
| CallStatus : HandleCall ChainOrchestratorStatus
| CallL1MessageByKey (key : L1MessageKey) : HandleCall (option L1MessageEnvelope)
| CallRevertToL1Block (block_number : Z) : HandleCall bool
| CallImportBlock (bp : NewBlockWithPeer) : HandleCall (ChainImport + ChainOrchestratorError).

(** The command a call sends. *)
Definition call_command {T} (c : HandleCall T) : ChainOrchestratorCommand :=
  match c with
  | CallNetworkHandle => NetworkHandle
  | CallEventListener => EventListener
  | CallUpdateFcsHead head => UpdateFcsHead head
  | CallEnableAutomaticSequencing => EnableAutomaticSequencing
  | CallDisableAutomaticSequencing => DisableAutomaticSequencing
  | CallStatus => Status
  | CallL1MessageByKey key => GetL1MessageByKey key
  | CallRevertToL1Block n => RevertToL1Block n
  | CallImportBlock bp => ImportBlock bp
  end.

(** What comes through the channel of a call: it carries one type. *)
Definition call_reply {T} (c : HandleCall T) (r : Reply) : option T :=
  match c with
  | CallNetworkHandle => match r with NetworkReply => Some tt | _ => None end
  | CallEventListener => match r with ListenerReply => Some tt | _ => None end
  | CallUpdateFcsHead _ => match r with UnitReply => Some tt | _ => None end
  | CallEnableAutomaticSequencing | CallDisableAutomaticSequencing | CallRevertToL1Block _ =>
      match r with BoolReply b => Some b | _ => None end
  | CallStatus => match r with StatusReply s => Some s | _ => None end
  | CallL1MessageByKey _ => match r with MessageReply m => Some m | _ => None end
  | CallImportBlock _ => match r with ImportReply r => Some r | _ => None end
  end.

(** A call on the orchestrator, whose loop handles the command: [None] is [RecvError]. *)
Definition handle_call {T} (c : HandleCall T) (o : Orchestrator W) : option T * Orchestrator W :=
  match handle_command clock (call_command c) o with
  | (Ok r, o) => (call_reply c r, o)
  | (_, o) => (None, o)
  end.

(** The reply of a computation that succeeds. *)
Definition replies (P : Reply → Prop) (m : M (Orchestrator W) ChainOrchestratorError Reply) : Prop :=
  ∀ o r o', m o = (Ok r, o') → P r.

Lemma replies_bind {A} P (m : M (Orchestrator W) ChainOrchestratorError A) k :
  (∀ a, replies P (k a)) → replies P (bind m k).
Proof. intros Hk o r o' Hrun. apply bind_Ok in Hrun as (a & o1 & _ & Hrun). by eapply Hk. Qed.
Lemma replies_ret (P : Reply → Prop) r : P r → replies P (ret r).
Proof. intros Hr o r' o' Hrun. by injection Hrun as <- _. Qed.

Ltac replies := repeat first
  [ apply replies_ret; eauto; done
  | apply replies_bind; intros ?
  | match goal with |- replies _ (match ?x with _ => _ end) => destruct x end ].

(** The handler of a call's command replies with the type of the call. *)
Lemma call_replies {T} (c : HandleCall T) :
  replies (λ r, ∃ x, call_reply c r = Some x) (handle_command clock (call_command c)).
Proof.
  destruct c; cbn [call_command handle_command call_reply];
    unfold orchestrator_status, update_fcs_head, enable_sequencing, disable_sequencing, revert_to_l1_block; replies.
Qed.

(** A call is answered exactly when its command was handled without an error, and leaves the
    orchestrator as the run loop does when the command arrives. *)
Theorem call_answered {T} (c : HandleCall T) o :
  (is_Some (handle_call c o).1 ↔ is_ok (handle_command clock (call_command c) o).1 = true) ∧
  (handle_call c o).2 = (run_step config clock (CommandIn (call_command c)) o).2.
Proof.
  pose proof (call_replies c o) as Hr. unfold handle_call. cbn [run_step]. unfold command_step, bind, try, gets.
  destruct (handle_command clock (call_command c) o) as [[r|e|] o'] eqn:Hrun; cbn.
  - destruct (Hr _ _ eq_refl) as [x ->]. by split.
  - split; [by split; [intros [? ?]|]|]. by destruct (held_operation _ o).
  - split; [by split; [intros [? ?]|]|done].
Qed.
End Handle.
