(* ===== verification/OrchestratorInv.v ===== *)
(** * What every handler of the orchestrator keeps

    The lemmas are stated once for a property [Pf] of the fork choice and a property [Pd] of the
    database that the primitive statements keep, and instantiated three times: for blocks from peers
    with "the safe and finalized blocks are the ones they were", and for the whole run loop with the
    fork choice rules and the integrity of the database, and with the provenance of its rows. *)

From S2P Require Import Prelude Sql Primitives Watcher BigEndian Codec Engine DbModel DbOps DbInvariant.
From S2P Require Import World Signing Sequencer Pipeline Consolidation Driver Orchestrator.
From S2P Require Import RunLoop.

(** ** Requests of the engine driver *)

(** An update of the fork choice with these arguments keeps [Pf]. *)
Definition fcs_closed (Pf : ForkchoiceState → Prop) (head safe finalized : option BlockInfo) : Prop :=
  ∀ f f', Pf f → fcs_update head safe finalized f = Ok f' → Pf f'.

Section EnginePres.
Context `{EngineApi W} (Pf : ForkchoiceState → Prop).

Definition on_fcs (e : Engine W) : Prop := Pf (fcs e).

Lemma update_fcs_pres head safe finalized :
  fcs_closed Pf head safe finalized → preserves on_fcs (update_fcs head safe finalized).
Proof.
  intros Hc e He. unfold update_fcs. destruct (is_none3 _ _ _); [done|].
  unfold bind, candidate, request. destruct (fcs_update _ _ _ _) as [f|?|] eqn:Hf; simpl; [|done..].
  destruct (fork_choice_updated_v1 _ _ _) as [[r|?|] w]; simpl; [|done..].
  destruct (status (payload_status r)); simpl; try done; unfold modify, ret;
    destruct (negb (fcu_is_invalid r)); simpl; try done; by eapply Hc.
Qed.

Lemma update_fcs_checked_pres head safe finalized :
  fcs_closed Pf head safe finalized → preserves on_fcs (update_fcs_checked head safe finalized).
Proof.
  intros Hc e He. unfold update_fcs_checked. destruct (is_none3 _ _ _); [done|].
  unfold bind, candidate, request. destruct (fcs_update _ _ _ _) as [f|?|] eqn:Hf; simpl; [|done..].
  destruct (fork_choice_updated_v1 _ _ _) as [[r|?|] w]; simpl; [|done..].
  destruct (fcu_is_valid r); simpl; try done; by eapply Hc.
Qed.

Lemma optimistic_sync_pres block :
  fcs_closed Pf (Some block) None None → preserves on_fcs (optimistic_sync block).
Proof.
  intros Hc e He. unfold optimistic_sync.
  unfold bind, candidate, request. destruct (fcs_update _ _ _ _) as [f|?|] eqn:Hf; simpl; [|done..].
  destruct (fork_choice_updated_v1 _ _ _) as [[r|?|] w]; simpl; [|done..].
  destruct (negb (fcu_is_invalid r)); simpl; try done; by eapply Hc.
Qed.

Lemma same_fcs_pres {E A} (m : M (Engine W) E A) :
  (∀ e, fcs (m e).2 = fcs e) → preserves on_fcs m.
Proof. intros Hm e He. unfold on_fcs. by rewrite Hm. Qed.
End EnginePres.

(** ** The resources *)

Section EnvPres.
Context `{EngineApi W} (Pf : ForkchoiceState → Prop) (Pd : Db → Prop).

Definition env_inv (e : Env W) : Prop := Pf (fcs (engine e)) ∧ Pd (database e).

Lemma env_on_engine {E F A} (f : E → F) (m : M (Engine W) E A) :
  preserves (on_fcs Pf) m → preserves env_inv (on_engine f m).
Proof.
  intros Hm e [He Hd]. unfold on_engine, zoom, map_err. specialize (Hm _ He).
  by destruct (m (engine e)).
Qed.

Lemma env_on_client {E F A} (f : E → F) (m : M W E A) : preserves env_inv (on_client f m).
Proof.
  intros e [He Hd]. unfold on_client, on_engine, zoom, map_err.
  by destruct (m (client (engine e))).
Qed.

Lemma env_on_database {E F A} (f : E → F) (m : M Db E A) :
  preserves Pd m → preserves env_inv (on_database f m).
Proof.
  intros Hm e [He Hd]. unfold on_database, zoom, map_err, tx_mut. specialize (Hm _ Hd).
  by destruct (m (database e)) as [[]].
Qed.
End EnvPres.

(** ** Handlers *)

Section Pres.
Context `{SqlEngine} `{Chain} `{!PayloadConversion} `{Timers} `{Rlp} `{SignerRecovery}
  `{SignatureBytes} `{!EngineApi W} `{!L2Provider W} `{!BlockClient W}.
Context (Pf : ForkchoiceState → Prop) (Pd : Db → Prop) (Pr : DerivationDriver → Prop).
Context `{!DbClosed Pd}.
Context (Hhead : ∀ h, fcs_closed Pf (Some h) None None).

Definition orch_inv (o : Orchestrator W) : Prop :=
  env_inv Pf Pd (env o) ∧ Pr (derivation_driver o).
Definition orch_inv_anc (s : Orchestrator W * list B256) : Prop := orch_inv (fst s).

Lemma in_env_pres {A} (m : M (Env W) _ A) : preserves (env_inv Pf Pd) m → preserves orch_inv (in_env m).
Proof.
  intros Hm o [Ho Hr]. unfold in_env, zoom. specialize (Hm _ Ho). by destruct (m (env o)).
Qed.

Lemma db_pres {A} (m : DB A) : preserves Pd m → preserves orch_inv (db m).
Proof. intros Hm. by apply in_env_pres, env_on_database. Qed.

Lemma tx_pres {A} (m : M Db _ A) : preserves Pd m → preserves orch_inv (tx m).
Proof. intros Hm. by apply in_env_pres, env_on_database. Qed.

Lemma client_pres {A} (m : M W string A) : preserves orch_inv (on_l2_client m).
Proof. apply in_env_pres, env_on_client. Qed.

Lemma engine_pres {A} (m : M (Engine W) EngineError A) :
  preserves (on_fcs Pf) m → preserves orch_inv (on_engine_driver m).
Proof. intros Hm. by apply in_env_pres, env_on_engine. Qed.

Lemma in_orchestrator_pres {A} (m : M (Orchestrator W) _ A) :
  preserves orch_inv m → preserves orch_inv_anc (in_orchestrator m).
Proof.
  intros Hm [o a] Ho. specialize (Hm o Ho). unfold orch_inv_anc, in_orchestrator, zoom. cbn [fst].
  destruct (m o) as [r o1]. exact Hm.
Qed.

Hint Resolve client_pres : node.

(** Splits a handler into its statements. *)
Ltac solve_orch :=
  repeat first
    [ progress intros
    | solve [eauto 2 with node]
    | match goal with
      | |- preserves _ (bind _ _) => apply preserves_bind
      | |- preserves _ (try _) => apply preserves_try
      | |- preserves _ (map_err _ _) => apply preserves_map_err
      | |- preserves _ (for_each _ _) => apply preserves_for_each
      | |- preserves _ (db _) => apply db_pres
      | |- preserves _ (tx _) => apply tx_pres
      | |- preserves _ (in_tx _) => apply preserves_map_err
      | |- preserves _ (on_l2_client _) => apply client_pres
      | |- preserves _ (in_orchestrator _) => apply in_orchestrator_pres
      | |- preserves _ (on_engine_driver _) => apply engine_pres
      | |- preserves _ (new_payload _) => apply same_fcs_pres; intros; apply new_payload_fcs
      | |- preserves _ (update_fcs (Some _) None None) => apply update_fcs_pres, Hhead
      | |- preserves _ (optimistic_sync _) => apply optimistic_sync_pres, Hhead
      | |- preserves _ (modify _) => apply preserves_modify; solve [done]
      | |- preserves _ (if ?b then _ else _) => destruct b
      | |- preserves _ (match ?x with _ => _ end) => destruct x
      end ].

Lemma send_pres m : preserves orch_inv (send m).
Proof. unfold send. solve_orch. Qed.
Lemma notify_pres e : preserves orch_inv (notify e).
Proof. unfold notify. pose proof send_pres. solve_orch. Qed.
Hint Resolve send_pres notify_pres : node.
Lemma notify_opt_pres e : preserves orch_inv (notify_opt e).
Proof. unfold notify_opt. solve_orch. Qed.
Lemma push_batch_pres s b : preserves orch_inv (push_batch s b).
Proof. unfold push_batch. solve_orch. Qed.
Lemma get_fcs_pres : preserves orch_inv get_fcs.
Proof. unfold get_fcs. solve_orch. Qed.
Lemma synced_pres : preserves orch_inv synced.
Proof. unfold synced. solve_orch. Qed.
Lemma set_l1_mode_pres m : preserves orch_inv (set_l1_mode m).
Proof. unfold set_l1_mode. solve_orch. Qed.
Lemma set_l2_mode_pres m : preserves orch_inv (set_l2_mode m).
Proof. unfold set_l2_mode. solve_orch. Qed.
Lemma modify_sequencer_pres f : preserves orch_inv (modify_sequencer f).
Proof. unfold modify_sequencer. solve_orch. Qed.
Lemma l2_block_at_pres n : preserves orch_inv (l2_block_at n).
Proof. unfold l2_block_at. solve_orch. Qed.
Hint Resolve notify_opt_pres push_batch_pres get_fcs_pres synced_pres set_l1_mode_pres
  set_l2_mode_pres modify_sequencer_pres l2_block_at_pres : node.

Lemma compare_l1_messages_pres hs ms : preserves orch_inv (compare_l1_messages hs ms).
Proof. revert ms. induction hs; intros [|m ms]; simpl; solve_orch. Qed.
Hint Resolve compare_l1_messages_pres : node.

Lemma validate_l1_messages_pres bs : preserves orch_inv (validate_l1_messages bs).
Proof. unfold validate_l1_messages. solve_orch. Qed.
Lemma fetch_blocks_pres ns : preserves orch_inv (fetch_blocks ns).
Proof. induction ns; simpl; solve_orch. Qed.
Hint Resolve validate_l1_messages_pres fetch_blocks_pres : node.
Lemma consolidate_chunk_pres ns : preserves orch_inv (consolidate_chunk ns).
Proof. unfold consolidate_chunk. solve_orch. Qed.
Hint Resolve consolidate_chunk_pres : node.
Lemma consolidate_chain_pres : preserves orch_inv consolidate_chain.
Proof.
  unfold consolidate_chain, fetch_and_update_unprocessed_committed_batches. solve_orch.
Qed.
Lemma submit_block_pres p b : preserves orch_inv (submit_block p b).
Proof. unfold submit_block. solve_orch. Qed.
Hint Resolve consolidate_chain_pres submit_block_pres : node.

Lemma import_chain_pres c bp : preserves orch_inv (import_chain c bp).
Proof. unfold import_chain, set_l2_head_block_number. solve_orch. Qed.
Hint Resolve import_chain_pres : node.

Lemma extend_ancestors_pres hs : preserves orch_inv_anc (extend_ancestors hs).
Proof. unfold extend_ancestors. solve_orch. Qed.
Lemma common_ancestor_pres i hs : preserves orch_inv (common_ancestor i hs).
Proof. revert i. induction hs; intros i; simpl; solve_orch. Qed.
Lemma block_range_pres h n : preserves orch_inv (block_range h n).
Proof. unfold block_range. solve_orch. Qed.
Hint Resolve extend_ancestors_pres common_ancestor_pres block_range_pres : node.

Lemma fork_loop_pres fuel bp s hs : preserves orch_inv_anc (fork_loop fuel bp s hs).
Proof. revert hs. induction fuel; intros hs; simpl; solve_orch. Qed.
Lemma extend_head_pres bp h : preserves orch_inv_anc (extend_head bp h).
Proof. unfold extend_head. solve_orch. Qed.
Lemma fork_below_head_pres bp f : preserves orch_inv (fork_below_head bp f).
Proof. unfold fork_below_head. solve_orch. Qed.
Lemma optimistic_sync_to_pres b : preserves orch_inv (optimistic_sync_to b).
Proof. unfold optimistic_sync_to. solve_orch. Qed.
Hint Resolve fork_loop_pres extend_head_pres fork_below_head_pres optimistic_sync_to_pres : node.

Variable config : ChainOrchestratorConfig.

Lemma handle_block_from_peer_pres bp : preserves orch_inv_anc (handle_block_from_peer config bp).
Proof. unfold handle_block_from_peer. solve_orch. Qed.

Lemma track_blocked_import_env bp a r (o : Orchestrator W) :
  env (track_blocked_import bp a r o) = env o ∧
  derivation_driver (track_blocked_import bp a r o) = derivation_driver o.
Proof. unfold track_blocked_import. by repeat case_match. Qed.

Lemma import_peer_block_pres bp : preserves orch_inv (import_peer_block config bp).
Proof.
  intros o Ho. unfold import_peer_block.
  pose proof (handle_block_from_peer_pres bp (o, [parent_hash (header (nb_block bp))]) Ho) as Hh.
  destruct (handle_block_from_peer _ _ _) as [r [o' a]].
  assert (∀ r, orch_inv (track_blocked_import bp a r o')) as Ht.
  { intros r'. unfold orch_inv. by destruct (track_blocked_import_env bp a r' o') as [-> ->]. }
  destruct r; [apply Ht|apply Ht|exact Hh].
Qed.
Hint Resolve import_peer_block_pres : node.

Lemma handle_network_event_pres bp : preserves orch_inv (handle_network_event config bp).
Proof. unfold handle_network_event. solve_orch. Qed.
Lemma retry_blocked_import_pres : preserves orch_inv (retry_blocked_import config).
Proof. unfold retry_blocked_import. solve_orch. Qed.

(** ** The rest of the run loop

    With [Pf] closed under every update, and [Pr] under what the loop does with its driver. *)

Context (Hall : ∀ h s f, fcs_closed Pf h s f).
Context (Hr_cancel : ∀ d, Pr d → Pr (cancel_attempt d)).
Context (Hr_fresh : ∀ now d, Pr d → Pr (schedule_fresh_reconciliation now d)).
Context (Hr_none : Pr (mkDriver None None)).
Context (Hr_pending : ∀ p s, Pr (mkDriver (Some p) s)).
Variable clock : Clock.

(** Computations on the node's resources alone. *)
Ltac solve_env :=
  repeat first
    [ progress intros
    | solve [eauto 2 with node]
    | match goal with
      | |- preserves _ (bind _ _) => apply preserves_bind
      | |- preserves _ (on_client _ _) => apply env_on_client
      | |- preserves _ (on_database _ _) => apply env_on_database
      | |- preserves _ (on_engine _ (new_payload _)) =>
          apply env_on_engine, same_fcs_pres; intros; apply new_payload_fcs
      | |- preserves _ (on_engine _ (get_payload _)) =>
          apply env_on_engine, same_fcs_pres; intros; apply get_payload_fcs
      | |- preserves _ (on_engine _ (build_payload _ _)) =>
          apply env_on_engine, same_fcs_pres; intros; apply build_payload_fcs
      | |- preserves _ (on_engine _ (update_fcs_checked _ _ _)) =>
          apply env_on_engine, update_fcs_checked_pres, Hall
      | |- preserves _ (if ?b then _ else _) => destruct b
      | |- preserves _ (match ?x with _ => _ end) => destruct x
      end ].

Lemma reconcile_and_consolidate_pres batch :
  preserves (env_inv Pf Pd) (reconcile_and_consolidate batch).
Proof.
  assert (preserves (env_inv Pf Pd) (check_safe_frontier (rs_batch_info batch))) as Hf.
  { unfold check_safe_frontier, engine_safe_block. solve_env. }
  assert (∀ ts actions, preserves (env_inv Pf Pd) (run_actions batch ts actions)) as Ha.
  { intros ts actions.
    induction actions as [|[info|info|i] actions IH]; simpl; solve_env;
      unfold action_update_fcs, action_reorg, engine_safe_block; solve_env. }
  unfold reconcile_and_consolidate. solve_env.
Qed.

Lemma run_attempt_pres now :
  preserves orch_inv (λ o, let '(r, (d, e)) := run_attempt (E := ChainOrchestratorError) now
                                                 (derivation_driver o, env o) in
                           (r, set_driver d (set_env e o))).
Proof.
  intros o [Ho Hr]. unfold run_attempt. destruct (pending (derivation_driver o)) as [p|]; [|done].
  pose proof (reconcile_and_consolidate_pres (pb_batch (start_attempt p)) _ Ho) as He.
  destruct (reconcile_and_consolidate _ _) as [[c|[r|f]|] e]; simpl in *; split; simpl; auto.
Qed.

Definition seq_inv (s : Sequencer * Env W) : Prop := env_inv Pf Pd (snd s).

Lemma on_env_pres {A} (m : M (Env W) SequencerError A) :
  preserves (env_inv Pf Pd) m → preserves seq_inv (on_env m).
Proof.
  intros Hm [s e] Hs. specialize (Hm e Hs). unfold seq_inv, on_env, zoom. cbn [snd].
  destruct (m e) as [r e']. exact Hm.
Qed.

Ltac solve_seq :=
  repeat first
    [ progress intros
    | solve [eauto 2 with node]
    | match goal with
      | |- preserves _ (bind _ _) => apply preserves_bind
      | |- preserves _ (try _) => apply preserves_try
      | |- preserves _ (on_env _) => apply on_env_pres; solve [solve_env]
      | |- preserves _ (sequencer_modify _) => apply preserves_modify; solve [done]
      | |- preserves _ (sequencer_gets _) => apply preserves_gets
      | |- preserves _ (let '_ := ?x in _) => destruct x
      | |- preserves _ (if ?b then _ else _) => destruct b
      | |- preserves _ (match ?x with _ => _ end) => destruct x
      end ].

Lemma start_payload_building_pres ts : preserves seq_inv (start_payload_building ts).
Proof. unfold start_payload_building. solve_seq. Qed.

Lemma finalize_payload_building_pres pid : preserves seq_inv (finalize_payload_building pid).
Proof. unfold finalize_payload_building. solve_seq. Qed.

Lemma on_sequencer_pres {A} (m : M (Sequencer * Env W) SequencerError A) :
  preserves seq_inv m → preserves orch_inv (on_sequencer m).
Proof.
  intros Hm o [Ho Hr]. unfold on_sequencer. destruct (sequencer o) as [s|]; [|done].
  specialize (Hm (s, env o) Ho). destruct (m (s, env o)) as [r [s' e']]. by split.
Qed.

Ltac solve_loop :=
  repeat first
    [ progress solve_orch
    | match goal with
      | |- preserves _ (on_sequencer (start_payload_building _)) =>
          apply on_sequencer_pres, start_payload_building_pres
      | |- preserves _ (on_sequencer (finalize_payload_building _)) =>
          apply on_sequencer_pres, finalize_payload_building_pres
      | |- preserves _ (update_fcs _ _ _) => apply update_fcs_pres, Hall
      | |- preserves _ (update_fcs_checked _ _ _) => apply update_fcs_checked_pres, Hall
      end ].

Lemma modify_driver_pres f : (∀ d, Pr d → Pr (f d)) → preserves orch_inv (modify_driver f).
Proof. intros Hf. apply preserves_modify. intros o [Ho Hr]. split; simpl; auto. Qed.

Lemma cancel_attempt_pres : preserves orch_inv (modify_driver cancel_attempt).
Proof. by apply modify_driver_pres. Qed.
Lemma fresh_pres now : preserves orch_inv (modify_driver (schedule_fresh_reconciliation now)).
Proof. apply modify_driver_pres. auto. Qed.
Hint Resolve cancel_attempt_pres fresh_pres : node.

Lemma unwind_held_pres n : preserves orch_inv (unwind_and_revalidate_held_batch n).
Proof.
  unfold unwind_and_revalidate_held_batch. apply preserves_bind; [solve_orch|]. intros _ o [[He Hd] Hr].
  unfold unwind_and_revalidate, tx_mut.
  assert (preserves Pd (unwind_and_check (held_identity (derivation_driver o)) n)) as Hu.
  { unfold unwind_and_check. solve_orch. }
  specialize (Hu _ Hd). destruct (unwind_and_check _ _ _) as [[[ur ho]|e|] d']; simpl in *.
  - destruct (is_invalidated ho); by repeat split.
  - by repeat split.
  - by repeat split.
Qed.
Hint Resolve unwind_held_pres : node.

Lemma update_after_unwind_pres op h s : preserves orch_inv (update_fcs_after_unwind op h s).
Proof. unfold update_fcs_after_unwind. cbv zeta. solve_loop. Qed.
Lemma collect_reverted_pres ns : preserves orch_inv (collect_reverted_txs ns).
Proof. induction ns; simpl; solve_orch. Qed.
Lemma reinsert_pres txs : preserves orch_inv (reinsert_txs_into_pool txs).
Proof. unfold reinsert_txs_into_pool. solve_orch. Qed.
Hint Resolve update_after_unwind_pres collect_reverted_pres reinsert_pres : node.
Lemma new_l2_head_pres n : preserves orch_inv (new_l2_head n).
Proof. unfold new_l2_head, collect_reverted_txs_in_range. solve_orch. Qed.
Hint Resolve new_l2_head_pres : node.
Lemma queue_hash_pres m : preserves orch_inv (compute_l1_message_queue_hash config m).
Proof. unfold compute_l1_message_queue_hash. solve_orch. Qed.
Hint Resolve queue_hash_pres : node.

(** The invariant of the database allows what the notification inserts. *)
Definition allowed (n : L1Notification) : Prop :=
  match n with
  | BatchCommit _ data => from_batch data
  | L1MessageSent message bi _ =>
      ∀ queue_hash, from_message (mkL1MessageEnvelope message (number bi) None queue_hash)
  | _ => True
  end.

Lemma handle_l1_notification_pres n :
  allowed n → preserves orch_inv (handle_l1_notification config clock n).
Proof.
  intros Hn. destruct n; simpl in *;
    unfold handle_l1_reorg, handle_l1_new_block, handle_l1_finalized, handle_batch_commit,
      handle_batch_revert, handle_l1_message, handle_batch_finalization, batch_commit_tx,
      l1_message_tx, set_processed_l1_block_number, set_latest_l1_block_number,
      fetch_and_update_unprocessed_finalized_batches, get_finalized_l1_block_number; solve_loop.
Qed.

Lemma handle_command_pres c : preserves orch_inv (handle_command clock c).
Proof.
  destruct c; simpl;
    unfold build_block, orchestrator_status, update_fcs_head, enable_sequencing, disable_sequencing,
      revert_to_l1_block, collect_reverted_txs_in_range, get_latest_l1_block_number,
      get_finalized_l1_block_number, get_processed_l1_block_number, set_l2_head_block_number;
    solve_loop.
Qed.

Lemma handle_sequencer_event_pres e : preserves orch_inv (handle_sequencer_event clock e).
Proof. destruct e; simpl; unfold sign_block_request; solve_loop. Qed.

Lemma handle_outcome_pres r : preserves orch_inv (handle_outcome r).
Proof. unfold handle_outcome. solve_orch. Qed.
Hint Resolve handle_l1_notification_pres handle_command_pres handle_sequencer_event_pres
  handle_outcome_pres run_attempt_pres handle_network_event_pres retry_blocked_import_pres : node.

Definition allowed_input (i : Input) : Prop :=
  match i with NotificationIn n => allowed n | _ => True end.

Lemma run_step_pres i : allowed_input i → preserves orch_inv (run_step config clock i).
Proof.
  intros Hi. destruct i; simpl in *; unfold attempt_step, attempt_outcome, command_step, sequencer_step, hold_step,
    notification_step, handle_signer_event, set_l2_head_block_number; solve_loop.
  intros o [Ho Hr]. unfold zoom, hold_batch, bind, get.
  destruct (negb (can_accept_batch _)); (split; [exact Ho|]); [exact Hr|apply Hr_pending].
Qed.
End Pres.
