(* ===== verification/Provenance.v ===== *)
(** * Where the rows of the database come from

    The columns of a message or of a batch that L1 determines are those of a notification, whatever
    the node did to the row since: the invariant [from_l1] says so for a set [N] of notifications,
    survives every statement of the database, and with it every iteration of the run loop whose
    notifications are in [N]. *)

From S2P Require Import Prelude Sql Primitives Watcher BigEndian Codec Engine DbModel DbOps DbInvariant.
From S2P Require Import World Signing Sequencer Pipeline Consolidation Driver Orchestrator.
From S2P Require Import RunLoop OrchestratorInv OrchestratorProps.

(** The row holds the message of the notification. *)
Definition message_of `{Chain} (n : L1Notification) (r : MsgRow) : Prop :=
  match n with
  | L1MessageSent message bi _ =>
      ∃ queue_hash, message_cols r =
        message_cols (MsgRow_from (mkL1MessageEnvelope message (number bi) None queue_hash))
  | _ => False
  end.

(** The row holds the batch of the notification. *)
Definition batch_of (n : L1Notification) (r : BatchRow) : Prop :=
  match n with
  | BatchCommit _ data =>
      ∃ row, @BatchRow_from DatabaseError data = Ok row ∧ batch_cols r = batch_cols row
  | _ => False
  end.

Section Rows.
Context `{SqlEngine} `{Chain}.
(** The database the node started from, and the notifications since. *)
Context (d0 : Db) (N : L1Notification → Prop).

Definition message_known (r : MsgRow) : Prop :=
  (∃ r0, r0 ∈ l1_message d0 ∧ message_cols r0 = message_cols r) ∨ (∃ n, N n ∧ message_of n r).
Definition batch_known (r : BatchRow) : Prop :=
  (∃ r0, r0 ∈ batch_commit d0 ∧ batch_cols r0 = batch_cols r) ∨ (∃ n, N n ∧ batch_of n r).

Record from_l1 (d : Db) : Prop := {
  fl_messages : Forall message_known (l1_message d);
  fl_batches : Forall batch_known (batch_commit d)
}.

Lemma message_known_cols r r' : message_cols r' = message_cols r → message_known r → message_known r'.
Proof.
  intros Hc [(r0 & Hr0 & Hc0)|(n & Hn & Hr)]; [left; exists r0; by rewrite Hc|].
  right. exists n. split; [done|]. destruct n; try done. destruct Hr as [qh Hr].
  exists qh. by rewrite Hc.
Qed.
Lemma batch_known_cols r r' : batch_cols r' = batch_cols r → batch_known r → batch_known r'.
Proof.
  intros Hc [(r0 & Hr0 & Hc0)|(n & Hn & Hr)]; [left; exists r0; by rewrite Hc|].
  right. exists n. split; [done|]. destruct n; try done. destruct Hr as (row & Hrow & Hr).
  exists row. by rewrite Hc.
Qed.

Lemma Forall_update_many {R} (P : R → Prop) p f t :
  (∀ r, p r = true → P r → P (f r)) → Forall P t → Forall P (update_many p f t).
Proof.
  intros Hf Ht. unfold update_many. apply Forall_fmap. eapply Forall_impl; [exact Ht|].
  intros r Hr. simpl. destruct (p r) eqn:E; auto.
Qed.

Lemma Forall_delete_many {R} (P : R → Prop) p t : Forall P t → Forall P (delete_many p t).
Proof.
  intros Ht. apply Forall_forall. intros r [Hr _]%elem_of_delete_many. rewrite Forall_forall in Ht. auto.
Qed.

(** Tables that are not touched. *)
Lemma from_l1_same d d' :
  l1_message d' = l1_message d → batch_commit d' = batch_commit d → from_l1 d → from_l1 d'.
Proof. intros Hm Hb []. by split; rewrite ?Hm, ?Hb. Qed.

Lemma from_l1_insert_batch bi data : N (BatchCommit bi data) → preserves from_l1 (insert_batch data).
Proof.
  intros Hn d [Hm Hb]. unfold insert_batch, bind, lift, modify.
  destruct (BatchRow_from data) as [row|e|] eqn:Hrow; [|by split..]. split; [done|]. simpl.
  assert (∀ r, batch_cols r = batch_cols row → batch_known r) as Hknown.
  { intros r Hr. right. eexists. split; [exact Hn|]. by exists row. }
  unfold upsert_batch. destruct (is_in _ _).
  - apply Forall_update_many; [|done]. intros r Heq%Z.eqb_eq _. apply Hknown.
    unfold batch_cols. simpl. by rewrite Heq.
  - apply Forall_app. split; [done|]. apply Forall_singleton. by apply Hknown.
Qed.

Lemma from_l1_insert_message message bi ts queue_hash :
  N (L1MessageSent message bi ts) →
  preserves from_l1 (insert_l1_message (mkL1MessageEnvelope message (number bi) None queue_hash)).
Proof.
  intros Hn d [Hm Hb]. unfold insert_l1_message, modify. simpl.
  destruct (existsb _ _); (split; [|done]); simpl; [done|].
  apply Forall_app. split; [done|]. apply Forall_singleton. right. eexists. split; [exact Hn|].
  by exists queue_hash.
Qed.

Lemma from_l1_delete_batches p : preserves from_l1 (delete_batches p).
Proof.
  intros d [Hm Hb]. unfold delete_batches, bind, get, modify, ret. simpl.
  split; [done|]. simpl. by apply Forall_delete_many.
Qed.

Lemma from_l1_delete_messages n : preserves from_l1 (delete_l1_messages_gt n).
Proof.
  unfold delete_l1_messages_gt. apply preserves_bind; [apply preserves_get|]. intros d1.
  apply preserves_bind; [|intros; apply preserves_lift].
  apply preserves_modify. intros d [Hm Hb]. split; [|done]. simpl. by apply Forall_delete_many.
Qed.

Lemma from_l1_insert_blocks bs batch : preserves from_l1 (insert_blocks bs batch).
Proof.
  intros d Hd. unfold insert_blocks, bind, lift, get. destruct (L2Rows_from _ _); [|done..].
  destruct (_ && _); [done|]. revert Hd. by apply from_l1_same.
Qed.

#[export] Instance from_l1_closed : DbClosed from_l1.
Proof.
  refine {|
    from_batch data := ∃ bi, N (BatchCommit bi data);
    from_message m := ∃ message bi ts queue_hash, N (L1MessageSent message bi ts) ∧
      m = mkL1MessageEnvelope message (number bi) None queue_hash
  |}.
  - intros p f Hf. apply preserves_modify. intros d [Hm Hb]. split; [done|]. simpl.
    apply Forall_update_many; [|done]. intros r _. by apply batch_known_cols.
  - intros p f Hf. apply preserves_modify. intros d. by apply from_l1_same.
  - intros p f Hf. apply preserves_modify. intros d [Hm Hb]. split; [|done]. simpl.
    apply Forall_update_many; [|done]. intros r _. by apply message_known_cols.
  - intros k v. apply preserves_modify. intros d. by apply from_l1_same.
  - intros n h d Hd. unfold upsert_l1_block, bind, get. destruct (hash_taken n h d); [done|].
    revert Hd. by apply from_l1_same.
  - intros keep dec. apply preserves_modify. intros d. by apply from_l1_same.
  - intros f. apply preserves_modify. intros d. by apply from_l1_same.
  - intros b [bi Hn]. by eapply from_l1_insert_batch.
  - apply from_l1_delete_batches.
  - intros p d Hd. unfold delete_l2_blocks, bind, get, modify, ret. simpl. revert Hd. by apply from_l1_same.
  - intros m (message & bi & ts & qh & Hn & ->). by eapply from_l1_insert_message.
  - apply from_l1_delete_messages.
  - apply from_l1_insert_blocks.
Defined.

Lemma from_l1_start : from_l1 d0.
Proof. split; apply Forall_forall; intros r Hr; left; by exists r. Qed.
End Rows.

Section Loop.
Context `{SqlEngine} `{Chain} `{!PayloadConversion} `{Timers} `{Rlp} `{SignerRecovery}
  `{SignatureBytes} `{!EngineApi W} `{!L2Provider W} `{!BlockClient W}.
Variable config : ChainOrchestratorConfig.
Implicit Types o : Orchestrator W.

(** An iteration of the loop keeps the provenance when its notification is one of [N]. *)
Lemma run_step_from_l1 d0 (N : L1Notification → Prop) clock i o :
  match i with NotificationIn n => N n | _ => True end →
  from_l1 d0 N (database (env o)) →
  from_l1 d0 N (database (env (run_step config clock i o).2)).
Proof.
  intros Hi Hd.
  assert (orch_inv (λ _, True) (from_l1 d0 N) (λ _, True) o) as Ho by done.
  refine (proj2 (proj1 (run_step_pres (λ _, True) (from_l1 d0 N) (λ _, True) _ config _ _ _ _ _
                          clock i _ o Ho))); try done.
  destruct i as [| | | | | | |[]]; try done; simpl in *; [by eexists|].
  intros queue_hash. by do 4 eexists.
Qed.
End Loop.
