(* ===== verification/System.v ===== *)
(** * The L1 watcher and the orchestrator together

    The channel between the two tasks (crates/watcher/src/handle/mod.rs), the system of both as a
    step relation, and what it stores of L1: every message and every batch in the database was in a
    log the L1 node served.  A round of the watcher and an iteration of the run loop are steps; the
    capacity of the channel, which only delays the sender, is left out. *)

From S2P Require Import Prelude Sql Primitives BigEndian Codec Engine DbModel DbOps DbInvariant.
From S2P Require Import World Signing Sequencer Pipeline Consolidation Driver Orchestrator.
From S2P Require Import RunLoop OrchestratorInv OrchestratorProps Provenance Watcher WatcherProps WatcherRuns.

(** ** The handle of the watcher *)

(** The commands the watcher has not read, and how many notifications of the current channel were
    received. *)
Record L1WatcherHandle := mkWatcherHandle {
  unread_commands : list L1WatcherCommand;
  received : nat
}.

Definition drop_receiver (s : NotificationSender) : NotificationSender := mkSender false (sent s).
Definition drop_command_receiver '(ResetToBlock block tx) : L1WatcherCommand :=
  ResetToBlock block (drop_receiver tx).

(** ** The system *)

Section System.
Context `{SqlEngine} `{Chain} `{!PayloadConversion} `{Timers} `{Rlp} `{SignerRecovery}
  `{SignatureBytes} `{!EngineApi W} `{!L2Provider W} `{!BlockClient W}.
Context `{L1Abi} `{!L1Node L1} `{Allocation}.
Variable config : ChainOrchestratorConfig.

Record System := mkSystem {
  watcher : L1Watcher L1;
  handle : L1WatcherHandle;
  node : Orchestrator W
}.
Definition set_watcher (w : L1Watcher L1) (s : System) : System := mkSystem w (handle s) (node s).
Definition set_handle (h : L1WatcherHandle) (s : System) : System := mkSystem (watcher s) h (node s).
Definition set_node (o : Orchestrator W) (s : System) : System := mkSystem (watcher s) (handle s) o.

(** [L1WatcherHandle::revert_to_l1_block]: a command with the sender of a fresh channel; the
    receiver of the channel before it is dropped, whether the watcher has its sender or a command
    still carries it. *)
Definition handle_revert_to_l1_block (block : Z) (s : System) : System :=
  mkSystem (set_sender (drop_receiver (sender (watcher s))) (watcher s))
    (mkWatcherHandle (map drop_command_receiver (unread_commands (handle s)) ++
                      [ResetToBlock block (mkSender true [])]) 0)
    (node s).

(** The next notification of the current channel; a channel whose command is unread is empty. *)
Definition l1_notification (s : System) : option L1Notification :=
  match unread_commands (handle s) with
  | [] => sent (sender (watcher s)) !! received (handle s)
  | _ => None
  end.
Definition take_notification (s : System) : System :=
  set_handle (mkWatcherHandle (unread_commands (handle s)) (S (received (handle s)))) s.

(** The resets the orchestrator asked for on its way from [o] to [o']. *)
Definition resets_between (o o' : Orchestrator W) : list Z :=
  omap (λ m, match m with WatcherReset n => Some n | _ => None end) (drop (length (outbox o)) (outbox o')).

(** An iteration of the run loop. *)
Definition node_step (clock : Clock) (i : Input) (s : System) : System :=
  let o' := (run_step config clock i (node s)).2 in
  foldl (λ s n, handle_revert_to_l1_block n s) (set_node o' s) (resets_between (node s) o').

Definition is_notification (i : Input) : bool :=
  match i with NotificationIn _ => true | _ => false end.

Inductive sys_step : System → System → Prop :=
| sys_l1_moves p s : sys_step s (set_watcher (set_provider p (watcher s)) s)
| sys_watch fuel w' s :
    run_round fuel (unread_commands (handle s)) (watcher s) = (Ok true, w') →
    sys_step s (mkSystem w' (mkWatcherHandle [] (received (handle s))) (node s))
| sys_notification clock n s :
    l1_notification s = Some n → enabled (NotificationIn n) (node s) = true →
    sys_step s (node_step clock (NotificationIn n) (take_notification s))
| sys_other clock i s :
    is_notification i = false → enabled i (node s) = true →
    sys_step s (node_step clock i s).

(** A system whose watcher has just been spawned. *)
Definition sys_start (s : System) : Prop :=
  handle s = mkWatcherHandle [] 0 ∧
  ∃ fuel info node_config range p p', spawn fuel info node_config range p = (Ok (watcher s), p').

(** ** What the watcher sends *)

(** The notification relays a log that L1 served. *)
Definition from_logs (n : L1Notification) : Prop :=
  ∃ f logs p p' entry ns, l1_get_logs f p = (Ok logs, p') ∧
    entry ∈ positions logs ∧ relays_at entry ns ∧ n ∈ ns.
Definition reported (n : L1Notification) : Prop :=
  match n with L1MessageSent _ _ _ | BatchCommit _ _ => from_logs n | _ => True end.
Definition all_reported (w : L1Watcher L1) : Prop := Forall reported (sent (sender w)).

Lemma relays_all_reported entries ns n :
  relays_all entries ns → n ∈ ns → ∃ entry ms, entry ∈ entries ∧ relays_at entry ms ∧ n ∈ ms.
Proof.
  intros (nss & -> & Hall) (ms & Hms & Hn)%list_elem_of_In%in_concat.
  apply list_elem_of_In in Hms, Hn. apply list_elem_of_lookup in Hms as [i Hi].
  destruct (Forall2_lookup_r _ _ _ _ _ Hall Hi) as (entry & He & Hr).
  exists entry, ms. split; [by eapply list_elem_of_lookup_2|done].
Qed.

Lemma notify_reported n : reported n → preserves all_reported (watcher_notify n).
Proof.
  intros Hn w Hw. unfold watcher_notify, bind, gets. destruct (receiver_alive _); [|done].
  unfold modify, all_reported. simpl. apply Forall_app. split; [done|]. by apply Forall_singleton.
Qed.

Lemma reads_reported {A} (m : M (L1Watcher L1) StepFailure A) :
  reads_only m → preserves all_reported m.
Proof. intros Hm w Hw. destruct (Hm w) as [p ->]. done. Qed.

Lemma notify_all_reported ns : Forall reported ns → preserves all_reported (notify_all ns).
Proof.
  intros Hns. unfold notify_all. induction Hns as [|n ns Hn _ IH]; simpl; [apply preserves_ret|].
  apply preserves_bind; [by apply notify_reported|done].
Qed.

Ltac solve_reported :=
  repeat first
    [ progress intros
    | solve [auto with node]
    | match goal with
      | |- preserves _ (bind _ _) => apply preserves_bind
      | |- preserves _ (try _) => apply preserves_try
      | |- preserves _ (watcher_notify _) => apply notify_reported; exact Logic.I
      | |- preserves _ (modify _) => apply preserves_modify; solve [auto | intros w ?; by case_match]
      | |- preserves _ (if ?b then _ else _) => destruct b
      | |- preserves _ (match ?x with _ => _ end) => destruct x
      end ].

Lemma handle_finalized_block_reported fin : preserves all_reported (handle_finalized_block fin).
Proof. unfold handle_finalized_block, drain_finalized. solve_reported. Qed.

Lemma walk_reads_only fuel fin cur chain : reads_only (W := L1) (walk fuel fin cur chain).
Proof.
  revert cur chain. induction fuel as [|fuel IH]; intros cur chain; simpl;
    (apply reads_bind; [apply reads_gets|]; intros blocks); apply reads_if; try apply reads_ret;
    [apply reads_fail|].
  apply reads_bind; [apply reads_rpc|]. intros b. apply reads_bind; [apply reads_lift|]. auto.
Qed.

Lemma handle_latest_block_reported fuel fin latest :
  preserves all_reported (handle_latest_block fuel fin latest).
Proof.
  unfold handle_latest_block, replace_chain, update_head.
  assert (preserves all_reported (fetch_unfinalized_chain fuel fin latest)).
  { apply reads_reported. unfold fetch_unfinalized_chain.
    apply reads_bind; [apply walk_reads_only|]. intros [pos chain].
    apply reads_bind; [apply reads_gets|]. intros. apply reads_ret. }
  solve_reported.
Qed.

Lemma update_reported latest w update w' :
  handle_system_contract_update latest w = (Ok update, w') → Forall reported (option_list update).
Proof.
  unfold handle_system_contract_update, bind at 1, gets. cbv beta iota.
  destruct (negb _); [|unfold ret; intros; simplify_eq; constructor].
  intros (c & w1 & _ & Hr)%bind_Ok. apply bind_Ok in Hr as (signer & w2 & _ & Hr).
  unfold ret in Hr. simplify_eq. by repeat constructor.
Qed.

Lemma index_range_reported latest : preserves all_reported (index_range latest).
Proof.
  intros w Hw. unfold index_range, next_filtered_logs, bind at 1, bind at 1, get. cbv beta iota.
  destruct (next_range _ _ _) as [from to].
  match goal with |- context [rpc ?e ?m w] =>
    destruct (rpc e m w) as [[logs|e'|] w1] eqn:Hlogs; pose proof (reads_reported _ (reads_rpc e m) w Hw) as Hw1 end;
    rewrite Hlogs in Hw1; [|done..]. apply rpc_Ok in Hlogs as (p & Hlogs & ->).
  unfold bind at 1. pose proof (reads_reported _ (notifications_of_reads logs) _ Hw1) as Hw2.
  destruct (notifications_of logs _) as [[ns|e'|] w2] eqn:Hns; [|done..].
  apply notifications_of_relays in Hns. simpl in Hw2. unfold bind at 1.
  pose proof (reads_reported _ (handle_system_contract_update_reads latest) _ Hw2) as Hw3.
  destruct (handle_system_contract_update latest w2) as [[update|e'|] w3] eqn:Hu; [|done..].
  assert (Forall reported (ns ++ option_list update)) as Hall.
  { apply Forall_app. split; [|by eapply update_reported]. apply Forall_forall. intros n Hn.
    destruct (relays_all_reported _ _ _ Hns Hn) as (entry & ms & ?).
    assert (from_logs n) by (by do 6 eexists). by destruct n. }
  revert w3 Hw3 Hu. intros w3 Hw3 _. simpl in Hw3. revert w3 Hw3.
  match goal with |- ∀ w3, _ → all_reported (?m w3).2 => change (preserves all_reported m) end.
  unfold update_current_block, werr. pose proof (notify_all_reported _ Hall). solve_reported.
Qed.

Lemma watcher_step_reported fuel : preserves all_reported (watcher_step fuel).
Proof.
  unfold watcher_step.
  assert (preserves all_reported finalized_block).
  { apply reads_reported. apply reads_bind; [apply reads_rpc|]. intros. apply reads_lift. }
  assert (preserves all_reported latest_block).
  { apply reads_reported. apply reads_bind; [apply reads_rpc|]. intros. apply reads_lift. }
  pose proof handle_finalized_block_reported. pose proof handle_latest_block_reported.
  pose proof index_range_reported. solve_reported.
Qed.

Definition fresh (c : L1WatcherCommand) : Prop := match c with ResetToBlock _ tx => sent tx = [] end.

Lemma commands_reported cs :
  Forall fresh cs → preserves all_reported (for_each watcher_handle_command cs).
Proof.
  intros Hcs. induction Hcs as [|[block tx] cs Hc _ IH]; simpl; [apply preserves_ret|].
  apply preserves_bind; [|done]. apply preserves_modify. intros w _. unfold all_reported. simpl.
  simpl in Hc. rewrite Hc. constructor.
Qed.

Lemma run_round_reported fuel cs : Forall fresh cs → preserves all_reported (run_round fuel cs).
Proof.
  intros Hcs. unfold run_round. apply preserves_bind; [by apply commands_reported|]. intros _.
  pose proof watcher_step_reported. solve_reported.
Qed.

Lemma spawn_reported fuel info node_config range p w p' :
  spawn fuel info node_config range p = (Ok w, p') → all_reported w.
Proof.
  unfold spawn. intros (h & p1 & _ & Hr)%bind_Ok. apply bind_Ok in Hr as (f & p2 & _ & Hr).
  apply bind_Ok in Hr as ([reorg start] & p3 & _ & Hr). unfold bind, get, ret in Hr. simplify_eq.
  unfold all_reported. simpl. destruct reorg; by repeat constructor.
Qed.

(** ** What the system stores *)

(** The row holds a message that a log of L1 carries, and the block of the log. *)
Definition message_served (r : MsgRow) : Prop :=
  ∃ f logs p p' log event block queue_hash,
    l1_get_logs f p = (Ok logs, p') ∧ log ∈ logs ∧
    event_of log QueueTransaction_SIGNATURE ∧ QueueTransaction_decode_log log = Ok event ∧
    block_of log block ∧
    message_cols r = message_cols
      (MsgRow_from (mkL1MessageEnvelope (TxL1Message_from event) (number block) None queue_hash)).

(** The row holds a batch that a log of L1 commits, with the input and the blob of its transaction. *)
Definition batch_served (r : BatchRow) : Prop :=
  ∃ f logs p p' first idx log event block h tx p1 p2,
    l1_get_logs f p = (Ok logs, p') ∧ (first, idx, log) ∈ positions logs ∧
    event_of log CommitBatch_SIGNATURE ∧ CommitBatch_decode_log log = Ok event ∧
    block_of first block ∧ log_transaction_hash first = Some h ∧
    l1_get_transaction_by_hash h p1 = (Ok (Some tx), p2) ∧
    br_index r = cb_batch_index event ∧ br_hash r = cb_batch_hash event ∧
    br_block_number r = number block ∧ br_calldata r = l1_tx_input tx ∧
    br_blob_hash r = (l1_tx_blob_versioned_hashes tx ≫= (.!! idx)).

Lemma positions_elem (entry : Log * nat * Log) logs : entry ∈ positions logs → entry.2 ∈ logs.
Proof. intros He. rewrite <- (positions_snd logs). by apply list_elem_of_fmap_2. Qed.

Lemma message_of_served n r : reported n → message_of n r → message_served r.
Proof.
  destruct n as [| | | | | |message bi ts| | | |]; try done. simpl.
  intros (f & logs & p & p' & entry & ns & Hlogs & He & Hr & Hn) [qh Hrow].
  apply positions_elem in He. unfold relays_at in Hr.
  destruct Hr; repeat (apply elem_of_cons in Hn as [Hn|Hn]); try (by apply elem_of_nil in Hn);
    try done; injection Hn as -> -> ->.
  do 8 eexists. split_and!; [done..|exact Hrow].
Qed.

Lemma batch_of_served n r : reported n → batch_of n r → batch_served r.
Proof.
  destruct n as [| |bi data| | | | | | | |]; try done. simpl.
  intros (f & logs & p & p' & [[first idx] log] & ns & Hlogs & He & Hr & Hn) (row & Hrow & Hcols).
  unfold relays_at in Hr. simpl in Hr.
  destruct Hr; repeat (apply elem_of_cons in Hn as [Hn|Hn]); try (by apply elem_of_nil in Hn);
    try done; injection Hn as -> ->.
  unfold batch_cols in Hcols. injection Hcols as ? ? ? ? ? ?.
  unfold BatchRow_from, obind, expect, try_i64 in Hrow. simpl in Hrow.
  repeat (case_match; simplify_eq/=).
  do 13 eexists. split_and!; done.
Qed.

(** The invariant of the system. *)
Definition sys_ok (d0 : Db) (s : System) : Prop :=
  all_reported (watcher s) ∧ Forall fresh (unread_commands (handle s)) ∧
  from_l1 d0 reported (database (env (node s))).

Lemma reset_ok d0 n s : sys_ok d0 s → sys_ok d0 (handle_revert_to_l1_block n s).
Proof.
  intros (Hw & Hc & Hd). split_and!; [done| |done]. simpl. apply Forall_app.
  split; [|by repeat constructor]. apply Forall_fmap. eapply Forall_impl; [exact Hc|]. by intros [].
Qed.

Lemma node_step_ok d0 clock i s :
  match i with NotificationIn n => reported n | _ => True end →
  sys_ok d0 s → sys_ok d0 (node_step clock i s).
Proof.
  intros Hi (Hw & Hc & Hd). unfold node_step.
  assert (sys_ok d0 (set_node (run_step config clock i (node s)).2 s)) as Hs.
  { split_and!; [done..|]. by apply run_step_from_l1. }
  revert Hs. generalize (set_node (run_step config clock i (node s)).2 s).
  induction (resets_between _ _) as [|n ns IH]; intros s' Hs; simpl; [done|]. by apply IH, reset_ok.
Qed.

Lemma sys_step_ok d0 s s' : sys_step s s' → sys_ok d0 s → sys_ok d0 s'.
Proof.
  intros [p|fuel w' s1 Hr|clock n s1 Hn _|clock i s1 Hi _] Hok.
  - done.
  - destruct Hok as (Hw & Hc & Hd). split_and!; [|constructor|done].
    pose proof (run_round_reported fuel _ Hc _ Hw) as Hw'. by rewrite Hr in Hw'.
  - apply node_step_ok; [|done]. destruct Hok as (Hw & _ & _). unfold l1_notification in Hn.
    destruct (unread_commands _); [|done]. apply list_elem_of_lookup_2 in Hn.
    unfold all_reported in Hw. rewrite Forall_forall in Hw. by apply Hw.
  - apply node_step_ok; [|done]. by destruct i.
Qed.

Lemma sys_ok_reachable d0 s s' : rtc sys_step s s' → sys_ok d0 s → sys_ok d0 s'.
Proof. induction 1 as [|s1 s2 s3 Hs _ IH]; [done|]. intros Hok. by eapply IH, sys_step_ok. Qed.

Lemma sys_ok_start s : sys_start s → sys_ok (database (env (node s))) s.
Proof.
  intros [Hh (fuel & info & node_config & range & p & p' & Hw)].
  split_and!; [by eapply spawn_reported| |apply from_l1_start]. rewrite Hh. constructor.
Qed.

(** C3: whatever the L1 node, the peers, the execution client and the users do, and however the two
    tasks interleave: every L1 message the database holds was in a log that L1 served, with its
    queue index, content and block, and every batch was committed by such a log, with the calldata
    and the blob hash of its transaction, unless the row was there at the start. *)
Theorem l1_rows_served s0 s :
  sys_start s0 → rtc sys_step s0 s →
  let d0 := database (env (node s0)) in
  let d := database (env (node s)) in
  (∀ r, r ∈ l1_message d →
     (∃ r0, r0 ∈ l1_message d0 ∧ message_cols r0 = message_cols r) ∨ message_served r) ∧
  (∀ r, r ∈ batch_commit d →
     (∃ r0, r0 ∈ batch_commit d0 ∧ batch_cols r0 = batch_cols r) ∨ batch_served r).
Proof.
  intros Hstart Hrun d0 d.
  destruct (sys_ok_reachable _ _ _ Hrun (sys_ok_start _ Hstart)) as (_ & _ & [Hm Hb]).
  split; intros r Hr.
  - destruct (proj1 (Forall_forall _ _) Hm r Hr) as [Hold|(n & Hn & Hrow)]; [by left|right]. by eapply message_of_served.
  - destruct (proj1 (Forall_forall _ _) Hb r Hr) as [Hold|(n & Hn & Hrow)]; [by left|right]. by eapply batch_of_served.
Qed.
End System.
