(* ===== verification/ImportProps.v ===== *)
(** * Properties of the import of blocks

    What a successful chain import establishes, the termination of the walk that looks for the
    common ancestor of a fork, and what becomes of a block the authorized signer did not sign. *)

From S2P Require Import Prelude Sql Primitives Watcher BigEndian Codec Engine DbModel DbOps DbInvariant.
From S2P Require Import World Signing Sequencer Pipeline Consolidation Driver Orchestrator.
From S2P Require Import RunLoop OrchestratorInv OrchestratorProps.

(** ** The engine adopts the tip *)

Section Engine.
Context `{EngineApi W}.

Lemma fcs_head_adopted head f f' :
  fcs_update (Some head) None None f = Ok f' → fcs_head f' = head.
Proof. by intros (_ & -> & _)%fcs_update_spec. Qed.

Lemma update_fcs_adopts head e r e' :
  update_fcs (Some head) None None e = (Ok r, e') → fcu_is_invalid r = false →
  fcs_head (fcs e') = head.
Proof.
  unfold update_fcs, bind, candidate, request. cbn [is_none3].
  destruct (fcs_update _ _ _ _) as [f|?|] eqn:Hf; cbn [omap_err]; [|done..].
  apply fcs_head_adopted in Hf.
  destruct (fork_choice_updated_v1 _ _ _) as [[r'|?|] w]; cbn [omap_err]; [|done..].
  destruct (status (payload_status r')) eqn:Es; try done;
    unfold fcu_is_invalid, status_is_invalid; rewrite Es; simpl; intros [= <- <-]; rewrite ?Es; done.
Qed.

Lemma optimistic_sync_adopts head e r e' :
  optimistic_sync head e = (Ok r, e') → fcu_is_invalid r = false → fcs_head (fcs e') = head.
Proof.
  unfold optimistic_sync, bind, candidate, request.
  destruct (fcs_update _ _ _ _) as [f|?|] eqn:Hf; cbn [omap_err]; [|done..].
  apply fcs_head_adopted in Hf.
  destruct (fork_choice_updated_v1 _ _ _) as [[r'|?|] w]; cbn [omap_err]; [|done..].
  destruct (fcu_is_invalid r') eqn:Ei; simpl; intros [= <- <-]; [by rewrite Ei|done].
Qed.
End Engine.

Section Importing.
Context `{SqlEngine} `{Chain} `{!PayloadConversion} `{Timers} `{Rlp} `{SignerRecovery}
  `{SignatureBytes} `{!EngineApi W} `{!L2Provider W} `{!BlockClient W}.
Implicit Types o : Orchestrator W.

Definition same_fcs (f : ForkchoiceState) o : Prop :=
  orch_inv (λ f', f' = f) (λ _, True) (λ _, True) o.

Lemma same_fcs_self o : same_fcs (orchestrator_fcs o) o.
Proof. done. Qed.

Lemma on_engine_driver_Ok {A} (m : M (Engine W) EngineError A) o a o' :
  on_engine_driver m o = (Ok a, o') →
  ∃ e', m (engine (env o)) = (Ok a, e') ∧ orchestrator_fcs o' = fcs e' ∧
        sync_state o' = sync_state o ∧ engine (env o') = e'.
Proof.
  unfold on_engine_driver, in_env, on_engine, zoom, map_err.
  destruct (m (engine (env o))) as [[x| |] e']; simpl; intros; simplify_eq. by exists e'.
Qed.

Lemma tx_Ok {A} (m : M Db ChainOrchestratorError A) o a o' :
  tx m o = (Ok a, o') →
  m (database (env o)) = (Ok a, database (env o')) ∧ engine (env o') = engine (env o) ∧
  sync_state o' = sync_state o.
Proof.
  unfold tx, in_env, on_database, zoom, map_err, tx_mut.
  destruct (m (database (env o))) as [[x| |] d]; simpl; intros; by simplify_eq.
Qed.

Lemma when_Ok {S E} (b : bool) (m : M S E unit) s s' :
  (when b then m) s = (Ok tt, s') → if b then m s = (Ok tt, s') else s' = s.
Proof. destruct b; [done|]. by intros [= ->]. Qed.

Lemma set_l2_head_Ok n d d' :
  set_l2_head_block_number n d = (Ok tt, d') →
  metadata d' !! "l2_head_block" = Some (u64_to_string n).
Proof. intros [= <-]. apply lookup_insert_eq. Qed.

(** The client was sent the payloads of the blocks, one by one and in order, and found none of them
    invalid; this took it from [w] to [w']. *)
Inductive payloads_sent : list DogeosBlock → W → W → Prop :=
| sent_none w : payloads_sent [] w w
| sent_block b bs st w w1 w2 :
    new_payload_v1 (from_block_slow b) w = (Ok st, w1) → status_is_invalid st = false →
    payloads_sent bs w1 w2 → payloads_sent (b :: bs) w w2.

Definition client_of o : W := client (engine (env o)).

Lemma submit_block_Ok p b o o' :
  submit_block p b o = (Ok tt, o') →
  (∃ st, new_payload_v1 (from_block_slow b) (client_of o) = (Ok st, client_of o') ∧
         status_is_invalid st = false) ∧ sync_state o' = sync_state o.
Proof.
  unfold submit_block. intros (st & o1 & Hst & Hrun)%bind_Ok.
  destruct (status_is_invalid st) eqn:Einv; [done|]. injection Hrun as <-.
  unfold on_engine_driver, in_env, on_engine, zoom, map_err, new_payload, request in Hst.
  unfold client_of. destruct (new_payload_v1 _ (client (engine (env o)))) as [[st'| |] w];
    simpl in Hst; simplify_eq/=. by split; [eexists|].
Qed.

Lemma submit_blocks_Ok p chain o o' :
  for_each (submit_block p) chain o = (Ok tt, o') →
  payloads_sent chain (client_of o) (client_of o') ∧ sync_state o' = sync_state o.
Proof.
  revert o. induction chain as [|b chain IH]; intros o Hrun; cbn [for_each] in Hrun.
  { injection Hrun as <-. split; [constructor|done]. }
  apply bind_Ok in Hrun as ([] & o1 & ((st & Hst & Hinv) & Hs)%submit_block_Ok & [Hrest Hs']%IH).
  split; [|congruence]. by eapply sent_block.
Qed.

Lemma validate_Ok bs o o' : validate_l1_messages bs o = (Ok tt, o') → o' = o.
Proof.
  unfold validate_l1_messages. case_bool_decide; [by intros [= <-]|].
  intros (first & o1 & [_ ->]%lift_Ok & (ms & o2 & Hm & [_ [-> _]]%compare_l1_messages_spec)%bind_Ok)%bind_Ok.
  unfold db, in_env, on_database, zoom, map_err, tx_mut in Hm.
  pose proof (get_n_l1_messages_state (Some (BlockNumber (block_number first)))
    (length (concat (map block_l1_hashes bs))) (database (env o))) as Hd.
  destruct (get_n_l1_messages _ _ _) as [[x| |] d]; simpl in *; simplify_eq. by destruct o as [[]].
Qed.

(** The fork choice update the import ends with: the tip is the head it asks for. *)
Lemma adopt_Ok (syncing : bool) head o r o' :
  (if syncing then on_engine_driver (optimistic_sync head)
   else on_engine_driver (update_fcs (Some head) None None)) o = (Ok r, o') →
  fcu_is_invalid r = false →
  fcs_head (orchestrator_fcs o') = head ∧ sync_state o' = sync_state o ∧
  ∃ f, fork_choice_updated_v1 f None (client_of o) = (Ok r, client_of o') ∧
       head_block_hash f = hash head.
Proof.
  intros Hrun Hinv. destruct syncing; apply on_engine_driver_Ok in Hrun as (e' & He & Hf & Hs & Hc).
  - rewrite Hf. split; [by eapply optimistic_sync_adopts|]. split; [done|].
    unfold client_of. rewrite Hc. unfold optimistic_sync, candidate, bind, request in He.
    destruct (fcs_update _ _ _ _) as [f|?|] eqn:Eu; cbn [omap_err] in He; [|done..].
    exists (get_alloy_optimistic_fcs f). apply fcs_head_adopted in Eu. rewrite <- Eu. split; [|done].
    destruct (fork_choice_updated_v1 _ _ _) as [[r'|?|] w]; cbn [omap_err] in He; [|done..].
    by destruct (negb (fcu_is_invalid r')); injection He as <- <-.
  - rewrite Hf. split; [by eapply update_fcs_adopts|]. split; [done|].
    unfold client_of. rewrite Hc. unfold update_fcs, candidate, bind, request in He.
    cbn [is_none3] in He. destruct (fcs_update _ _ _ _) as [f|?|] eqn:Eu; cbn [omap_err] in He; [|done..].
    exists (get_alloy_fcs f). apply fcs_head_adopted in Eu. rewrite <- Eu. split; [|done].
    destruct (fork_choice_updated_v1 _ _ _) as [[r'|?|] w]; cbn [omap_err] in He; [|done..].
    destruct (status (payload_status r')); [..|done];
      by destruct (negb (fcu_is_invalid r')); injection He as <- <-.
Qed.

End Importing.

(** ** The walk over a fork *)

Section Fork.
Context `{SqlEngine} `{Chain} `{!PayloadConversion} `{Timers} `{Rlp} `{SignerRecovery}
  `{SignatureBytes} `{!EngineApi W} `{!L2Provider W} `{!BlockClient W}.

(** [number_of h]: the number of the block whose hash is [h].  A block is linked when it is above
    its parent, as every header that passed consensus is. *)
Variable number_of : B256 → Z.
Definition linked (b : DogeosBlock) : Prop := number_of (parent_hash (header b)) < block_number b.

(** What the download client documents: a range starts at the requested block, is not empty and
    comes in falling order, each block the parent of the one before. *)
Definition falling_ranges : Prop :=
  ∀ h count (w : W) bs w', 0 < count → get_full_block_range h count w = (bs, w') →
    ∃ oldest, last bs = Some oldest ∧ block_number oldest <= number_of h ∧ linked oldest.

Lemma hd_error_rev_app {A} (l k : list A) x : last l = Some x → List.hd_error (rev l ++ k) = Some x.
Proof.
  destruct l as [|y l] using rev_ind; [done|]. rewrite last_snoc, rev_app_distr. intros [= ->]. done.
Qed.

Lemma fork_loop_fuel (Hdesc : falling_ranges) bp safe fuel fuel' hs front st :
  0 <= safe < u64_max → List.hd_error hs = Some front → linked front →
  (Z.to_nat (block_number front - safe) < fuel)%nat →
  (Z.to_nat (block_number front - safe) < fuel')%nat →
  fork_loop fuel bp safe hs st = fork_loop fuel' bp safe hs st.
Proof.
  intros Hsafe. revert fuel' hs front st.
  induction fuel as [|fuel IH]; intros fuel' hs front st Hhd Hlink Hf Hf'; [lia|].
  destruct fuel' as [|fuel']; [lia|]. cbn [fork_loop]. rewrite Hhd. unfold expect, lift, bind. cbv beta iota.
  assert (wrapping_add safe 1 = safe + 1) as ->.
  { unfold wrapping_add, u64_max, u64_mod in *. apply Z.mod_small. lia. }
  destruct (Z.ltb_spec (safe + 1) (block_number front)) as [Hlt|]; cbn [negb]; [|done].
  destruct (in_orchestrator (block_range _ _) st) as [[headers|e|] st1] eqn:Eh; [|done..].
  destruct (extend_ancestors _ st1) as [[[]|e|] st2]; [|done..].
  destruct (in_orchestrator (common_ancestor 0 headers) st2) as [[[i|]|e|] st3]; try done.
  unfold in_orchestrator, block_range, on_l2_client, in_env, on_client, on_engine, zoom, map_err in Eh.
  destruct (get_full_block_range _ _ _) as [bs w'] eqn:Er. simpl in Eh. simplify_eq.
  assert (0 < Z.min HEADER_FETCH_COUNT (block_number front - 1 - safe)) as Hc
    by (unfold HEADER_FETCH_COUNT; lia).
  destruct (Hdesc _ _ _ _ _ Hc Er) as (oldest & Hl & Hn & Hlo).
  unfold linked in Hlink.
  apply (IH fuel' _ oldest); [by apply hd_error_rev_app|done|lia..].
Qed.

(** C18: the walk back over a fork terminates: with ranges in falling order every round lowers the
    oldest fetched block, so the rounds the handler allows (one per block number up to the
    announced one) are enough: allowing more changes nothing. *)
Theorem fork_walk_terminates (Hdesc : falling_ranges) bp safe hs front st fuel :
  0 <= safe < u64_max → List.hd_error hs = Some front → linked front →
  block_number front <= block_number (nb_block bp) →
  (fork_fuel (nb_block bp) <= fuel)%nat →
  fork_loop fuel bp safe hs st = fork_loop (fork_fuel (nb_block bp)) bp safe hs st.
Proof.
  intros Hsafe Hhd Hlink Hle Hf. unfold fork_fuel in *.
  apply (fork_loop_fuel Hdesc bp safe _ _ hs front st); [done|done|done|lia..].
Qed.
End Fork.

(** ** Authenticity *)

Section Authenticity.
Context `{SqlEngine} `{Chain} `{!PayloadConversion} `{Timers} `{Rlp} `{SignerRecovery}
  `{SignatureBytes} `{!EngineApi W} `{!L2Provider W} `{!BlockClient W}.
Variable config : ChainOrchestratorConfig.
Implicit Types o : Orchestrator W.

(** The signature of the block is not the one of [a]: it recovers to someone else or to nobody. *)
Definition unauthorized (a : Address) (bp : NewBlockWithPeer) : Prop :=
  match recover_signer (nb_signature bp) (sig_encode_hash (header (nb_block bp))) with
  | Ok signer => signer ≠ a
  | Err _ => True
  | Panic => False
  end.

Lemma validate_unauthorized a bp :
  unauthorized a bp →
  ∃ e, validate_new_block (SystemContractConsensus a) (nb_block bp) (nb_signature bp) = Err e.
Proof.
  unfold unauthorized, validate_new_block.
  destruct (recover_signer _ _) as [signer|e|]; simpl; [|by eexists|done].
  intros Hne. destruct (Z.eqb_spec a signer); [by subst|]. by eexists.
Qed.

Lemma refused_block bp err o block_ancestors :
  validate_new_block (consensus o) (nb_block bp) (nb_signature bp) = Err err →
  ∃ e r, (r = ImportFinalizedBlock ∨ ∃ err, r = ImportConsensusError err) ∧
    is_chain_import e = false ∧
    handle_block_from_peer config bp (o, block_ancestors) =
      (Ok (Some e), (set_outbox (outbox o ++ [ImportOutcome (nb_peer_id bp) r]) o, block_ancestors)).
Proof.
  intros Hv. unfold handle_block_from_peer, in_orchestrator, get_fcs, send, modify, gets, bind, ret, zoom.
  cbv beta iota. cbv [fst snd]. destruct (_ <=? _); [|rewrite Hv];
    (do 2 eexists; split; [|split; [|reflexivity]]; eauto).
Qed.

Lemma track_refused bp block_ancestors e o :
  is_chain_import e = false → track_blocked_import bp block_ancestors (Ok (Some e)) o = o.
Proof.
  intros He. unfold track_blocked_import, supersedes_blocked_import.
  destruct (blocked_import o); [|done]. by rewrite He, andb_false_r.
Qed.

(** C15: under the system contract a block that its authorized signer did not sign changes nothing:
    one a peer announces is answered with an import outcome that says so (or that the block is too
    old), and neither the execution client, the database, the import held for a message nor any
    other state is touched; one that was held while the signer changed is dropped when its message
    arrives, before the client sees it. *)
Theorem unauthorized_block_ignored a o :
  consensus o = SystemContractConsensus a →
  (∀ bp, unauthorized a bp →
     ∃ e r, (r = ImportFinalizedBlock ∨ ∃ err, r = ImportConsensusError err) ∧
       is_chain_import e = false ∧
       handle_network_event config bp o =
         (Ok (Some e),
          set_outbox (outbox o ++ (if listening o then [Notified (NewBlockReceived bp)] else []) ++
                      [ImportOutcome (nb_peer_id bp) r]) o)) ∧
  (∀ held, blocked_import o = Some held → unauthorized a (block_with_peer held) →
     retry_blocked_import config o =
       (Ok (Some (BlockedImportDropped (block_hash_slow (nb_block (block_with_peer held))))),
        set_blocked_import None o)).
Proof.
  intros Hc. split.
  - intros bp Hun. destruct (validate_unauthorized _ _ Hun) as [err Hv]. rewrite <- Hc in Hv.
    set (n := if listening o then _ else _).
    assert (notify (NewBlockReceived bp) o = (Ok tt, set_outbox (outbox o ++ n) o)) as Hn.
    { unfold notify, send, modify, gets, bind, n. destruct o as [? ? ? ? ? ? ? ? [] ?]; cbn; [done|].
      by rewrite app_nil_r. }
    destruct (refused_block bp err (set_outbox (outbox o ++ n) o) [parent_hash (header (nb_block bp))] Hv)
      as (e & r & Hr & He & Hrun).
    exists e, r. split_and!; [done..|]. unfold handle_network_event, import_peer_block, bind.
    rewrite Hn. cbv beta iota. rewrite Hrun. cbv beta iota. rewrite track_refused by done.
    by rewrite (app_assoc (outbox o) n).
  - intros held Hb Hun. destruct (validate_unauthorized _ _ Hun) as [err Hv].
    destruct o as [? ? c ? ? ? ? b ? ?]. simpl in Hc, Hb. subst c b.
    unfold retry_blocked_import, get_fcs, modify, gets, bind. cbv beta iota delta [blocked_import].
    destruct (_ <=? _); [done|]. cbv beta iota delta [set_blocked_import consensus]. by rewrite Hv.
Qed.
End Authenticity.
