(* ===== verification/Outputs.v ===== *)
(** * What leaves the orchestrator, and when

    The requests to the signer, the announcements and the import outcomes an iteration of the run
    loop appends to the outbox, by the input it handles.  The handlers are followed statement by
    statement: whatever they do, they only append to the outbox, and only an update notification
    changes the consensus. *)

From S2P Require Import Prelude Sql Primitives Watcher BigEndian Codec Engine DbModel DbOps World.
From S2P Require Import Signing Sequencer Pipeline Consolidation Driver Orchestrator RunLoop.
From S2P Require Import ImportProps.

Section Outputs.
Context `{SqlEngine} `{Chain} `{!PayloadConversion} `{Timers} `{Rlp} `{SignerRecovery}
  `{SignatureBytes} `{!EngineApi W} `{!L2Provider W} `{!BlockClient W}.
Variable config : ChainOrchestratorConfig.
Variable clock : Clock.
Implicit Types o : Orchestrator W.

(** ** Appending allowed messages *)

Section Speaks.
Variable P : Output → Prop.

Definition speaks o o' : Prop :=
  consensus o' = consensus o ∧ ∃ new, outbox o' = outbox o ++ new ∧ Forall P new.

#[local] Instance speaks_preorder : PreOrder speaks.
Proof.
  split.
  - intros o. split; [done|]. exists []. by rewrite app_nil_r.
  - intros o1 o2 o3 [Hc1 (n1 & Ho1 & Hn1)] [Hc2 (n2 & Ho2 & Hn2)]. split; [by rewrite Hc2|].
    exists (n1 ++ n2). rewrite Ho2, Ho1, app_assoc. split; [done|]. by apply Forall_app.
Qed.

Lemma speaks_same o o' : consensus o' = consensus o → outbox o' = outbox o → speaks o o'.
Proof. intros Hc Ho. split; [done|]. exists []. by rewrite Ho, app_nil_r. Qed.

Lemma speaks_env e o : speaks o (set_env e o).
Proof. by apply speaks_same. Qed.
Lemma speaks_blocked b o : speaks o (set_blocked_import b o).
Proof. by apply speaks_same. Qed.

Lemma in_env_speaks {A} (m : M (Env W) ChainOrchestratorError A) : follows speaks (in_env m).
Proof. intros o. unfold in_env, zoom. destruct (m (env o)). apply speaks_env. Qed.

Definition speaks_anc (s s' : Orchestrator W * list B256) : Prop := speaks (fst s) (fst s').
#[local] Instance speaks_anc_preorder : PreOrder speaks_anc.
Proof.
  split; [intros s; unfold speaks_anc; reflexivity|]. intros s1 s2 s3 H12 H23. unfold speaks_anc in *.
  by etransitivity.
Qed.

Lemma in_orchestrator_speaks {A} (m : M (Orchestrator W) _ A) :
  follows speaks m → follows speaks_anc (in_orchestrator m).
Proof.
  intros Hm [o a]. specialize (Hm o). unfold speaks_anc, in_orchestrator, zoom. cbn [fst].
  destruct (m o) as [r o1]. exact Hm.
Qed.

(** Splits a handler into its statements. *)
Ltac solve_speaks :=
  repeat first
    [ progress intros
    | solve [eauto 2 with node]
    | match goal with
      | |- PreOrder _ => typeclasses eauto
      | |- follows _ (bind _ _) => apply follows_bind
      | |- follows _ (try _) => apply follows_try
      | |- follows _ (map_err _ _) => apply follows_map_err
      | |- follows _ (for_each _ _) => apply follows_for_each
      | |- follows _ (db _) => apply in_env_speaks
      | |- follows _ (tx _) => apply in_env_speaks
      | |- follows _ (on_l2_client _) => apply in_env_speaks
      | |- follows _ (on_engine_driver _) => apply in_env_speaks
      | |- follows _ (in_orchestrator _) => apply in_orchestrator_speaks
      | |- follows _ (modify _) => apply follows_modify; intros; by apply speaks_same
      | |- follows _ (if ?b then _ else _) => destruct b
      | |- follows _ (match ?x with _ => _ end) => destruct x
      | |- follows _ _ => by (apply follows_same; first [typeclasses eauto | intros])
      end ].

Lemma send_speaks m : P m → follows speaks (send m).
Proof. intros Hm. apply follows_modify. intros o. split; [done|]. exists [m]. by rewrite Forall_singleton. Qed.

(** Messages every handler may send. *)
Definition unremarkable (m : Output) : Prop :=
  match m with
  | Notified _ | UpdateSyncStateIdle | WatcherReset _ => True
  | ImportOutcome _ (ImportValidBlock _ _) | ImportOutcome _ (ImportValidHeader _ _) => False
  | ImportOutcome _ _ => True
  | AnnounceBlock _ _ | SignRequest _ => False
  end.

Context (Hquiet : ∀ m, unremarkable m → P m).

Lemma send_quiet m : unremarkable m → follows speaks (send m).
Proof. intros Hm. apply send_speaks. auto. Qed.
Lemma notify_speaks e : follows speaks (notify e).
Proof. unfold notify. pose proof (send_quiet (Notified e) Logic.I). solve_speaks. Qed.
Hint Resolve notify_speaks : node.
Lemma notify_opt_speaks e : follows speaks (notify_opt e).
Proof. unfold notify_opt. solve_speaks. Qed.
Lemma push_batch_speaks s b : follows speaks (push_batch s b).
Proof. unfold push_batch. solve_speaks. Qed.
Lemma get_fcs_speaks : follows speaks get_fcs.
Proof. unfold get_fcs. solve_speaks. Qed.
Lemma synced_speaks : follows speaks synced.
Proof. unfold synced. solve_speaks. Qed.
Lemma set_l1_mode_speaks m : follows speaks (set_l1_mode m).
Proof. unfold set_l1_mode. solve_speaks. Qed.
Lemma set_l2_mode_speaks m : follows speaks (set_l2_mode m).
Proof. unfold set_l2_mode. solve_speaks. Qed.
Lemma modify_sequencer_speaks f : follows speaks (modify_sequencer f).
Proof. unfold modify_sequencer. solve_speaks. Qed.
Lemma modify_driver_speaks f : follows speaks (modify_driver f).
Proof. unfold modify_driver. solve_speaks. Qed.
Lemma l2_block_at_speaks n : follows speaks (l2_block_at n).
Proof. unfold l2_block_at. solve_speaks. Qed.
Hint Resolve notify_opt_speaks push_batch_speaks get_fcs_speaks synced_speaks set_l1_mode_speaks
  set_l2_mode_speaks modify_sequencer_speaks modify_driver_speaks l2_block_at_speaks : node.

(** ** Imports *)

Lemma compare_l1_messages_speaks hs ms : follows speaks (compare_l1_messages hs ms).
Proof. revert ms. induction hs; intros [|m ms]; simpl; solve_speaks. Qed.
Hint Resolve compare_l1_messages_speaks : node.
Lemma validate_l1_messages_speaks bs : follows speaks (validate_l1_messages bs).
Proof. unfold validate_l1_messages. solve_speaks. Qed.
Lemma fetch_blocks_speaks ns : follows speaks (fetch_blocks ns).
Proof. induction ns; simpl; solve_speaks. Qed.
Hint Resolve validate_l1_messages_speaks fetch_blocks_speaks : node.
Lemma consolidate_chunk_speaks ns : follows speaks (consolidate_chunk ns).
Proof. unfold consolidate_chunk. solve_speaks. Qed.
Hint Resolve consolidate_chunk_speaks : node.
Lemma consolidate_chain_speaks : follows speaks consolidate_chain.
Proof.
  unfold consolidate_chain. pose proof (send_quiet UpdateSyncStateIdle Logic.I). solve_speaks.
Qed.
Lemma submit_block_speaks p b : follows speaks (submit_block p b).
Proof.
  unfold submit_block. pose proof (send_quiet (ImportOutcome p ImportInvalidBlock) Logic.I).
  solve_speaks.
Qed.
Hint Resolve consolidate_chain_speaks submit_block_speaks : node.

Section Import.
Variable bp : NewBlockWithPeer.
Context (Hvalid : P (ImportOutcome (nb_peer_id bp)
                       (ImportValidBlock (nb_block bp) (sig_as_bytes (nb_signature bp))))).

Lemma import_chain_speaks c : follows speaks (import_chain c bp).
Proof. unfold import_chain. pose proof (send_speaks _ Hvalid). solve_speaks. Qed.
Hint Resolve import_chain_speaks : node.

Lemma extend_ancestors_speaks hs : follows speaks_anc (extend_ancestors hs).
Proof. intros s. unfold speaks_anc. by apply speaks_same. Qed.
Lemma common_ancestor_speaks i hs : follows speaks (common_ancestor i hs).
Proof. revert i. induction hs; intros i; simpl; solve_speaks. Qed.
Lemma block_range_speaks h n : follows speaks (block_range h n).
Proof. unfold block_range. solve_speaks. Qed.
Hint Resolve extend_ancestors_speaks common_ancestor_speaks block_range_speaks : node.
Lemma fork_loop_speaks fuel s hs : follows speaks_anc (fork_loop fuel bp s hs).
Proof. revert hs. induction fuel; intros hs; simpl; solve_speaks. Qed.
Lemma extend_head_speaks h : follows speaks_anc (extend_head bp h).
Proof. unfold extend_head. solve_speaks. Qed.
Lemma fork_below_head_speaks f : follows speaks (fork_below_head bp f).
Proof. unfold fork_below_head. solve_speaks. Qed.
Lemma optimistic_sync_to_speaks b : follows speaks (optimistic_sync_to b).
Proof. unfold optimistic_sync_to. solve_speaks. Qed.
Hint Resolve fork_loop_speaks extend_head_speaks fork_below_head_speaks optimistic_sync_to_speaks : node.

Lemma handle_block_from_peer_speaks : follows speaks_anc (handle_block_from_peer config bp).
Proof.
  unfold handle_block_from_peer.
  pose proof (send_quiet (ImportOutcome (nb_peer_id bp) ImportFinalizedBlock) Logic.I).
  assert (∀ e, follows speaks (send (ImportOutcome (nb_peer_id bp) (ImportConsensusError e)))).
  { intros e. by apply send_quiet. }
  solve_speaks.
Qed.

Lemma track_blocked_import_speaks a r o : speaks o (track_blocked_import bp a r o).
Proof. unfold track_blocked_import. repeat case_match; try reflexivity; apply speaks_blocked. Qed.

Lemma import_peer_block_speaks : follows speaks (import_peer_block config bp).
Proof.
  intros o. unfold import_peer_block.
  pose proof (handle_block_from_peer_speaks (o, [parent_hash (header (nb_block bp))])) as Hh.
  destruct (handle_block_from_peer _ _ _) as [r [o' a]]. unfold speaks_anc in Hh. cbn [fst snd] in Hh.
  destruct r; cbn [snd]; [| |exact Hh];
    (eapply transitivity; [exact Hh|apply track_blocked_import_speaks]).
Qed.
End Import.

(** A block that is not valid is not announced. *)
Lemma checked_import_speaks bp o :
  (validate_new_block (consensus o) (nb_block bp) (nb_signature bp) = Ok tt →
   P (ImportOutcome (nb_peer_id bp) (ImportValidBlock (nb_block bp) (sig_as_bytes (nb_signature bp))))) →
  speaks o (import_peer_block config bp o).2.
Proof.
  intros Hv. destruct (validate_new_block (consensus o) (nb_block bp) (nb_signature bp))
    as [[]|err|] eqn:Hval.
  - by apply import_peer_block_speaks, Hv.
  - destruct (refused_block config bp err o [parent_hash (header (nb_block bp))] Hval)
      as (e & r & Hr & He & Hrun).
    unfold import_peer_block. rewrite Hrun. cbv beta iota. rewrite track_refused by done.
    split; [done|]. eexists. split; [done|]. apply Forall_singleton, Hquiet.
    destruct Hr as [->|[err' ->]]; done.
  - unfold import_peer_block, handle_block_from_peer, in_orchestrator, get_fcs, send, modify, gets, bind, ret, zoom.
    cbv beta iota. cbv [fst snd]. destruct (_ <=? _); [|rewrite Hval].
    + rewrite track_refused by done. split; [done|]. eexists. split; [done|].
      by apply Forall_singleton, Hquiet.
    + cbn. reflexivity.
Qed.

Hint Resolve import_chain_speaks optimistic_sync_to_speaks : node.

(** ** L1 notifications, commands and the sequencer *)

Lemma in_resources_speaks {A} (m : M (DerivationDriver * Env W) ChainOrchestratorError A) :
  follows speaks (λ o, let '(r, (d, e)) := m (derivation_driver o, env o) in
                       (r, set_driver d (set_env e o))).
Proof. intros o. destruct (m _) as [r [d e]]. by apply speaks_same. Qed.

Lemma unwind_held_speaks n : follows speaks (unwind_and_revalidate_held_batch n).
Proof.
  unfold unwind_and_revalidate_held_batch.
  apply follows_bind; [typeclasses eauto|solve_speaks|]. intros _ o.
  destruct (unwind_and_revalidate _ _) as [r [d d']]. by apply speaks_same.
Qed.
Lemma update_after_unwind_speaks op h f : follows speaks (update_fcs_after_unwind op h f).
Proof. unfold update_fcs_after_unwind. cbv zeta. solve_speaks. Qed.
Lemma collect_reverted_speaks ns : follows speaks (collect_reverted_txs ns).
Proof. induction ns; simpl; solve_speaks. Qed.
Lemma reinsert_speaks txs : follows speaks (reinsert_txs_into_pool txs).
Proof. unfold reinsert_txs_into_pool. solve_speaks. Qed.
Hint Resolve unwind_held_speaks update_after_unwind_speaks collect_reverted_speaks reinsert_speaks : node.
Lemma new_l2_head_speaks n : follows speaks (new_l2_head n).
Proof. unfold new_l2_head, collect_reverted_txs_in_range. solve_speaks. Qed.
Lemma queue_hash_speaks m : follows speaks (compute_l1_message_queue_hash config m).
Proof. unfold compute_l1_message_queue_hash. solve_speaks. Qed.
Hint Resolve new_l2_head_speaks queue_hash_speaks : node.

Definition is_consensus_update (n : L1Notification) : bool :=
  match n with ConsensusUpdated _ => true | _ => false end.

Lemma handle_l1_notification_speaks n :
  is_consensus_update n = false → follows speaks (handle_l1_notification config clock n).
Proof.
  intros Hn. destruct n; simpl in *; try done;
    unfold handle_l1_reorg, handle_l1_new_block, handle_l1_finalized, handle_batch_commit,
      handle_batch_revert, handle_l1_message, handle_batch_finalization; solve_speaks.
Qed.

Lemma on_sequencer_speaks {A} (m : M (Sequencer * Env W) SequencerError A) :
  follows speaks (on_sequencer m).
Proof.
  intros o. unfold on_sequencer. destruct (sequencer o) as [sq|]; [|reflexivity].
  destruct (m (sq, env o)) as [r [s' e']]. by apply speaks_same.
Qed.
Hint Resolve on_sequencer_speaks : node.

Lemma handle_command_speaks c :
  (∀ bp, c = ImportBlock bp →
     P (ImportOutcome (nb_peer_id bp) (ImportValidBlock (nb_block bp) (sig_as_bytes (nb_signature bp))))) →
  follows speaks (handle_command clock c).
Proof.
  intros Hc. pose proof (λ n, send_quiet (WatcherReset n) Logic.I).
  assert (∀ bp bs, c = ImportBlock bp → follows speaks (import_chain bs bp)).
  { intros bp bs Hb. apply import_chain_speaks; auto. }
  destruct c as [| | | | | | | | |bp]; simpl;
    unfold build_block, orchestrator_status, update_fcs_head, enable_sequencing, disable_sequencing,
      revert_to_l1_block, collect_reverted_txs_in_range; solve_speaks.
Qed.

Lemma handle_sequencer_event_speaks e :
  (∀ b, P (SignRequest b)) → follows speaks (handle_sequencer_event clock e).
Proof.
  intros Hs. assert (∀ b, follows speaks (send (SignRequest b))) by (intros; by apply send_speaks).
  destruct e; simpl; unfold sign_block_request; solve_speaks.
Qed.

Lemma handle_outcome_speaks r : follows speaks (handle_outcome r).
Proof. unfold handle_outcome. solve_speaks. Qed.
End Speaks.

(** ** An iteration of the loop *)

Definition consensus_after (i : Input) (c : Consensus) : Consensus :=
  match i with NotificationIn (ConsensusUpdated update) => update_config update c | _ => c end.

(** The block an outcome or an announcement hands to the network, with its signature. *)
Definition handed_out (m : Output) : option (DogeosBlock * Bytes) :=
  match m with
  | AnnounceBlock b signature => Some (b, sig_as_bytes signature)
  | ImportOutcome _ (ImportValidBlock b signature) | ImportOutcome _ (ImportValidHeader b signature) =>
      Some (b, signature)
  | _ => None
  end.

(** What an iteration that handles [i] under the consensus [c] may send. *)
Definition may_send (c : Consensus) (i : Input) (m : Output) : Prop :=
  match m with
  | AnnounceBlock b signature => i = SignerEventIn b signature
  | SignRequest _ => i = SequencerPoll
  | ImportOutcome peer (ImportValidBlock b signature) =>
      ∃ bp, signature = sig_as_bytes (nb_signature bp) ∧ b = nb_block bp ∧ peer = nb_peer_id bp ∧
        (validate_new_block c b (nb_signature bp) = Ok tt ∨ i = CommandIn (ImportBlock bp))
  | ImportOutcome _ (ImportValidHeader _ _) => False
  | _ => True
  end.

Lemma may_send_quiet c i m : unremarkable m → may_send c i m.
Proof. destruct m as [| |p r| | |]; try done. by destruct r. Qed.

Lemma checked_may_send c i bp :
  validate_new_block c (nb_block bp) (nb_signature bp) = Ok tt →
  may_send c i (ImportOutcome (nb_peer_id bp)
                  (ImportValidBlock (nb_block bp) (sig_as_bytes (nb_signature bp)))).
Proof. intros Hv. exists bp. auto. Qed.

#[local] Existing Instances speaks_preorder.

Lemma retry_speaks i o : speaks (may_send (consensus o) i) o (retry_blocked_import config o).2.
Proof.
  unfold retry_blocked_import, get_fcs, modify, gets, bind, ret. cbv beta iota.
  destruct (blocked_import o) as [held|]; [|reflexivity].
  set (o1 := set_blocked_import None o).
  assert (speaks (may_send (consensus o) i) o o1) as Ha by apply speaks_blocked.
  destruct (_ <=? _); [exact Ha|].
  destruct (validate_new_block (consensus o1) _ _) as [[]|e|] eqn:Hv; [|exact Ha|exact Ha].
  eapply transitivity; [exact Ha|]. change (consensus o) with (consensus o1).
  apply checked_import_speaks; [apply may_send_quiet|]. intros Hv'. by apply checked_may_send.
Qed.

Lemma speaks_bind {A B} P (m : M (Orchestrator W) ChainOrchestratorError A)
    (k : A → M (Orchestrator W) ChainOrchestratorError B) o :
  speaks P o (m o).2 → (∀ a, speaks P (m o).2 (k a (m o).2).2) → speaks P o (bind m k o).2.
Proof.
  intros Hm Hk. unfold bind. destruct (m o) as [[a|e|] o1]; simpl in *; [|done..].
  eapply transitivity; [exact Hm|apply Hk].
Qed.

Lemma outcome_speaks P (r : option ChainOrchestratorEvent + ChainOrchestratorError) :
  (∀ m, unremarkable m → P m) → follows (speaks P) (handle_outcome (W := W) r ;;; ret true).
Proof.
  intros Hq. apply follows_bind; [apply speaks_preorder|by apply handle_outcome_speaks|].
  intros _. apply follows_ret, speaks_preorder.
Qed.

Lemma try_state {S E F A} (m : M S E A) s : (try m s : outcome F _ * S).2 = (m s).2.
Proof. unfold try. by destruct (m s) as [[]]. Qed.

Lemma notification_speaks n o :
  is_consensus_update n = false →
  speaks (may_send (consensus o) (NotificationIn n)) o (notification_step config clock n o).2.
Proof.
  intros Hn. set (P := may_send _ _). unfold notification_step.
  assert (∀ m, unremarkable m → P m) as Hq by apply may_send_quiet.
  pose proof (handle_l1_notification_speaks P Hq n Hn o) as Ha.
  apply speaks_bind; [by rewrite try_state|]. rewrite try_state.
  set (o1 := (handle_l1_notification config clock n o).2) in *. intros [e|err].
  - apply speaks_bind; [reflexivity|]. intros unblocks. change ((gets _ o1).2) with o1.
    apply speaks_bind; [by apply handle_outcome_speaks|]. intros _.
    pose proof (handle_outcome_speaks P Hq (inl e) o1) as Hb. set (o2 := (handle_outcome _ o1).2) in *.
    apply speaks_bind; [|intros _; by apply speaks_same].
    destruct unblocks; [|by apply speaks_same].
    apply speaks_bind; [|intros r; by apply handle_outcome_speaks]. rewrite try_state.
    pose proof (retry_speaks (NotificationIn n) o2) as Hr.
    assert (consensus o2 = consensus o) as Hc by (by rewrite (proj1 Hb), (proj1 Ha)).
    rewrite Hc in Hr. exact Hr.
  - destruct (is_unwind_failure err); by apply speaks_same.
Qed.

Lemma consensus_update_step u o :
  notification_step config clock (ConsensusUpdated u) o =
    (Ok true, set_consensus (update_config u (consensus o)) o).
Proof.
  destruct o as [en sy co se si pi dr bl li ou].
  unfold notification_step, bind, gets, unblocks_import. cbn. by destruct bl.
Qed.

(** What an iteration of the run loop sends, by its input. *)
Theorem run_step_outputs i o :
  let o' := (run_step config clock i o).2 in
  consensus o' = consensus_after i (consensus o) ∧
  ∃ new, outbox o' = outbox o ++ new ∧ Forall (may_send (consensus o) i) new.
Proof.
  cbv zeta. set (P := may_send (consensus o) i).
  assert (∀ m, unremarkable m → P m) as Hq by apply may_send_quiet.
  assert (∀ e, follows (speaks P) (notify (W := W) e)) as Hn by (intros; by apply notify_speaks).
  destruct i as [| |c|b sg| |r|bp|n]; cbn [run_step consensus_after].
  - apply speaks_bind; [apply Hn|intros; by apply speaks_same].
  - unfold attempt_step, attempt_outcome. apply speaks_bind; [apply in_resources_speaks|]. intros st.
    destruct st as [consolidated| |f]; [|by apply speaks_same..].
    apply follows_bind; [apply speaks_preorder|apply follows_for_each; [apply speaks_preorder|auto]|].
    intros _. apply follows_bind; [apply speaks_preorder|auto|].
    intros _. apply follows_ret, speaks_preorder.
  - unfold command_step. apply speaks_bind; [by apply speaks_same|]. intros held.
    apply speaks_bind; [|intros [a|e]; [|destruct held]; by apply speaks_same].
    rewrite try_state. apply handle_command_speaks; [done|]. intros bp ->. exists bp. auto.
  - apply speaks_bind; [rewrite try_state|intros r; by apply outcome_speaks].
    unfold handle_signer_event. apply follows_bind; [apply speaks_preorder|apply in_env_speaks|].
    intros _. apply follows_bind; [apply speaks_preorder|by apply send_speaks|].
    intros _. apply follows_ret, speaks_preorder.
  - unfold sequencer_step. apply speaks_bind; [by apply speaks_same|]. intros [sq|]; [|by apply speaks_same].
    destruct (poll_next _ sq) as [e sq']. apply speaks_bind; [by apply speaks_same|].
    intros _. destruct e as [e|]; [|by apply speaks_same].
    apply speaks_bind; [rewrite try_state; by apply handle_sequencer_event_speaks|].
    intros [a|err]; [by apply outcome_speaks|].
    destruct err; try (by apply outcome_speaks).
    match goal with se : SequencerError |- _ => destruct se end;
      first [by apply outcome_speaks|by apply speaks_same].
  - unfold hold_step. apply speaks_bind; [by apply speaks_same|]. intros _.
    apply speaks_bind; [|intros; by apply speaks_same].
    unfold zoom. destruct (hold_batch _ _ _). by apply speaks_same.
  - apply speaks_bind; [rewrite try_state|intros r; by apply outcome_speaks].
    unfold handle_network_event. apply speaks_bind; [apply Hn|]. intros _.
    pose proof (proj1 (Hn (NewBlockReceived bp) o)) as Hc.
    apply checked_import_speaks; [done|]. rewrite Hc. by apply checked_may_send.
  - destruct (is_consensus_update n) eqn:Hu.
    + destruct n as [| | | | | | |u| | |]; try done.
      rewrite consensus_update_step. split; [done|]. exists []. by rewrite app_nil_r.
    + destruct (notification_speaks n o Hu) as [Hc Ho]. split; [|exact Ho]. rewrite Hc. by destruct n.
Qed.

(** A signature of the node's own key is announced, once. *)
Lemma signer_event_announces b signature o :
  ∃ events, outbox (run_step config clock (SignerEventIn b signature) o).2 =
    outbox o ++ AnnounceBlock b signature :: map Notified events.
Proof.
  unfold run_step, handle_signer_event. unfold bind, try, tx, in_env, on_database, in_tx, zoom, map_err, tx_mut.
  cbn. unfold notify, gets, bind. cbn. destruct (listening o).
  - exists [SignedBlock b signature]. cbn. by rewrite <- app_assoc.
  - by exists [].
Qed.
End Outputs.
