(* ===== verification/L1Props.v ===== *)
(** * Properties of the L1 notification handlers

    The agreement of the engine with the database after an L1 reorg or a batch revert, the indexing
    of L1 messages with their queue commitment, and the indexing of batch commits. *)

From S2P Require Import Prelude Sql Primitives Watcher BigEndian Codec Engine DbModel DbOps DbInvariant.
From S2P Require Import DbProps World Signing Sequencer SequencerProps Pipeline Consolidation.
From S2P Require Import Driver Orchestrator RunLoop OrchestratorInv OrchestratorProps ImportProps.

Section Unwind.
Context `{SqlEngine} `{Chain} `{!PayloadConversion} `{Timers} `{Rlp} `{SignerRecovery}
  `{SignatureBytes} `{!EngineApi W} `{!L2Provider W} `{!BlockClient W}.
Variable config : ChainOrchestratorConfig.
Variable clock : Clock.
Implicit Types o : Orchestrator W.

Lemma on_engine_driver_run {A} (m : M (Engine W) EngineError A) o r o' :
  on_engine_driver m o = (r, o') →
  ∃ x e', m (engine (env o)) = (x, e') ∧ r = omap_err CoEngineError x ∧
    engine (env o') = e' ∧ database (env o') = database (env o).
Proof.
  unfold on_engine_driver, in_env, on_engine, zoom, map_err.
  destruct (m (engine (env o))) as [x e']. intros [= <- <-]. by exists x, e'.
Qed.

(** The engine follows exactly on [VALID]; in every other case the local fork choice stays. *)
Lemma update_after_unwind_spec op h s o r o' :
  update_fcs_after_unwind op h s o = (r, o') →
  database (env o') = database (env o) ∧
  match r with
  | Ok _ => orchestrator_fcs o' = fcs_candidate h s None (orchestrator_fcs o)
  | _ => orchestrator_fcs o' = orchestrator_fcs o
  end ∧
  match r with Err e => is_unwind_failure e = true | _ => True end.
Proof.
  unfold update_fcs_after_unwind, bind, try, orchestrator_fcs.
  destruct (on_engine_driver _ o) as [r1 o1] eqn:E1.
  apply on_engine_driver_run in E1 as (x & e' & Hu & -> & He & Hd).
  destruct x as [resp|err|]; cbn [omap_err].
  - pose proof (update_fcs_checked_ok _ _ _ _ _ _ Hu) as Hok.
    destruct (fcu_is_valid resp) eqn:Ev.
    + unfold fcu_is_valid in Ev. destruct (status (payload_status resp)); try done.
      intros [= <- <-]. rewrite He. apply fcs_update_spec in Hok as (_ & -> & _). done.
    + unfold fcu_is_valid in Ev. destruct (status (payload_status resp)); try done;
        unfold get_fcs, gets, fail, orchestrator_fcs; intros [= <- <-]; rewrite He; done.
  - pose proof (update_fcs_checked_failed _ _ _ _ _ _ Hu eq_refl) as Hf.
    unfold get_fcs, gets, fail, orchestrator_fcs. intros [= <- <-]. rewrite He. done.
  - pose proof (update_fcs_checked_failed _ _ _ _ _ _ Hu eq_refl) as Hf.
    intros [= <- <-]. rewrite He. done.
Qed.

(** Handlers that only read the L2 client and touch the sequencer keep the engine and database. *)
Definition same_node (f : ForkchoiceState) (d : Db) o : Prop :=
  orch_inv (λ f', f' = f) (λ d', d' = d) (λ _, True) o.

Lemma same_node_self o : same_node (orchestrator_fcs o) (database (env o)) o.
Proof. done. Qed.

Lemma l2_block_at_Ok n o b o' :
  l2_block_at n o = (Ok b, o') → same_node (orchestrator_fcs o) (database (env o)) o'.
Proof.
  intros Hb. eapply preserves_ok; [|exact Hb|apply same_node_self]. apply l2_block_at_pres.
Qed.

Lemma new_l2_head_Ok k o head txs o' :
  new_l2_head k o = (Ok (head, txs), o') →
  same_node (orchestrator_fcs o) (database (env o)) o' ∧
  number <$> head = k.
Proof.
  intros Hn. split.
  { eapply preserves_ok; [|exact Hn|apply same_node_self]. apply new_l2_head_pres. }
  unfold new_l2_head in Hn. destruct k as [k|]; [|by injection Hn as <- <- <-].
  apply bind_Ok in Hn as (b & o1 & _ & Hn). apply bind_Ok in Hn as ([] & o2 & _ & Hn).
  apply bind_Ok in Hn as (f & o3 & _ & Hn). apply bind_Ok in Hn as (txs' & o4 & _ & Hn).
  by injection Hn as <- <- <-.
Qed.

Lemma unwind_held_Ok n o ur ho o' :
  unwind_and_revalidate_held_batch n o = (Ok (ur, ho), o') →
  unwind_and_check (held_identity (derivation_driver o)) n (database (env o)) =
    (Ok (ur, ho), database (env o')) ∧
  orchestrator_fcs o' = orchestrator_fcs o.
Proof.
  unfold unwind_and_revalidate_held_batch, bind, modify. simpl.
  unfold unwind_and_revalidate, tx_mut.
  destruct (unwind_and_check _ _ _) as [[[ur' ho']|e|] d1]; simpl; intros; by simplify_eq.
Qed.

(** C10: when an L1 reorg has been handled, the engine stands where the unwound database does: on
    its new safe block if the unwind removed batches or reverts, and on a head at the database's
    new L2 head if it removed executed messages; the finalized block stays.  If the client does
    not confirm the move, the handler fails with the error that stops the node. *)
Theorem l1_reorg_engine_follows n o ev o' :
  handle_l1_reorg clock n o = (Ok ev, o') →
  ∃ ur ho,
    unwind_and_check (held_identity (derivation_driver o)) n (database (env o)) =
      (Ok (ur, ho), database (env o')) ∧
    fcs_safe (orchestrator_fcs o') =
      default (fcs_safe (orchestrator_fcs o)) (ur_l2_safe_block_info ur) ∧
    (∀ k, ur_l2_head_block_number ur = Some k → number (fcs_head (orchestrator_fcs o')) = k) ∧
    (ur_l2_head_block_number ur = None → fcs_head (orchestrator_fcs o') = fcs_head (orchestrator_fcs o)) ∧
    fcs_finalized (orchestrator_fcs o') = fcs_finalized (orchestrator_fcs o).
Proof.
  unfold handle_l1_reorg. intros ([] & o1 & [= <-] & Hrun)%bind_Ok.
  apply bind_Ok in Hrun as ([ur ho] & o2 & [Hu Hf2]%unwind_held_Ok & Hrun). simpl in Hu, Hf2.
  apply bind_Ok in Hrun as ([head txs] & o3 & [[[Hf3 Hd3] _] Hk]%new_l2_head_Ok & Hrun).
  apply bind_Ok in Hrun as (origin & o4 & [= <- <-] & Hrun).
  apply bind_Ok in Hrun as ([] & o4 & Hcancel%when_Ok & Hrun).
  assert (env o4 = env o3) as He4.
  { match type of Hcancel with if ?b then _ else _ => destruct b end;
      [by injection Hcancel as <-|by subst]. }
  apply bind_Ok in Hrun as ([] & o5 & Hup%when_Ok & Hrun).
  apply bind_Ok in Hrun as ([] & o6 & Hre & Hrun).
  assert (same_node (orchestrator_fcs o5) (database (env o5)) o6) as [[Hf6 Hd6] _].
  { eapply preserves_ok; [|exact Hre|apply same_node_self]. apply reinsert_pres. }
  apply bind_Ok in Hrun as ([] & o7 & Hfr%when_Ok & [= <- <-]).
  assert (env o7 = env o6) as He7.
  { destruct (is_survived ho); [by injection Hfr as <-|by subst]. }
  assert (orchestrator_fcs o5 =
          fcs_candidate head (ur_l2_safe_block_info ur) None (orchestrator_fcs o) ∧
          database (env o5) = database (env o2)) as [Hf5 Hd5].
  { assert (orchestrator_fcs o4 = orchestrator_fcs o) as Hf4.
    { transitivity (orchestrator_fcs o3); [by unfold orchestrator_fcs; rewrite He4|].
      transitivity (orchestrator_fcs o2); [exact Hf3|exact Hf2]. }
    assert (database (env o4) = database (env o2)) as Hd4 by (by rewrite He4).
    destruct (negb _) eqn:En.
    - apply update_after_unwind_spec in Hup as (Hd & Hup & _). by rewrite Hup, Hf4, Hd.
    - subst o5. split; [|done]. rewrite Hf4.
      apply negb_false_iff, andb_true_iff in En as [Eh Es]. bool_to_prop.
      subst head. rewrite Es. unfold fcs_candidate. simpl. by destruct (orchestrator_fcs o). }
  assert (orchestrator_fcs o7 = orchestrator_fcs o5) as Hf7.
  { unfold orchestrator_fcs. rewrite He7. exact Hf6. }
  exists ur, ho. rewrite Hf7, Hf5, He7, Hd6, Hd5. split; [exact Hu|]. simpl. split_and!; try done.
  - intros k Hk'. rewrite Hk' in Hk. by destruct head; simplify_eq/=.
  - intros Hk'. rewrite Hk' in Hk. by destruct head; simplify_eq/=.
Qed.

Lemma in_tx_Ok {A} (m : DB A) d a d' : in_tx m d = (Ok a, d') → m d = (Ok a, d').
Proof. unfold in_tx, map_err. destruct (m d) as [[]]; intros; by simplify_eq/=. Qed.

Lemma insert_l1_block_info_batches bi d d' :
  insert_l1_block_info bi d = (Ok tt, d') → batch_commit d' = batch_commit d.
Proof.
  unfold insert_l1_block_info. intros (n & d1 & Hn & Hrun)%bind_Ok.
  assert (d1 = d) as ->.
  { pose proof (get_metadata_reads "l1_finalized_block" d) as Hr.
    unfold get_finalized_l1_block_number in Hn. by rewrite Hn in Hr. }
  destruct (number bi <=? n); [by injection Hrun as <-|].
  apply bind_Ok in Hrun as (bn & d2 & [_ ->]%lift_Ok & Hrun).
  unfold upsert_l1_block, bind, get in Hrun. destruct (hash_taken _ _ _); [done|].
  by injection Hrun as <-.
Qed.

(** After a revert of a range, every block of an unreverted batch of the range is reverted. *)
Lemma set_revert_reverts i j bi d d' r b :
  set_batch_revert_block_number_for_batch_range i j bi d = (Ok tt, d') →
  b ∈ batch_commit d → br_reverted_block_number b = None → as_i64 i <= br_index b <= as_i64 j →
  r ∈ l2_block d' → lr_batch_hash r = br_hash b → lr_reverted r = true.
Proof.
  unfold set_batch_revert_block_number_for_batch_range, update_batches, update_l2_blocks, bind, get,
    modify. intros [= <-] Hb Hnull Hij Hr Hh. simpl in Hr.
  set (hashes := map br_hash _) in Hr.
  assert (is_in (br_hash b) hashes = true) as Hin.
  { apply is_in_true, elem_of_map. exists b. split; [|done]. apply elem_of_find. split; [done|].
    rewrite Hnull. simpl. rewrite andb_true_r, !(proj2 (Z.leb_le _ _)) by lia. done. }
  unfold update_many in Hr. apply elem_of_map in Hr as (r0 & _ & <-).
  destruct (is_in (lr_batch_hash r0) hashes) eqn:E; [done|]. simpl in Hh. by rewrite Hh, Hin in E.
Qed.

(** C11: when the revert of a range of batches has been handled by a synced node, the engine's safe
    block is the highest block left in the database, every block of the reverted batches is out of
    consideration, and head and finalized stay; otherwise the node stops. *)
Theorem batch_revert_engine_follows i j bi o ev o' :
  state_is_synced (sync_state o) = true →
  handle_batch_revert i j bi o = (Ok ev, o') →
  ∃ safe batch,
    get_latest_safe_l2_info (database (env o')) = (Ok (safe, batch), database (env o')) ∧
    fcs_safe (orchestrator_fcs o') = safe ∧ ev = Some (BatchReverted batch safe) ∧
    fcs_head (orchestrator_fcs o') = fcs_head (orchestrator_fcs o) ∧
    fcs_finalized (orchestrator_fcs o') = fcs_finalized (orchestrator_fcs o) ∧
    ∀ r b, b ∈ batch_commit (database (env o)) → br_reverted_block_number b = None →
      as_i64 i <= br_index b <= as_i64 j →
      r ∈ l2_block (database (env o')) → lr_batch_hash r = br_hash b → lr_reverted r = true.
Proof.
  intros Hs. unfold handle_batch_revert. intros ([safe batch] & o1 & Htx%tx_Ok & Hrun)%bind_Ok.
  destruct Htx as (Hm & He1 & Hs1).
  apply bind_Ok in Hrun as (s & o2 & [= <- <-] & Hrun). rewrite Hs1, Hs in Hrun.
  apply bind_Ok in Hrun as ([] & o3 & (Hd3 & Hf3 & _)%update_after_unwind_spec & [= <- <-]).
  apply bind_Ok in Hm as ([] & d1 & Hins%in_tx_Ok & Hm).
  apply bind_Ok in Hm as ([] & d2 & Hset%in_tx_Ok & Hget%in_tx_Ok).
  assert (d2 = database (env o1)) as ->.
  { pose proof (get_latest_safe_reads d2) as Hr. by rewrite Hget in Hr. }
  assert (orchestrator_fcs o1 = orchestrator_fcs o) as Hf1.
  { unfold orchestrator_fcs. by rewrite He1. }
  exists safe, batch. rewrite Hd3. split_and!; try done; [by rewrite Hf3|by rewrite Hf3, Hf1..|].
  intros r b Hb Hnull Hij Hr Hh. apply insert_l1_block_info_batches in Hins.
  eapply set_revert_reverts; [exact Hset|by rewrite Hins|done|done|done|done].
Qed.

(** ** Indexing of L1 messages *)

(** Asking for one message from an index that is stored finds that message. *)
Lemma one_message_at_index q d ms d' row :
  NoDup (map mr_queue_index (l1_message d)) →
  get_n_l1_messages (Some (QueueIndex q)) 1 d = (Ok ms, d') →
  row ∈ l1_message d → mr_queue_index row = q →
  ∃ m, ms = [m] ∧ queue_hash m = mr_queue_hash row.
Proof.
  intros Hnd Hget Hrow Hq.
  apply select_messages_spec in Hget as (-> & rows & Hsm & Hms).
  destruct Hsm as (Hlen & _ & _ & Hin & Hmin & Hall).
  assert ((q <=? mr_queue_index row) = true) as Hp by (apply Z.leb_le; lia).
  assert (row ∈ rows) as Hrr.
  { destruct rows as [|r0 rows]; [by apply Hall; [..|simpl; lia]|].
    destruct (decide (row ∈ r0 :: rows)) as [|Hnot]; [done|]. exfalso. apply Hnot.
    destruct (Hin r0 ltac:(left)) as [Hr0 Hp0].
    pose proof (Hmin row r0 Hrow Hp Hnot ltac:(left)) as Hle.
    assert (row = r0) as ->; [|left]. apply (NoDup_map_inj mr_queue_index (l1_message d)); try done.
    apply Z.leb_le in Hp0. lia. }
  destruct rows as [|r0 [|r1 rows]]; [by apply not_elem_of_nil in Hrr| |simpl in Hlen; lia].
  apply list_elem_of_singleton in Hrr as ->.
  inversion Hms as [|? m ? ms' Hm Hnil]; subst. inversion Hnil; subst. exists m. split; [done|].
  unfold L1MessageEnvelope_from in Hm. destruct (parse_u64 _); simplify_eq/=. done.
Qed.

Lemma db_Ok {A} (m : DB A) o a o' :
  db m o = (Ok a, o') →
  m (database (env o)) = (Ok a, database (env o')) ∧ engine (env o') = engine (env o) ∧
  derivation_pipeline o' = derivation_pipeline o ∧ sync_state o' = sync_state o.
Proof.
  unfold db, in_env, on_database, zoom, map_err, tx_mut.
  destruct (m (database (env o))) as [[x| |] d]; simpl; intros; by simplify_eq.
Qed.

(** The commitment a message of the queue must carry, given the stored messages. *)
Definition commitment_of (t : list MsgRow) (message : TxL1Message) (qh : option B256) : Prop :=
  let start := l1_v2_message_queue_start_index config in
  (queue_index message < start → qh = None) ∧
  (queue_index message = start → qh = Some (hash_msg_queue 0 (l1_tx_hash message))) ∧
  (start < queue_index message → ∀ row, row ∈ t → mr_queue_index row = queue_index message - 1 →
     qh = Some (hash_msg_queue (default 0 (mr_queue_hash row)) (l1_tx_hash message))).

Lemma queue_hash_Ok message o qh o' :
  NoDup (map mr_queue_index (l1_message (database (env o)))) →
  compute_l1_message_queue_hash config message o = (Ok qh, o') →
  database (env o') = database (env o) ∧ commitment_of (l1_message (database (env o))) message qh.
Proof.
  intros Hnd. unfold compute_l1_message_queue_hash, commitment_of.
  set (start := l1_v2_message_queue_start_index config).
  destruct (Z.eqb_spec (queue_index message) start) as [E|E].
  { unfold ret. intros [= <- <-]. split; [done|]. split_and!; intros; [lia|done|lia]. }
  destruct (Z.ltb_spec start (queue_index message)) as [L|L].
  2: { unfold ret. intros [= <- <-]. split; [done|]. split_and!; intros; [done|lia..]. }
  intros (msgs & o1 & (Hget & _)%db_Ok & Hrun)%bind_Ok.
  apply bind_Ok in Hrun as (prev & o2 & [Hprev ->]%lift_Ok & [= <- <-]).
  pose proof (get_n_l1_messages_reads _ _ _ _ _ Hget) as Hd. split; [done|].
  split_and!; [lia|lia|]. intros _ row Hrow Hidx.
  destruct (one_message_at_index _ _ _ _ row Hnd Hget Hrow Hidx) as (m & -> & Hm).
  unfold ok_or in Hprev. simpl in Hprev. injection Hprev as <-. by rewrite Hm.
Qed.

Lemma insert_l1_block_info_messages bi d d' :
  insert_l1_block_info bi d = (Ok tt, d') → l1_message d' = l1_message d.
Proof.
  unfold insert_l1_block_info. intros (n & d1 & Hn & Hrun)%bind_Ok.
  assert (d1 = d) as ->.
  { pose proof (get_metadata_reads "l1_finalized_block" d) as Hr.
    unfold get_finalized_l1_block_number in Hn. by rewrite Hn in Hr. }
  destruct (number bi <=? n); [by injection Hrun as <-|].
  apply bind_Ok in Hrun as (bn & d2 & [_ ->]%lift_Ok & Hrun).
  unfold upsert_l1_block, bind, get in Hrun. destruct (hash_taken _ _ _); [done|].
  by injection Hrun as <-.
Qed.

Lemma db_reads_pres {A} (m : DB A) d :
  reads m → preserves (λ o, database (env o) = d) (db m).
Proof.
  intros Hm o <-. unfold db, in_env, on_database, zoom, map_err, tx_mut.
  specialize (Hm (database (env o))). destruct (m (database (env o))) as [[x| |] d']; done.
Qed.

Lemma queue_hash_reads message d :
  preserves (λ o, database (env o) = d) (compute_l1_message_queue_hash config message).
Proof.
  unfold compute_l1_message_queue_hash. destruct (_ =? _); [apply preserves_ret|].
  destruct (_ <? _); [|apply preserves_ret]. apply preserves_bind.
  - apply db_reads_pres, get_n_l1_messages_state.
  - intros msgs. apply preserves_bind; [apply preserves_lift|intros; apply preserves_ret].
Qed.

Lemma tx_failed {A} (m : M Db ChainOrchestratorError A) o r o' :
  tx m o = (r, o') → is_ok r = false → database (env o') = database (env o).
Proof.
  unfold tx, in_env, on_database, zoom, map_err, tx_mut.
  destruct (m (database (env o))) as [[x| |] d]; simpl; intros; by simplify_eq/=.
Qed.

(** C12: an indexed L1 message is stored under its L1 block, not yet included in any L2 block, with
    the queue commitment of the protocol: none before the V2 queue starts, the hash of the zero
    commitment and the message at its start, and after it the hash of the predecessor's commitment
    and the message.  A message the index already holds changes nothing, and a message whose
    handling fails leaves the database as it was. *)
Theorem l1_message_commitment message bi o r o' :
  NoDup (map mr_queue_index (l1_message (database (env o)))) →
  handle_l1_message config message bi o = (r, o') →
  let t := l1_message (database (env o)) in
  match r with
  | Ok ev =>
      ev = Some (L1MessageCommitted (queue_index message)) ∧
      ∃ qh, commitment_of t message qh ∧
        let row := MsgRow_from (mkL1MessageEnvelope message (number bi) None qh) in
        l1_message (database (env o')) = if existsb (msg_conflicts row) t then t else t ++ [row]
  | _ => database (env o') = database (env o)
  end.
Proof.
  intros Hnd Hrun t.
  pose proof (queue_hash_reads message (database (env o)) o eq_refl) as Hkeep.
  unfold handle_l1_message, bind at 1 in Hrun.
  destruct (compute_l1_message_queue_hash config message o) as [[qh|e|] o1] eqn:Eq;
    simpl in Hkeep; [|by injection Hrun as <- <-..].
  apply queue_hash_Ok in Eq as [_ Hqh]; [|done].
  unfold bind in Hrun. destruct (tx _ o1) as [[[]|e|] o2] eqn:Et; unfold ret in Hrun;
    injection Hrun as <- <-.
  - split; [done|]. exists qh. split; [done|]. apply tx_Ok in Et as (Hm & _).
    rewrite Hkeep in Hm. unfold l1_message_tx in Hm.
    apply bind_Ok in Hm as (gap & d1 & Hgap & Hm). destruct gap; [done|].
    assert (d1 = database (env o)) as ->.
    { revert Hgap. destruct (0 <? _); [|unfold ret; congruence].
      intros (prev & d2 & Hp%in_tx_Ok & [= _ <-])%bind_Ok. by apply get_n_l1_messages_reads in Hp. }
    apply bind_Ok in Hm as ([] & d2 & Hi%in_tx_Ok & Hb%in_tx_Ok).
    apply insert_l1_block_info_messages in Hb as ->. injection Hi as <-. cbv zeta.
    fold t. by destruct (existsb _ t).
  - apply tx_failed in Et as ->; [by rewrite Hkeep|done].
  - apply tx_failed in Et as ->; [by rewrite Hkeep|done].
Qed.

(** ** Batch commits *)

Lemma insert_batch_Ok b d d' :
  insert_batch b d = (Ok tt, d') →
  ∃ row, @BatchRow_from DatabaseError b = Ok row ∧
         d' = set_batch_commit (upsert_batch row (batch_commit d)) d.
Proof. unfold insert_batch. intros (row & d1 & [? ->]%lift_Ok & [= <-])%bind_Ok. by exists row. Qed.

Lemma tx_run {A} (m : M Db ChainOrchestratorError A) o r o' :
  tx m o = (r, o') →
  r = fst (m (database (env o))) ∧
  o' = set_env (mkEnv (engine (env o))
         (if is_ok r then snd (m (database (env o))) else database (env o))) o.
Proof.
  unfold tx, in_env, on_database, zoom, map_err, tx_mut.
  destruct (m (database (env o))) as [[x| |] d]; simpl; intros; by simplify_eq/=.
Qed.

Lemma batch_commit_Ok bi batch d ev d' :
  batch_commit_tx bi batch d = (Ok ev, d') →
  ev = BatchCommitIndexed (BatchInfo_from batch) (bc_block_number batch) ∧
  (∃ b, get_batch_by_index (wrapping_sub (bc_index batch) 1) d = (Ok (Some b), d)) ∧
  ∃ row, @BatchRow_from DatabaseError batch = Ok row ∧ batch_commit d' = upsert_batch row (batch_commit d).
Proof.
  unfold batch_commit_tx. intros (prev & d1 & Hp%in_tx_Ok & Hrun)%bind_Ok.
  pose proof (get_batch_by_index_state (wrapping_sub (bc_index batch) 1) d) as Hd.
  rewrite Hp in Hd. simpl in Hd. subst d1. destruct prev as [prev|]; [|done].
  apply bind_Ok in Hrun as ([] & d1 & (row & Hrow & ->)%in_tx_Ok%insert_batch_Ok & Hrun).
  apply bind_Ok in Hrun as ([] & d2 & Hb%in_tx_Ok%insert_l1_block_info_batches & [= <- <-]).
  split_and!; [done|by eexists|]. exists row. by rewrite Hb.
Qed.

Lemma in_tx_Err {A} (m : DB A) d e d' : in_tx m d = (Err e, d') → ∃ e', e = CoDatabaseError e'.
Proof. unfold in_tx, map_err. destruct (m d) as [[]]; intros; simplify_eq/=. by eexists. Qed.

Lemma batch_commit_gap bi batch d d' :
  batch_commit_tx bi batch d = (Err (BatchCommitGap (bc_index batch)), d') →
  get_batch_by_index (wrapping_sub (bc_index batch) 1) d = (Ok None, d).
Proof.
  unfold batch_commit_tx, bind at 1. destruct (in_tx (get_batch_by_index _) d) as [[p|e|] d1] eqn:Ep.
  - apply in_tx_Ok in Ep.
    pose proof (get_batch_by_index_state (wrapping_sub (bc_index batch) 1) d) as Hd.
    rewrite Ep in *. simpl in Hd. subst d1. destruct p as [p|]; [|done]. unfold bind.
    destruct (in_tx (insert_batch batch) d) as [[[]|e|] d2] eqn:Ei; [|intros [= -> _]|done].
    + destruct (in_tx (insert_l1_block_info bi) d2) as [[[]|e|] d3] eqn:Eb; [done|intros [= -> _]|done].
      by apply in_tx_Err in Eb as [? ?].
    + by apply in_tx_Err in Ei as [? ?].
  - intros [= -> _]. by apply in_tx_Err in Ep as [? ?].
  - done.
Qed.

(** What a commit leaves in the pipeline. *)
Definition pushed_if_synced o (batch : BatchCommitData) : list BatchDerivationRequest :=
  pushed_batches (derivation_pipeline o) ++
  if state_is_synced (sync_state o)
  then [{| rq_batch_info := BatchInfo_from batch; rq_target_status := Consolidated |}] else [].

End Unwind.
