(* ===== verification/LoopProps.v ===== *)
(** * Which errors stop the node

    The run loop survives every error but the fail-stop ones. *)

From S2P Require Import Prelude Sql Primitives Watcher BigEndian Codec Engine Concrete DbModel DbOps.
From S2P Require Import DbInvariant World Signing ConcreteRlp Sequencer SequencerProps Pipeline.
From S2P Require Import Consolidation Driver ConcreteWorld Orchestrator RunLoop OrchestratorInv.
From S2P Require Import OrchestratorProps ImportProps L1Props.

Section FailStop.
Context `{SqlEngine} `{Chain} `{!PayloadConversion} `{Timers} `{Rlp} `{SignerRecovery}
  `{SignatureBytes} `{!EngineApi W} `{!L2Provider W} `{!BlockClient W}.
Variable config : ChainOrchestratorConfig.
Variable clock : Clock.
Implicit Types o : Orchestrator W.

Lemma notify_total e o : ∃ o', notify e o = (Ok tt, o').
Proof. unfold notify, bind, gets. destruct (listening o); by eexists. Qed.

Lemma notify_opt_total e o : ∃ o', notify_opt e o = (Ok tt, o').
Proof. destruct e; [apply notify_total|by eexists]. Qed.

Lemma handle_outcome_total r o : ∃ o', handle_outcome r o = (Ok tt, o').
Proof. destruct r; [apply notify_opt_total|by eexists]. Qed.

Lemma notify_all_total {A} (f : A → ChainOrchestratorEvent) l o :
  ∃ o', for_each (λ x, notify (f x)) l o = (Ok tt, o').
Proof.
  revert o. induction l as [|x l IH]; intros o; simpl; [by eexists|].
  unfold bind. destruct (notify_total (f x) o) as [o1 ->]. apply IH.
Qed.

Lemma bind_Err {S E A B} (m : M S E A) (k : A → M S E B) s e s' :
  bind m k s = (Err e, s') → m s = (Err e, s') ∨ ∃ a s1, m s = (Ok a, s1) ∧ k a s1 = (Err e, s').
Proof. unfold bind. destruct (m s) as [[a|e1|] s1]; intros; simplify_eq; eauto. Qed.

Lemma try_Err {S E F A} (m : M S E A) s (e : F) s' : ¬ try m s = (Err e, s').
Proof. unfold try. by destruct (m s) as [[]]. Qed.

(** The fail-stop conditions, one per branch of the loop. *)
Definition fail_stop (i : Input) o (e : ChainOrchestratorError) : Prop :=
  match i with
  | AttemptDue =>
      ∃ f st, run_attempt (E := ChainOrchestratorError) (now_ms clock) (derivation_driver o, env o) =
                (Ok (Fatal f), st) ∧ e = fatal_error f
  | CommandIn (RevertToL1Block n) => pending (derivation_driver o) ≠ None
  | SequencerPoll => ∃ bi lvh msg, e = CoSequencerError (InvalidPayload bi lvh msg)
  | NotificationIn n => is_unwind_failure e = true
  | _ => False
  end.

(** An outcome that is handled ends no iteration. *)
Lemma outcome_never_stops r o e o' : ¬ (bind (handle_outcome r) (λ _, ret true) o = (Err e, o')).
Proof. intros Hrun. unfold bind in Hrun. by destruct (handle_outcome_total r o) as [o1 Ho]; rewrite Ho in Hrun. Qed.

Lemma tried_never_stops (m : M (Orchestrator W) ChainOrchestratorError (option ChainOrchestratorEvent)) o e o' :
  ¬ ((let* r := try m in handle_outcome r ;;; ret true) o = (Err e, o')).
Proof.
  intros Hrun. apply bind_Err in Hrun as [Hrun%try_Err|(r & o2 & _ & Hrun)]; [done|]. by apply outcome_never_stops in Hrun.
Qed.

Lemma attempt_stops o e o' : attempt_step clock o = (Err e, o') → fail_stop AttemptDue o e.
Proof.
  unfold attempt_step, attempt_outcome. intros Hrun. apply bind_Err in Hrun as [Hrun|(st & o1 & Hst & Hrun)].
  - unfold run_attempt in Hrun. destruct (pending _); [|done].
    by destruct (reconcile_and_consolidate _ _) as [[|[|]|] ?].
  - destruct (run_attempt _ _) as [x [d en]] eqn:Ea. injection Hst as -> <-.
    destruct st as [c| |f]; [|done|].
    + unfold bind in Hrun. destruct (notify_all_total BlockConsolidated (block_outcomes c)
        (set_driver d (set_env en o))) as [o2 Ho]. rewrite Ho in Hrun.
      destruct (notify_total (BatchConsolidated (batch_outcome c)) o2) as [o3 Ho3].
      by rewrite Ho3 in Hrun.
    + injection Hrun as <- <-. by exists f, (d, en).
Qed.

Lemma command_stops c o e o' : command_step clock c o = (Err e, o') → fail_stop (CommandIn c) o e.
Proof.
  unfold command_step. intros Hrun. apply bind_Err in Hrun as [Hrun|(held & o1 & [= <- <-] & Hrun)]; [done|].
  apply bind_Err in Hrun as [Hrun%try_Err|(r & o2 & _ & Hrun)]; [done|].
  destruct r as [r|err]; [done|]. destruct (held_operation c o) eqn:Eh; [|done].
  destruct c; try done. unfold held_operation, can_accept_batch in Eh. cbn [fail_stop]. by destruct (pending _).
Qed.

Lemma sequencer_stops o e o' : sequencer_step clock o = (Err e, o') → fail_stop SequencerPoll o e.
Proof.
  unfold sequencer_step. intros Hrun. apply bind_Err in Hrun as [Hrun|(s & o1 & [= <- <-] & Hrun)]; [done|].
  destruct (sequencer o) as [s|]; [|done]. destruct (poll_next _ s) as [ev s'].
  apply bind_Err in Hrun as [Hrun|([] & o1 & _ & Hrun)]; [done|].
  destruct ev as [ev|]; [|done].
  apply bind_Err in Hrun as [Hrun%try_Err|(r & o2 & _ & Hrun)]; [done|].
  destruct r as [r|err]; [by apply outcome_never_stops in Hrun|].
  destruct err; try (by apply outcome_never_stops in Hrun). destruct e0; try (by apply outcome_never_stops in Hrun).
  injection Hrun as <- <-. by eexists _, _, _.
Qed.

Lemma hold_never_stops r o e o' : ¬ (hold_step clock r o = (Err e, o')).
Proof.
  unfold hold_step. intros Hrun. apply bind_Err in Hrun as [Hrun|([] & o1 & _ & Hrun)]; [done|].
  apply bind_Err in Hrun as [Hrun|([] & o2 & _ & Hrun)]; [|done].
  unfold zoom, hold_batch, bind, get in Hrun. by destruct (negb _).
Qed.

Lemma notification_stops n o e o' :
  notification_step config clock n o = (Err e, o') → fail_stop (NotificationIn n) o e.
Proof.
  unfold notification_step. intros Hrun. apply bind_Err in Hrun as [Hrun%try_Err|(r & o2 & _ & Hrun)]; [done|].
  destruct r as [ev|err].
  - unfold bind, gets in Hrun. destruct (handle_outcome_total (inl ev) o2) as [o3 Ho].
    rewrite Ho in Hrun. destruct (unblocks_import n o2); [|done].
    unfold try in Hrun. destruct (retry_blocked_import config o3) as [[x|x|] o4]; [| |done];
      [destruct (handle_outcome_total (inl x) o4) as [o5 Ho5]
      |destruct (handle_outcome_total (inr x) o4) as [o5 Ho5]]; by rewrite Ho5 in Hrun.
  - destruct (is_unwind_failure err) eqn:Eu; [|done]. by injection Hrun as <- <-.
Qed.

(** C4: the node stops with an error only for a fatal reconciliation attempt, for a failed
    administrative unwind while a batch is held, for a payload of its own that the execution client
    rejects, or when the client does not follow the database after an L1 reorg or a batch revert.
    No block of a peer, no other L1 event, no signer event and no other command stops it. *)
Theorem node_stops_only_on i o e o' :
  run_step config clock i o = (Err e, o') → fail_stop i o e.
Proof.
  destruct i as [| |c|b s| |r|bp|n]; intros Hrun.
  - apply bind_Err in Hrun as [Hrun|(? & ? & _ & Hrun)]; [|done].
    by destruct (notify_total Shutdown o) as [o1 Ho]; rewrite Ho in Hrun.
  - by eapply attempt_stops.
  - by eapply command_stops.
  - by apply tried_never_stops in Hrun.
  - by eapply sequencer_stops.
  - by apply hold_never_stops in Hrun.
  - by apply tried_never_stops in Hrun.
  - by eapply notification_stops.
Qed.
End FailStop.
