(* ===== verification/FullNode.v ===== *)
(** * The node's tasks together

    The watcher and the orchestrator of [System] with the signer task and the network manager: the
    outbox of the orchestrator feeds the signer and the network manager, whose results come back
    as inputs of the run loop.  The signer's channels lose nothing; the network manager's events
    are a broadcast from which a slow orchestrator may miss blocks.  The theorems follow a block from
    the request of its signature, and from its import, to the peers it is handed to. *)

From S2P Require Import Prelude Sql Primitives BigEndian Codec Engine DbModel DbOps DbInvariant.
From S2P Require Import World Signing Sequencer Pipeline Consolidation Driver Orchestrator.
From S2P Require Import RunLoop Outputs Watcher System Network.

Section FullNode.
Context `{SqlEngine} `{Chain} `{!PayloadConversion} `{Timers} `{Rlp} `{SignerRecovery}
  `{SignatureBytes} `{!EngineApi W} `{!L2Provider W} `{!BlockClient W}.
Context `{L1Abi} `{!L1Node L1} `{Allocation} `{LruCache} `{!WireCodec}.
Variable config : ChainOrchestratorConfig.
Variable sign_hash : B256 → Signature → Prop.

(** What the signer task has sent. *)
Definition signatures (t : Signer) : list (DogeosBlock * Signature) := Signing.sent t.

(** ** The state: the tasks, and how far each channel was read *)

Record FullNode := mkFullNode {
  system : System (W := W) (L1 := L1);
  signer_task : Signer;
  manager : ScrollNetworkManager;
  requests_read : nat;
  signed_read : nat;
  messages_read : nat;
  events_read : nat
}.
Implicit Types s : FullNode.
Implicit Types o : Orchestrator W.

Definition orchestrator s : Orchestrator W := node (system s).

(** The channel to the signer, and the one to the network manager. *)
Definition sign_request (m : Output) : option DogeosBlock :=
  match m with SignRequest b => Some b | _ => None end.
Definition network_message (m : Output) : option NetworkHandleMessage :=
  match m with
  | AnnounceBlock b signature => Some (HandleAnnounceBlock b signature)
  | ImportOutcome peer r => Some (HandleImportOutcome peer r)
  | _ => None
  end.
Definition network_event (a : NetworkAction) : option NewBlockWithPeer :=
  match a with NewBlockEvent bp => Some bp | _ => None end.

Definition sign_requests o : list DogeosBlock := omap sign_request (outbox o).
Definition network_messages o : list NetworkHandleMessage := omap network_message (outbox o).
Definition network_events (nm : ScrollNetworkManager) : list NewBlockWithPeer :=
  omap network_event (actions nm).

(** Inputs of the network manager that do not come from the orchestrator. *)
Definition from_outside (i : NetworkInput) : bool :=
  match i with
  | FromHandle (HandleAnnounceBlock _ _) _ | FromHandle (HandleImportOutcome _ _) _ => false
  | _ => true
  end.

(** Inputs of the run loop that no other task provides. *)
Definition external (i : Input) : bool :=
  match i with SignerEventIn _ _ | NetworkBlockIn _ | NotificationIn _ => false | _ => true end.

(** ** The steps, labelled with the inputs the run loop handles *)

Definition loop_iteration clock (i : Input) s (requests signed messages events : nat) : FullNode :=
  mkFullNode (node_step config clock i (system s)) (signer_task s) (manager s)
    requests signed messages events.

Inductive full_step : list Input → FullNode → FullNode → Prop :=
| full_l1_moves p s :
    full_step [] s (mkFullNode (set_watcher (set_provider p (watcher (system s))) (system s))
      (signer_task s) (manager s) (requests_read s) (signed_read s) (messages_read s) (events_read s))
| full_watch fuel w' s :
    run_round fuel (unread_commands (handle (system s))) (watcher (system s)) = (Ok true, w') →
    full_step [] s
      (mkFullNode (mkSystem w' (mkWatcherHandle [] (received (handle (system s)))) (node (system s)))
         (signer_task s) (manager s) (requests_read s) (signed_read s) (messages_read s) (events_read s))
| full_notification clock n s :
    l1_notification (system s) = Some n → enabled (NotificationIn n) (orchestrator s) = true →
    full_step [NotificationIn n] s
      (mkFullNode (node_step config clock (NotificationIn n) (take_notification (system s)))
         (signer_task s) (manager s) (requests_read s) (signed_read s) (messages_read s) (events_read s))
| full_external clock i s :
    external i = true → enabled i (orchestrator s) = true →
    full_step [i] s (loop_iteration clock i s (requests_read s) (signed_read s) (messages_read s)
                       (events_read s))
| full_signed clock b signature s :
    signatures (signer_task s) !! signed_read s = Some (b, signature) →
    enabled (SignerEventIn b signature) (orchestrator s) = true →
    full_step [SignerEventIn b signature] s
      (loop_iteration clock (SignerEventIn b signature) s (requests_read s) (S (signed_read s))
         (messages_read s) (events_read s))
| full_peer_block clock k bp s :
    (events_read s ≤ k)%nat → network_events (manager s) !! k = Some bp →
    full_step [NetworkBlockIn bp] s
      (loop_iteration clock (NetworkBlockIn bp) s (requests_read s) (signed_read s)
         (messages_read s) (S k))
| full_sign_request b t s :
    sign_requests (orchestrator s) !! requests_read s = Some b →
    signer_step sign_hash [b] (signer_task s) t →
    full_step [] s (mkFullNode (system s) t (manager s) (S (requests_read s)) (signed_read s)
                      (messages_read s) (events_read s))
| full_signs t s :
    signer_step sign_hash [] (signer_task s) t →
    full_step [] s (mkFullNode (system s) t (manager s) (requests_read s) (signed_read s)
                      (messages_read s) (events_read s))
| full_message m peers nm s :
    network_messages (orchestrator s) !! messages_read s = Some m →
    network_step (FromHandle m peers) (manager s) = Ok nm →
    full_step [] s (mkFullNode (system s) (signer_task s) nm (requests_read s) (signed_read s)
                      (S (messages_read s)) (events_read s))
| full_network i nm s :
    from_outside i = true → network_step i (manager s) = Ok nm →
    full_step [] s (mkFullNode (system s) (signer_task s) nm (requests_read s) (signed_read s)
                      (messages_read s) (events_read s)).

Inductive full_run : list Input → FullNode → FullNode → Prop :=
| full_run_nil s : full_run [] s s
| full_run_step ins js s1 s2 s3 :
    full_run ins s1 s2 → full_step js s2 s3 → full_run (ins ++ js) s1 s3.

(** A node that has just started: nothing sent, nothing read. *)
Record full_start s : Prop := {
  fs_system : sys_start (system s);
  fs_outbox : outbox (orchestrator s) = [];
  fs_signer : signer_task s = Signer_new;
  fs_manager : ∃ td authorized_signer, manager s = NetworkManager_from_parts td authorized_signer;
  fs_read : requests_read s = 0%nat ∧ signed_read s = 0%nat ∧ messages_read s = 0%nat ∧
            events_read s = 0%nat
}.

(** ** The system of the watcher and the orchestrator is part of it *)

Lemma full_step_system ins s s' : full_step ins s s' → rtc (sys_step config) (system s) (system s').
Proof.
  intros Hs. destruct Hs as [p s|fuel w' s Hr|clock n s Hn He|clock i s Hi He|clock b sg s Hb He|
    clock k bp s Hk Hb|b t s Hb Ht|t s Ht|m peers nm s Hm Hn|i nm s Hi Hn]; simpl; try apply rtc_refl;
    apply rtc_once.
  - apply sys_l1_moves.
  - by eapply sys_watch.
  - by apply sys_notification.
  - apply sys_other; [by destruct i|done].
  - by apply sys_other.
  - by apply sys_other.
Qed.

Lemma full_run_system ins s s' : full_run ins s s' → rtc (sys_step config) (system s) (system s').
Proof.
  induction 1 as [s|ins js s1 s2 s3 _ IH Hs]; [apply rtc_refl|].
  etransitivity; [exact IH|by eapply full_step_system].
Qed.

Lemma node_step_node clock i (sys : System (W := W) (L1 := L1)) :
  node (node_step config clock i sys) = (run_step config clock i (node sys)).2.
Proof.
  unfold node_step. generalize (resets_between (node sys) (run_step config clock i (node sys)).2).
  change ((run_step config clock i (node sys)).2)
    with (node (set_node (run_step config clock i (node sys)).2 sys)) at 2.
  generalize (set_node (run_step config clock i (node sys)).2 sys). intros s ns. revert s.
  induction ns as [|n ns IH]; intros s; simpl; [done|]. by rewrite IH.
Qed.

(** How a step changes the orchestrator: not at all, or by one iteration of its loop. *)
Lemma full_step_orchestrator ins s s' :
  full_step ins s s' →
  (ins = [] ∧ orchestrator s' = orchestrator s) ∨
  ∃ clock i, ins = [i] ∧ orchestrator s' = (run_step config clock i (orchestrator s)).2.
Proof.
  intros Hs. destruct Hs as [p s|fuel w' s Hr|clock n s Hn He|clock i s Hi He|clock b sg s Hb He|
    clock k bp s Hk Hb|b t s Hb Ht|t s Ht|m peers nm s Hm Hn|i nm s Hi Hn];
    try (by left); right; (do 2 eexists; split; [done|]); apply node_step_node.
Qed.

(** ** The blocks of the node's own sequencer *)

Definition own_announcement (m : Output) : option (DogeosBlock * Signature) :=
  match m with AnnounceBlock b signature => Some (b, signature) | _ => None end.
Definition own_announcements o : list (DogeosBlock * Signature) := omap own_announcement (outbox o).

Lemma omap_none {A B} (f : A → option B) l : Forall (λ x, f x = None) l → omap f l = [].
Proof. induction 1 as [|x l Hx _ IH]; [done|]. simpl. by rewrite Hx. Qed.

Lemma own_announcements_step clock i o :
  own_announcements (run_step config clock i o).2 =
    own_announcements o ++ match i with SignerEventIn b signature => [(b, signature)] | _ => [] end.
Proof.
  destruct i as [| | |b sg| | | |].
  4: { destruct (signer_event_announces config clock b sg o) as [es Ho]. unfold own_announcements.
       rewrite Ho, omap_app. simpl. rewrite (omap_none _ (map Notified es)); [done|].
       by apply Forall_fmap, Forall_true. }
  all: match goal with |- context [run_step _ _ ?i _] =>
         destruct (run_step_outputs config clock i o) as (_ & new & Ho & Hnew) end.
  all: unfold own_announcements; rewrite Ho, omap_app, (omap_none _ new); [done|].
  all: eapply Forall_impl; [exact Hnew|]; by intros [].
Qed.

Lemma sign_requests_step clock i o :
  sign_requests o `prefix_of` sign_requests (run_step config clock i o).2.
Proof.
  destruct (run_step_outputs config clock i o) as (_ & new & Ho & _).
  unfold sign_requests. rewrite Ho, omap_app. by eexists.
Qed.

(** The signer [t] was asked for the first [n] blocks, and its first [k] signatures were announced. *)
Definition own_inv o (t : Signer) (n k : nat) : Prop :=
  signer_run sign_hash (take n (sign_requests o)) Signer_new t ∧
  (n <= length (sign_requests o))%nat ∧ (k <= length (signatures t))%nat ∧
  own_announcements o = take k (signatures t).
Definition own_ok s : Prop := own_inv (orchestrator s) (signer_task s) (requests_read s) (signed_read s).

Lemma signer_step_sent ins t t' :
  signer_step sign_hash ins t t' → signatures t `prefix_of` signatures t'.
Proof. unfold signatures. destruct 1; simpl; done || by apply prefix_app_r. Qed.

Lemma signer_run_snoc requested b t t' :
  signer_run sign_hash requested Signer_new t → signer_step sign_hash [b] t t' →
  signer_run sign_hash (requested ++ [b]) Signer_new t'.
Proof. intros Hr Hs. by econstructor. Qed.

Lemma signer_run_silent requested t t' :
  signer_run sign_hash requested Signer_new t → signer_step sign_hash [] t t' →
  signer_run sign_hash requested Signer_new t'.
Proof. intros Hr Hs. rewrite <- (app_nil_r requested). by econstructor. Qed.

Lemma take_prefix_of {A} n (l l' : list A) : (n <= length l)%nat → l `prefix_of` l' → take n l' = take n l.
Proof. intros Hn [k ->]. by rewrite take_app_le. Qed.

Definition is_signer_event (i : Input) : bool := match i with SignerEventIn _ _ => true | _ => false end.

Lemma own_inv_run clock i o t n k :
  is_signer_event i = false → own_inv o t n k → own_inv (run_step config clock i o).2 t n k.
Proof.
  intros Hi (Hr & Hn & Hk & Ha). pose proof (sign_requests_step clock i o) as Hp. split_and!; [| |done|].
  - by rewrite (take_prefix_of n (sign_requests o)).
  - etransitivity; [exact Hn|by apply prefix_length].
  - rewrite own_announcements_step, Ha. destruct i; simpl in Hi; by rewrite ?app_nil_r.
Qed.

Lemma own_inv_signed clock b signature o t n k :
  signatures t !! k = Some (b, signature) → own_inv o t n k →
  own_inv (run_step config clock (SignerEventIn b signature) o).2 t n (S k).
Proof.
  intros Hb (Hr & Hn & Hk & Ha). pose proof (sign_requests_step clock (SignerEventIn b signature) o) as Hp.
  split_and!.
  - by rewrite (take_prefix_of n (sign_requests o)).
  - etransitivity; [exact Hn|by apply prefix_length].
  - by apply lookup_lt_Some in Hb.
  - rewrite own_announcements_step, Ha. symmetry. by apply take_S_r.
Qed.

Lemma own_inv_signer ins o t t' n k :
  signer_step sign_hash ins t t' → signer_run sign_hash (take n (sign_requests o) ++ ins) Signer_new t' →
  own_inv o t n k → (n + length ins <= length (sign_requests o))%nat →
  take n (sign_requests o) ++ ins = take (n + length ins) (sign_requests o) →
  own_inv o t' (n + length ins) k.
Proof.
  intros Hs Hr' (Hr & Hn & Hk & Ha) Hl He. pose proof (signer_step_sent _ _ _ Hs) as Hp.
  split_and!; [by rewrite <- He|done| |].
  - etransitivity; [exact Hk|by apply prefix_length].
  - by rewrite Ha, (take_prefix_of k (signatures t) (signatures t')).
Qed.

Lemma own_ok_step ins s s' : full_step ins s s' → own_ok s → own_ok s'.
Proof.
  intros Hs Hok. unfold own_ok, orchestrator in *. destruct Hs as [p s|fuel w' s Hr|clock n s Hn He|
    clock i s Hi He|clock b sg s Hb He|clock k bp s Hk Hb|b t s Hb Ht|t s Ht|m peers nm s Hm Hn|i nm s Hi Hn];
    try exact Hok; unfold loop_iteration; cbn [system signer_task requests_read signed_read];
    rewrite ?node_step_node.
  - by apply own_inv_run.
  - apply own_inv_run; [by destruct i|done].
  - by apply own_inv_signed.
  - by apply own_inv_run.
  - pose proof Hok as (Hr & _).
    enough (own_inv (node (system s)) t (requests_read s + length [b]) (signed_read s)) as Hx
      by (by rewrite Nat.add_1_r in Hx).
    eapply (own_inv_signer [b]); [exact Ht|by eapply signer_run_snoc|exact Hok| |]; simpl;
      rewrite Nat.add_1_r; [by eapply lookup_lt_Some|symmetry; by apply take_S_r].
  - pose proof Hok as (Hr & Hn & _).
    enough (own_inv (node (system s)) t (requests_read s + length (@nil DogeosBlock)) (signed_read s)) as Hx
      by (by rewrite Nat.add_0_r in Hx).
    eapply (own_inv_signer []); [exact Ht| |exact Hok| |]; rewrite ?app_nil_r; simpl; rewrite ?Nat.add_0_r;
      [by eapply signer_run_silent|done|done].
Qed.

Lemma own_ok_run ins s s' : full_run ins s s' → own_ok s → own_ok s'.
Proof. induction 1 as [|ins js s1 s2 s3 _ IH Hs]; [done|]. intros Hok. by eapply own_ok_step, IH. Qed.

Lemma own_ok_start s : full_start s → own_ok s.
Proof.
  intros [_ Ho Ht _ (Hr & Hs & _)]. unfold own_ok, own_inv, sign_requests, own_announcements.
  rewrite Ho, Ht, Hr, Hs. simpl. split_and!; [constructor|lia..|done].
Qed.

(** C17: the blocks the node's sequencer builds are announced to the network in the order in which
    they were built, each exactly once and with a signature its key made over the block's hash; a
    failing key delays a block and the ones after it, and nothing else the node handles announces
    a block in its own name. *)
Theorem own_blocks_in_order ins s0 s :
  full_start s0 → full_run ins s0 s →
  let announced := own_announcements (orchestrator s) in
  map fst announced `prefix_of` sign_requests (orchestrator s) ∧
  Forall (signed_by_key sign_hash) announced ∧
  announced `prefix_of` signatures (signer_task s).
Proof.
  intros Hstart Hrun announced.
  destruct (own_ok_run _ _ _ Hrun (own_ok_start _ Hstart)) as (Hr & Hn & Hk & Ha).
  destruct (signer_run_ordered _ _ _ Hr) as (Hreq & Hsigned & _).
  assert (announced `prefix_of` signatures (signer_task s)) as Hp.
  { unfold announced. rewrite Ha. apply prefix_take. }
  split_and!; [| |done].
  - transitivity (map fst (signatures (signer_task s))); [destruct Hp as [l ->]; rewrite map_app; by eexists|].
    transitivity (take (requests_read s) (sign_requests (orchestrator s))); [|apply prefix_take].
    rewrite Hreq. by eexists.
  - destruct Hp as [l Hl]. unfold signatures in Hl. rewrite Hl, Forall_app in Hsigned. apply Hsigned.
Qed.

(** ** The blocks handed to peers *)

Definition consensus_at (c : Consensus) (ins : list Input) : Consensus :=
  foldl (λ c i, consensus_after i c) c ins.

(** Where a block that leaves the node comes from, after the inputs [ins]: the node's own key signed
    it, or it passed the consensus checks when it was handled, or a user had it imported. *)
Definition sourced (c : Consensus) (ins : list Input) (b : DogeosBlock) (bytes : Bytes) : Prop :=
  ∃ signature, bytes = sig_as_bytes signature ∧
    (signed_by_key sign_hash (b, signature) ∨
     (∃ before, before `prefix_of` ins ∧
        validate_new_block (consensus_at c before) b signature = Ok tt) ∨
     ∃ peer, CommandIn (ImportBlock (mkNewBlock peer b signature)) ∈ ins).

Lemma sourced_app c ins more b bytes : sourced c ins b bytes → sourced c (ins ++ more) b bytes.
Proof.
  intros (signature & Hb & Hs). exists signature. split; [done|].
  destruct Hs as [Hs|[(before & Hp & Hv)|[peer Hc]]]; [by left|right; left|right; right].
  - exists before. split; [by apply prefix_app_r|done].
  - exists peer. apply elem_of_app. by left.
Qed.

Definition all_sourced c ins (outs : list Output) : Prop :=
  ∀ m b bytes, m ∈ outs → handed_out m = Some (b, bytes) → sourced c ins b bytes.

(** The blocks the manager passed to a connection or to the inner network. *)
Definition manager_sourced (Q : WireNewBlock → Prop) (nm : ScrollNetworkManager) : Prop :=
  (∀ peer c b, connections (scroll_wire nm) !! peer = Some c → MessageNewBlock b ∈ queued c → Q b) ∧
  (∀ peer b td h, EthWireAnnounce peer b td h ∈ actions nm →
     ∃ wb, b = with_extra_data (wire_signature wb) (wire_block wb) ∧ Q wb).

(** The block a message asks the manager to announce. *)
Definition to_announce (i : NetworkInput) : option WireNewBlock :=
  match i with
  | FromHandle (HandleAnnounceBlock b signature) _ => Some (NewBlock_new signature b)
  | FromHandle (HandleImportOutcome _ (ImportValidBlock b signature)) _
  | FromHandle (HandleImportOutcome _ (ImportValidHeader b signature)) _ => Some (mkWireBlock signature b)
  | _ => None
  end.

Section Manager.
Variable Q : WireNewBlock → Prop.

Lemma manager_sourced_same nm nm' :
  connections (scroll_wire nm') = connections (scroll_wire nm) → actions nm' = actions nm →
  manager_sourced Q nm → manager_sourced Q nm'.
Proof. intros Hc Ha [H1' H2']. split; intros *; rewrite ?Hc, ?Ha; [apply H1'|apply H2']. Qed.

Lemma manager_sourced_act a nm :
  (∀ peer b td h, a = EthWireAnnounce peer b td h →
     ∃ wb, b = with_extra_data (wire_signature wb) (wire_block wb) ∧ Q wb) →
  manager_sourced Q nm → manager_sourced Q (act a nm).
Proof.
  intros Ha [Hc Hn]. split; [exact Hc|]. intros peer b td h [Hin|Hin]%elem_of_app; [by eapply Hn|].
  apply list_elem_of_singleton in Hin. by eapply Ha.
Qed.

Lemma announce_to_sourced b h eth nm peer :
  Q b → manager_sourced Q nm → manager_sourced Q (announce_to b h eth nm peer).
Proof.
  intros Hb Hm. unfold announce_to. destruct (peer_has_seen_block peer h nm); [done|].
  destruct (is_connected peer (scroll_wire nm)).
  - unfold wire_announce_block, bind, get, modify, fail. destruct Hm as [Hc Hn].
    destruct (connections (scroll_wire nm) !! peer) as [tc|] eqn:Htc; [|by split].
    destruct (connection_open tc); simpl; (split; [|exact Hn]); simpl; intros p c wb.
    + rewrite lookup_insert. case_decide; [|by apply Hc]. intros [= <-]. simpl.
      intros [Hin|Hin]%elem_of_app; [by eapply Hc|].
      apply list_elem_of_singleton in Hin. by simplify_eq.
    + rewrite lookup_delete. case_decide; [done|by apply Hc].
  - destruct eth; [|done]. apply manager_sourced_act; [|done]. intros p b' td h' [= _ <- _ _]. by exists b.
Qed.

Lemma announce_block_sourced b peers nm :
  Q b → manager_sourced Q nm → manager_sourced Q (announce_block b peers nm).
Proof.
  intros Hb. destruct peers as [peers|]; [|done]. simpl. generalize (verify_block_signature b nm) as eth.
  revert nm. induction peers as [|peer peers IH]; intros nm eth Hm; [done|]. simpl.
  by apply IH, announce_to_sourced.
Qed.

Lemma mark_block_seen_sourced peer h nm :
  manager_sourced Q nm → manager_sourced Q (mark_block_seen peer h nm).2.
Proof. intros Hm. unfold mark_block_seen. by destruct (lru_contains _ _). Qed.

Lemma receive_block_sourced peer b signature nm :
  manager_sourced Q nm → manager_sourced Q (receive_block peer b signature nm).
Proof.
  intros Hm. unfold receive_block. pose proof (mark_block_seen_sourced peer (block_hash_slow b) nm Hm) as Hm'.
  destruct (mark_block_seen _ _ nm) as [dup nm']. simpl in Hm'.
  destruct dup; [by apply manager_sourced_act|]. destruct (lru_contains _ _); [done|].
  by apply manager_sourced_act.
Qed.

Lemma poll_events_sourced events cs :
  (∀ peer c b, cs !! peer = Some c → MessageNewBlock b ∈ queued c → Q b) →
  (∀ peer c b, connections (poll_events events cs).2 !! peer = Some c →
     MessageNewBlock b ∈ queued c → Q b).
Proof.
  revert cs. induction events as [|[p|p b sg] events IH]; intros cs Hcs; simpl; [done| |done].
  apply IH. intros peer c b. rewrite lookup_insert. case_decide; [|by apply Hcs].
  intros [= <-]. by intros ?%elem_of_nil.
Qed.

Lemma network_step_sourced i nm nm' :
  (∀ b, to_announce i = Some b → Q b) → network_step i nm = Ok nm' →
  manager_sourced Q nm → manager_sourced Q nm'.
Proof.
  intros Hi Hs Hm. destruct i as [m peers|events|peer b|peer]; simpl in Hs.
  - destruct m as [b sg|peer r|[]|]; simplify_eq/=.
    + apply announce_block_sourced; [by apply Hi|done].
    + destruct r; simpl; try (by apply manager_sourced_act);
        (apply announce_block_sourced; [by apply Hi|done]).
    + by apply manager_sourced_act.
    + by apply manager_sourced_act.
  - unfold wire_poll in Hs.
    pose proof (poll_events_sourced (wire_events (scroll_wire nm) ++ events) _ (proj1 Hm)) as Hc.
    simpl in Hs. destruct (poll_events _ _) as [e m]. simpl in Hc.
    assert (manager_sourced Q (set_scroll_wire m nm)) as Hm' by (split; [exact Hc|exact (proj2 Hm)]).
    destruct e as [[p|p b sg]|]; simplify_eq/=; [|done]. by apply receive_block_sourced.
  - injection Hs as <-. unfold handle_eth_wire_block.
    destruct (signature_of_extra_data _); [by apply receive_block_sourced|by apply manager_sourced_act].
  - injection Hs as <-. destruct Hm as [Hc Hn]. split; [|exact Hn]. simpl. intros p c b.
    rewrite lookup_alter. case_decide as He; [|by apply Hc]. subst p.
    destruct (connections (scroll_wire nm) !! peer) as [c'|] eqn:E; [|done]. simpl. intros [= <-] Hin. by apply (Hc _ _ _ E).
Qed.
End Manager.

(** The invariant: what is in the outbox and what the manager handed on is sourced, and the
    consensus is the one the updates so far give. *)
Definition sourced_ok c ins s : Prop :=
  consensus (orchestrator s) = consensus_at c ins ∧
  all_sourced c ins (outbox (orchestrator s)) ∧
  manager_sourced (λ wb, sourced c ins (wire_block wb) (wire_signature wb)) (manager s).

Lemma manager_sourced_mono (P Q : WireNewBlock → Prop) nm :
  (∀ wb, P wb → Q wb) → manager_sourced P nm → manager_sourced Q nm.
Proof.
  intros HPQ [Hc Hn]. split; [intros; eapply HPQ, Hc; eauto|].
  intros peer b td h Hin. destruct (Hn _ _ _ _ Hin) as (wb & Hb & Hw). exists wb. auto.
Qed.

Lemma handed_message m i b :
  (∃ out, network_message out = Some m ∧
     ∀ b bytes, handed_out out = Some (b, bytes) → sourced (fst i) (snd i) b bytes) →
  ∀ peers, to_announce (FromHandle m peers) = Some b →
  sourced (fst i) (snd i) (wire_block b) (wire_signature b).
Proof.
  intros (out & Hm & Hout) peers. destruct out as [| |p r| | |]; simpl in Hm; simplify_eq; simpl.
  - intros [= <-]. by apply Hout.
  - destruct r; simpl; try done; intros [= <-]; by apply Hout.
Qed.

Lemma sourced_ok_run_step c ins clock i o nm s :
  consensus o = consensus_at c ins → all_sourced c ins (outbox o) →
  manager_sourced (λ wb, sourced c ins (wire_block wb) (wire_signature wb)) nm →
  (∀ b signature, i = SignerEventIn b signature → signed_by_key sign_hash (b, signature)) →
  orchestrator s = (run_step config clock i o).2 → manager s = nm → sourced_ok c (ins ++ [i]) s.
Proof.
  intros Hc Ho Hnm Hi Hs Hm. unfold sourced_ok. rewrite Hs, Hm.
  destruct (run_step_outputs config clock i o) as (Hc' & new & Hnew & Hall). split_and!.
  - rewrite Hc', Hc. unfold consensus_at. by rewrite foldl_app.
  - rewrite Hnew. intros m b bytes [Hin|Hin]%elem_of_app Hh; [by eapply sourced_app, Ho|].
    rewrite Forall_forall in Hall. specialize (Hall m Hin).
    destruct m as [|b' sg|p r| | |]; simplify_eq/=.
    + exists sg. split; [done|]. left. by apply Hi.
    + destruct r as [b' sg| | | |]; simplify_eq/=; [|done].
      destruct Hall as ([peer b'' sg] & -> & -> & _ & [Hv|Hcmd]); exists sg; (split; [done|]); right.
      * left. exists ins. split; [by eexists|]. by rewrite <- Hc.
      * right. exists peer. apply elem_of_app. right. subst i. by apply list_elem_of_singleton.
  - eapply manager_sourced_mono, Hnm. intros wb. by apply sourced_app.
Qed.

Lemma omap_lookup {A B} (f : A → option B) (l : list A) (n : nat) y : omap f l !! n = Some y → ∃ x, x ∈ l ∧ f x = Some y.
Proof. intros Hy%list_elem_of_lookup_2. by apply list_elem_of_omap in Hy. Qed.

Lemma sourced_ok_step c ins js s s' :
  full_step js s s' → own_ok s → sourced_ok c ins s → sourced_ok c (ins ++ js) s'.
Proof.
  intros Hs Hown (Hc & Ho & Hnm).
  destruct Hs as [p s|fuel w' s Hr|clock n s Hn He|
    clock i s Hi He|clock b sg s Hb He|clock k bp s Hk Hb|b t s Hb Ht|t s Ht|m peers nm s Hm Hn|i nm s Hi Hn];
    rewrite ?app_nil_r; try (by split_and!).
  - eapply (sourced_ok_run_step c ins clock _ _ _ _ Hc Ho Hnm); [done|apply node_step_node|done].
  - eapply (sourced_ok_run_step c ins clock _ _ _ _ Hc Ho Hnm); [|apply node_step_node|done]. by destruct i.
  - eapply (sourced_ok_run_step c ins clock _ _ _ _ Hc Ho Hnm); [|apply node_step_node|done].
    intros b' sg' [= <- <-]. destruct Hown as (Hr & _).
    destruct (signer_run_ordered _ _ _ Hr) as (_ & Hsigned & _). rewrite Forall_forall in Hsigned.
    eapply Hsigned, list_elem_of_lookup_2, Hb.
  - eapply (sourced_ok_run_step c ins clock _ _ _ _ Hc Ho Hnm); [done|apply node_step_node|done].
  - split_and!; [done|done|]. eapply network_step_sourced, Hnm; [|exact Hn].
    intros b Hb. apply omap_lookup in Hm as (out & Hout & Hmsg).
    apply (handed_message m (c, ins) b) with peers; [|done]. exists out. split; [done|]. by intros; eapply Ho.
  - split_and!; [done|done|]. eapply network_step_sourced, Hnm; [|exact Hn].
    intros b Hb. destruct i as [[]| | |]; done.
Qed.

Lemma sourced_ok_run c ins s0 s :
  full_run ins s0 s → own_ok s0 → sourced_ok c [] s0 → sourced_ok c ins s.
Proof.
  induction 1 as [|ins js s1 s2 s3 Hrun IH Hs]; intros Hown Hok; [done|].
  eapply sourced_ok_step; [exact Hs| |by apply IH]. by eapply own_ok_run.
Qed.

Lemma sourced_ok_start s : full_start s → sourced_ok (consensus (orchestrator s)) [] s.
Proof.
  intros [_ Ho _ (td & a & Hm) _]. unfold sourced_ok. rewrite Ho, Hm. split_and!; [done| |].
  - by intros m b bytes ?%elem_of_nil.
  - split; [by intros p c b; simpl; rewrite lookup_empty|]. by intros p b td' h ?%elem_of_nil.
Qed.

(** C16: the node passes on no block of unknown origin: whatever the peers, L1, the execution client
    and the users do and in whatever order the tasks run, every block its network manager hands to
    a connection or to the inner network was signed by the node's own key, or passed the consensus
    checks under the authorized signer of the moment it was handled, or was imported by a user's
    command; the signature that travels with it is the one that was checked. *)
Theorem relayed_blocks_sourced ins s0 s :
  full_start s0 → full_run ins s0 s →
  let c := consensus (orchestrator s0) in
  (∀ peer conn b, connections (scroll_wire (manager s)) !! peer = Some conn →
     MessageNewBlock b ∈ queued conn → sourced c ins (wire_block b) (wire_signature b)) ∧
  (∀ peer b td h, EthWireAnnounce peer b td h ∈ actions (manager s) →
     ∃ block bytes, b = with_extra_data bytes block ∧ sourced c ins block bytes).
Proof.
  intros Hstart Hrun c.
  destruct (sourced_ok_run c ins s0 s Hrun (own_ok_start _ Hstart) (sourced_ok_start _ Hstart))
    as (_ & _ & Hconn & Heth).
  split; [exact Hconn|]. intros peer b td h Hin. destruct (Heth _ _ _ _ Hin) as ([bytes block] & -> & Hs).
  by exists block, bytes.
Qed.
End FullNode.
