(* ===== verification/ConcreteNode.v ===== *)
(** * A concrete node

    The node on which the theorems about the orchestrator are instantiated: the toy chain, a
    scripted execution client, and databases with a few batches and messages. *)

From S2P Require Import Prelude Sql Primitives Watcher BigEndian Codec Engine Concrete DbModel DbOps.
From S2P Require Import DbInvariant World Signing ConcreteRlp Sequencer SequencerProps Pipeline.
From S2P Require Import Consolidation Driver ConcreteWorld Orchestrator RunLoop OrchestratorInv.
From S2P Require Import OrchestratorProps ImportProps L1Props LoopProps.

#[local] Existing Instances stored_order toy_chain toy_conversion toy_timers ethereum_rlp world_api
  world_client.

(** Peers serve the toy chain: block [n] has hash [100 + n]. *)
Fixpoint toy_range (h : B256) (count : nat) : list DogeosBlock :=
  match count with
  | 0%nat => []
  | S count => toy_block (h - 100) h (h - 1) (900 + h) [] :: toy_range (h - 1) count
  end.
#[local] Instance toy_peers : BlockClient World := {|
  get_full_block_range := λ h count w, (toy_range h (Z.to_nat count), w)
|}.
#[local] Instance toy_recovery : SignerRecovery := λ s _, Ok s.
#[local] Instance toy_sig_bytes : SignatureBytes := λ s, [s].

Definition toy_orchestrator (f : ForkchoiceState) (fcus : list ForkchoiceUpdated)
    (verdicts : list PayloadStatus) (d : Db) : Orchestrator World :=
  mkOrchestrator
    (mkEnv (mkEngine f (mkWorld (mkScript fcus verdicts []) [toy_canonical 0; toy_canonical 1])) d)
    (mkSync ModeSynced ModeSynced) NoopConsensus None None (mkPipelineHandle 0 [])
    DerivationDriver_default None true [].

Definition toy_orch_config : ChainOrchestratorConfig := mkOrchestratorConfig 1000 0.
Definition toy_clock : Clock := mkClock 5000 77.

(** The node at genesis, its queue holding the messages 0, 1 and 2. *)
Definition toy_node : Orchestrator World :=
  toy_orchestrator toy_genesis_fcs [fcu_answer Valid None] [mkPayloadStatus Valid None] toy_seq_db.

Lemma toy_seq_db_ok : schema_ok toy_seq_db.
Proof.
  split; try (apply (bool_decide_unpack _); vm_compute; exact I).
  - intros r Hr. apply list_elem_of_singleton in Hr as ->. left.
  - intros n1 n2 h Hn. discriminate Hn.
Qed.

(** An L1 block arrives at the concrete node. *)
Definition toy_new_block : Input := NotificationIn (NewBlock {| number := 12; hash := 7 |}).

Lemma run_loop_invariant_witness :
  schema_ok (database (env (run_step toy_orch_config toy_clock toy_new_block toy_node).2)).
Proof.
  refine (proj1 (proj2 (proj2 (run_loop_invariant toy_orch_config toy_node _ _ _ _ _)))).
  - split; vm_compute; discriminate.
  - exact toy_seq_db_ok.
  - intros Hs. by destruct Hs.
  - apply rtc_once. exists toy_clock, toy_new_block. split; [vm_compute; reflexivity|reflexivity].
Defined.

(** A block at height 1 that includes the messages 0 and 1. *)
Definition toy_l1_block : DogeosBlock := toy_block 1 101 100 1001 [(true, 10000); (true, 10001)].

Definition toy_expected : list L1MessageEnvelope :=
  match get_n_l1_messages (Some (BlockNumber 1)) 2 toy_seq_db with (Ok ms, _) => ms | _ => [] end.

Lemma validate_l1_messages_spec_witness :
  map (λ m, l1_tx_hash (transaction m)) toy_expected = [10000; 10001].
Proof.
  refine (proj2 (validate_l1_messages_spec [toy_l1_block] toy_l1_block toy_expected toy_node _ _
            _ _ (ok_run tt (validate_l1_messages [toy_l1_block] toy_node) _))).
  - reflexivity.
  - vm_compute. reflexivity.
  - vm_compute. reflexivity.
Defined.

(** The import of block 1 of the toy chain. *)
Definition toy_announced : NewBlockWithPeer := mkNewBlock 9 (toy_block 1 101 100 1001 []) 5.
Definition toy_import := import_chain [nb_block toy_announced] toy_announced toy_node.
Definition toy_imported : ChainImport := mkImport [] 0 0 (fcu_answer Valid None).


(** A node under the system contract of the signer 3: the announced block is signed by 5. *)
Definition toy_guarded : Orchestrator World :=
  set_blocked_import (Some (mkBlocked toy_announced 10000 []))
    (set_consensus (SystemContractConsensus 3) toy_node).

Lemma unauthorized_block_ignored_witness :
  (∃ r, (handle_network_event toy_orch_config toy_announced toy_guarded).2 =
     set_outbox [Notified (NewBlockReceived toy_announced); ImportOutcome 9 r] toy_guarded) ∧
  retry_blocked_import toy_orch_config toy_guarded =
    (Ok (Some (BlockedImportDropped 101)), set_blocked_import None toy_guarded).
Proof.
  destruct (unauthorized_block_ignored toy_orch_config 3 toy_guarded eq_refl) as [Hn Hr]. split.
  - destruct (Hn toy_announced) as (e & r & _ & _ & Hrun); [done|].
    exists r. rewrite Hrun. reflexivity.
  - by apply (Hr (mkBlocked toy_announced 10000 [])).
Defined.

(** In the toy chain the number of a block follows from its hash. *)
Definition toy_number_of (h : B256) : Z := h - 100.

Lemma toy_range_last h count :
  (0 < count)%nat → ∃ b, last (toy_range h count) = Some b ∧ block_number b <= h - 100 ∧
    linked toy_number_of b.
Proof.
  revert h. induction count as [|[|count] IH]; intros h Hc; [lia| |].
  - eexists. split; [reflexivity|]. unfold linked, toy_number_of, block_number. simpl. lia.
  - destruct (IH (h - 1) ltac:(lia)) as (b & Hl & Hn & Hlk). exists b.
    split; [exact Hl|]. split; [lia|done].
Qed.

Lemma toy_falling : falling_ranges toy_number_of.
Proof.
  intros h count w bs w' Hc [= <- <-]. apply toy_range_last. lia.
Qed.

Lemma fork_walk_terminates_witness :
  fork_loop 50 toy_announced 0 [nb_block toy_announced] (toy_node, []) =
  fork_loop (fork_fuel (nb_block toy_announced)) toy_announced 0 [nb_block toy_announced] (toy_node, []).
Proof.
  apply (fork_walk_terminates toy_number_of toy_falling toy_announced 0 _ (nb_block toy_announced)).
  - split; vm_compute; [discriminate|reflexivity].
  - reflexivity.
  - vm_compute. reflexivity.
  - vm_compute. discriminate.
  - vm_compute. lia.
Defined.

(** ** L1 notifications at the concrete node *)

(** The node holding batch 1 of L1 block 20; its client answers as scripted. *)
Definition toy_batch_node (s : PayloadStatusEnum) : Orchestrator World :=
  toy_orchestrator toy_genesis_fcs [fcu_answer s None] [] toy_db.

Definition toy_reorg := handle_l1_reorg toy_clock 10 (toy_batch_node Valid).
Definition toy_genesis : BlockInfo := {| number := 0; hash := 100 |}.

Lemma l1_reorg_engine_follows_witness :
  fcs_finalized (orchestrator_fcs toy_reorg.2) = toy_genesis ∧
  (unwind_and_check None 10 toy_db).2 = database (env toy_reorg.2).
Proof.
  assert (is_ok toy_reorg.1 = true) as Hok by (vm_compute; reflexivity).
  destruct (l1_reorg_engine_follows toy_clock 10 _ _ _ (ok_run None toy_reorg Hok))
    as (ur & ho & Hu & _ & _ & _ & ->).
  split; [reflexivity|].
  change (held_identity (derivation_driver (toy_batch_node Valid))) with (None (A := BatchInfo * BatchStatus)) in Hu.
  change (database (env (toy_batch_node Valid))) with toy_db in Hu. by rewrite Hu.
Defined.

Definition toy_l1_30 : BlockInfo := {| number := 30; hash := 5 |}.
Definition toy_revert := handle_batch_revert 1 1 toy_l1_30 (toy_batch_node Valid).

Lemma batch_revert_engine_follows_witness :
  fcs_head (orchestrator_fcs toy_revert.2) = toy_genesis ∧
  fcs_finalized (orchestrator_fcs toy_revert.2) = toy_genesis.
Proof.
  assert (is_ok toy_revert.1 = true) as Hok by (vm_compute; reflexivity).
  destruct (batch_revert_engine_follows 1 1 toy_l1_30 (toy_batch_node Valid) (ok_value None toy_revert.1)
              toy_revert.2 eq_refl (ok_run None toy_revert Hok))
    as (safe & batch & _ & _ & _ & Hh & Hf & _).
  rewrite Hh, Hf. split; reflexivity.
Defined.

(** The message 3, the next one of the toy queue. *)
Definition toy_message (i : Z) : TxL1Message := mkTxL1Message i 40 0 0 0 [].
Definition toy_message_step := handle_l1_message toy_orch_config (toy_message 3) toy_l1_30 toy_node.

Lemma l1_message_commitment_witness :
  ∃ qh, commitment_of toy_orch_config (l1_message toy_seq_db) (toy_message 3) qh ∧
    l1_message (database (env toy_message_step.2)) =
      l1_message toy_seq_db ++ [MsgRow_from (mkL1MessageEnvelope (toy_message 3) 30 None qh)].
Proof.
  assert (NoDup (map mr_queue_index (l1_message (database (env toy_node))))) as Hnd
    by (apply (bool_decide_unpack _); vm_compute; exact I).
  assert (is_ok toy_message_step.1 = true) as Hok by (vm_compute; reflexivity).
  pose proof (l1_message_commitment toy_orch_config (toy_message 3) toy_l1_30 toy_node
    (Ok (ok_value None toy_message_step.1)) toy_message_step.2 Hnd
    (ok_run None toy_message_step Hok)) as Hspec.
  destruct Hspec as (_ & qh & Hq & Hrows). exists qh. split; [exact Hq|].
  rewrite Hrows. cbv zeta.
  by destruct qh.
Defined.

Definition toy_commit : BatchCommitData := mkBatchCommitData 11 1 20 0 [] None None None.
Definition toy_commit_step := handle_batch_commit toy_l1_30 toy_commit toy_node.


(** An L1 reorg the client does not confirm stops the node. *)
Definition toy_stop :=
  run_step toy_orch_config toy_clock (NotificationIn (L1ReorgTo 10)) (toy_batch_node Syncing).

Lemma node_stops_only_on_witness :
  match toy_stop.1 with Err e => is_unwind_failure e = true | _ => False end.
Proof.
  assert (match toy_stop.1 with Err _ => true | _ => false end = true) as Hok by (vm_compute; reflexivity).
  destruct toy_stop as [r o'] eqn:E. cbn [fst] in *. destruct r as [b|e|]; [discriminate Hok| |discriminate Hok].
  exact (node_stops_only_on toy_orch_config toy_clock (NotificationIn (L1ReorgTo 10))
           (toy_batch_node Syncing) e o' E).
Defined.
