(* ===== verification/Shutdown.v ===== *)
(** * A shutdown in the middle of an attempt

    [run_until_shutdown] races an attempt of the derivation driver against the shutdown signal
    (chain-orchestrator/src/lib.rs): the attempt is dropped at whatever request it waits for.  The
    interruption is modelled by a client that stops answering: [Cut W] is the outside world with the
    number of requests it still answers, and the request it does not answer may or may not have
    reached it.  An attempt that is dropped while it writes its outcome leaves the transaction
    rolled back, which is the interruption after the last request. *)

From S2P Require Import Prelude Sql Primitives BigEndian Codec Engine DbModel DbOps DbInvariant World.
From S2P Require Import Signing Sequencer Pipeline Consolidation Driver DriverProps Orchestrator RunLoop.
From S2P Require Import DbProps.

(** ** A client that stops answering *)

Record Cut (W : Type) := mkCut { real : W; answers_left : nat; interrupted : bool }.
Arguments mkCut {W} _ _ _.
Arguments real {W} _.
Arguments answers_left {W} _.
Arguments interrupted {W} _.

Section Cut.
Context {W : Type}.
Variable delivered : bool.

Definition cut {A} (r : W → outcome string A * W) (c : Cut W) : outcome string A * Cut W :=
  match answers_left c with
  | S n => let '(a, w) := r (real c) in (a, mkCut w n (interrupted c))
  | O => (Panic, mkCut (if delivered then (r (real c)).2 else real c) 0 true)
  end.

Definition cut_api `{!EngineApi W} : EngineApi (Cut W) := {|
  fork_choice_updated_v1 := λ f a, cut (fork_choice_updated_v1 f a);
  new_payload_v1 := λ p, cut (new_payload_v1 p);
  get_payload_v1 := λ i, cut (get_payload_v1 i)
|}.

Definition cut_client `{Chain} `{!L2Provider W} : L2Provider (Cut W) := {|
  get_block_by_number := λ n, cut (get_block_by_number n);
  get_block_by_hash := λ h, cut (get_block_by_hash h);
  send_raw_transaction := λ t, cut (send_raw_transaction t)
|}.
End Cut.

(** The environment of an attempt that gets [n] answers, and what is left of it. *)
Definition cut_env {W} (n : nat) (e : Env W) : Env (Cut W) :=
  mkEnv (mkEngine (fcs (engine e)) (mkCut (client (engine e)) n false)) (database e).
Definition real_engine {W} (e : Engine (Cut W)) : Engine W := mkEngine (fcs e) (real (client e)).
Definition real_env {W} (e : Env (Cut W)) : Env W := mkEnv (real_engine (engine e)) (database e).
Definition stopped {W} (e : Env (Cut W)) : bool := interrupted (client (engine e)).

Section Attempt.
Context `{SqlEngine} `{Chain} `{!EngineApi W} `{!L2Provider W}.

(** The branch of the attempt in [run_until_shutdown], with the shutdown at the request [n], or
    before the outcome of an attempt of at most [n] requests is looked at: [None] is the shutdown. *)
Definition attempt_or_shutdown (delivered : bool) (n : nat) (now : Z)
    (s : DerivationDriver * Env W) :
    option (outcome ChainOrchestratorError AttemptStep) * (DerivationDriver * Env W) :=
  let '(r, (d, e)) := @run_attempt _ _ (Cut W) (cut_api delivered) (cut_client delivered) _ now
                        (s.1, cut_env n s.2) in
  (if stopped e then None else Some r, (d, real_env e)).
End Attempt.

Create HintDb sim discriminated.

(** ** The interrupted run is a prefix of the whole one

    [sim] relates a computation on the cut environment with the one on the environment itself: when
    the cut is not reached they are the same; when it is, the computation ends there. *)

Section Sim.
Context {S T : Type} (view : T → S) (stop : T → bool).

Definition sim {E A} (m : M S E A) (m' : M T E A) : Prop :=
  ∀ t, stop t = false →
    let '(r, t') := m' t in
    if stop t' then r = Panic else m (view t) = (r, view t').

Lemma sim_ret {E A} (a : A) : sim (E := E) (ret a) (ret a).
Proof. intros t Ht. simpl. by rewrite Ht. Qed.
Lemma sim_lift {E A} (o : outcome E A) : sim (lift o) (lift o).
Proof. intros t Ht. simpl. by rewrite Ht. Qed.
Lemma sim_fail {E A} (e : E) : sim (A := A) (fail e) (fail e).
Proof. intros t Ht. simpl. by rewrite Ht. Qed.
Lemma sim_panic {E A} : sim (E := E) (A := A) panic panic.
Proof. intros t Ht. simpl. by rewrite Ht. Qed.
Lemma sim_gets {E A} (f : S → A) (f' : T → A) :
  (∀ t, f' t = f (view t)) → sim (E := E) (gets f) (gets f').
Proof. intros Hf t Ht. simpl. rewrite Ht. unfold gets. by rewrite Hf. Qed.
Lemma sim_modify {E} (f : S → S) (f' : T → T) :
  (∀ t, view (f' t) = f (view t)) → (∀ t, stop (f' t) = stop t) → sim (E := E) (modify f) (modify f').
Proof. intros Hf Hs t Ht. simpl. rewrite Hs, Ht. unfold modify. by rewrite Hf. Qed.
Lemma sim_bind {E A B} (m : M S E A) (m' : M T E A) (k : A → M S E B) (k' : A → M T E B) :
  sim m m' → (∀ a, sim (k a) (k' a)) → sim (bind m k) (bind m' k').
Proof.
  intros Hm Hk t Ht. specialize (Hm t Ht). unfold bind at 1.
  destruct (m' t) as [r t'] eqn:Hm'. destruct (stop t') eqn:Hs.
  - subst r. by rewrite Hs.
  - destruct r as [a|e|]; rewrite ?Hs; unfold bind; rewrite Hm; [|done..]. by apply Hk.
Qed.
Lemma sim_map_err {E F A} (f : E → F) (m : M S E A) (m' : M T E A) :
  sim m m' → sim (map_err f m) (map_err f m').
Proof.
  intros Hm t Ht. specialize (Hm t Ht). unfold map_err at 1. destruct (m' t) as [r t'].
  destruct (stop t'); [by subst|]. unfold map_err. by rewrite Hm.
Qed.
End Sim.

Section SimAttempt.
Context `{SqlEngine} `{Chain} `{!EngineApi W} `{!L2Provider W}.
Variable delivered : bool.
#[local] Instance section_api : EngineApi (Cut W) := cut_api delivered.
#[local] Instance section_client : L2Provider (Cut W) := cut_client delivered.

Notation sim_client := (sim (S := W) (T := Cut W) real interrupted).
Notation sim_engine := (sim (S := Engine W) (T := Engine (Cut W)) real_engine (λ e, interrupted (client e))).
Notation sim_env := (sim (S := Env W) (T := Env (Cut W)) real_env stopped).

Lemma sim_cut {A} (r : W → outcome string A * W) : sim_client r (cut delivered r).
Proof.
  intros c Hc. unfold cut. destruct (answers_left c); [done|]. destruct (r (real c)) as [a w]. simpl.
  by rewrite Hc.
Qed.

Lemma sim_request {A} (r : W → outcome string A * W) : sim_engine (request r) (request (cut delivered r)).
Proof.
  intros e He. pose proof (sim_cut r (client e) He) as Hr. unfold request.
  destruct (cut delivered r (client e)) as [a c]. simpl. simpl in Hr.
  destruct (interrupted c); [by subst|]. by rewrite Hr.
Qed.

Lemma sim_candidate h s f : sim_engine (candidate h s f) (candidate h s f).
Proof. intros e He. unfold candidate. by rewrite He. Qed.

Lemma sim_on_engine {E F A} (f : E → F) (m : M (Engine W) E A) (m' : M (Engine (Cut W)) E A) :
  sim_engine m m' → sim_env (on_engine f m) (on_engine f m').
Proof.
  intros Hm e He. specialize (Hm (engine e) He). unfold on_engine, zoom, map_err.
  destruct (m' (engine e)) as [r e'] eqn:Hr. simpl. unfold stopped. simpl.
  destruct (interrupted (client e')); [by subst|]. simpl. by rewrite Hm.
Qed.

Lemma sim_on_client {E F A} (f : E → F) (m : M W E A) (m' : M (Cut W) E A) :
  sim_client m m' → sim_env (on_client f m) (on_client f m').
Proof.
  intros Hm. apply sim_on_engine. intros e He. specialize (Hm (client e) He). unfold zoom.
  destruct (m' (client e)) as [r c]. simpl. destruct (interrupted c); [done|]. by rewrite Hm.
Qed.

Lemma sim_on_database {E F A} (f : E → F) (m : M Db E A) :
  sim_env (on_database f m) (on_database f m).
Proof.
  intros e He. unfold on_database, zoom, map_err. destruct (tx_mut m (database e)) as [r d] eqn:Hm.
  unfold stopped in *. simpl. rewrite He. simpl. by rewrite Hm.
Qed.

(** Two copies of one program: statement by statement. *)
Ltac solve_sim :=
  repeat first
    [ progress intros
    | solve [eauto 2 with sim]
    | match goal with
      | |- sim _ _ (bind _ _) (bind _ _) => apply sim_bind
      | |- sim _ _ (ret _) (ret _) => apply sim_ret
      | |- sim _ _ (lift _) (lift _) => apply sim_lift
      | |- sim _ _ (fail _) (fail _) => apply sim_fail
      | |- sim _ _ panic panic => apply sim_panic
      | |- sim _ _ (gets _) (gets _) => apply sim_gets; done
      | |- sim _ _ (modify _) (modify _) => apply sim_modify; done
      | |- sim _ _ (map_err _ _) (map_err _ _) => apply sim_map_err
      | |- sim _ _ (candidate _ _ _) _ => apply sim_candidate
      | |- sim _ _ (request _) (request _) => apply sim_request
      | |- sim _ _ (on_engine _ _) (on_engine _ _) => apply sim_on_engine
      | |- sim _ _ (on_client _ _) (on_client _ _) => apply sim_on_client
      | |- sim _ _ (on_database _ _) (on_database _ _) => apply sim_on_database
      | |- sim _ _ (get_block_by_number _) _ => apply sim_cut
      | |- sim _ _ (if ?b then _ else _) _ => destruct b
      | |- sim _ _ (match ?x with _ => _ end) _ => destruct x
      end ].

Lemma sim_update_fcs_checked h s f : sim_engine (update_fcs_checked h s f) (update_fcs_checked h s f).
Proof. unfold update_fcs_checked. solve_sim. Qed.
Lemma sim_build_payload h a : sim_engine (build_payload h a) (build_payload h a).
Proof. unfold build_payload. solve_sim. Qed.
Lemma sim_get_payload i : sim_engine (get_payload i) (get_payload i).
Proof. unfold get_payload. solve_sim. Qed.
Lemma sim_new_payload p : sim_engine (new_payload p) (new_payload p).
Proof. unfold new_payload. solve_sim. Qed.
Hint Resolve sim_update_fcs_checked sim_build_payload sim_get_payload sim_new_payload : sim.

Lemma sim_check_safe_frontier bi : sim_env (check_safe_frontier bi) (check_safe_frontier bi).
Proof. unfold check_safe_frontier, engine_safe_block. solve_sim. Qed.
Lemma sim_action_update_fcs bi ts info :
  sim_env (action_update_fcs bi ts info) (action_update_fcs bi ts info).
Proof. unfold action_update_fcs. solve_sim. Qed.
Lemma sim_action_reorg bi ts a : sim_env (action_reorg bi ts a) (action_reorg bi ts a).
Proof. unfold action_reorg, engine_safe_block. solve_sim. Qed.
Hint Resolve sim_check_safe_frontier sim_action_update_fcs sim_action_reorg : sim.

Lemma sim_block_actions n i attributes :
  sim_client (block_actions n i attributes) (block_actions n i attributes).
Proof. revert i. induction attributes as [|a attributes IH]; intros i; simpl; solve_sim. Qed.
Hint Resolve sim_block_actions : sim.
Lemma sim_run_actions batch ts actions :
  sim_env (run_actions batch ts actions) (run_actions batch ts actions).
Proof. induction actions as [|[info|info|i] actions IH]; simpl; solve_sim. Qed.
Hint Resolve sim_run_actions : sim.

Lemma sim_attempt batch : sim_env (reconcile_and_consolidate batch) (reconcile_and_consolidate batch).
Proof. unfold reconcile_and_consolidate, reconcile_batch. solve_sim. Qed.
End SimAttempt.

(** ** The restart

    The start of the node moves every batch back that an earlier run left in processing. *)

Definition unfinished (r : BatchRow) : bool := has_status Committed r || has_status Processing r.

Section Restart.
Context `{SqlEngine} `{Chain}.

Lemma filter_reset t :
  List.filter (has_status Committed) (update_many (has_status Processing) (set_status_col Committed) t) =
  map (λ r, if has_status Processing r then set_status_col Committed r else r) (List.filter unfinished t).
Proof.
  unfold update_many. induction t as [|r t IH]; [done|]. simpl. unfold unfinished at 1.
  destruct (has_status Processing r) eqn:Hp.
  - rewrite has_status_set, orb_true_r. simpl. by rewrite Hp, IH.
  - rewrite orb_false_r. destruct (has_status Committed r); simpl; [|done]. by rewrite Hp, IH.
Qed.

(** After a restart every batch that is not consolidated, finalized or reverted is handed to the
    derivation pipeline, once and in the order of the indexes. *)
Lemma restart_reschedules d :
  ∃ info d1 rows d2,
    prepare_l1_watcher_start_info d = (Ok info, d1) ∧
    fetch_and_update_unprocessed_committed_batches d1 = (Ok (map info_of_row rows), d2) ∧
    StronglySorted (asc br_index) rows ∧
    map info_of_row rows ≡ₚ map info_of_row (List.filter unfinished (batch_commit d)).
Proof.
  unfold prepare_l1_watcher_start_info, change_batch_processing_to_committed_status, update_batches,
    modify, bind at 1. cbv beta iota.
  set (d1 := set_batch_commit _ d).
  do 2 eexists. destruct (fetch_and_update_unprocessed_committed_batches d1) as [[l|e|] d2] eqn:Hf;
    [|discriminate Hf..].
  destruct (fetch_committed_spec _ _ _ Hf) as ((rows & -> & Hs & Hperm) & _). exists rows, d2.
  split; [reflexivity|]. split_and!; [exact Hf|done|]. rewrite Hperm. unfold d1. simpl.
  rewrite filter_reset, map_map. apply reflexive_eq, map_ext. intros r. by destruct (has_status Processing r).
Qed.
End Restart.

(** ** The theorem *)

Section Theorems.
Context `{SqlEngine} `{Chain} `{!EngineApi W} `{!L2Provider W}.
Implicit Types env : Env W.

Lemma attempt_uncut delivered n now d env r s' :
  attempt_or_shutdown delivered n now (d, env) = (Some r, s') → run_attempt now (d, env) = (r, s').
Proof.
  unfold attempt_or_shutdown, run_attempt. cbn [fst snd]. destruct (pending d) as [p|].
  - pose proof (sim_attempt delivered (pb_batch (start_attempt p)) (cut_env n env) eq_refl) as Hsim.
    assert (real_env (cut_env n env) = env) as Hreal by by destruct env as [[] ?].
    destruct (reconcile_and_consolidate _ (cut_env n env)) as [o e]. rewrite Hreal in Hsim.
    destruct (stopped e) eqn:Hst.
    + subst o. by rewrite Hst.
    + rewrite Hsim. destruct o as [c|[]|]; rewrite Hst; intros; by simplify_eq.
  - cbn. intros; simplify_eq. by destruct env as [[] ?].
Qed.

Lemma attempt_cut delivered n now d env d' env' p :
  pending d = Some p → fcs_ordered (fcs (engine env)) →
  attempt_or_shutdown delivered n now (d, env) = (None, (d', env')) →
  database env' = database env ∧ fcs_ordered (fcs (engine env')) ∧
  finalized_extends (fcs (engine env)) (fcs (engine env')).
Proof.
  intros Hp Hord. unfold attempt_or_shutdown, run_attempt. cbn [fst snd]. rewrite Hp.
  pose proof (sim_attempt delivered (pb_batch (start_attempt p)) (cut_env n env) eq_refl) as Hsim.
  destruct (reconcile_and_consolidate _ (cut_env n env)) as [o e] eqn:Hrun.
  assert (fcs_inv (fcs (engine env)) (engine (cut_env n env))) as Hinv by (split; [exact Hord|by left]).
  destruct (@reconcile_and_consolidate_inv _ _ _ (cut_api delivered) (cut_client delivered) _ _ _ _
    (fcs (engine env)) Hinv Hrun) as [[Ho Hf] Hdb].
  destruct (stopped e) eqn:Hst.
  - subst o. intros; simplify_eq. by split_and!; [apply Hdb|..].
  - destruct o as [c|[]|]; rewrite Hst; intros; by simplify_eq.
Qed.
End Theorems.

Section Loop.
Context `{SqlEngine} `{Chain} `{!PayloadConversion} `{Timers} `{Rlp} `{SignerRecovery}
  `{SignatureBytes} `{!EngineApi W} `{!L2Provider W} `{!BlockClient W}.
Variable config : ChainOrchestratorConfig.
Variable clock : Clock.
Implicit Types o : Orchestrator W.

(** The iteration of the run loop whose attempt the shutdown may interrupt. *)
Definition attempt_until_shutdown (delivered : bool) (n : nat) :
    M (Orchestrator W) ChainOrchestratorError bool :=
  λ o, let '(r, (d, e)) := attempt_or_shutdown delivered n (now_ms clock) (derivation_driver o, env o) in
       let o := set_driver d (set_env e o) in
       match r with
       | None => (notify Shutdown ;;; ret false) o
       | Some step => (let* step := lift step in attempt_outcome step) o
       end.

(** C20: a shutdown loses no batch.  Wherever it cuts an attempt short, and whether or not the request
    then pending reached the execution client, the node stops cleanly, the database is as it was
    before the attempt and the fork choice is ordered and has not lost its finalized block; after
    the restart every batch that was not consolidated, the held one among them, is handed to the
    derivation pipeline again, once and in the order of the indexes.  An attempt that is not cut
    short is the whole attempt. *)
Theorem shutdown_loses_no_batch delivered n o p :
  pending (derivation_driver o) = Some p → fcs_ordered (orchestrator_fcs o) →
  attempt_until_shutdown delivered n o = run_step config clock AttemptDue o ∨
  ∃ o', attempt_until_shutdown delivered n o = (Ok false, o') ∧
    database (env o') = database (env o) ∧ fcs_ordered (orchestrator_fcs o') ∧
    finalized_extends (orchestrator_fcs o) (orchestrator_fcs o') ∧
    ∃ info d1 rows d2,
      prepare_l1_watcher_start_info (database (env o')) = (Ok info, d1) ∧
      fetch_and_update_unprocessed_committed_batches d1 = (Ok (map info_of_row rows), d2) ∧
      StronglySorted (asc br_index) rows ∧
      map info_of_row rows ≡ₚ map info_of_row (List.filter unfinished (batch_commit (database (env o)))).
Proof.
  intros Hp Hord. unfold attempt_until_shutdown.
  destruct (attempt_or_shutdown delivered n (now_ms clock) (derivation_driver o, env o))
    as [[r|] [d' e']] eqn:Hrun.
  - left. apply attempt_uncut in Hrun. unfold run_step, attempt_step, bind, lift. rewrite Hrun.
    by destruct r.
  - right. destruct (attempt_cut _ _ _ _ _ _ _ _ Hp Hord Hrun) as (Hdb & Ho & Hf).
    set (o1 := set_driver d' (set_env e' o)).
    assert (env (notify Shutdown o1).2 = e' ∧
            (notify Shutdown ;;; ret false) o1 = (Ok false, (notify (W := W) Shutdown o1).2)) as [He Hend].
    { unfold notify, bind, gets, o1. destruct o as [? ? ? ? ? ? ? ? li ?]. by destruct li. }
    exists (notify Shutdown o1).2. unfold orchestrator_fcs in *. rewrite He, Hdb.
    split_and!; [exact Hend|done..|apply restart_reschedules].
Qed.
End Loop.
