(* ===== verification/ConcreteSystem.v ===== *)
(** * A concrete system

    The watcher of the concrete L1 and the concrete node together: a round of the watcher, and its
    notifications handled one by one up to the first message and the first batch. *)

From S2P Require Import Prelude Sql Primitives Watcher BigEndian Codec Engine Concrete DbModel DbOps.
From S2P Require Import DbInvariant ConcreteDb World Signing ConcreteRlp Sequencer SequencerProps.
From S2P Require Import Pipeline Consolidation Driver ConcreteWorld Orchestrator RunLoop OrchestratorInv.
From S2P Require Import OrchestratorProps ConcreteNode Provenance Watcher WatcherRuns ConcreteL1 System.

#[local] Existing Instances stored_order toy_chain toy_conversion toy_timers ethereum_rlp world_api
  world_client toy_peers toy_recovery toy_sig_bytes toy_abi toy_l1_node toy_allocation.

(** The database holds the message 0 and the genesis. *)
Definition toy_system_config : ChainOrchestratorConfig := mkOrchestratorConfig 1000 100.
#[local] Notation ToySystem := (System (W := World) (L1 := ToyL1)).
Definition toy_system : ToySystem :=
  mkSystem toy_watcher (mkWatcherHandle [] 0)
    (toy_orchestrator toy_genesis_fcs [] []
       (set_l1_message [message_row 0 0 None] (migrated 100))).
Definition toy_polled_system : ToySystem := mkSystem toy_after (mkWatcherHandle [] 0) (node toy_system).

(** Handles the next [k] notifications, each in an enabled branch. *)
Fixpoint drain (k : nat) (s : ToySystem) : option ToySystem :=
  match k with
  | O => Some s
  | S k =>
      match l1_notification s with
      | Some n =>
          if enabled (NotificationIn n) (node s)
          then drain k (node_step toy_system_config toy_clock (NotificationIn n) (take_notification s))
          else None
      | None => None
      end
  end.

Lemma drain_reachable k s s' : drain k s = Some s' → rtc (sys_step toy_system_config) s s'.
Proof.
  revert s. induction k as [|k IH]; intros s; cbn [drain]; [intros [= ->]; apply rtc_refl|].
  destruct (l1_notification s) as [n|] eqn:Hn; [|done].
  destruct (enabled (NotificationIn n) (node s)) eqn:He; [|done]. intros Hd.
  eapply rtc_l; [by apply sys_notification|by apply IH].
Qed.

Definition toy_drained : ToySystem := default toy_system (drain 5 toy_polled_system).

Lemma toy_round_run : run_round 10 [] toy_watcher = (Ok true, toy_after).
Proof. vm_compute. reflexivity. Qed.

Lemma toy_drain_ends :
  match drain 5 toy_polled_system with Some _ => true | None => false end = true.
Proof. vm_compute. reflexivity. Qed.

Lemma toy_drained_reachable : rtc (sys_step toy_system_config) toy_system toy_drained.
Proof.
  apply (rtc_l _ _ toy_polled_system).
  - apply (sys_watch _ 10 toy_after toy_system). exact toy_round_run.
  - apply (drain_reachable 5). unfold toy_drained. pose proof toy_drain_ends as Hd.
    destruct (drain 5 toy_polled_system) as [s|]; [reflexivity|discriminate].
Qed.

(** The message 1 and the batch 1 are stored, and were served in logs. *)
Definition toy_message_row : MsgRow :=
  mkMsgRow 1 None (l1_tx_hash (mkTxL1Message 1 100000 34 1000 17 [])) 1 "100000" 34 1000 17 [] None false.
Definition toy_batch_row : BatchRow := mkBatchRow 1 7001 1 1001 [] (Some 1002) None None "committed".

Lemma l1_rows_served_witness :
  message_served toy_message_row ∧ batch_served toy_batch_row ∧
  l1_message (database (env (node toy_drained))) = [message_row 0 0 None; toy_message_row].
Proof.
  assert (l1_message (database (env (node toy_drained))) = [message_row 0 0 None; toy_message_row]) as Hm
    by (vm_compute; reflexivity).
  assert (batch_commit (database (env (node toy_drained))) = [genesis_batch_row; toy_batch_row]) as Hb
    by (vm_compute; reflexivity).
  assert (sys_start toy_system) as Hstart.
  { split; [reflexivity|]. exists 1%nat, NoStartupInfo, toy_config, 2, toy_l1, toy_spawned.2.
    apply (ok_run toy_idle toy_spawned). vm_compute. reflexivity. }
  destruct (l1_rows_served toy_system_config toy_system toy_drained Hstart toy_drained_reachable)
    as [Hms Hbs].
  split_and!; [| |exact Hm].
  - destruct (Hms toy_message_row) as [(r0 & Hr0 & Hc)|Hs]; [| |exact Hs].
    + rewrite Hm. right. left.
    + apply list_elem_of_singleton in Hr0 as ->. discriminate.
  - destruct (Hbs toy_batch_row) as [(r0 & Hr0 & Hc)|Hs]; [| |exact Hs].
    + rewrite Hb. right. left.
    + apply list_elem_of_singleton in Hr0 as ->. discriminate.
Defined.
