(* ===== verification/ConcreteFull.v ===== *)
(** * A concrete full node

    A sequencer on the concrete node builds a block, its signer signs it and the network manager
    hands it to a connected peer; and a shutdown cuts the attempt of a held batch at its second
    request: the witnesses of the theorems about all tasks together and about the shutdown. *)

From S2P Require Import Prelude Sql Primitives Watcher BigEndian Codec Engine Concrete DbModel DbOps.
From S2P Require Import DbInvariant ConcreteDb World Signing ConcreteRlp Sequencer SequencerProps.
From S2P Require Import Pipeline Consolidation Driver ConcreteWorld Orchestrator RunLoop OrchestratorInv.
From S2P Require Import OrchestratorProps ConcreteNode Provenance Watcher WatcherRuns ConcreteL1 System.
From S2P Require Import Network NetworkProps ConcreteNetwork Outputs FullNode DbProps DriverProps Shutdown.

#[local] Existing Instances stored_order toy_chain toy_conversion toy_timers ethereum_rlp world_api
  world_client toy_peers ConcreteNode.toy_recovery toy_sig_65 toy_abi toy_l1_node toy_allocation
  toy_lru toy_codec.

Definition toy_full_config : ChainOrchestratorConfig := mkOrchestratorConfig 1000 100.
#[local] Notation ToyFull := (FullNode (W := World) (L1 := ToyL1)).

(** The key signs everything with the signature 5. *)
Definition toy_key (h : B256) (s : Signature) : Prop := s = 5.

Definition toy_sequencing : Orchestrator World :=
  mkOrchestrator
    (mkEnv (mkEngine toy_genesis_fcs
              (mkWorld (mkScript [fcu_answer Valid (Some 3); fcu_answer Valid None] [] [toy_payload_1]) []))
       toy_seq_db)
    (mkSync ModeSynced ModeSynced) (SystemContractConsensus 5) (Some toy_sequencer)
    (Some (mkSignerHandle 5 true)) (mkPipelineHandle 0 []) DerivationDriver_default None true [].

Definition toy_full : ToyFull :=
  mkFullNode (mkSystem toy_watcher (mkWatcherHandle [] 0) toy_sequencing) Signer_new
    (NetworkManager_from_parts 7 (Some 5)) 0 0 0 0.

Definition iterate (ms : Z) (i : Input) (s : ToyFull) : ToyFull :=
  loop_iteration toy_full_config (mkClock ms 77) i s (requests_read s) (signed_read s)
    (messages_read s) (events_read s).

(** A user asks for a block; the sequencer's timer starts, and the payload is ready later. *)
Definition toy_asked := iterate 5000 (CommandIn BuildBlock) toy_full.
Definition toy_polled_once := iterate 5000 SequencerPoll toy_asked.
Definition toy_built := iterate 6000 SequencerPoll toy_polled_once.
Definition toy_own_block : DogeosBlock := default toy_b1 (head (sign_requests (orchestrator toy_built))).

Definition with_signer (t : Signer) (requests : nat) (s : ToyFull) : ToyFull :=
  mkFullNode (system s) t (manager s) requests (signed_read s) (messages_read s) (events_read s).
Definition toy_requested := with_signer (mkSigner [toy_own_block] [] []) 1 toy_built.
Definition toy_signing := with_signer (mkSigner [] [inl (sign_block toy_own_block)] []) 1 toy_requested.
Definition toy_signed := with_signer (mkSigner [] [inr (toy_own_block, 5)] []) 1 toy_signing.
Definition toy_delivered := with_signer (mkSigner [] [] [(toy_own_block, 5)]) 1 toy_signed.
Definition toy_announced_own : ToyFull :=
  loop_iteration toy_full_config (mkClock 6000 77) (SignerEventIn toy_own_block 5) toy_delivered 1 1 0 0.

(** Peer 9 connects, and the manager announces the block to it. *)
Definition with_manager (nm : ScrollNetworkManager) (messages : nat) (s : ToyFull) : ToyFull :=
  mkFullNode (system s) (signer_task s) nm (requests_read s) (signed_read s) messages (events_read s).
Definition toy_connected : ToyFull :=
  with_manager (ok_value (manager toy_full) (network_step (FromWire [ConnectionEstablished 9]) (manager toy_full)))
    0 toy_announced_own.
Definition toy_relayed : ToyFull :=
  with_manager (ok_value (manager toy_connected)
    (on_handle_message (HandleAnnounceBlock toy_own_block 5) (Some [9]) (manager toy_connected)))
    1 toy_connected.

Definition toy_labels : list Input :=
  [CommandIn BuildBlock; SequencerPoll; SequencerPoll; SignerEventIn toy_own_block 5].

(** Equality of two closed terms by evaluation. *)
Ltac by_eval := match goal with |- _ = ?y => vm_cast_no_check (eq_refl y) end.

Lemma run_end ins s1 s2 s3 js :
  full_run toy_full_config toy_key ins s1 s2 → full_step toy_full_config toy_key js s2 s3 →
  full_run toy_full_config toy_key (ins ++ js) s1 s3.
Proof. apply full_run_step. Qed.

Lemma toy_full_run : full_run toy_full_config toy_key toy_labels toy_full toy_relayed.
Proof.
  change toy_labels with
    (((((((([] ++ [CommandIn BuildBlock]) ++ [SequencerPoll]) ++ [SequencerPoll]) ++ []) ++ []) ++ []) ++ []) ++
      [SignerEventIn toy_own_block 5]).
  rewrite <- (app_nil_r (_ ++ [SignerEventIn _ _])), <- (app_nil_r ((_ ++ [SignerEventIn _ _]) ++ [])).
  apply (run_end _ _ toy_connected).
  2: { apply (full_message _ _ (HandleAnnounceBlock toy_own_block 5) (Some [9])
             (manager toy_relayed) toy_connected); [by_eval|by_eval]. }
  apply (run_end _ _ toy_announced_own).
  2: { apply (full_network _ _ (FromWire [ConnectionEstablished 9])
             (manager toy_connected) toy_announced_own); [reflexivity|by_eval]. }
  apply (run_end _ _ toy_delivered).
  2: { apply (full_signed _ _ (mkClock 6000 77) toy_own_block 5 toy_delivered); [reflexivity|by_eval]. }
  apply (run_end _ _ toy_signed).
  2: { apply (full_signs _ _ (signer_task toy_delivered) toy_signed). apply (signer_send _ [] (toy_own_block, 5) [] []). }
  apply (run_end _ _ toy_signing).
  2: { apply (full_signs _ _ (signer_task toy_signed) toy_signing).
       apply (signer_attempt_ok _ [] [] (sign_block toy_own_block) [] []). reflexivity. }
  apply (run_end _ _ toy_requested).
  2: { apply (full_signs _ _ (signer_task toy_signing) toy_requested). apply (signer_start _ toy_own_block [] [] []). }
  apply (run_end _ _ toy_built).
  2: { apply (full_sign_request _ _ toy_own_block (mkSigner [toy_own_block] [] []) toy_built);
         [by_eval|]. apply (signer_request _ toy_own_block [] [] []). }
  apply (run_end _ _ toy_polled_once).
  2: { apply (full_external _ _ (mkClock 6000 77) SequencerPoll toy_polled_once); by_eval. }
  apply (run_end _ _ toy_asked).
  2: { apply (full_external _ _ (mkClock 5000 77) SequencerPoll toy_asked); by_eval. }
  apply (run_end _ _ toy_full); [constructor|].
  apply (full_external _ _ (mkClock 5000 77) (CommandIn BuildBlock) toy_full); by_eval.
Qed.

Lemma toy_full_start : full_start toy_full.
Proof.
  split.
  - split; [reflexivity|]. exists 1%nat, NoStartupInfo, toy_config, 2, toy_l1, toy_spawned.2.
    apply (ok_run toy_idle toy_spawned). by_eval.
  - reflexivity.
  - reflexivity.
  - by exists 7, (Some 5).
  - done.
Qed.

(** The block was announced with the signature 5. *)
Lemma own_blocks_in_order_witness :
  own_announcements (orchestrator toy_relayed) = [(toy_own_block, 5)] ∧
  [toy_own_block] `prefix_of` sign_requests (orchestrator toy_relayed) ∧
  block_number toy_own_block = 1.
Proof.
  assert (own_announcements (orchestrator toy_relayed) = [(toy_own_block, 5)]) as Ha
    by by_eval.
  destruct (own_blocks_in_order toy_full_config toy_key _ _ _ toy_full_start toy_full_run) as [Hp _].
  rewrite Ha in Hp. split_and!; [exact Ha|exact Hp|by_eval].
Defined.

(** It waits in the queue to peer 9. *)
Lemma relayed_blocks_sourced_witness :
  sourced toy_key (SystemContractConsensus 5) toy_labels toy_own_block (sig_as_bytes 5).
Proof.
  destruct (relayed_blocks_sourced toy_full_config toy_key _ _ _ toy_full_start toy_full_run) as [Hc _].
  set (c := mkToConnection true [MessageNewBlock (NewBlock_new 5 toy_own_block)]).
  assert (connections (scroll_wire (manager toy_relayed)) !! 9 = Some c) as Hq by by_eval.
  refine (Hc 9 c (NewBlock_new 5 toy_own_block) Hq _). apply list_elem_of_singleton. reflexivity.
Defined.

(** ** A shutdown *)

(** The node holds the batch 1 and is stopped while its second request is pending. *)
Definition toy_held : Orchestrator World :=
  mkOrchestrator toy_attempt_env (mkSync ModeSynced ModeSynced) NoopConsensus None None
    (mkPipelineHandle 0 []) (toy_driver toy_attrs Consolidated) None true [].
Definition toy_shutdown := attempt_until_shutdown toy_clock true 1 toy_held.

(** The batch 1 is handed out again after the restart, and nothing else. *)
Lemma shutdown_loses_no_batch_witness :
  ∃ o' info d1 d2, toy_shutdown = (Ok false, o') ∧
    prepare_l1_watcher_start_info (database (env o')) = (Ok info, d1) ∧
    fetch_and_update_unprocessed_committed_batches d1 = (Ok [mkBatchInfo 1 11], d2).
Proof.
  destruct (shutdown_loses_no_batch toy_full_config toy_clock true 1 toy_held
              (mkPending (toy_batch toy_attrs Consolidated) 0 0 None None)) as [Hrun|Hcut].
  - reflexivity.
  - unfold fcs_ordered. simpl. lia.
  - exfalso. assert (match toy_shutdown.1 with Ok false => true | _ => false end = true) as Hs by by_eval.
    assert (match (run_step toy_full_config toy_clock AttemptDue toy_held).1 with
            | Ok true => true | _ => false end = true) as Ha by by_eval.
    unfold toy_shutdown in Hs. rewrite Hrun in Hs. by destruct (run_step _ _ _ _) as [[[]| |] ?].
  - destruct Hcut as (o' & Hend & Hdb & _ & _ & info & d1 & rows & d2 & Hinfo & Hfetch & _ & Hperm).
    exists o', info, d1, d2. split_and!; [exact Hend|exact Hinfo|]. rewrite Hfetch. do 2 f_equal.
    apply Permutation_singleton_r. rewrite Hperm.
    assert (map info_of_row (List.filter unfinished (batch_commit (database (env toy_held)))) =
            [mkBatchInfo 1 11]) as -> by by_eval.
    reflexivity.
Defined.
