(* ===== verification/RemoteNode.v ===== *)
(** * The remote block source on the orchestrator

    The source and the orchestrator together: the commands the source sends are handled by
    [handle_command], and its event stream reads what the orchestrator notified.  Concrete runs
    import a block, and hang on a build that fails. *)

From S2P Require Import Prelude Sql Primitives Watcher BigEndian Codec Engine Concrete DbModel DbOps.
From S2P Require Import World Signing ConcreteRlp Sequencer SequencerProps Pipeline Consolidation.
From S2P Require Import Driver ConcreteWorld Orchestrator RemoteSource RemoteProps RunLoop ConcreteNode.

#[local] Existing Instances stored_order toy_chain toy_conversion toy_timers ethereum_rlp world_api
  world_client toy_peers toy_recovery toy_sig_bytes.

(** The node, how much of its events the source has read, and the chain the remote serves. *)
Record FollowedNode := mkFollowed {
  node : Orchestrator World;
  events_read : nat;
  remote_chain : list (@RpcBlock toy_chain)
}.

(** The events sent to the listeners, from the oldest. *)
Definition notified (o : Orchestrator World) : list ChainOrchestratorEvent :=
  omap (λ m, match m with Notified e => Some e | _ => None end) (outbox o).

#[local] Instance served_remote : RemoteNode FollowedNode := {|
  remote_block_number w := (Ok (Z.of_nat (length (remote_chain w)) - 1), w);
  remote_latest w := (Ok (last (remote_chain w)), w);
  remote_block n w := (Ok (remote_chain w !! Z.to_nat n), w)
|}.

#[local] Instance local_reader : BlockReader FollowedNode := {|
  local_block_hash n w :=
    (Ok (rpc_hash <$> List.find (λ b, block_number (rpc_block b) =? n)
                        (served (client (engine (env (node w)))))), w)
|}.

(** The run loop drops a command's error: the reply channel closes without an answer. *)
#[local] Instance node_handle : OrchestratorHandle FollowedNode := {|
  submit c w :=
    match handle_command toy_clock c (node w) with
    | (Ok r, o) => (Some r, mkFollowed o (events_read w) (remote_chain w))
    | (_, o) => (None, mkFollowed o (events_read w) (remote_chain w))
    end;
  next_event w :=
    match notified (node w) !! events_read w with
    | Some e => (Item e, mkFollowed (node w) (S (events_read w)) (remote_chain w))
    | None => (Pending, w)
    end
|}.

Definition remote_chain_2 : list (@RpcBlock toy_chain) := [toy_canonical 0; toy_canonical 1].

(** The node at genesis with a sequencer: its client accepts one import and then fails. *)
Definition sequencing_node : Orchestrator World :=
  set_sequencer (Some toy_sequencer)
    (toy_orchestrator toy_genesis_fcs [fcu_answer Valid None] [mkPayloadStatus Valid None] toy_seq_db).

Definition source (build : bool) : RemoteBlockSource FollowedNode :=
  mkRemoteSource build (Some 0) (mkFollowed sequencing_node 0 remote_chain_2).

#[local] Notation followed := (follow_and_build 5 (source false)).
#[local] Notation building := (poll_tick 40 (source true)).

(** Following alone imports the remote's block: the head moves to it. *)
Example follows_the_remote :
  is_ok followed.1 = true ∧ last_imported_block followed.2 = Some 1 ∧
  fcs_head (orchestrator_fcs (node (world followed.2))) = {| number := 1; hash := 101 |}.
Proof. split_and!; vm_compute; reflexivity. Qed.

(** The orchestrator announces a build that finishes empty or fails to finish, but not one that
    fails to start: when the client refuses the payload request after the import, no event is sent,
    and the source waits, within a poll that never ends, for one that never comes.  The polls and
    the shutdown branch beside it are not looked at again. *)
Theorem failed_build_hangs fuel :
  (poll_tick fuel (source true)).1 = Err StillRunning ∧
  length (notified (node (world (poll_tick 9 (source true)).2))) = 0%nat.
Proof. split; [|vm_compute; reflexivity]. destruct fuel as [|[|fuel]]; vm_compute; reflexivity. Qed.

(** ** The order of imports, and catching up *)

(** A node that accepts everything, behind the remote of two blocks. *)
Definition toy_import_done : ChainImport := mkImport [] 0 0 (fcu_answer Valid None).
Definition idle_status : ChainOrchestratorStatus :=
  mkStatus ModeSynced 0 0 0 ModeSynced toy_genesis_fcs DerivationIdle.

#[local] Instance willing_remote : RemoteNode unit := {|
  remote_block_number w := (Ok 3, w);
  remote_latest w := (Ok (Some (toy_canonical 3)), w);
  remote_block n w := (Ok (Some (toy_canonical n)), w)
|}.
#[local] Instance willing_reader : BlockReader unit :=
  {| local_block_hash n w := (Ok (Some (if n <=? 1 then 100 + n else 7)), w) |}.
#[local] Instance willing_handle : OrchestratorHandle unit := {|
  submit c w :=
    (match c with
     | ImportBlock _ => Some (ImportReply (inl toy_import_done))
     | Status => Some (StatusReply idle_status)
     | _ => Some NoReply
     end, w);
  next_event w := (Item BlockBuildingSkipped, w)
|}.

Lemma willing_cooperative : cooperative (W := unit) 3.
Proof. split; intros; eexists _, _; (split; [reflexivity|reflexivity]). Qed.

Definition willing_source : RemoteBlockSource (Logged unit) :=
  mkRemoteSource true (Some 1) (mkLogged tt []).

(** A node that accepts the second block and refuses the third. *)
#[local] Instance choosy_handle : OrchestratorHandle bool := {|
  submit c w :=
    match c with
    | ImportBlock b =>
        if block_number (nb_block b) =? 2 then (Some (ImportReply (inl toy_import_done)), w)
        else (Some (ImportReply (inr L2SafeBlockReorgDetected)), w)
    | Status => (Some (StatusReply idle_status), w)
    | _ => (Some NoReply, w)
    end;
  next_event w := (Item BlockBuildingSkipped, w)
|}.
#[local] Instance choosy_remote : RemoteNode bool := {|
  remote_block_number w := (Ok 3, w);
  remote_latest w := (Ok (Some (toy_canonical 3)), w);
  remote_block n w := (Ok (Some (toy_canonical n)), w)
|}.
#[local] Instance choosy_reader : BlockReader bool := {| local_block_hash n w := (Ok None, w) |}.

Lemma choosy_honest : honest_remote (W := bool).
Proof.
  split; cbn [remote_block remote_latest choosy_remote].
  - intros n w b w' Hr. injection Hr as <- _. reflexivity.
  - intros w b w' Hr. injection Hr as <- _. cbn. unfold in_u64. lia.
Qed.

Definition choosy_source : RemoteBlockSource (Logged bool) :=
  mkRemoteSource true (Some 1) (mkLogged true []).

(** Block 2 is accepted, block 3 refused, and the source stays at block 2. *)
Lemma imports_in_order_witness : ∃ new,
  log (world (follow_and_build 9 choosy_source).2) = new ∧ submissions new = [Accepted 2; Refused 3] ∧
  last_imported_block (follow_and_build 9 choosy_source).2 = Some 2 ∧ as_served new.
Proof.
  assert (last_imported_block (follow_and_build 9 choosy_source).2 = Some 2) as H2
    by (vm_compute; reflexivity).
  assert (submissions (log (world (follow_and_build 9 choosy_source).2)) = [Accepted 2; Refused 3]) as Hs
    by (vm_compute; reflexivity).
  destruct (imports_in_order 9 1 choosy_source _ _ choosy_honest ltac:(lia) eq_refl
              (surjective_pairing (follow_and_build 9 choosy_source)))
    as (new & j & rest & Hlog & Hj & Hnew & Hrest & Hlast & Hserved).
  exists new. split; [exact Hlog|]. split; [|split; [exact H2|exact Hserved]].
  rewrite <- Hs. f_equal. symmetry. exact Hlog.
Defined.

Lemma catches_up_witness : ∃ s' new,
  follow_and_build 9 willing_source = (Ok tt, s') ∧ last_imported_block s' = Some 3 ∧
  log (world s') = new ∧
  steps new = [Accepted 2; BuildAsked; BuildEnded; Accepted 3; BuildAsked; BuildEnded].
Proof.
  destruct (catches_up 3 1 9 willing_source) as (s' & new & Hrun & Hlast & Hlog & Hs);
    [exact willing_cooperative|lia|unfold u64_max; lia|reflexivity|lia|].
  exists s', new. split; [exact Hrun|]. split; [exact Hlast|]. split; [exact Hlog|]. exact Hs.
Defined.

Lemma resumes_at_highest_common_witness : ∃ n s',
  init_last_imported_block (mkRemoteSource true None tt) = (Ok n, s') ∧ n <= 0.
Proof.
  assert (∀ n (w : unit), ∃ w', local_block_hash n w =
    (Ok (Some (if n <=? 1 then 100 + n else 7)) : outcome string (option B256), w')) as HL
    by (intros n w; exists w; reflexivity).
  assert (∀ n (w : unit), ∃ w', remote_block n w =
    (Ok (Some (toy_canonical n)) : outcome string (option RpcBlock), w')) as HR
    by (intros n w; exists w; reflexivity).
  destruct (resumes_at_highest_common (λ n, Some (if n <=? 1 then 100 + n else 7))
              (λ n, Some (toy_canonical n)) HL HR (mkRemoteSource true None tt) idle_status 3 tt tt)
    as (n & s' & Hrun & Hn & _); [reflexivity|reflexivity|vm_compute; discriminate|lia|].
  exists n, s'. split; [exact Hrun|]. apply (Z.le_trans _ _ _ (proj2 Hn)). vm_compute. discriminate.
Defined.
