(* ===== verification/StartupProps.v ===== *)
(** * Properties of the start

    What validation accepts, the head the start agrees on with the execution client, the genesis
    of the database, and the state the run loop starts from. *)

From S2P Require Import Prelude Sql Primitives Watcher Engine DbModel DbOps DbInvariant DbProps World.
From S2P Require Import Signing Sequencer Consolidation Driver Migration Orchestrator Network.
From S2P Require Import BlobSources Config Startup RunLoop OrchestratorInv OrchestratorProps.

(** ** Validation *)

(** Exactly one source of the signing key. *)
Definition one_signer (s : SignerArgs) : Prop := signer_sources s = 1.

Record valid_config (c : ScrollRollupNodeConfig) : Prop := {
  valid_sequencer : sequencer_enabled (sequencer_args c) = true →
    algorithm (consensus_args c) = SystemContract → one_signer (signer_args c);
  valid_consensus : algorithm (consensus_args c) = SystemContract →
    authorized_signer_arg (consensus_args c) ≠ None ∨ l1_url (l1_provider_args c) ≠ None;
  valid_rotation : exit_on_signer_rotation (consensus_args c) = true →
    sequencer_enabled (sequencer_args c) = false ∧ l1_url (l1_provider_args c) ≠ None ∧
    authorized_signer_arg (consensus_args c) = None ∧
    algorithm (consensus_args c) = SystemContract;
  valid_remote : remote_enabled (remote_block_source_args c) = true →
    remote_url (remote_block_source_args c) ≠ None
}.

Lemma first_error_Ok checks :
  first_error checks = Ok tt ↔ Forall (λ p, fst p = false) checks.
Proof.
  unfold first_error. induction checks as [|[b e] checks IH]; [by split; [constructor|]|].
  cbn. rewrite Forall_cons. destruct b; cbn; [naive_solver|]. rewrite IH. naive_solver.
Qed.

Lemma validate_ok c : validate c = Ok tt ↔ valid_config c.
Proof.
  unfold validate. rewrite first_error_Ok, !Forall_cons, Forall_nil. cbn [fst].
  destruct c as [ta ca co en bl lp sa na ra si re], ca as [alg auth rot], si as [kf kms pk]. cbn.
  unfold is_none, is_some, signer_sources, one_signer. cbn.
  split.
  - intros (H1 & H2 & H3 & H4 & H5 & H6 & H7 & H8 & _). split; cbn.
    + intros Hs ->. rewrite Hs in H2, H3. unfold one_signer. cbn in *.
      unfold signer_sources. cbn. by destruct kf, kms, pk.
    + intros ->. destruct auth; [by left|]. destruct (l1_url lp); [by right|done].
    + intros ->. destruct (sequencer_enabled sa), (l1_url lp), auth, alg; done.
    + intros Hr. rewrite Hr in H8. by destruct (remote_url re).
  - intros [Vs Vc Vr Ve]. cbn in *. unfold one_signer, signer_sources in Vs. cbn in Vs.
    split_and!; try done.
    + destruct rot; [|done]. by destruct Vr as [-> _].
    + destruct (sequencer_enabled sa), alg; try done. specialize (Vs eq_refl eq_refl).
      by destruct kf, kms, pk.
    + destruct (sequencer_enabled sa), alg; try done. specialize (Vs eq_refl eq_refl).
      by destruct kf, kms, pk.
    + destruct rot; [|done]. destruct Vr as (_ & Hu & _); [done|]. by destruct (l1_url lp).
    + destruct rot; [|done]. by destruct Vr as (_ & _ & -> & _).
    + destruct rot; [|done]. by destruct Vr as (_ & _ & _ & ->).
    + destruct alg; [|done]. destruct Vc; [done|by destruct auth|]. destruct auth; [done|].
      by destruct (l1_url lp).
    + destruct (remote_enabled re); [|done]. specialize (Ve eq_refl). by destruct (remote_url re).
Qed.

(** Validation accepts exactly the configurations in which an enabled sequencer that must sign
    has one key source, the system contract's signer is known or can be read, the rotation watchdog
    runs on a follower that reads the signer from L1, and an enabled remote source has its URL. *)
Theorem validate_iff c : validate c = Ok tt ↔ valid_config c.
Proof. apply validate_ok. Qed.

(** ** The database and the execution client *)

Section Restore.
Context `{SqlEngine} `{Chain} `{!HttpClient} `{!EngineApi W} `{!L2Provider W} `{!TaggedBlocks W}
  {V : Type}.
Variables DOGEOS_MAINNET_GENESIS_HASH DOGEOS_CHIKYU_GENESIS_HASH : B256.
Variable mainnet_sample : string.
Variable execute_unprepared : string → M (list BlockDataModel) string unit.
Implicit Types s : Startup.World W V.

Notation St := (M (Startup.World W V) BuildError).
Notation node_genesis := (node_genesis_hash DOGEOS_MAINNET_GENESIS_HASH DOGEOS_CHIKYU_GENESIS_HASH).
Notation stored s := (tables (rows s)).

(** A new database file, or one an earlier run left. *)
Definition well_started s : Prop :=
  (applied s = O ∧ rows s = mkMigrated empty_db []) ∨ ((4 ≤ applied s)%nat ∧ schema_ok (stored s)).

(** The execution client at rest in one of its states: reading a tag leaves it there, and no tagged
    block is above the latest one.  Nothing is said of its other states. *)
Record at_rest (w : W) : Prop := {
  rest_read t : (get_block_by_tag t w).2 = w;
  rest_latest t b b' :
    (get_block_by_tag TagLatest w).1 = Ok (Some b) → (get_block_by_tag t w).1 = Ok (Some b') →
    number b' <= number b
}.

Lemma on_db_run {A} f (m : DB A) s :
  on_db (V := V) (W := W) f m s =
  (omap_err f (tx_mut m (stored s)).1,
   mkWorld (set_tables (tx_mut m (stored s)).2 (rows s)) (applied s) (l2 s) (l1 s)).
Proof. unfold on_db, zoom, map_err. by destruct (tx_mut m (stored s)). Qed.

Lemma on_db_Ok {A} f (m : DB A) s a s' :
  on_db (V := V) (W := W) f m s = (Ok a, s') → m (stored s) = (Ok a, stored s') ∧ l2 s' = l2 s.
Proof.
  rewrite on_db_run. unfold tx_mut. destruct (m (stored s)) as [[x|e|] d]; intros; simplify_eq/=.
  done.
Qed.

Lemma or_panic_Ok {A} (m : St A) s a s' : or_panic m s = (Ok a, s') → m s = (Ok a, s').
Proof. unfold or_panic. by destruct (m s) as [[]]. Qed.

(** *** The migrations *)

Lemma Migrator_up_tables (MI : MigrationInfo) r :
  Migrator_up execute_unprepared MI (mkMigrated empty_db []) = (Ok tt, r) →
  tables r = migrated genesis_hash.
Proof.
  unfold Migrator_up, migrations. cbn [foldr]. intros Hr.
  apply bind_Ok in Hr as ([] & r1 & E1 & Hr). injection E1 as <-.
  apply bind_Ok in Hr as ([] & r2 & E2 & Hr).
  assert (tables r2 = set_batch_commit [genesis_batch_row] empty_db) as Ht.
  { revert E2. unfold on_block_data, zoom. destruct (load_header_metadata _ _ _) as [[]]; intros; by simplify_eq/=. }
  apply bind_Ok in Hr as ([] & r3 & E3 & Hr).
  assert (tables r3 = set_l2_block [genesis_block_row genesis_hash] (tables r2)) as Ht3.
  { revert E3. unfold add_l2_block, on_tables. rewrite Ht. cbn. intros; by simplify_eq/=. }
  apply bind_Ok in Hr as ([] & r4 & E4 & Hr).
  unfold add_metadata, on_tables in E4. injection E4 as <-. injection Hr as <-. cbn.
  by rewrite Ht3, Ht.
Qed.

Lemma migrate_up_ok (MI : MigrationInfo) s s' :
  well_started s → migrate_up execute_unprepared MI s = (Ok tt, s') →
  schema_ok (stored s') ∧ l2 s' = l2 s.
Proof.
  intros Hs Hr. unfold migrate_up in Hr.
  apply bind_Ok in Hr as (s0 & s1 & [= <- <-] & Hr). apply bind_Ok in Hr as ([] & s2 & Hm & Hr).
  injection Hr as <-. cbn. unfold on_rows, map_err, zoom in Hm.
  split; [|by destruct (foldr (λ m rest : M Migrated string (), m;;; rest) _ _ _) as [[[]|e|] r]; simplify_eq/=].
  destruct Hs as [[Ha Hrows]|[Ha Hok]].
  - rewrite Ha, Hrows in Hm. rewrite drop_0 in Hm.
    change (foldr _ _ (migrations execute_unprepared MI)) with (Migrator_up execute_unprepared MI) in Hm.
    destruct (Migrator_up _ _ _) as [o r] eqn:E.
    destruct o as [[]| |]; simplify_eq/=. rewrite (Migrator_up_tables MI r) by exact E.
    apply schema_ok_migrated.
  - rewrite drop_ge in Hm by (cbn; lia). by injection Hm as <-.
Qed.

Lemma migrate_node_ok spec test s s' :
  well_started s →
  migrate_node DOGEOS_MAINNET_GENESIS_HASH DOGEOS_CHIKYU_GENESIS_HASH mainnet_sample
    execute_unprepared spec test s = (Ok tt, s') → schema_ok (stored s') ∧ l2 s' = l2 s.
Proof.
  intros Hs Hr%or_panic_Ok. destruct (named spec) as [chain|]; [|by eapply migrate_up_ok].
  apply bind_Ok in Hr as (MI & s1 & Hl & Hr). apply lift_Ok in Hl as [_ ->].
  by eapply migrate_up_ok.
Qed.

(** *** The stored chain after the reconciliation *)

(** The database keeps its schema and has the genesis of the chain. *)
Definition chain_ok (g : B256) (d : Db) : Prop := schema_ok d ∧ genesis_of g d.

Lemma chain_ok_pres {A} g (m : DB A) :
  preserves schema_ok m → (∀ d, l2_block (m d).2 = l2_block d) → preserves (chain_ok g) m.
Proof. intros Hm Hl d [Hs Hg]. split; [by apply Hm|]. unfold genesis_of. by rewrite Hl. Qed.

Lemma keeps_blocks_bind {A B} (m : DB A) (k : A → DB B) :
  (∀ d, l2_block (m d).2 = l2_block d) → (∀ a d, l2_block (k a d).2 = l2_block d) →
  ∀ d, l2_block (bind m k d).2 = l2_block d.
Proof.
  intros Hm Hk d. unfold bind. specialize (Hm d). destruct (m d) as [[a|e|] d']; cbn in *; [|done..].
  by rewrite Hk.
Qed.

Lemma reads_keep_blocks {A} (m : DB A) : reads m → ∀ d, l2_block (m d).2 = l2_block d.
Proof. intros Hm d. by rewrite Hm. Qed.

Lemma prepare_keeps_chain g : preserves (chain_ok g) prepare_l1_watcher_start_info.
Proof. apply chain_ok_pres; [apply prepare_start_ok|done]. Qed.

Lemma set_head_purge_keeps_chain g n k :
  preserves (chain_ok g) (set_l2_head_block_number n ;;; purge_l1_message_to_l2_block_mappings (Some k)).
Proof.
  apply chain_ok_pres; [|done]. apply preserves_bind; [apply put_metadata_ok|]. intros []. apply purge_ok.
Qed.

Lemma start_info_keeps_chain g :
  preserves (chain_ok g)
    (let* info := prepare_l1_watcher_start_info in
     let* l2_head := get_l2_head_block_number in
     ret (info, l2_head)).
Proof.
  apply preserves_bind; [apply prepare_keeps_chain|]. intros info.
  apply preserves_bind; [|intros; apply preserves_ret].
  apply chain_ok_pres; [apply reads_ok|apply reads_keep_blocks]; apply get_metadata_reads.
Qed.

(** *** The fork choice state *)

Lemma tagged_run t s o s' :
  tagged (V := V) (W := W) t s = (o, s') →
  rows s' = rows s ∧ (at_rest (l2 s) → l2 s' = l2 s) ∧
  (∀ b, o = Ok (Some b) → (get_block_by_tag t (l2 s)).1 = Ok (Some b)).
Proof.
  unfold tagged, bind, try, on_l2, map_err, zoom, ret. intros Hr.
  assert (at_rest (l2 s) → (get_block_by_tag t (l2 s)).2 = l2 s) as Hw by (intros [Hw _]; apply Hw).
  destruct (get_block_by_tag t (l2 s)) as [[[b|]|e|] w]; simplify_eq/=;
    (split; [done|]); (split; [done|]); intros; by simplify_eq.
Qed.

Lemma startup_fcs_ok spec s f s' :
  at_rest (l2 s) →
  startup_fcs DOGEOS_MAINNET_GENESIS_HASH DOGEOS_CHIKYU_GENESIS_HASH spec s = (Ok f, s') →
  fcs_ordered f ∧ stored s' = stored s.
Proof.
  intros Hrest Hr. apply bind_Ok in Hr as (p & s0 & Hp & Hr). unfold fcs_from_provider in Hp.
  assert (rows s0 = rows s ∧ ∀ f, p = Some f → fcs_ordered f) as [Hrows Hf].
  { apply bind_Ok in Hp as (latest & s1 & E1 & Hp). apply tagged_run in E1 as (R1 & W1 & F1).
    specialize (W1 Hrest). destruct latest as [b1|]; [|by injection Hp as <- <-].
    apply bind_Ok in Hp as (safe & s2 & E2 & Hp). apply tagged_run in E2 as (R2 & W2 & F2).
    rewrite W1 in W2, F2. specialize (W2 Hrest).
    destruct safe as [b2|]; [|injection Hp as <- <-; split; [congruence|done]].
    apply bind_Ok in Hp as (fin & s3 & E3 & Hp). apply tagged_run in E3 as (R3 & _ & F3).
    rewrite W2 in F3. injection Hp as <- <-. split; [congruence|]. intros f' Hf'.
    destruct fin as [b3|]; [|done]. unfold from_provider in Hf'. injection Hf' as <-.
    pose proof (rest_latest _ Hrest _ _ _ (F1 _ eq_refl) (F2 _ eq_refl)).
    pose proof (rest_latest _ Hrest _ _ _ (F1 _ eq_refl) (F3 _ eq_refl)).
    unfold fcs_ordered. cbn. destruct (Z.ltb_spec (number b2) (number b3)); lia. }
  destruct p as [f'|].
  - injection Hr as <- <-. split; [by apply Hf|by rewrite Hrows].
  - apply lift_Ok in Hr as [Hr ->]. split; [|by rewrite Hrows].
    unfold head_from_chain_spec in Hr. destruct (genesis_hash_from_chain_spec _ _ _); [|done].
    injection Hr as <-. unfold fcs_ordered, from_genesis. cbn. lia.
Qed.

(** *** The search for the L2 head *)

Lemma find_l2_head_ok g turns : ∀ n fin f s f' s',
  find_l2_head (V := V) turns n fin f s = (Ok f', s') →
  fcs_ordered f → chain_ok g (stored s) → fcs_ordered f' ∧ chain_ok g (stored s').
Proof.
  induction turns as [|turns IH]; intros n fin f s f' s' Hr Hf Hs; [by injection Hr as <- <-|].
  cbn [find_l2_head] in Hr. destruct (fin <? n); [|by injection Hr as <- <-].
  apply bind_Ok in Hr as (b & s1 & E & Hr).
  assert (stored s1 = stored s) as Hst.
  { revert E. unfold on_l2, map_err, zoom. destruct (get_block_by_number n (l2 s)). intros; by simplify_eq/=. }
  rewrite <- Hst in Hs. destruct b as [b|]; [|by eapply IH].
  apply bind_Ok in Hr as (f1 & s2 & El & Hr). apply lift_Ok in El as [El ->].
  unfold omap_err in El. destruct (update_head_block_info _ f) as [f2|e|] eqn:Eu; simplify_eq.
  unfold update_head_block_info in Eu. apply fcs_update_spec in Eu as (_ & _ & Ho & _).
  apply bind_Ok in Hr as ([] & s3 & Ed & Hr). injection Hr as <- <-. split; [done|].
  apply on_db_Ok in Ed as [Ed _]. by eapply preserves_ok; [apply set_head_purge_keeps_chain|exact Ed|].
Qed.

Lemma restore_chain_ok spec test s f info s' :
  at_rest (l2 s) →
  restore_chain DOGEOS_MAINNET_GENESIS_HASH DOGEOS_CHIKYU_GENESIS_HASH mainnet_sample
    execute_unprepared spec test s = (Ok (f, info), s') →
  well_started s → fcs_ordered f ∧ chain_ok (node_genesis spec) (stored s').
Proof.
  intros Hrest Hr Hs. apply bind_Ok in Hr as ([] & s1 & Em & Hr).
  apply migrate_node_ok in Em as [Hs1 Hw1]; [|done].
  apply bind_Ok in Hr as (removed & s2 & Eg & Hr). apply on_db_Ok in Eg as [Eg Hw2].
  rewrite <- Hw1, <- Hw2 in Hrest.
  assert (chain_ok (node_genesis spec) (stored s2)) as Hs2.
  { split; [|by eapply reconcile_genesis_sound]. eapply preserves_ok; [apply reconcile_genesis_ok| |]; done. }
  apply bind_Ok in Hr as (f0 & s3 & Ef & Hr). apply startup_fcs_ok in Ef as [Hf0 Hst]; [|done].
  rewrite <- Hst in Hs2. apply bind_Ok in Hr as ([info' head] & s4 & Ei & Hr).
  apply on_db_Ok in Ei as [Ei _].
  assert (chain_ok (node_genesis spec) (stored s4)) as Hs4.
  { by eapply preserves_ok; [apply start_info_keeps_chain|exact Ei|]. }
  apply bind_Ok in Hr as (f1 & s5 & El & Hr). injection Hr as <- <- <-.
  by eapply find_l2_head_ok.
Qed.

(** *** What the search finds *)

(** The message maps to a block above [k]. *)
Definition mapped_above (k : Z) (r : MsgRow) : bool :=
  match mr_l2_block_number r with Some m => k <? m | None => false end.

(** The database [d'] is [d] with the L2 head [k]: no message maps to a block above it. *)
Definition lowered_to (k : Z) (d d' : Db) : Prop :=
  metadata d' = <["l2_head_block" := u64_to_string k]> (metadata d) ∧
  l1_message d' = map (λ r, if mapped_above k r then set_l2_block_number_col None r else r) (l1_message d) ∧
  l2_block d' = l2_block d ∧ batch_commit d' = batch_commit d ∧ l1_block d' = l1_block d ∧
  block_signature d' = block_signature d.

Lemma set_head_purge_lowers f k s :
  0 <= k < i64_max →
  ∃ s', on_db (V := V) (W := W) f
          (set_l2_head_block_number k ;;;
           purge_l1_message_to_l2_block_mappings (Some (wrapping_add k 1))) s = (Ok tt, s') ∧
    lowered_to k (stored s) (stored s') ∧ l2 s' = l2 s.
Proof.
  intros Hk. rewrite on_db_run. eexists. split; [reflexivity|]. split; [|done].
  split_and!; try done. cbn. unfold update_many. apply map_ext. intros r.
  unfold wrapping_add, u64_mod, as_i64, null_gte, mapped_above, i64_max in *.
  rewrite Z.mod_small by lia. rewrite (proj2 (Z.leb_le (k + 1) _)) by lia.
  destruct (mr_l2_block_number r) as [m|]; [|done].
  by replace (k + 1 <=? m) with (k <? m) by (destruct (Z.ltb_spec k m), (Z.leb_spec (k + 1) m); lia).
Qed.

Lemma head_update f b :
  fcs_ordered f →
  (update_head_block_info b f = Err HeadBelowSafe ∧ number b < number (fcs_safe f)) ∨
  (update_head_block_info b f = Ok (mkFcs b (fcs_safe f) (fcs_finalized f)) ∧
   number (fcs_safe f) <= number b).
Proof.
  intros [Hfs Hsh]. unfold update_head_block_info. rewrite fcs_update_unfold by done. cbn.
  rewrite bool_decide_true by done. rewrite andb_false_r.
  destruct (Z.ltb_spec (number b) (number (fcs_safe f))); [by left|right].
  by rewrite (proj2 (Z.ltb_ge (number (fcs_safe f)) _)) by lia.
Qed.

(** What the search yields from [n] down to the finalized block: nothing the client has, or its
    highest block, which must not lie below the safe block. *)
Inductive head_found (served : Z → option RpcBlock) (n : Z) (f : ForkchoiceState) s :
  outcome BuildError ForkchoiceState * Startup.World W V → Prop :=
| head_nowhere :
    (∀ j, number (fcs_finalized f) < j <= n → served j = None) →
    head_found served n f s (Ok f, s)
| head_at k b s' :
    number (fcs_finalized f) < k <= n → served k = Some b → (∀ j, k < j <= n → served j = None) →
    number (fcs_safe f) <= block_number (rpc_block b) →
    lowered_to k (stored s) (stored s') → l2 s' = l2 s →
    head_found served n f s
      (Ok (mkFcs (BlockInfo_from_header (header (rpc_block b))) (fcs_safe f) (fcs_finalized f)), s')
| head_below_safe k b :
    number (fcs_finalized f) < k <= n → served k = Some b → (∀ j, k < j <= n → served j = None) →
    block_number (rpc_block b) < number (fcs_safe f) →
    head_found served n f s (Err (BuildFcs HeadBelowSafe), s).

(** C37: the start agrees on the L2 head with the execution client.  When the client's blocks do not
    change during the search, it ends in at most as many turns as the stored head's number, with the
    highest block at or below the stored head that the client has: this becomes the head of the fork
    choice and of the database, and the L1 messages that were included above it count as not
    included.  When the client has none above the finalized block nothing changes.  And when the
    block found lies below the client's safe block, as after a stop between the unwind of the
    database and the fork choice update that follows it, the start fails. *)
Theorem find_l2_head_spec served n f s :
  (∀ m, get_block_by_number m (l2 s) = (Ok (served m), l2 s)) →
  fcs_ordered f → 0 <= number (fcs_finalized f) → n < i64_max →
  head_found served n f s
    (find_l2_head (Z.to_nat n) n (number (fcs_finalized f)) f s).
Proof.
  intros Hserved Hf H0' Hn. remember (Z.to_nat n) as turns eqn:Et.
  assert (n <= Z.of_nat turns) as Hturns by lia. clear Et. revert n Hn Hturns.
  induction turns as [|turns IH]; intros n Hn Hturns; cbn [find_l2_head].
  { apply head_nowhere. intros j Hj. lia. }
  destruct (Z.ltb_spec (number (fcs_finalized f)) n) as [Hlt|]; [|apply head_nowhere; intros; lia].
  unfold bind at 1, on_l2, map_err, zoom. rewrite Hserved. cbn [omap_err].
  replace (mkWorld (rows s) (applied s) (l2 s) (l1 s)) with s by (by destruct s).
  destruct (served n) as [b|] eqn:Eb.
  - destruct (head_update f (BlockInfo_from_header (header (rpc_block b))) Hf) as [[Hu Hb]|[Hu Hb]].
    + unfold bind at 1, lift. rewrite Hu. eapply head_below_safe; [|exact Eb|intros; lia|done]. lia.
    + erewrite bind_step by (unfold lift; rewrite Hu; reflexivity).
      destruct (set_head_purge_lowers BuildDatabase n s) as (s' & Hs' & Hl & Hw); [lia|].
      erewrite bind_step by exact Hs'. eapply head_at; [|exact Eb|intros; lia|done..]. lia.
  - specialize (IH (n - 1) ltac:(lia) ltac:(lia)).
    assert (∀ k, (∀ j, k < j <= n - 1 → served j = None) → ∀ j, k < j <= n → served j = None) as Hup.
    { intros k Hk j Hj. destruct (Z.eq_dec j n) as [->|]; [done|]. apply Hk. lia. }
    destruct IH as [Hno|k b s' Hk Hb Hno|k b Hk Hb Hno].
    + apply head_nowhere. by apply Hup.
    + eapply head_at; [|done|by apply Hup|done..]. lia.
    + eapply head_below_safe; [|done|by apply Hup|done]. lia.
Qed.
End Restore.

(** ** The node that is built *)

Section Build.
Context `{SqlEngine} `{Chain} `{!PayloadConversion} `{!HttpClient} `{Timers} `{Rlp} `{SignerRecovery}
  `{SignatureBytes} `{LruCache} `{!WireCodec} `{!Kzg} `{!BlobCache} `{!BlobServices}
  `{!SignerBackends} `{!EngineApi W} `{!L2Provider W} `{!BlockClient W} `{!TaggedBlocks W}
  `{!L1Node V} `{Allocation}.
Variable parse_address : string → option Address.
Variables DOGEOS_MAINNET_GENESIS_HASH DOGEOS_CHIKYU_GENESIS_HASH : B256.
Variable mainnet_sample : string.
Variable execute_unprepared : string → M (list BlockDataModel) string unit.
Variable random_key : Address.
Implicit Types s : Startup.World W V.

Notation build tu := (build parse_address DOGEOS_MAINNET_GENESIS_HASH DOGEOS_CHIKYU_GENESIS_HASH
  mainnet_sample execute_unprepared random_key tu).
Notation start_node tu := (start_node parse_address DOGEOS_MAINNET_GENESIS_HASH
  DOGEOS_CHIKYU_GENESIS_HASH mainnet_sample execute_unprepared random_key tu).
Notation restore := (restore_chain DOGEOS_MAINNET_GENESIS_HASH DOGEOS_CHIKYU_GENESIS_HASH
  mainnet_sample execute_unprepared).
Notation node_genesis := (node_genesis_hash DOGEOS_MAINNET_GENESIS_HASH DOGEOS_CHIKYU_GENESIS_HASH).

Lemma build_consensus_rows c nc s o s' :
  build_consensus (V := V) (W := W) c nc s = (o, s') → rows s' = rows s.
Proof.
  unfold build_consensus, bind, on_l1, map_err, zoom, lift, ret.
  destruct (l1_url _); [destruct (l1_authorized_signer _ _) as [[a|e|] v]|];
    cbn; intros; by simplify_eq/=.
Qed.

Lemma build_watcher_rows tu fuel c nc info s o s' :
  build_watcher (V := V) (W := W) tu fuel c nc info s = (o, s') →
  rows s' = rows s ∧
  (spawns_watcher c = false → tu = false → o = Ok None).
Proof.
  unfold build_watcher. destruct (spawns_watcher c).
  - unfold bind, on_l1, map_err, zoom, ret.
    destruct (spawn _ _ _ _ (l1 s)) as [[a|e|] v]; cbn; intros; by simplify_eq/=.
  - destruct tu; unfold ret; intros; by simplify_eq/=.
Qed.

(** What [build] has done when it returns. *)
Lemma build_Ok tu fuel now calls gl spec c s b s' :
  build tu fuel now calls gl spec c s = (Ok b, s') →
  ∃ f info s1 nc cons wt seq sg s2 s3,
    restore spec (test (test_args c)) s = (Ok (f, info), s1) ∧ rows s' = rows s1 ∧
    orchestrator b = ChainOrchestrator_new f (l2 s') (tables (rows s')) cons seq sg ∧
    build_watcher tu fuel c nc info s2 = (Ok (Some wt), s3) ∧
    (seq ≠ None → sequencer_enabled (sequencer_args c) = true) ∧
    build_signer random_key c spec s' = (Ok sg, s').
Proof.
  unfold Startup.build. intros Hr.
  apply bind_Ok in Hr as (nc & s0 & E & Hr). apply lift_Ok in E as [_ ->].
  apply bind_Ok in Hr as ([f info] & s1 & Erest & Hr). cbv zeta in Hr.
  apply bind_Ok in Hr as (cons & s2 & Econs & Hr).
  apply bind_Ok in Hr as (wt & s3 & Ewt & Hr).
  apply bind_Ok in Hr as (blobs & s4 & Eblob & Hr). apply or_panic_Ok, lift_Ok in Eblob as [_ ->].
  apply bind_Ok in Hr as (seq & s5 & Eseq & Hr).
  apply bind_Ok in Hr as (sg & s6 & Esg & Hr).
  apply bind_Ok in Hr as (wt' & s7 & Ew & Hr). apply lift_Ok in Ew as [Ew ->].
  destruct wt as [wt|]; [|done].
  assert (s5 = s3 ∧ (seq ≠ None → sequencer_enabled (sequencer_args c) = true)) as [-> Hseq].
  { revert Eseq. unfold build_sequencer. destruct (sequencer_enabled _).
    - intros Eseq. apply bind_Ok in Eseq as (q & s8 & El & Eseq). apply lift_Ok in El as [_ ->].
      by injection Eseq as <- <-.
    - by intros [= <- <-]. }
  assert (s6 = s3) as ->.
  { unfold build_signer in Esg. apply bind_Ok in Esg as (k & s8 & El & Esg).
    apply lift_Ok in El as [_ ->]. by injection Esg as _ <-. }
  apply bind_Ok in Hr as (s8 & s9 & [= <- <-] & Hr). injection Hr as <- <-.
  apply build_consensus_rows in Econs. pose proof (build_watcher_rows _ _ _ _ _ _ _ _ Ewt) as [Hw _].
  exists f, info, s1, nc, cons, wt, seq, sg, s2, s3. split_and!; try done. congruence.
Qed.

(** C2: the node that the start builds, from a new database file or from one an earlier run left and
    with an execution client that is at rest when the start begins, runs safely: its configuration is
    a valid one, its database has the genesis of its chain, and in every state its run loop reaches,
    whatever the client does then, the fork choice is ordered, the finalized block has not moved back
    from where the start put it, the database keeps its keys and references, and the derivation driver
    never panics. *)
Theorem built_node_runs_safely tu fuel now calls gl spec c s b s' o :
  start_node tu fuel now calls gl spec c s = (Ok b, s') → well_started s → at_rest (l2 s) →
  rtc (loop_step (orchestrator_config b)) (orchestrator b) o →
  valid_config c ∧ genesis_of (node_genesis spec) (database (env (orchestrator b))) ∧
  fcs_ordered (orchestrator_fcs o) ∧
  finalized_extends (orchestrator_fcs (orchestrator b)) (orchestrator_fcs o) ∧
  schema_ok (database (env o)) ∧ ∀ i, enabled i o = true → driver_ready i o.
Proof.
  intros Hr Hs Hrest Hsteps. apply bind_Ok in Hr as ([] & s0 & Ev & Hr).
  apply or_panic_Ok, lift_Ok in Ev as [Ev ->].
  apply build_Ok in Hr as (f & info & s1 & nc & cons & wt & seq & sg & s2 & s3 & Er & Hrows & Ho & _).
  apply restore_chain_ok in Er as [Hf [Hsch Hg]]; [|done..]. rewrite <- Hrows in Hsch, Hg.
  assert (node_ok (orchestrator_fcs (orchestrator b)) (orchestrator b)) as Hok.
  { apply node_ok_start; rewrite Ho; [exact Hf|exact Hsch|]. by intros Hn. }
  pose proof (node_ok_reachable _ _ _ _ Hsteps Hok) as Hok'. pose proof Hok' as [[[Hord Hext] Hdb] _].
  split_and!; try done.
  - apply validate_ok. revert Ev. unfold omap_err. by destruct (validate c) as [[]| |].
  - by rewrite Ho.
  - intros i. by apply (node_ok_ready _ _ _ Hok').
Qed.

(** No node sequences blocks it cannot sign: under the system contract a started node with a
    sequencer has a signer, with the configured key. *)
Theorem sequencer_can_sign tu fuel now calls gl spec c s b s' :
  start_node tu fuel now calls gl spec c s = (Ok b, s') →
  sequencer (orchestrator b) ≠ None → algorithm (consensus_args c) = SystemContract →
  ∃ k, SignerArgs_signer (chain_id spec) (signer_args c) = Ok (Some k) ∧
       signer (orchestrator b) = Some (mkSignerHandle (configured_address k) true).
Proof.
  intros Hr Hseq Halg. apply bind_Ok in Hr as ([] & s0 & Ev & Hr).
  apply or_panic_Ok, lift_Ok in Ev as [Ev ->].
  assert (valid_config c) as [Hone _ _ _].
  { apply validate_ok. revert Ev. unfold omap_err. by destruct (validate c) as [[]| |]. }
  apply build_Ok in Hr as (f & info & s1 & nc & cons & wt & seq & sg & s2 & s3 & _ & _ & Ho & _ & Hen & Esg).
  rewrite Ho in Hseq |- *. cbn in Hseq |- *. specialize (Hone (Hen Hseq) Halg).
  unfold build_signer in Esg. apply bind_Ok in Esg as (k & s8 & El & Esg). apply lift_Ok in El as [El ->].
  injection Esg as <-. destruct (SignerArgs_signer _ _) as [k'|e|] eqn:Ek; simplify_eq/=.
  destruct k as [k|]; [by exists k|exfalso]. revert Hone Ek.
  unfold one_signer, signer_sources, SignerArgs_signer, is_some.
  destruct (signer_args c) as [[kf|] [kms|] [pk|]]; cbn; try done; intros _.
  all: unfold obind, omap_ok; repeat case_match; by intros.
Qed.

(** Without an L1 node to follow no production node starts: when no L1 URL is given, or in test
    mode without an anvil node, [build] never returns a node, although the validation accepts such
    configurations, with a pinned signer or without consensus. *)
Theorem no_l1_no_node fuel now calls gl spec c s b s' :
  spawns_watcher c = false → build false fuel now calls gl spec c s ≠ (Ok b, s').
Proof.
  intros Hw Hr.
  apply build_Ok in Hr as (f & info & s1 & nc & cons & wt & seq & sg & s2 & s3 & _ & _ & _ & Ewt & _).
  apply build_watcher_rows in Ewt as [_ He]. by specialize (He Hw eq_refl).
Qed.
End Build.
