(* ===== verification/ConcreteStart.v ===== *)
(** * A concrete start

    A custom chain whose node starts as a sequencer on a new database, and a restart whose stored
    head is above what the execution client kept: witnesses of the properties of the start. *)

From Stdlib Require Import Ascii.
From S2P Require Import Prelude Sql Primitives Watcher BigEndian Codec Engine Concrete DbModel DbOps.
From S2P Require Import DbInvariant World Signing ConcreteRlp Sequencer SequencerProps Pipeline.
From S2P Require Import Consolidation Driver ConcreteWorld Migration MigrationProps ConcreteMigration.
From S2P Require Import ConcreteL1 Orchestrator Network NetworkProps ConcreteNetwork BlobSources.
From S2P Require Import ConcreteBlobs RunLoop OrchestratorInv OrchestratorProps ConcreteNode.
From S2P Require Import DbProps Config Startup StartupProps.

#[local] Existing Instances stored_order toy_chain toy_conversion toy_timers ethereum_rlp world_api
  world_client ConcreteNode.toy_recovery toy_sig_65 toy_http toy_lru toy_codec toy_kzg toy_cache
  toy_services toy_peers toy_l1_node toy_allocation.

(** The client's tags: the blocks 2, 1 and 0 of the toy chain. *)
#[local] Instance toy_tags : TaggedBlocks ConcreteWorld.World := λ t w,
  (Ok (Some (rpc_block_info (toy_canonical (match t with TagLatest => 2 | TagSafe => 1 | TagFinalized => 0 end)))), w).


(** A key file with a trailing line feed; the key's address is the number its bytes spell. *)
#[local] Instance toy_backends : SignerBackends := {
  read_to_string path :=
    if bool_decide (path = "key"%string) then inl [48; 120; 55; 55; 10] else inr "not found"%string;
  hex_decode s := if bool_decide (s = [55; 55]) then inl [119] else inr "bad digit"%string;
  private_key_from_slice bs := inl (mkPrivateKeySigner (from_be bs) None);
  aws_signer_address _ _ := inr "no network"%string
}.

Definition toy_parse (s : string) : option Address :=
  if bool_decide (s = "0xc0"%string) then Some 0xc0 else None.

Definition toy_spec : ChainSpec :=
  mkChainSpec None 221122420 100 (mkL1Config 1 2 3 10)
    (JObject [("scroll"%string, JObject [("l1Config"%string,
       JObject [("startL1Block"%string, JNumber 1); ("systemContractAddress"%string, JString "0xc0")])])]).

Definition toy_node_args : ScrollRollupNodeConfig :=
  mkNodeArgs (mkTestArgs false false) (mkConsensusArgs SystemContract None false)
    ChainOrchestratorArgs_default EngineDriverArgs_default (mkBlobProviderArgs None None None true 10000 10 100)
    (mkL1ProviderArgs (Some "http://l1"%string) 10000 10 100 500 100 60 12)
    (mkSequencerArgs true true 1000 800 0 (ModeFinalizedWithBlockDepth 2) false None)
    RollupNodeNetworkArgs_default (mkRpcArgs true false) (mkSignerArgs (Some "key"%string) None None)
    (mkRemoteArgs false None 100 false).

Definition toy_new_world : Startup.World ConcreteWorld.World ToyL1 :=
  Startup.mkWorld (mkMigrated empty_db []) 0
    (ConcreteWorld.mkWorld (mkScript [] [] []) (map toy_canonical [0; 1; 2]))
    (mkToyL1 [0; 0; 0] 1 None).

Definition no_sql (_ : string) : M (list BlockDataModel) string unit := fail "no sql"%string.

#[local] Notation toy_start :=
  (start_node toy_parse 7 8 "" no_sql 55 false 10 0 0 20000000 toy_spec toy_node_args).

Definition no_node : Built (W := ConcreteWorld.World) (V := ToyL1) :=
  mkBuilt toy_node toy_orch_config None (NetworkManager_from_parts 0 None) false
    (mkFullL1Provider (BlobProviders_new [] []) tt).

#[local] Notation toy_built := (ok_value no_node (fst (toy_start toy_new_world))).

Lemma toy_started : toy_start toy_new_world = (Ok toy_built, snd (toy_start toy_new_world)).
Proof. apply ok_run. vm_compute. reflexivity. Qed.

Lemma toy_well_started : well_started toy_new_world.
Proof. by left. Qed.

Lemma toy_at_rest : at_rest (l2 toy_new_world).
Proof. split; [done|]. intros t b b' [= <-] [= <-]. by destruct t. Qed.

(** The node is on the chain's own genesis, although the migration seeded another, and signs with
    the key of its file. *)
Lemma built_node_runs_safely_witness :
  valid_config toy_node_args ∧ genesis_of 100 (database (env (orchestrator toy_built))) ∧
  fcs_ordered (orchestrator_fcs (orchestrator toy_built)).
Proof.
  pose proof (built_node_runs_safely toy_parse 7 8 "" no_sql 55 false 10 0 0 20000000 toy_spec
    toy_node_args toy_new_world toy_built _ _ toy_started toy_well_started toy_at_rest (rtc_refl _ _))
    as (Hv & Hg & Hf & _).
  split_and!; [exact Hv|exact Hg|exact Hf].
Defined.

Lemma sequencer_can_sign_witness :
  ∃ k, SignerArgs_signer 221122420 (signer_args toy_node_args) = Ok (Some k) ∧
       signer (orchestrator toy_built) = Some (mkSignerHandle (configured_address k) true).
Proof.
  apply (sequencer_can_sign toy_parse 7 8 "" no_sql 55 false 10 0 0 20000000 toy_spec
    toy_node_args toy_new_world toy_built _ toy_started); [|reflexivity].
  assert (is_some (sequencer (orchestrator toy_built)) = true) as Hs by (vm_compute; reflexivity).
  intros Hn. by rewrite Hn in Hs.
Defined.

(** The validation accepts a follower with a pinned signer and no L1 URL, which never starts. *)
Definition toy_pinned_args : ScrollRollupNodeConfig :=
  mkNodeArgs (mkTestArgs false false) (mkConsensusArgs SystemContract (Some 77) false)
    ChainOrchestratorArgs_default EngineDriverArgs_default (mkBlobProviderArgs None None None true 10000 10 100)
    L1ProviderArgs_default
    (mkSequencerArgs false false 1000 800 0 (ModeFinalizedWithBlockDepth 2) false None)
    RollupNodeNetworkArgs_default (mkRpcArgs true false) (mkSignerArgs None None None)
    (mkRemoteArgs false None 100 false).

Lemma no_l1_no_node_witness :
  validate toy_pinned_args = Ok tt ∧
  ∀ b s', build toy_parse 7 8 "" no_sql 55 false 10 0 0 20000000 toy_spec toy_pinned_args
            toy_new_world ≠ (Ok b, s').
Proof. split; [vm_compute; reflexivity|]. intros b s'. by apply no_l1_no_node. Defined.

(** A restart whose stored head is 5: the client kept the blocks up to 2. *)
Definition toy_restart : Startup.World ConcreteWorld.World ToyL1 :=
  Startup.mkWorld (mkMigrated toy_seq_db []) 4
    (ConcreteWorld.mkWorld (mkScript [] [] []) (map toy_canonical [0; 1; 2])) (mkToyL1 [0] 0 None).

Definition toy_restart_fcs : ForkchoiceState :=
  mkFcs {| number := 2; hash := 102 |} {| number := 1; hash := 101 |} {| number := 0; hash := 100 |}.

Lemma find_l2_head_spec_witness :
  head_found (λ n, List.find (λ b, block_number (rpc_block b) =? n) (map toy_canonical [0; 1; 2])) 5
    toy_restart_fcs toy_restart (find_l2_head (Z.to_nat 5) 5 0 toy_restart_fcs toy_restart) ∧
  omap_ok (λ f, number (fcs_head f)) (find_l2_head (Z.to_nat 5) 5 0 toy_restart_fcs toy_restart).1 = Ok 2.
Proof.
  split; [|vm_compute; reflexivity].
  apply (find_l2_head_spec _ 5 toy_restart_fcs toy_restart); [done|by split|done|done].
Defined.
