(* ===== verification/Profiler.v ===== *)
(** * The CPU profiler's HTTP server (crates/node/src/pprof.rs)

    The requests the server answers and for how long it profiles.  The HTTP server and the profiler
    are parameters: a request is its method, path and query, and a profile is taken by whatever
    the profiler answers. *)

From Stdlib Require Import Ascii.
From S2P Require Import Prelude Primitives DbModel Sequencer.

Record PprofConfig := mkPprofConfig { addr : string; default_duration : Z }.
Definition PprofConfig_default : PprofConfig := mkPprofConfig "0.0.0.0:6868" 30.
Definition PprofConfig_new (a : string) : PprofConfig := mkPprofConfig a (default_duration PprofConfig_default).
Definition with_default_duration (seconds : Z) (c : PprofConfig) : PprofConfig := mkPprofConfig (addr c) seconds.

Record HttpRequest := mkHttpRequest { req_method : string; req_path : string; req_query : option string }.
Record HttpResponse := mkHttpResponse { status : Z; headers : list (string * string); body : Bytes + string }.

(** The profiler: its start, its report after the sleep, and the encoding of the report. *)
Inductive Report := ReportFailed (e : string) | EncodingFailed (e : string) | Encoded (profile : Bytes).
Record Profiler := mkProfiler { profiler_guard : option string; build_report : Z → Report }.

(** [str::split('&')]. *)
Fixpoint split_amp (s : string) : list string :=
  match s with
  | EmptyString => [EmptyString]
  | String c s =>
      if Ascii.eqb c "&" then EmptyString :: split_amp s
      else match split_amp s with [] => [String c EmptyString] | p :: ps => String c p :: ps end
  end.

(** The duration a query asks for: its first pair [seconds=..] decides, if it is a number. *)
Definition query_seconds (query : option string) : option Z :=
  q ← query; pair ← List.find (λ p, bool_decide (is_Some (strip_prefix "seconds=" p))) (split_amp q);
  s ← strip_prefix "seconds=" pair; parse_u64 s.

(** [handle_cpu_profile]: the response, and the seconds the profiler ran. *)
Definition handle_cpu_profile (p : Profiler) (duration_secs : Z) : HttpResponse * option Z :=
  if (duration_secs =? 0) || (600 <? duration_secs) then
    (mkHttpResponse 400 [] (inr "Invalid duration: must be between 1 and 600 seconds"%string), None)
  else match profiler_guard p with
  | Some e => (mkHttpResponse 500 [] (inr ("Failed to start profiler: " +:+ e)%string), None)
  | None =>
      match build_report p duration_secs with
      | Encoded profile =>
          (mkHttpResponse 200
             [("Content-Type", "application/octet-stream");
              ("Content-Disposition", "attachment; filename=" +:+ String "034" ("profile-" +:+
                 u64_to_string duration_secs +:+ ".pb" +:+ String "034" ""))]%string
             (inl profile), Some duration_secs)
      | EncodingFailed e => (mkHttpResponse 500 [] (inr ("Failed to generate pprof format: " +:+ e)%string), Some duration_secs)
      | ReportFailed e => (mkHttpResponse 500 [] (inr ("Failed to generate report: " +:+ e)%string), Some duration_secs)
      end
  end.

Definition handle_request (p : Profiler) (c : PprofConfig) (r : HttpRequest) : HttpResponse * option Z :=
  if String.eqb (req_method r) "GET" && String.eqb (req_path r) "/debug/pprof/profile" then
    handle_cpu_profile p (default (default_duration c) (query_seconds (req_query r)))
  else (mkHttpResponse 404 [] (inr "Not Found"%string), None).

(** ** Properties *)

Lemma query_seconds_range q n : query_seconds q = Some n → in_u64 n.
Proof.
  unfold query_seconds. intros (q' & _ & (pair & _ & (t & _ & Hn)%bind_Some)%bind_Some)%bind_Some.
  by eapply parse_u64_range.
Qed.

(** The profiler runs only on a request for a profile, and for the time it asks for, which is between
    one second and ten minutes: no request occupies it longer. *)
Theorem profile_bounded p c r resp d :
  in_u64 (default_duration c) → handle_request p c r = (resp, Some d) →
  1 <= d <= 600 ∧ req_path r = "/debug/pprof/profile"%string ∧ d = default (default_duration c) (query_seconds (req_query r)) ∧
  (status resp = 200 ∨ status resp = 500).
Proof.
  intros Hc. unfold handle_request, handle_cpu_profile.
  destruct (_ && _) eqn:Hp; [|done]. apply andb_true_iff in Hp as [_ Hp%String.eqb_eq].
  set (n := default _ _). assert (in_u64 n) as [Hn _].
  { unfold n. destruct (query_seconds _) as [k|] eqn:Hq; [by eapply query_seconds_range|done]. }
  destruct (Z.eqb_spec n 0), (Z.ltb_spec 600 n); simpl; try done.
  destruct (profiler_guard p); [done|]. destruct (build_report p n); intros [= <- <-]; split_and!; auto; lia.
Qed.

Definition minute_request : HttpRequest :=
  mkHttpRequest "GET" "/debug/pprof/profile" (Some "seconds=60"%string).
Definition toy_profiler : Profiler := mkProfiler None (λ _, Encoded [1; 2]).

Lemma profile_bounded_witness :
  (handle_request toy_profiler PprofConfig_default minute_request).2 = Some 60 ∧ 1 <= 60 <= 600.
Proof.
  split; [reflexivity|].
  apply (profile_bounded toy_profiler PprofConfig_default minute_request
    (handle_request toy_profiler PprofConfig_default minute_request).1 60); [done|reflexivity].
Defined.

(** The query the documentation of the server shows. *)
Lemma documented_query : query_seconds (Some "seconds=60"%string) = Some 60.
Proof. reflexivity. Qed.
