(* ===== verification/DebugCommands.v ===== *)
(** * The command language of the debug toolkit (crates/node/src/debug_toolkit/commands.rs)

    The text a developer types is split into words and parsed into a [Command].  Text is ASCII
    here: the white space is that of [char::is_whitespace] below 128 and the lower case that of its
    letters.  The parsers of addresses, amounts and bytes are alloy's, a parameter. *)

From Stdlib Require Import Ascii DecimalString.
From S2P Require Import Prelude Primitives DbModel Sequencer.

(** ** Words: [str::trim], [str::split_whitespace], [str::to_lowercase], [join] *)

Definition is_whitespace (c : ascii) : bool :=
  let n := nat_of_ascii c in (Nat.leb 9 n && Nat.leb n 13) || Nat.eqb n 32.

Fixpoint skip_spaces (s : string) : string :=
  match s with String c t => if is_whitespace c then skip_spaces t else s | EmptyString => s end.
(** What is left of a text without its trailing white space. *)
Fixpoint cut_spaces (s : string) : string :=
  match s with
  | EmptyString => EmptyString
  | String c t =>
      match cut_spaces t with
      | EmptyString => if is_whitespace c then EmptyString else String c EmptyString
      | t => String c t
      end
  end.
Definition trim_input (s : string) : string := cut_spaces (skip_spaces s).

Definition push_word (w : string) (ws : list string) : list string :=
  match w with EmptyString => ws | _ => w :: ws end.
(** The word a text begins with, and the words after it. *)
Fixpoint split_words (s : string) : string * list string :=
  match s with
  | EmptyString => (EmptyString, [])
  | String c s =>
      let (w, ws) := split_words s in
      if is_whitespace c then (EmptyString, push_word w ws) else (String c w, ws)
  end.
Definition split_whitespace (s : string) : list string := let (w, ws) := split_words s in push_word w ws.

Fixpoint to_lowercase (s : string) : string :=
  match s with EmptyString => EmptyString | String c s => String (ascii_lower c) (to_lowercase s) end.

Fixpoint join (ws : list string) : string :=
  match ws with
  | [] => ""
  | [w] => w
  | w :: ws => (w +:+ " " +:+ join ws)%string
  end.

(** ** Commands *)

Inductive BlockArg := BlockArgLatest | BlockArgNumber (n : Z).
Inductive L1Command :=
| L1Status
| L1Sync
| L1Block (n : Z)
| L1Reorg (n : Z)
| L1Messages
| L1Send (to : Address) (value : Z).
Inductive TxCommand :=
| TxSend (to : Address) (value : Z) (from : option Z)
| TxPending
| TxInject (bytes : Bytes).
Inductive PeersCommand := PeersList | PeersConnect (enode : string).
Inductive WalletCommand := WalletInfo | WalletGen.
Inductive EventsCommand := EventsOn | EventsOff | EventsFilter (pattern : option string) | EventsHistory (count : Z).
Inductive AdminCommand := AdminEnableSequencing | AdminDisableSequencing | AdminRevertToL1Block (n : Z).
Inductive RunCommand := RunList | RunExecute (name : string) (args : list string).

Inductive Command :=
| CmdStatus
| CmdSyncStatus
| CmdBlock (arg : BlockArg)
| CmdBlocks (from to : Z)
| CmdFcs
| CmdL1 (c : L1Command)
| CmdBuild
| CmdTx (c : TxCommand)
| CmdWallet (c : WalletCommand)
| CmdPeers (c : PeersCommand)
| CmdEvents (c : EventsCommand)
| CmdRun (c : RunCommand)
| CmdNode (index : Z)
| CmdNodes
| CmdDb
| CmdLogs
| CmdAdmin (c : AdminCommand)
| CmdRpc (method : string) (params : option string)
| CmdHelp
| CmdExit
| CmdUnknown (s : string).

(** [Address::from_str], [U256::from_str] and [Bytes::from_str]. *)
Class CommandParsers := {
  address_from_str : string → option Address;
  u256_from_str : string → option Z;
  bytes_from_str : string → option Bytes
}.

(** ** The parser *)

Section Parse.
Context `{CommandParsers}.
Open Scope string_scope.

Definition first_or (default : string) (args : list string) : string :=
  match args with a :: _ => a | [] => default end.
(** [subargs]: what follows the subcommand. *)
Definition subargs (args : list string) : list string := if Nat.ltb 1 (length args) then drop 1 args else [].

Definition first_u64 (args : list string) : option Z :=
  match args with a :: _ => parse_u64 a | [] => None end.

Definition parse_block (args : list string) : Command :=
  let arg := first_or "latest" args in
  if String.eqb arg "latest" then CmdBlock BlockArgLatest
  else match parse_u64 arg with Some n => CmdBlock (BlockArgNumber n) | None => CmdUnknown ("block " +:+ arg) end.

Definition parse_blocks (args : list string) : Command :=
  match args with
  | from :: to :: _ =>
      match parse_u64 from, parse_u64 to with
      | Some from, Some to => CmdBlocks from to
      | _, _ => CmdUnknown "blocks requires numeric arguments"
      end
  | _ => CmdUnknown "blocks requires <from> <to> arguments"
  end.

Definition parse_l1 (args : list string) : Command :=
  let subcmd := first_or "status" args in
  let subargs := subargs args in
  if String.eqb subcmd "status" then CmdL1 L1Status
  else if String.eqb subcmd "sync" || String.eqb subcmd "synced" then CmdL1 L1Sync
  else if String.eqb subcmd "block" then
    match first_u64 subargs with
    | Some n => CmdL1 (L1Block n)
    | None => CmdUnknown "l1 block requires a block number"
    end
  else if String.eqb subcmd "reorg" then
    match first_u64 subargs with
    | Some n => CmdL1 (L1Reorg n)
    | None => CmdUnknown "l1 reorg requires a block number"
    end
  else if String.eqb subcmd "messages" || String.eqb subcmd "msg" || String.eqb subcmd "queue" then CmdL1 L1Messages
  else if String.eqb subcmd "send" then
    match subargs with
    | to :: value :: _ =>
        match address_from_str to, u256_from_str value with
        | Some to, Some value => CmdL1 (L1Send to value)
        | _, _ => CmdUnknown "l1 send: invalid address or value"
        end
    | _ => CmdUnknown "l1 send requires <to> <value>"
    end
  else CmdUnknown ("l1 " +:+ subcmd).

Definition parse_tx (args : list string) : Command :=
  let subcmd := first_or "pending" args in
  let subargs := subargs args in
  if String.eqb subcmd "pending" then CmdTx TxPending
  else if String.eqb subcmd "send" then
    match subargs with
    | to :: value :: rest =>
        match address_from_str to, u256_from_str value with
        | Some to, Some value => CmdTx (TxSend to value (first_u64 rest))
        | _, _ => CmdUnknown "tx send: invalid address or value"
        end
    | _ => CmdUnknown "tx send requires <to> <value> [wallet_index]"
    end
  else if String.eqb subcmd "inject" then
    match subargs with
    | hex :: _ =>
        match bytes_from_str hex with
        | Some bytes => CmdTx (TxInject bytes)
        | None => CmdUnknown "tx inject: invalid hex data"
        end
    | [] => CmdUnknown "tx inject requires hex data"
    end
  else CmdUnknown ("tx " +:+ subcmd).

Definition parse_wallet (args : list string) : Command :=
  let subcmd := first_or "info" args in
  if String.eqb subcmd "info" || String.eqb subcmd "" then CmdWallet WalletInfo
  else if String.eqb subcmd "gen" || String.eqb subcmd "generate" then CmdWallet WalletGen
  else CmdUnknown "wallet command not recognized".

Definition parse_peers (args : list string) : Command :=
  let subcmd := first_or "list" args in
  if String.eqb subcmd "list" || String.eqb subcmd "" then CmdPeers PeersList
  else if String.eqb subcmd "connect" then
    match subargs args with
    | enode :: _ => CmdPeers (PeersConnect enode)
    | [] => CmdUnknown "peers connect requires enode URL"
    end
  else CmdUnknown "peers command not recognized".

Definition parse_events (args : list string) : Command :=
  let subcmd := first_or "history" args in
  let subargs := subargs args in
  if String.eqb subcmd "on" then CmdEvents EventsOn
  else if String.eqb subcmd "off" then CmdEvents EventsOff
  else if String.eqb subcmd "filter" then CmdEvents (EventsFilter (head subargs))
  else if String.eqb subcmd "history" then CmdEvents (EventsHistory (default 20 (first_u64 subargs)))
  else CmdUnknown "Unknown events command".

Definition parse_node (args : list string) : Command :=
  match first_u64 args with Some n => CmdNode n | None => CmdUnknown "node requires an index" end.

Definition parse_run (args : list string) : Command :=
  match args with
  | [] => CmdRun RunList
  | name :: action_args => if String.eqb name "list" then CmdRun RunList else CmdRun (RunExecute name action_args)
  end.

Definition parse_admin (args : list string) : Command :=
  let subcmd := first_or "help" args in
  if String.eqb subcmd "enable-seq" || String.eqb subcmd "enable-sequencing" then CmdAdmin AdminEnableSequencing
  else if String.eqb subcmd "disable-seq" || String.eqb subcmd "disable-sequencing" then CmdAdmin AdminDisableSequencing
  else if String.eqb subcmd "revert" || String.eqb subcmd "revert-to-l1" then
    match first_u64 (subargs args) with
    | Some n => CmdAdmin (AdminRevertToL1Block n)
    | None => CmdUnknown "admin revert requires a block number"
    end
  else CmdUnknown ("admin " +:+ subcmd).

Definition parse_rpc (args : list string) : Command :=
  match args with
  | [] => CmdUnknown "rpc requires a method name"
  | method :: params => CmdRpc method (if decide (params = []) then None else Some (join params))
  end.

(** The command by its first word, in lower case. *)
Definition parse_words (cmd : string) (args : list string) : Command :=
  if String.eqb cmd "status" then CmdStatus
  else if String.eqb cmd "sync-status" || String.eqb cmd "syncstatus" then CmdSyncStatus
  else if String.eqb cmd "block" then parse_block args
  else if String.eqb cmd "blocks" then parse_blocks args
  else if String.eqb cmd "fcs" || String.eqb cmd "forkchoice" then CmdFcs
  else if String.eqb cmd "l1" then parse_l1 args
  else if String.eqb cmd "build" then CmdBuild
  else if String.eqb cmd "tx" then parse_tx args
  else if String.eqb cmd "wallet" then parse_wallet args
  else if String.eqb cmd "peers" || String.eqb cmd "peer" then parse_peers args
  else if String.eqb cmd "events" || String.eqb cmd "event" then parse_events args
  else if String.eqb cmd "run" then parse_run args
  else if String.eqb cmd "node" then parse_node args
  else if String.eqb cmd "nodes" then CmdNodes
  else if String.eqb cmd "db" || String.eqb cmd "database" then CmdDb
  else if String.eqb cmd "logs" || String.eqb cmd "log" then CmdLogs
  else if String.eqb cmd "admin" then parse_admin args
  else if String.eqb cmd "rpc" then parse_rpc args
  else if String.eqb cmd "help" || String.eqb cmd "?" then CmdHelp
  else if String.eqb cmd "exit" || String.eqb cmd "quit" || String.eqb cmd "q" then CmdExit
  else CmdUnknown cmd.

(** [Command::parse]: indexing the first part would panic if there were none. *)
Definition parse (input : string) : outcome string Command :=
  let input := trim_input input in
  if String.eqb input "" then Ok (CmdUnknown "")
  else match split_whitespace input with
       | cmd :: args => Ok (parse_words (to_lowercase cmd) args)
       | [] => Panic
       end.
End Parse.

(** ** A command as its words *)

(** The text alloy's parsers read back. *)
Class CommandText `{CommandParsers} := {
  address_text : Address → string;
  u256_text : Z → string;
  bytes_text : Bytes → string
}.

Definition is_word (w : string) : bool :=
  negb (String.eqb w "") && forallb (λ c, negb (is_whitespace c)) (String.list_ascii_of_string w).

(** A printer is right on what the parser yields. *)
Definition prints {A} (from_str : string → option A) (text : A → string) : Prop :=
  ∀ s a, from_str s = Some a → is_word (text a) = true ∧ from_str (text a) = Some a.

Class CommandTextOk `{CommandText} : Prop := {
  address_prints : prints address_from_str address_text;
  u256_prints : prints u256_from_str u256_text;
  bytes_prints : prints bytes_from_str bytes_text
}.

Section Render.
Context `{CommandText}.
Open Scope string_scope.

Definition render_words (c : Command) : list string :=
  match c with
  | CmdStatus => ["status"]
  | CmdSyncStatus => ["sync-status"]
  | CmdBlock BlockArgLatest => ["block"; "latest"]
  | CmdBlock (BlockArgNumber n) => ["block"; u64_to_string n]
  | CmdBlocks from to => ["blocks"; u64_to_string from; u64_to_string to]
  | CmdFcs => ["fcs"]
  | CmdL1 L1Status => ["l1"; "status"]
  | CmdL1 L1Sync => ["l1"; "sync"]
  | CmdL1 (L1Block n) => ["l1"; "block"; u64_to_string n]
  | CmdL1 (L1Reorg n) => ["l1"; "reorg"; u64_to_string n]
  | CmdL1 L1Messages => ["l1"; "messages"]
  | CmdL1 (L1Send to value) => ["l1"; "send"; address_text to; u256_text value]
  | CmdBuild => ["build"]
  | CmdTx (TxSend to value from) =>
      ["tx"; "send"; address_text to; u256_text value] ++ map u64_to_string (option_list from)
  | CmdTx TxPending => ["tx"; "pending"]
  | CmdTx (TxInject bytes) => ["tx"; "inject"; bytes_text bytes]
  | CmdWallet WalletInfo => ["wallet"]
  | CmdWallet WalletGen => ["wallet"; "gen"]
  | CmdPeers PeersList => ["peers"]
  | CmdPeers (PeersConnect enode) => ["peers"; "connect"; enode]
  | CmdEvents EventsOn => ["events"; "on"]
  | CmdEvents EventsOff => ["events"; "off"]
  | CmdEvents (EventsFilter pattern) => ["events"; "filter"] ++ option_list pattern
  | CmdEvents (EventsHistory n) => ["events"; "history"; u64_to_string n]
  | CmdRun RunList => ["run"; "list"]
  | CmdRun (RunExecute name args) => "run" :: name :: args
  | CmdNode n => ["node"; u64_to_string n]
  | CmdNodes => ["nodes"]
  | CmdDb => ["db"]
  | CmdLogs => ["logs"]
  | CmdAdmin AdminEnableSequencing => ["admin"; "enable-seq"]
  | CmdAdmin AdminDisableSequencing => ["admin"; "disable-seq"]
  | CmdAdmin (AdminRevertToL1Block n) => ["admin"; "revert"; u64_to_string n]
  | CmdRpc method params => "rpc" :: method :: default [] (split_whitespace <$> params)
  | CmdHelp => ["help"]
  | CmdExit => ["exit"]
  | CmdUnknown _ => []
  end.

End Render.

Section Expressible.
Context `{CommandParsers}.
Open Scope string_scope.

(** The commands a text can express. *)
Definition expressible (c : Command) : Prop :=
  match c with
  | CmdBlock (BlockArgNumber n) | CmdL1 (L1Block n) | CmdL1 (L1Reorg n) | CmdNode n
  | CmdEvents (EventsHistory n) | CmdAdmin (AdminRevertToL1Block n) => in_u64 n
  | CmdBlocks from to => in_u64 from ∧ in_u64 to
  | CmdL1 (L1Send to value) => (∃ s, address_from_str s = Some to) ∧ ∃ s, u256_from_str s = Some value
  | CmdTx (TxSend to value from) =>
      (∃ s, address_from_str s = Some to) ∧ (∃ s, u256_from_str s = Some value) ∧
      Forall in_u64 (option_list from)
  | CmdTx (TxInject bytes) => ∃ s, bytes_from_str s = Some bytes
  | CmdPeers (PeersConnect enode) => is_word enode = true
  | CmdEvents (EventsFilter pattern) => Forall (λ p, is_word p = true) (option_list pattern)
  | CmdRun (RunExecute name args) =>
      name ≠ "list" ∧ is_word name = true ∧ Forall (λ w, is_word w = true) args
  | CmdRpc method params =>
      is_word method = true ∧
      ∀ p, params = Some p → ∃ ws, ws ≠ [] ∧ Forall (λ w, is_word w = true) ws ∧ p = join ws
  | CmdUnknown _ => False
  | _ => True
  end.
End Expressible.

(** ** Properties *)

Notation words := (Forall (λ w, is_word w = true)).

Lemma is_word_cons c w : is_word (String c w) = negb (is_whitespace c) && forallb (λ c, negb (is_whitespace c)) (String.list_ascii_of_string w).
Proof. done. Qed.

(** [split_words] of a text that begins with a word. *)
Lemma split_words_app w s :
  forallb (λ c, negb (is_whitespace c)) (String.list_ascii_of_string w) = true →
  split_words (w +:+ s) = ((w +:+ (split_words s).1)%string, (split_words s).2).
Proof.
  induction w as [|c w IH]; simpl.
  { intros _. change (("" +:+ s)%string) with s. by destruct (split_words s). }
  intros [Hc Hw]%andb_true_iff. rewrite IH by done. by destruct (is_whitespace c).
Qed.

Lemma append_empty (w : string) : (w +:+ "")%string = w.
Proof. induction w as [|c w IH]; [done|]. exact (f_equal (String c) IH). Qed.

Lemma split_join ws : words ws → split_whitespace (join ws) = ws.
Proof.
  induction 1 as [|w ws Hw _ IH]; [done|].
  apply andb_true_iff in Hw as [Hne Hw].
  assert (∀ us, push_word w us = w :: us) as Hp by (by destruct w).
  unfold split_whitespace in *. destruct ws as [|w' ws].
  - pose proof (split_words_app w "" Hw) as Hs. rewrite append_empty in Hs.
    change (join [w]) with w. rewrite Hs. cbn [split_words fst snd]. by rewrite append_empty, Hp.
  - change (join (w :: w' :: ws)) with (w +:+ " " +:+ join (w' :: ws))%string.
    rewrite split_words_app by done.
    change (split_words (" " +:+ join (w' :: ws)))
      with (let (u, us) := split_words (join (w' :: ws)) in (EmptyString, push_word u us)).
    destruct (split_words (join (w' :: ws))) as [u us]. cbn [fst snd]. rewrite append_empty, Hp. by f_equal.
Qed.

Lemma split_words_are_words s :
  forallb (λ c, negb (is_whitespace c)) (String.list_ascii_of_string (split_words s).1) = true ∧
  words (split_words s).2.
Proof.
  induction s as [|c s [IH1 IH2]]; [done|]. simpl. destruct (split_words s) as [w ws]. simpl in *.
  destruct (is_whitespace c) eqn:Hc; simpl; [|by rewrite Hc].
  split; [done|]. destruct w; [done|]. by constructor.
Qed.

Lemma split_whitespace_words s : words (split_whitespace s).
Proof.
  unfold split_whitespace. destruct (split_words_are_words s) as [H1 H2]. destruct (split_words s) as [w ws].
  destruct w; [done|]. by constructor.
Qed.

Lemma split_skip s : split_whitespace (skip_spaces s) = split_whitespace s.
Proof.
  induction s as [|c s IH]; [done|]. simpl. destruct (is_whitespace c) eqn:Hc; [|done].
  rewrite IH. unfold split_whitespace. simpl. destruct (split_words s). by rewrite Hc.
Qed.

Lemma split_cut s : split_words (cut_spaces s) = split_words s.
Proof.
  induction s as [|c s IH]; [done|]. simpl. rewrite <- IH.
  destruct (cut_spaces s) as [|c' s'] eqn:Hs; [|done].
  destruct (is_whitespace c) eqn:Hc; simpl; by rewrite ?Hc.
Qed.

Lemma split_trim s : split_whitespace (trim_input s) = split_whitespace s.
Proof. unfold trim_input, split_whitespace at 1. rewrite split_cut. apply split_skip. Qed.

(** A text without words is blank. *)
Lemma trim_blank s : split_whitespace s = [] → trim_input s = EmptyString.
Proof.
  unfold trim_input. rewrite <- split_skip. intros Hs. enough (skip_spaces s = EmptyString) as -> by done.
  induction s as [|c s IH]; [done|]. simpl in *. destruct (is_whitespace c) eqn:Hc; [by apply IH|].
  unfold split_whitespace in Hs. simpl in Hs. destruct (split_words s). by rewrite Hc in Hs.
Qed.

(** The parser sees only the words of its input, and finds a first part whenever it looks for one. *)
Lemma parse_by_words `{CommandParsers} s :
  parse s = Ok (match split_whitespace s with
                | cmd :: args => parse_words (to_lowercase cmd) args
                | [] => CmdUnknown ""
                end).
Proof.
  unfold parse. rewrite split_trim. destruct (split_whitespace s) as [|cmd args] eqn:Hs.
  - by rewrite trim_blank.
  - destruct (String.eqb_spec (trim_input s) "") as [He|]; [|done].
    rewrite <- split_trim, He in Hs. done.
Qed.

Lemma u64_to_string_word n : is_word (u64_to_string n) = true.
Proof.
  unfold u64_to_string. pose proof (to_uint_nonnil (Z.to_N n)) as Hn.
  assert (∀ d, forallb (λ c, negb (is_whitespace c)) (String.list_ascii_of_string (NilEmpty.string_of_uint d)) = true) as Hd
    by (induction d; simpl; done).
  destruct (N.to_uint (Z.to_N n)); [done|..]; apply Hd.
Qed.

Lemma words_numbers ns : words (map u64_to_string ns).
Proof. induction ns; constructor; [apply u64_to_string_word|done]. Qed.

(** ** The parser's range *)

Section Range.
Context `{CommandParsers}.
(** Whatever a parser yields can be written. *)
Definition readable (c : Command) : Prop := expressible c ∨ ∃ u, c = CmdUnknown u.

Lemma first_u64_range args n : first_u64 args = Some n → in_u64 n.
Proof. destruct args; [done|]. apply parse_u64_range. Qed.

Lemma first_u64_from args : Forall in_u64 (option_list (first_u64 args)).
Proof. destruct (first_u64 args) as [n|] eqn:Hn; [|constructor]. constructor; [|done]. by eapply first_u64_range. Qed.

Lemma words_subargs args : words args → words (subargs args).
Proof. unfold subargs. destruct (Nat.ltb 1 (length args)); [apply Forall_drop|done]. Qed.

Lemma default_count args : in_u64 (default 20 (first_u64 args)).
Proof. destruct (first_u64 args) as [n|] eqn:Hn; [by eapply first_u64_range|]. split; done. Qed.

Ltac readable :=
  repeat match goal with |- readable (match ?x with _ => _ end) => destruct x eqn:? end;
  first [right; by eexists | left; cbn [expressible]; eauto using parse_u64_range, first_u64_range, first_u64_from, default_count].

Lemma parse_l1_readable args : readable (parse_l1 args).
Proof. unfold parse_l1. cbv zeta. readable. Qed.
Lemma parse_tx_readable args : readable (parse_tx args).
Proof. unfold parse_tx. cbv zeta. readable. Qed.
Lemma parse_block_readable args : readable (parse_block args).
Proof. unfold parse_block. cbv zeta. readable. Qed.
Lemma parse_blocks_readable args : readable (parse_blocks args).
Proof. unfold parse_blocks. cbv zeta. readable. Qed.
Lemma parse_wallet_readable args : readable (parse_wallet args).
Proof. unfold parse_wallet. cbv zeta. readable. Qed.
Lemma parse_admin_readable args : readable (parse_admin args).
Proof. unfold parse_admin. cbv zeta. readable. Qed.
Lemma parse_node_readable args : readable (parse_node args).
Proof. unfold parse_node. readable. Qed.

Lemma parse_peers_readable args : words args → readable (parse_peers args).
Proof.
  intros Ha%words_subargs. unfold parse_peers. cbv zeta. readable.
  by inversion Ha.
Qed.
Lemma parse_events_readable args : words args → readable (parse_events args).
Proof.
  intros Ha%words_subargs. unfold parse_events. cbv zeta. readable.
  destruct (subargs args); [constructor|]. inversion Ha; subst. by constructor.
Qed.
Lemma parse_run_readable args : words args → readable (parse_run args).
Proof.
  intros Ha. unfold parse_run. destruct Ha as [|name args Hn Ha]; [by left|].
  destruct (String.eqb_spec name "list"); by left.
Qed.
Lemma parse_rpc_readable args : words args → readable (parse_rpc args).
Proof.
  intros Ha. unfold parse_rpc. destruct Ha as [|m ps Hm Hp]; [right; by eexists|].
  left. cbn [expressible]. split; [done|]. case_decide; [done|]. intros p [= <-]. by exists ps.
Qed.

Lemma parse_words_readable cmd args : words args → readable (parse_words cmd args).
Proof.
  intros Ha. unfold parse_words.
  repeat match goal with |- readable (if ?b then _ else _) => destruct b end;
    first [right; by eexists | by left | auto using parse_l1_readable, parse_tx_readable, parse_block_readable,
      parse_blocks_readable, parse_wallet_readable, parse_admin_readable, parse_node_readable,
      parse_peers_readable, parse_events_readable, parse_run_readable, parse_rpc_readable].
Qed.

Lemma parse_readable s : ∃ c, parse s = Ok c ∧ readable c.
Proof.
  rewrite parse_by_words. eexists. split; [done|].
  pose proof (split_whitespace_words s) as Hs. destruct Hs as [|w args _ Ha]; [right; by eexists|].
  by apply parse_words_readable.
Qed.
End Range.

(** ** Round trip *)

Section RoundTrip.
Context `{CommandTextOk}.

(** What a parsed value prints as. *)
Lemma address_text_ok a : (∃ s, address_from_str s = Some a) →
  is_word (address_text a) = true ∧ address_from_str (address_text a) = Some a.
Proof. intros [s Hs]. by eapply address_prints. Qed.
Lemma u256_text_ok v : (∃ s, u256_from_str s = Some v) →
  is_word (u256_text v) = true ∧ u256_from_str (u256_text v) = Some v.
Proof. intros [s Hs]. by eapply u256_prints. Qed.
Lemma bytes_text_ok b : (∃ s, bytes_from_str s = Some b) →
  is_word (bytes_text b) = true ∧ bytes_from_str (bytes_text b) = Some b.
Proof. intros [s Hs]. by eapply bytes_prints. Qed.

Lemma render_are_words c : expressible c → words (render_words c).
Proof.
  destruct c as [| |[]| | |[]| |[]|[]|[]|[]|[]| | | | |[]|m ps| | |]; cbn [render_words expressible];
    intros Hc; try done;
    repeat (apply Forall_cons; split; [first [reflexivity|apply u64_to_string_word]|]); try done.
  - destruct Hc as [[Ha _]%address_text_ok [Hv _]%u256_text_ok]. by repeat constructor.
  - destruct Hc as [[Ha _]%address_text_ok [[Hv _]%u256_text_ok _]].
    repeat constructor; [done..|]. apply words_numbers.
  - apply bytes_text_ok in Hc as [Hb _]. by repeat constructor.
  - by repeat constructor.
  - destruct Hc as (_ & Hn & Ha). by constructor.
  - destruct Hc as [Hm Hp]. constructor; [done|]. destruct ps as [p|]; [|done]. apply split_whitespace_words.
Qed.

Lemma parse_render_words c :
  expressible c →
  ∃ cmd args, render_words c = cmd :: args ∧ parse_words (to_lowercase cmd) args = c.
Proof.
  destruct c as [|  |[|n]|from to| |[| |n|n| |to v]| |[to v from| |bs]|[]|[|enode]|[| |p|n]|[|name args]|n| | | |
    [| |n]|m ps| | |]; cbn [render_words expressible];
    intros Hc; try done; (do 2 eexists; split; [reflexivity|]); try reflexivity.
  - change (parse_block [u64_to_string n] = CmdBlock (BlockArgNumber n)). unfold parse_block, first_or.
    destruct (String.eqb_spec (u64_to_string n) "latest") as [He|_].
    + pose proof (parse_u64_to_string n Hc) as Hp. by rewrite He in Hp.
    + by rewrite parse_u64_to_string.
  - destruct Hc. change (parse_blocks [u64_to_string from; u64_to_string to] = CmdBlocks from to).
    unfold parse_blocks. by rewrite !parse_u64_to_string.
  - change (match parse_u64 (u64_to_string n) with
            | Some n => CmdL1 (L1Block n) | None => CmdUnknown "l1 block requires a block number" end = CmdL1 (L1Block n)).
    by rewrite parse_u64_to_string.
  - change (match parse_u64 (u64_to_string n) with
            | Some n => CmdL1 (L1Reorg n) | None => CmdUnknown "l1 reorg requires a block number" end = CmdL1 (L1Reorg n)).
    by rewrite parse_u64_to_string.
  - destruct Hc as [[_ Ha]%address_text_ok [_ Hv]%u256_text_ok].
    change (match address_from_str (address_text to), u256_from_str (u256_text v) with
            | Some to, Some v => CmdL1 (L1Send to v)
            | _, _ => CmdUnknown "l1 send: invalid address or value" end = CmdL1 (L1Send to v)).
    by rewrite Ha, Hv.
  - destruct Hc as [[_ Ha]%address_text_ok [[_ Hv]%u256_text_ok Hf]].
    change (match address_from_str (address_text to), u256_from_str (u256_text v) with
            | Some to, Some v => CmdTx (TxSend to v (first_u64 (map u64_to_string (option_list from))))
            | _, _ => CmdUnknown "tx send: invalid address or value" end = CmdTx (TxSend to v from)).
    rewrite Ha, Hv. destruct from as [i|]; [|done]. inversion Hf; subst.
    change (first_u64 (map u64_to_string (option_list (Some i)))) with (parse_u64 (u64_to_string i)).
    by rewrite parse_u64_to_string.
  - apply bytes_text_ok in Hc as [_ Hb].
    change (match bytes_from_str (bytes_text bs) with
            | Some bs => CmdTx (TxInject bs) | None => CmdUnknown "tx inject: invalid hex data" end = CmdTx (TxInject bs)).
    by rewrite Hb.
  - by destruct p.
  - change (CmdEvents (EventsHistory (default 20 (parse_u64 (u64_to_string n)))) = CmdEvents (EventsHistory n)).
    by rewrite parse_u64_to_string.
  - destruct Hc as (Hn & _). change (parse_run (name :: args) = CmdRun (RunExecute name args)). unfold parse_run.
    by destruct (String.eqb_spec name "list").
  - change (match parse_u64 (u64_to_string n) with
            | Some n => CmdNode n | None => CmdUnknown "node requires an index" end = CmdNode n).
    by rewrite parse_u64_to_string.
  - change (match parse_u64 (u64_to_string n) with
            | Some n => CmdAdmin (AdminRevertToL1Block n)
            | None => CmdUnknown "admin revert requires a block number" end = CmdAdmin (AdminRevertToL1Block n)).
    by rewrite parse_u64_to_string.
  - destruct Hc as [_ Hp].
    change (parse_rpc (m :: default [] (split_whitespace <$> ps)) = CmdRpc m ps). unfold parse_rpc.
    destruct ps as [p|]; [|done]. destruct (Hp p eq_refl) as (ws & Hne & Hws & ->). simpl.
    rewrite split_join by done. by rewrite decide_False.
Qed.

(** The command language is unambiguous and complete.  Every text parses, without a panic, to a
    command that can be written or to an unknown one; every command that can be written is the
    parse of its own words; the parse depends only on the words of the text, not on the white
    space around them, nor on the case of the first. *)
Theorem parse_complete :
  (∀ s, ∃ c, parse s = Ok c ∧ readable c) ∧
  (∀ c, expressible c → parse (join (render_words c)) = Ok c) ∧
  (∀ s s' w w' args, split_whitespace s = w :: args → split_whitespace s' = w' :: args →
     to_lowercase w = to_lowercase w' → parse s = parse s').
Proof.
  split_and!.
  - apply parse_readable.
  - intros c Hc. rewrite parse_by_words, split_join by (by apply render_are_words).
    destruct (parse_render_words c Hc) as (cmd & args & -> & Hp). by rewrite Hp.
  - intros s s' w w' args Hs Hs' Hw. by rewrite !parse_by_words, Hs, Hs', Hw.
Qed.
End RoundTrip.
