(* ===== verification/DebugEvents.v ===== *)
(** * The events and the keyboard of the debug toolkit
    (crates/node/src/debug_toolkit/event/stream.rs, repl/terminal.rs)

    The history of the orchestrator's events with its filter and its text, the line editor, and the
    turns of the loop of the REPL that runs a node itself (repl/local.rs).  The regular expressions
    are those of regex-lite and the [Debug] text of hashes and keys is derived: parameters. *)

From Stdlib Require Import Ascii.
From S2P Require Import DebugCommands.
From S2P Require Import Prelude Primitives DbModel DbOps Engine Sequencer Orchestrator.

(** ** Events (event/stream.rs) *)

Definition DEFAULT_HISTORY_CAPACITY : nat := 100.

(** [Regex::new] with [is_match], and the [Debug] text of values that are printed. *)
Class DebugText := {
  regex : string → option (string → bool);
  debug_hash : B256 → string;
  debug_peer : PeerId → string;
  debug_key : L1MessageKey → string
}.

Section Events.
Context `{Chain} `{DebugText}.
Open Scope string_scope.

Record EventStreamState := mkEventStream {
  enabled : bool;
  event_filter : option string;
  history : list (Z * ChainOrchestratorEvent);
  history_capacity : nat;
  event_counter : nat
}.

Definition EventStreamState_new : EventStreamState := mkEventStream false None [] DEFAULT_HISTORY_CAPACITY 0.
Definition stream_enable (s : EventStreamState) : EventStreamState :=
  mkEventStream true (event_filter s) (history s) (history_capacity s) (event_counter s).
Definition stream_disable (s : EventStreamState) : EventStreamState :=
  mkEventStream false (event_filter s) (history s) (history_capacity s) (event_counter s).
Definition set_filter (pattern : option string) (s : EventStreamState) : EventStreamState :=
  mkEventStream (enabled s) pattern (history s) (history_capacity s) (event_counter s).

(** [event_type_name], on the events the orchestrator sends. *)
Definition event_type_name (e : ChainOrchestratorEvent) : string :=
  match e with
  | BlockSequenced _ => "BlockSequenced"
  | ChainConsolidated _ _ => "ChainConsolidated"
  | ChainExtended _ => "ChainExtended"
  | ChainReorged _ => "ChainReorged"
  | L1Synced => "L1Synced"
  | OptimisticSync _ => "OptimisticSync"
  | NewL1Block _ => "NewL1Block"
  | L1MessageCommitted _ => "L1MessageCommitted"
  | L1Reorg _ _ _ _ => "L1Reorg"
  | BatchConsolidated _ => "BatchConsolidated"
  | UnwoundToL1Block _ => "UnwoundToL1Block"
  | BlockConsolidated _ => "BlockConsolidated"
  | BatchReverted _ _ => "BatchReverted"
  | L1BlockFinalized _ _ => "L1BlockFinalized"
  | NewBlockReceived _ => "NewBlockReceived"
  | L1MessageNotFoundInDatabase _ => "L1MessageNotFoundInDatabase"
  | BlockedImportDropped _ => "BlockedImportDropped"
  | BlockFailedConsensusChecks _ _ => "BlockFailedConsensusChecks"
  | BlockAlreadyKnown _ _ => "BlockAlreadyKnown"
  | OldForkReceived _ _ _ => "OldForkReceived"
  | BatchCommitIndexed _ _ => "BatchCommitIndexed"
  | BatchFinalizeIndexed _ _ => "BatchFinalizeIndexed"
  | SignedBlock _ _ => "SignedBlock"
  | L1MessageMismatchEvent _ _ => "L1MessageMismatch"
  | FcsHeadUpdated _ => "FcsHeadUpdated"
  | L2FinalizedBlockReceived _ _ => "L2FinalizedBlockReceived"
  | BlockBuildingSkipped => "BlockBuildingSkipped"
  | Shutdown => "Shutdown"
  end.

(** [{:.8}...]: the first characters of a hash. *)
Definition short (s : string) : string := String.substring 0 8 s +:+ "...".
(** One field or two in braces. *)
Definition fields1 (name f v : string) : string := name +:+ " { " +:+ f +:+ ": " +:+ v +:+ " }".
Definition fields2 (name f v g w : string) : string :=
  name +:+ " { " +:+ f +:+ ": " +:+ v +:+ ", " +:+ g +:+ ": " +:+ w +:+ " }".
Definition len {A} (l : list A) : string := u64_to_string (Z.of_nat (length l)).

Definition format_event_short (e : ChainOrchestratorEvent) : string :=
  match e with
  | BlockSequenced b =>
      fields2 "BlockSequenced" "block" (u64_to_string (h_number (header b))) "hash" (short (debug_hash (block_hash_slow b)))
  | ChainConsolidated from to => fields2 "ChainConsolidated" "from" (u64_to_string from) "to" (u64_to_string to)
  | ChainExtended i => fields1 "ChainExtended" "blocks" (len (ci_chain i))
  | ChainReorged i => fields1 "ChainReorged" "blocks" (len (ci_chain i))
  | L1Synced => "L1Synced"
  | OptimisticSync info => fields1 "OptimisticSync" "block" (u64_to_string (number info))
  | NewL1Block n => fields1 "NewL1Block" "block" (u64_to_string n)
  | L1MessageCommitted index => fields1 "L1MessageCommitted" "queue_index" (u64_to_string index)
  | L1Reorg n _ _ _ => fields1 "L1Reorg" "l1_block" (u64_to_string n)
  | BatchConsolidated o => fields1 "BatchConsolidated" "blocks" (len (blocks o))
  | UnwoundToL1Block n => fields1 "UnwoundToL1Block" "block" (u64_to_string n)
  | BlockConsolidated o =>
      fields1 "BlockConsolidated" "block" (u64_to_string (number (block_info (into_inner o))))
  | BatchReverted b safe =>
      fields2 "BatchReverted" "index" (u64_to_string (b_index b)) "safe" (u64_to_string (number safe))
  | L1BlockFinalized n bs => fields2 "L1BlockFinalized" "block" (u64_to_string n) "batches" (len bs)
  | NewBlockReceived bp =>
      fields2 "NewBlockReceived" "block" (u64_to_string (h_number (header (nb_block bp))))
        "peer" (short (debug_peer (nb_peer_id bp)))
  | L1MessageNotFoundInDatabase key => fields1 "L1MessageNotFoundInDatabase" "key" (debug_key key)
  | BlockedImportDropped h => fields1 "BlockedImportDropped" "hash" (debug_hash h)
  | BlockFailedConsensusChecks h p =>
      fields2 "BlockFailedConsensusChecks" "hash" (short (debug_hash h)) "peer" (short (debug_peer p))
  | BlockAlreadyKnown h p =>
      fields2 "BlockAlreadyKnown" "hash" (short (debug_hash h)) "peer" (short (debug_peer p))
  | OldForkReceived headers p _ =>
      fields2 "OldForkReceived" "headers" (len headers) "peer" (short (debug_peer p))
  | BatchCommitIndexed b n =>
      fields2 "BatchCommitIndexed" "index" (u64_to_string (b_index b)) "l1_block" (u64_to_string n)
  | BatchFinalizeIndexed info bs =>
      fields2 "BatchFinalizeIndexed" "l1_block" (u64_to_string (number info)) "batches" (len bs)
  | SignedBlock b _ =>
      fields2 "SignedBlock" "block" (u64_to_string (h_number (header b))) "hash" (short (debug_hash (block_hash_slow b)))
  | L1MessageMismatchEvent expected actual =>
      fields2 "L1MessageMismatch" "expected" (short (debug_hash expected)) "actual" (short (debug_hash actual))
  | FcsHeadUpdated info => fields1 "FcsHeadUpdated" "block" (u64_to_string (number info))
  | L2FinalizedBlockReceived h p =>
      fields2 "L2FinalizedBlockReceived" "hash" (short (debug_hash h)) "peer" (short (debug_peer p))
  | BlockBuildingSkipped => "BlockBuildingSkipped"
  | Shutdown => "Shutdown"
  end.

(** [str::replace('*', _)]. *)
Fixpoint replace_star (to s : string) : string :=
  match s with
  | EmptyString => EmptyString
  | String c s => if Ascii.eqb c "*" then to +:+ replace_star to s else String c (replace_star to s)
  end.

Definition matches_filter (event_name : string) (s : EventStreamState) : bool :=
  match event_filter s with
  | None => true
  | Some pattern =>
      match regex ("^" +:+ replace_star ".*" pattern +:+ "$") with
      | Some is_match => is_match event_name
      | None => true
      end
  end.

Definition format_event (e : ChainOrchestratorEvent) : string := "  [EVENT] " +:+ format_event_short e.

(** [record_event] at the instant [now]: what is displayed, and the new history. *)
Definition record_event (now : Z) (e : ChainOrchestratorEvent) (s : EventStreamState) :
    option string * EventStreamState :=
  let kept := if Nat.leb (history_capacity s) (length (history s)) then tl (history s) else history s in
  let s := mkEventStream (enabled s) (event_filter s) (kept ++ [(now, e)]) (history_capacity s) (S (event_counter s)) in
  (if enabled s && matches_filter (event_type_name e) s then Some (format_event e) else None, s).

(** [get_history]: the ages saturate at zero. *)
Definition get_history (now : Z) (count : nat) (s : EventStreamState) : list (Z * ChainOrchestratorEvent) :=
  rev (map (λ '(t, e), (saturating_sub now t, e)) (take count (rev (history s)))).

Definition total_events (s : EventStreamState) : nat := event_counter s.

(** The operations of a stream, and a session of them. *)
Inductive StreamOp := OpRecord (now : Z) (e : ChainOrchestratorEvent) | OpEnable | OpDisable | OpFilter (pattern : option string).

Definition stream_op (o : StreamOp) (s : EventStreamState) : EventStreamState :=
  match o with
  | OpRecord now e => (record_event now e s).2
  | OpEnable => stream_enable s
  | OpDisable => stream_disable s
  | OpFilter pattern => set_filter pattern s
  end.
Definition recorded (o : StreamOp) : option (Z * ChainOrchestratorEvent) :=
  match o with OpRecord now e => Some (now, e) | _ => None end.

(** ** Properties *)

Close Scope string_scope.

(** The last [n] elements. *)
Definition last_n {A} (n : nat) (l : list A) : list A := drop (length l - n) l.

Lemma last_n_snoc {A} n (l : list A) x : (0 < n)%nat → last_n n (l ++ [x]) = last_n (n - 1) l ++ [x].
Proof.
  intros Hn. unfold last_n. rewrite length_app. simpl.
  replace (length l + 1 - n)%nat with (length l - (n - 1))%nat by lia. by rewrite drop_app_le by lia.
Qed.

Lemma last_n_shrink {A} n (l : list A) :
  (0 < n)%nat → (if Nat.leb n (length (last_n n l)) then tl (last_n n l) else last_n n l) = last_n (n - 1) l.
Proof.
  intros Hn. unfold last_n. rewrite length_drop. destruct (Nat.leb_spec n (length l - (length l - n))).
  - change (tl (drop (length l - n) l)) with (drop 1 (drop (length l - n) l)). rewrite drop_drop. f_equal. lia.
  - by replace (length l - n)%nat with (length l - (n - 1))%nat by lia.
Qed.

Lemma last_n_last_n {A} n m (l : list A) : last_n n (last_n m l) = last_n (Nat.min n m) l.
Proof. unfold last_n. rewrite length_drop, drop_drop. f_equal. lia. Qed.

Lemma rev_take_rev {A} n (l : list A) : rev (take n (rev l)) = last_n n l.
Proof. rewrite firstn_rev. apply rev_involutive. Qed.

Lemma history_inv ops s :
  (0 < history_capacity s)%nat → history s = last_n (history_capacity s) (history s) →
  let s' := foldl (λ s o, stream_op o s) s ops in
  history_capacity s' = history_capacity s ∧
  ∃ l, l = history s ++ omap recorded ops ∧ history s' = last_n (history_capacity s) l ∧
    event_counter s' = (event_counter s + length (omap recorded ops))%nat.
Proof.
  intros Hc Hs. induction ops as [|o ops IH] using rev_ind; cbv zeta in *.
  - simpl. split; [done|]. eexists. split; [done|]. rewrite app_nil_r, Nat.add_0_r. done.
  - rewrite foldl_snoc, omap_app, app_assoc, length_app.
    destruct IH as (Hcap & l & -> & Hh & Hn). set (s1 := foldl _ s ops) in *.
    destruct o as [now e| | |p]; simpl; try (split; [done|]; eexists; split; [done|]; rewrite app_nil_r; split; [done|lia]).
    split; [done|]. eexists. split; [done|]. split; [|lia].
    rewrite last_n_snoc by done. f_equal. rewrite Hcap, Hh. by apply last_n_shrink.
Qed.

(** The history of the toolkit holds, whatever is switched or filtered meanwhile, the last 100
    events in the order they came, and the counter all of them; [events history n] lists the last
    [n] of those. *)
Theorem history_is_recent ops now count :
  let s := foldl (λ s o, stream_op o s) EventStreamState_new ops in
  let events := omap recorded ops in
  history s = last_n DEFAULT_HISTORY_CAPACITY events ∧ total_events s = length events ∧
  map snd (get_history now count s) = map snd (last_n (Nat.min count DEFAULT_HISTORY_CAPACITY) events).
Proof.
  intros s events.
  destruct (history_inv ops EventStreamState_new) as (_ & l & -> & Hh & Hn); [by apply Nat.ltb_lt|done|].
  fold s in Hh, Hn. fold events in Hh, Hn. simpl in Hh, Hn. split_and!; [done|done|].
  unfold get_history. rewrite <- map_rev, map_map, (map_ext _ snd) by (by intros []).
  by rewrite rev_take_rev, Hh, last_n_last_n.
Qed.
End Events.

(** ** The keyboard (repl/terminal.rs) *)

Inductive Key := KeyEnter | KeyBackspace | KeyChar (c : ascii) (control : bool) | KeyEsc | KeyOther.
Inductive InputAction := ActionCommand (line : string) | ActionQuit | ActionNone.

Fixpoint pop_char (s : string) : string :=
  match s with
  | EmptyString | String _ EmptyString => EmptyString
  | String c s => String c (pop_char s)
  end.

(** [poll_keyboard] on the pending keys: the action, the keys left and the buffer. *)
Fixpoint poll_keyboard (keys : list Key) (input_buffer : string) : InputAction * list Key * string :=
  match keys with
  | [] => (ActionNone, [], input_buffer)
  | KeyEnter :: keys =>
      let line := trim_input input_buffer in
      if String.eqb line "" then poll_keyboard keys "" else (ActionCommand line, keys, "")
  | KeyBackspace :: keys => poll_keyboard keys (pop_char input_buffer)
  | KeyChar c control :: keys =>
      if control && Ascii.eqb c "c" then poll_keyboard keys input_buffer
      else if control && Ascii.eqb c "d" then (ActionQuit, keys, input_buffer)
      else poll_keyboard keys (input_buffer +:+ String c "")
  | KeyEsc :: keys => poll_keyboard keys ""
  | KeyOther :: keys => poll_keyboard keys input_buffer
  end.

Definition type_text (s : string) : list Key := map (λ c, KeyChar c false) (String.list_ascii_of_string s).

Lemma append_assoc (a b c : string) : ((a +:+ b) +:+ c = a +:+ (b +:+ c))%string.
Proof. induction a as [|x a IH]; [done|]. exact (f_equal (String x) IH). Qed.

Lemma append_nil (a : string) : (a +:+ "" = a)%string.
Proof. induction a as [|x a IH]; [done|]. exact (f_equal (String x) IH). Qed.

Lemma poll_typed s keys buffer :
  poll_keyboard (type_text s ++ keys) buffer = poll_keyboard keys (buffer +:+ s)%string.
Proof.
  revert buffer. induction s as [|c s IH]; intros buffer; simpl; [by rewrite append_nil|].
  rewrite IH. f_equal. apply append_assoc.
Qed.

(** A line that is typed and entered is the command; a blank one is passed over. *)
Lemma typed_line s keys :
  poll_keyboard (KeyEsc :: type_text s ++ KeyEnter :: keys) "" =
    if String.eqb (trim_input s) "" then poll_keyboard keys "" else (ActionCommand (trim_input s), keys, ""%string).
Proof. simpl. rewrite poll_typed. reflexivity. Qed.

(** ** The loop of the REPL that runs its node (repl/local.rs) *)

Section LocalLoop.
Context `{Chain} `{DebugText}.

(** What the node's event stream yields within the 50 ms of a turn: an event, its end, or nothing. *)
Inductive NodePoll := StreamItem (now : Z) (e : ChainOrchestratorEvent) | StreamEnded | StreamPending.

Record DebugRepl := mkRepl {
  running : bool;
  input_buffer : string;
  event_stream : EventStreamState;
  keys : list Key;
  executed : list string
}.

(** One turn of [run]: events come first; the keyboard is read when there was none. *)
Definition repl_turn (p : NodePoll) (s : DebugRepl) : DebugRepl :=
  if running s then
    match p with
    | StreamItem now e =>
        mkRepl true (input_buffer s) (record_event now e (event_stream s)).2 (keys s) (executed s)
    | StreamEnded => s
    | StreamPending =>
        let '(action, rest, buffer) := poll_keyboard (keys s) (input_buffer s) in
        match action with
        | ActionCommand line => mkRepl true buffer (event_stream s) rest (executed s ++ [line])
        | ActionQuit => mkRepl false buffer (event_stream s) rest (executed s)
        | ActionNone => mkRepl true buffer (event_stream s) rest (executed s)
        end
    end
  else s.

(** Once the orchestrator has stopped, its event stream has ended, which every poll of it reports
    at once: the loop goes on without reading the keyboard again, and cannot be left. *)
Lemma ended_stream_ignores_keyboard n s typed :
  running s = true →
  foldl (λ s p, repl_turn p s) (mkRepl (running s) (input_buffer s) (event_stream s) typed (executed s))
    (replicate n StreamEnded) =
  mkRepl true (input_buffer s) (event_stream s) typed (executed s).
Proof. intros ->. induction n as [|n IH]; [done|]. exact IH. Qed.
End LocalLoop.
