(* ===== verification/DebugAttach.v ===== *)
(** * The REPL that attaches to a running node (crates/node/src/debug_toolkit/repl/attach.rs)

    A line is parsed and turned into JSON-RPC requests to the node, whose answers are shown.  The
    transport, the local signer and serde's readers are parameters; the requests are recorded, and
    what is shown is data instead of coloured text. *)

From Stdlib Require Import Ascii.
From S2P Require Import Prelude DebugCommands.
From S2P Require Import Primitives DbModel Engine Migration Orchestrator Config RpcServer DebugEvents.

(** ** The transport *)

(** A request with its answer, or the text of its failure. *)
Class JsonRpc (W : Type) := json_rpc : string → Json → W → outcome string Json * W.
(** alloy's [Provider::get_block_number] and [get_block]: the number, hash and size of a block. *)
Class HeadProvider (W : Type) := {
  get_block_number : W → outcome string Z * W;
  get_block : Z → W → outcome string (option (Z * B256 * nat)) * W
}.

Record TxEip1559 := mkTx {
  tx_chain_id : Z;
  tx_nonce : Z;
  tx_gas_limit : Z;
  tx_max_fee_per_gas : Z;
  tx_max_priority_fee_per_gas : Z;
  tx_to : Address;
  tx_value : Z
}.

(** serde's readers and writers, hexadecimal text of an address and of bytes, and the signer, known by its address, which
    yields the signed transaction's bytes. *)
Class AttachBackends `{Chain} := {
  status_of_json : Json → outcome string ChainOrchestratorStatus;
  json_from_str : string → option Json;
  address_lower_hex : Address → string;
  encode_prefixed : Bytes → string;
  sign_transaction : Address → TxEip1559 → outcome string Bytes
}.

(** What the terminal shows. *)
Inductive Shown `{Chain} :=
| ShowNodeStatus (s : ChainOrchestratorStatus)
| ShowSyncStatus (s : ChainOrchestratorStatus)
| ShowForkchoice (s : ChainOrchestratorStatus)
| ShowL1Status (s : ChainOrchestratorStatus)
| ShowBlock (b : Json)
| ShowBlockRow (n : Z) (b : option Json)
| ShowJson (j : Json)
| ShowText (s : string)
| ShowTxSent (hash : Json) (from to : Address) (value : Z)
| ShowNewBlock (n : Z) (h : B256) (txs : nat)
| ShowError (e : string)
| ShowHelp.

Create HintDb asks discriminated.

Section Attach.
Context `{Chain} `{!AttachBackends} `{!JsonRpc W} `{!HeadProvider W} `{CommandParsers} `{HashText}.

Record AttachRepl := mkAttach {
  signer : option Address;
  running : bool;
  events_enabled : bool;
  last_seen_block : Z;
  log_path : option string;
  asked : list (string * Json);
  shown : list Shown;
  remote : W
}.

Definition Attached := M AttachRepl string.

(** [AttachRepl::new], on the connection or its error, with the reader of a private key. *)
Definition AttachRepl_new (trim_0x : string → string) (parse_key : string → outcome string Address)
    (connection : outcome string W) (private_key : option string) : outcome string AttachRepl :=
  obind connection (λ w,
  obind (match private_key with
         | Some pk => omap_ok Some (omap_err (λ e, "Invalid private key: " +:+ e)%string (parse_key (trim_0x pk)))
         | None => Ok None
         end) (λ signer,
  let (r, w) := get_block_number w in
  let last_seen_block := match r with Ok n => n | _ => 0 end in
  Ok (mkAttach signer false false last_seen_block None [] [] w))).

Definition set_running (b : bool) (s : AttachRepl) : AttachRepl :=
  mkAttach (signer s) b (events_enabled s) (last_seen_block s) (log_path s) (asked s) (shown s) (remote s).
Definition set_events_enabled (b : bool) (s : AttachRepl) : AttachRepl :=
  mkAttach (signer s) (running s) b (last_seen_block s) (log_path s) (asked s) (shown s) (remote s).
Definition set_last_seen_block (n : Z) (s : AttachRepl) : AttachRepl :=
  mkAttach (signer s) (running s) (events_enabled s) n (log_path s) (asked s) (shown s) (remote s).
Definition set_shown (l : list Shown) (s : AttachRepl) : AttachRepl :=
  mkAttach (signer s) (running s) (events_enabled s) (last_seen_block s) (log_path s) (asked s) l (remote s).
Definition set_remote (w : W) (s : AttachRepl) : AttachRepl :=
  mkAttach (signer s) (running s) (events_enabled s) (last_seen_block s) (log_path s) (asked s) (shown s) w.
Definition set_asked (l : list (string * Json)) (s : AttachRepl) : AttachRepl :=
  mkAttach (signer s) (running s) (events_enabled s) (last_seen_block s) (log_path s) l (shown s) (remote s).

Definition show (x : Shown) : Attached unit := modify (λ s, set_shown (shown s ++ [x]) s).
Definition say (s : string) : Attached unit := show (ShowText s).

(** The transport's answer, with the method in front of its failure. *)
Definition node_request (method : string) (params : Json) : Attached Json := λ s,
  let (r, w) := json_rpc method params (remote s) in
  (omap_err (λ e, method +:+ ": " +:+ e)%string r,
   set_remote w (set_asked (asked s ++ [(method, params)]) s)).

(** [raw_typed] (shared/rpc.rs), with the reader of the answer. *)
Definition raw {T} (read : Json → outcome string T) (method : string) (params : Json) : Attached T :=
  let* j := node_request method params in
  lift (omap_err (λ e, "Failed to deserialize response from " +:+ method +:+ ": " +:+ e)%string (read j)).

Definition read_value (j : Json) : outcome string Json := Ok j.
Definition read_option (j : Json) : outcome string (option Json) :=
  Ok (match j with JNull => None | j => Some j end).
Definition read_bool (j : Json) : outcome string bool :=
  match j with JBool b => Ok b | _ => Err "invalid type: expected a boolean"%string end.

(** [raw_value]: parameters that are not JSON are a string, and one that is no array is wrapped. *)
Definition raw_params (params : option string) : Json :=
  match params with
  | None => JNull
  | Some p =>
      match default (JString p) (json_from_str p) with JArray l => JArray l | value => JArray [value] end
  end.
Definition raw_value (method : string) (params : option string) : Attached Json := node_request method (raw_params params).

(** ** The commands *)

Open Scope string_scope.

Definition read_status : Attached ChainOrchestratorStatus := raw status_of_json "rollupNode_status" JNull.
Definition cmd_status : Attached unit := let* s := read_status in show (ShowNodeStatus s).
Definition cmd_sync_status : Attached unit := let* s := read_status in show (ShowSyncStatus s).
Definition cmd_fcs : Attached unit := let* s := read_status in show (ShowForkchoice s).

(** A block number or tag as JSON. *)
Definition block_tag (arg : BlockArg) : Json :=
  match arg with BlockArgLatest => JString "latest" | BlockArgNumber n => JString ("0x" +:+ u64_to_hex n) end.

Definition cmd_block (arg : BlockArg) : Attached unit :=
  let* block := raw read_option "eth_getBlockByNumber" (JArray [block_tag arg; JBool false]) in
  let* block := lift (ok_or "Block not found" block) in
  show (ShowBlock block).

Definition cmd_blocks (from to : Z) : Attached unit :=
  for_each (λ n,
    let* block := raw read_option "eth_getBlockByNumber" (JArray [block_tag (BlockArgNumber n); JBool false]) in
    show (ShowBlockRow n block)) (range_inclusive from to).

Definition cmd_l1 (c : L1Command) : Attached unit :=
  match c with
  | L1Status => let* s := read_status in show (ShowL1Status s)
  | L1Messages =>
      let* msg := raw read_option "rollupNode_getL1MessageByIndex" (JArray [JNumber 0]) in
      match msg with Some m => show (ShowJson m) | None => say "No message at index 0" end ;;;
      say "Hint: use 'rpc rollupNode_getL1MessageByIndex [<index>]' for specific indices"
  | L1Sync | DebugCommands.L1Block _ | DebugCommands.L1Reorg _ => say "l1 sync/block/reorg are only available in spawn mode (mock L1)."
  | L1Send _ _ => say "l1 send is only available in spawn mode. Use cast or a wallet to bridge."
  end.

(** [trim_start_matches("0x")]. *)
Fixpoint trim_0x (s : string) : string :=
  match s with String "0"%char (String "x"%char s) => trim_0x s | s => s end.
Definition hex_str (s : string) : option Z := parse_hex_u64 (trim_0x s).
(** A quantity with its default for what is no string, and for what is no number. *)
Definition quantity (absent : string) (invalid : Z) (j : Json) : Z :=
  default invalid (hex_str (default absent (as_str j))).

Definition max_priority_fee (base_fee : Z) : Z := Z.max (base_fee / 2) 1.
Definition max_fee (base_fee : Z) : Z := Z.max (base_fee * 2) (max_priority_fee base_fee).

Definition base_fee_of (latest : Json) : Z :=
  default 1000000000%Z (j ← json_get "baseFeePerGas" latest; s ← as_str j; hex_str s).

(** The estimate with its buffer. *)
Definition buffered_gas (v : Json) : Z :=
  match as_str v with
  | Some t =>
      match hex_str t with
      | Some g => let g := (saturating_mul g 12 / 10)%Z in if (0 <? g)%Z then g else 21000%Z
      | None => 21000%Z
      end
  | None => 21000%Z
  end.

Definition estimate_gas (from to : Address) (value : Z) : Attached Z :=
  let* v := try (raw read_value "eth_estimateGas"
    (JArray [JObject [("from", JString (address_lower_hex from)); ("to", JString (address_lower_hex to));
                      ("value", JString ("0x" +:+ u64_to_hex value))]])) in
  match v with
  | inl v => ret (buffered_gas v)
  | inr e => say ("Warning: eth_estimateGas failed (" +:+ e +:+ "), falling back to 21000") ;;; ret 21000%Z
  end.

Definition build_tx (from to : Address) (value : Z) : Attached TxEip1559 :=
  let* chain_id := raw read_value "eth_chainId" JNull in
  let* nonce := raw read_value "eth_getTransactionCount" (JArray [JString (address_lower_hex from); JString "latest"]) in
  let* latest := raw read_value "eth_getBlockByNumber" (JArray [JString "latest"; JBool false]) in
  let base_fee := base_fee_of latest in
  let* gas_limit := estimate_gas from to value in
  ret (mkTx (quantity "0x1" 1 chain_id) (quantity "0x0" 0 nonce) gas_limit (max_fee base_fee)
         (max_priority_fee base_fee) to value).

Definition cmd_tx (c : TxCommand) : Attached unit :=
  match c with
  | TxPending => let* result := raw read_value "txpool_content" JNull in show (ShowJson result)
  | TxSend to value _ =>
      let* signer := gets signer in
      let* from := lift (ok_or "No signer configured. Start with --private-key <hex>." signer) in
      let* tx := build_tx from to value in
      let* raw_tx := lift (sign_transaction from tx) in
      let* hash := raw read_value "eth_sendRawTransaction" (JArray [JString (encode_prefixed raw_tx)]) in
      show (ShowTxSent hash from to value)
  | TxInject bytes =>
      let* hash := raw read_value "eth_sendRawTransaction" (JArray [JString (encode_prefixed bytes)]) in
      say "Transaction injected!" ;;; show (ShowJson hash)
  end.

Definition cmd_peers (c : PeersCommand) : Attached unit :=
  match c with
  | PeersList =>
      let* peers := raw read_value "admin_peers" JNull in
      show (ShowJson peers) ;;;
      let* node_info := raw read_value "admin_nodeInfo" JNull in
      show (ShowJson node_info)
  | PeersConnect enode_url =>
      let* result := raw read_bool "admin_addPeer" (JArray [JString enode_url]) in
      say (if result : bool then "Peer add request sent: " +:+ enode_url else "admin_addPeer returned false")
  end.

Definition cmd_events (c : EventsCommand) : Attached unit :=
  match c with
  | EventsOn => modify (set_events_enabled true) ;;; say "Head-block polling enabled (2s interval)"
  | EventsOff => modify (set_events_enabled false) ;;; say "Head-block polling disabled"
  | EventsFilter _ | EventsHistory _ => say "events filter/history are only available in spawn mode."
  end.

Definition cmd_admin (c : AdminCommand) : Attached unit :=
  match c with
  | AdminEnableSequencing =>
      let* result := raw read_bool "rollupNodeAdmin_enableAutomaticSequencing" JNull in
      say (if result : bool then "Automatic sequencing enabled" else "Enable sequencing returned false")
  | AdminDisableSequencing =>
      let* result := raw read_bool "rollupNodeAdmin_disableAutomaticSequencing" JNull in
      say (if result : bool then "Automatic sequencing disabled" else "Disable sequencing returned false")
  | AdminRevertToL1Block n =>
      say ("Reverting to L1 block " +:+ u64_to_string n +:+ "...") ;;;
      let* result := raw read_bool "rollupNodeAdmin_revertToL1Block" (JArray [JNumber n]) in
      say (if result : bool then "Reverted to L1 block " +:+ u64_to_string n else "Revert returned false")
  end.

Definition cmd_rpc (method : string) (params : option string) : Attached unit :=
  let* value := raw_value method params in show (ShowJson value).

Definition cmd_logs : Attached unit :=
  let* path := gets log_path in
  say (match path with Some path => "  Path: " +:+ path | None => "No log file configured (logs going to stdout)" end).

(** [execute_command], on the parsed line. *)
Definition run_command (c : Command) : Attached unit :=
  match c with
  | CmdStatus => cmd_status
  | CmdSyncStatus => cmd_sync_status
  | CmdBlock arg => cmd_block arg
  | CmdBlocks from to => cmd_blocks from to
  | CmdFcs => cmd_fcs
  | CmdL1 c => cmd_l1 c
  | CmdTx c => cmd_tx c
  | CmdPeers c => cmd_peers c
  | CmdEvents c => cmd_events c
  | CmdAdmin c => cmd_admin c
  | CmdRpc method params => cmd_rpc method params
  | CmdLogs => cmd_logs
  | CmdHelp => show ShowHelp
  | CmdExit => modify (set_running false)
  | CmdBuild => say "build is only available in spawn mode (--chain / --sequencer)."
  | CmdWallet _ => say "wallet gen is only available in spawn mode. Use --private-key to set a signer."
  | CmdRun _ => say "run actions are only available in spawn mode."
  | CmdNode _ | CmdNodes => say "node switching is only available in spawn mode (multiple nodes)."
  | CmdDb => say "db path is only available in spawn mode."
  | CmdUnknown u =>
      if String.eqb u "" then ret tt
      else say ("Unknown command: " +:+ u +:+ ". Type 'help' for available commands.")
  end.

Definition execute_command (input : string) : Attached unit :=
  let* c := lift (parse input) in run_command c.

(** ** The loop *)

(** A tick of the head-block polling: the new blocks that can be read are shown. *)
Definition show_block (n : Z) : Attached unit := λ s,
  let (r, w) := get_block n (remote s) in
  match r with
  | Ok (Some (k, h, txs)) => show (ShowNewBlock k h txs) (set_remote w s)
  | _ => (Ok tt, set_remote w s)
  end.
Definition head_tick : Attached unit := λ s,
  let (r, w) := get_block_number (remote s) in
  match r with
  | Ok number =>
      if (last_seen_block s <? number)%Z
      then (for_each show_block (range_inclusive (last_seen_block s + 1) number) ;;;
            modify (set_last_seen_block number)) (set_remote w s)
      else (Ok tt, set_remote w s)
  | _ => (Ok tt, set_remote w s)
  end.

(** A tick of the keyboard, with the action it polled. *)
Definition input_tick (action : InputAction) : Attached unit :=
  match action with
  | ActionCommand line =>
      let* r := try (execute_command line) in
      match r with inl _ => ret tt | inr e => show (ShowError e) end
  | ActionQuit => modify (set_running false)
  | ActionNone => ret tt
  end.

Inductive AttachTick := HeadTick | InputTick (action : InputAction).
(** One turn of [run]. *)
Definition attach_turn (t : AttachTick) : Attached unit :=
  let* running := gets running in
  if running : bool then
    match t with
    | HeadTick => let* on := gets events_enabled in if on : bool then head_tick else ret tt
    | InputTick action => input_tick action
    end
  else ret tt.

Close Scope string_scope.

(** ** Properties *)

(** The methods of the node a command is for. *)
Definition intended (c : Command) : list RpcMethod :=
  match c with
  | CmdStatus | CmdSyncStatus | CmdFcs | CmdL1 L1Status => [RpcStatus]
  | CmdL1 L1Messages => [RpcGetL1MessageByIndex 0]
  | CmdAdmin AdminEnableSequencing => [RpcEnableAutomaticSequencing]
  | CmdAdmin AdminDisableSequencing => [RpcDisableAutomaticSequencing]
  | CmdAdmin (AdminRevertToL1Block n) => [RpcRevertToL1Block n]
  | _ => []
  end.
Definition is_raw (c : Command) : bool := match c with CmdRpc _ _ => true | _ => false end.

Definition received (call : string * Json) : option RpcMethod := rpc_request call.1 call.2.

(** What a computation asks of the node's own namespaces. *)
Definition asks (ms : list RpcMethod) {T} (m : Attached T) : Prop :=
  ∀ s, ∃ calls, asked (m s).2 = asked s ++ calls ∧ omap received calls = ms.

Lemma asks_same {T} (m : Attached T) : (∀ s, asked (m s).2 = asked s) → asks [] m.
Proof. intros Hm s. exists []. by rewrite Hm, app_nil_r. Qed.
Lemma asks_ret {T} (x : T) : asks [] (ret x).
Proof. by apply asks_same. Qed.
Lemma asks_lift {T} (o : outcome string T) : asks [] (lift o).
Proof. by apply asks_same. Qed.
Lemma asks_gets {T} (f : AttachRepl → T) : asks [] (gets f).
Proof. by apply asks_same. Qed.
Lemma asks_show x : asks [] (show x).
Proof. by apply asks_same. Qed.
Lemma asks_request name params m : received (name, params) = m → asks (option_list m) (node_request name params).
Proof.
  intros Hm s. exists [(name, params)]. unfold node_request. destruct (json_rpc _ _ _) as [r w]. simpl.
  split; [done|]. rewrite Hm. by destruct m.
Qed.
(** The first request is asked; what follows asks nothing more of the node. *)
Lemma asks_then {T U} ms (m : Attached T) (k : T → Attached U) : asks ms m → (∀ x, asks [] (k x)) → asks ms (bind m k).
Proof.
  intros Hm Hk s. destruct (Hm s) as (calls & Ha & Hc). unfold bind.
  destruct (m s) as [[x|e|] s1]; simpl in *; [|eauto..].
  destruct (Hk x s1) as (calls' & Ha' & Hc'). exists (calls ++ calls').
  by rewrite Ha', Ha, omap_app, Hc, Hc', app_nil_r, app_assoc.
Qed.
Lemma asks_try {T} ms (m : Attached T) : asks ms m → asks ms (try m : Attached (T + string)).
Proof. intros Hm s. destruct (Hm s) as (calls & Ha & Hc). exists calls. unfold try. by destruct (m s) as [[]]. Qed.
Lemma asks_for_each {X} (f : X → Attached unit) l : (∀ x, asks [] (f x)) → asks [] (for_each f l).
Proof. intros Hf. induction l as [|x l IH]; simpl; [apply asks_ret|]. by apply asks_then. Qed.
Lemma asks_raw {T} (read : Json → outcome string T) name params m :
  received (name, params) = m → asks (option_list m) (raw read name params).
Proof. intros Hm. apply asks_then; [by apply asks_request|]. intros j. apply asks_lift. Qed.
Lemma asks_other {T} (read : Json → outcome string T) name params :
  received (name, params) = None → asks [] (raw read name params).
Proof. apply (asks_raw read name params None). Qed.

Hint Resolve asks_ret asks_lift asks_gets asks_show asks_try asks_then asks_for_each asks_other : asks.
Hint Extern 1 (received _ = None) => reflexivity : asks.
Ltac asks := repeat first
  [ progress eauto with asks
  | apply asks_then; [|intros ?]
  | match goal with |- asks _ (match ?x with _ => _ end) => destruct x end ].

Lemma asks_if {T} ms (b : bool) (m m' : Attached T) : asks ms m → asks ms m' → asks ms (if b then m else m').
Proof. by destruct b. Qed.

Lemma asks_show_then {T} ms x (k : Attached T) : asks ms k → asks ms (show x ;;; k).
Proof. intros Hk s. destruct (Hk (set_shown (shown s ++ [x]) s)) as (calls & Ha & Hc). by exists calls. Qed.
Lemma asks_modify (f : AttachRepl → AttachRepl) : (∀ s, asked (f s) = asked s) → asks [] (modify f).
Proof. intros Hf. apply asks_same. exact Hf. Qed.
Hint Resolve asks_modify : asks.

Lemma revert_received n :
  in_u64 n → received ("rollupNodeAdmin_revertToL1Block"%string, JArray [JNumber n]) = Some (RpcRevertToL1Block n).
Proof. intros Hn. unfold received. cbn -[as_u64_json]. by rewrite as_u64_number. Qed.

Lemma estimate_gas_asks from to value : asks [] (estimate_gas from to value).
Proof. unfold estimate_gas. apply asks_then; [by apply asks_try, asks_other|]. intros [v|e]; asks. Qed.
Lemma build_tx_asks from to value : asks [] (build_tx from to value).
Proof. pose proof (estimate_gas_asks from to value). unfold build_tx. asks. Qed.
Lemma read_status_asks : asks [RpcStatus] read_status.
Proof. by apply (asks_raw _ _ _ (Some RpcStatus)). Qed.

Lemma run_command_asks c : expressible c → is_raw c = false → asks (intended c) (run_command c).
Proof.
  pose proof read_status_asks as Hst. pose proof build_tx_asks as Htx.
  destruct c as [| | | | |[| |n|n| |to v]| |[to v from| |bs]|[]|[|enode]|[| |p|n]|[|name args]|n| | | |
    [| |n]|m ps| | |]; cbn [expressible is_raw run_command intended]; intros Hc Hr; try done;
    unfold cmd_status, cmd_sync_status, cmd_fcs, cmd_block, cmd_blocks, cmd_l1, cmd_tx, cmd_peers, cmd_events,
      cmd_admin, cmd_logs, say; try (asks; done).
  - apply asks_then; [|intros ?; asks]. by apply (asks_raw _ _ _ (Some (RpcGetL1MessageByIndex 0))).
  - apply asks_then; [by apply (asks_raw _ _ _ (Some RpcEnableAutomaticSequencing))|intros ?; asks].
  - apply asks_then; [by apply (asks_raw _ _ _ (Some RpcDisableAutomaticSequencing))|intros ?; asks].
  - apply asks_show_then, asks_then; [|intros ?; asks].
    apply (asks_raw _ _ _ (Some (RpcRevertToL1Block n))). by apply revert_received.
Qed.

(** A line typed at the attached REPL asks the node for what it says and nothing else: the requests
    to the node's own methods are those of the parsed command, a command that changes the node is
    an [admin] command, and a raw [rpc] command is the one request it spells. *)
Theorem line_reaches_node line s :
  ∃ c calls, parse line = Ok c ∧ asked (execute_command line s).2 = asked s ++ calls ∧
    (is_raw c = false → omap received calls = intended c) ∧
    (∀ m ps, c = CmdRpc m ps → calls = [(m, raw_params ps)]) ∧
    Forall (λ m, is_admin_method m = true → ∃ a, c = CmdAdmin a) (intended c).
Proof.
  destruct (parse_readable line) as (c & Hp & Hc).
  assert ((execute_command line s) = run_command c s) as -> by (unfold execute_command; by rewrite Hp).
  assert (Forall (λ m, is_admin_method m = true → ∃ a, c = CmdAdmin a) (intended c)) as Hadmin.
  { destruct c as [| | | | |[]| |[]|[]|[]|[]|[]| | | | |[]|m ps| | |]; repeat constructor; simpl; eauto; done. }
  destruct (is_raw c) eqn:Hr.
  - destruct c as [| | | | | | | | | | | | | | | | |m ps| | |]; try done. simpl.
    exists (CmdRpc m ps), [(m, raw_params ps)]. split_and!; [done| |done|by intros ?? [= -> ->]|done].
    unfold cmd_rpc, raw_value, node_request, bind. by destruct (json_rpc _ _ _) as [[] w].
  - assert (asks (intended c) (run_command c)) as Ha.
    { destruct Hc as [Hc|[u ->]]; [by apply run_command_asks|]. simpl. unfold say. asks. }
    destruct (Ha s) as (calls & Ha1 & Ha2). exists c, calls. split_and!; [done..| |done].
    intros m ps ->. done.
Qed.

(** ** Transactions *)

Lemma parse_hex_u64_range s n : parse_hex_u64 s = Some n → in_u64 n.
Proof.
  unfold parse_hex_u64, in_u64. destruct (HexadecimalString.NilZero.uint_of_string _) as [d|]; [|done]. cbv zeta.
  destruct (Z.leb_spec (Z.of_N (N.of_hex_uint d)) u64_max) as [Hd|]; [|done]. intros [= <-]. unfold u64_max in Hd. lia.
Qed.

Lemma quantity_range absent invalid j : in_u64 invalid → in_u64 (quantity absent invalid j).
Proof.
  unfold quantity, hex_str. intros Hi. destruct (parse_hex_u64 _) as [n|] eqn:Hn; [by eapply parse_hex_u64_range|done].
Qed.

Lemma base_fee_range j : in_u64 (base_fee_of j).
Proof.
  unfold base_fee_of, hex_str. destruct (json_get _ j) as [v|]; simpl; [|done].
  destruct (as_str v) as [t|]; simpl; [|done]. destruct (parse_hex_u64 _) as [n|] eqn:Hn; [by eapply parse_hex_u64_range|done].
Qed.

Lemma buffered_gas_range j : 0 < buffered_gas j <= u64_max.
Proof.
  unfold buffered_gas, hex_str. assert (0 < 21000 <= u64_max) by done.
  destruct (as_str j) as [t|]; [|done]. destruct (parse_hex_u64 _) as [g|] eqn:Hg; [|done]. cbv zeta.
  apply parse_hex_u64_range in Hg. destruct (Z.ltb_spec 0 (saturating_mul g 12 / 10)); [|done].
  split; [done|]. unfold saturating_mul, u64_max in *. unfold in_u64 in Hg.
  assert (Z.min (2 ^ 64 - 1) (g * 12) <= 2 ^ 64 - 1) by lia.
  assert (0 <= Z.min (2 ^ 64 - 1) (g * 12)) by lia.
  apply Z.div_le_upper_bound; lia.
Qed.

(** The transaction that [tx send] signs has its fields within their widths, pays a tip, caps its
    fee at no less than the tip, without an overflow of the arithmetic on the base fee, and has gas,
    whatever the node answers or fails to answer. *)
Theorem tx_fields_sane from to value s tx s' :
  build_tx from to value s = (Ok tx, s') →
  in_u64 (tx_chain_id tx) ∧ in_u64 (tx_nonce tx) ∧ 0 < tx_gas_limit tx <= u64_max ∧
  0 < tx_max_priority_fee_per_gas tx <= tx_max_fee_per_gas tx ∧ tx_max_fee_per_gas tx < 2 ^ 128 ∧
  tx_to tx = to ∧ tx_value tx = value.
Proof.
  unfold build_tx. intros Hrun.
  apply bind_Ok in Hrun as (cid & s1 & _ & Hrun). apply bind_Ok in Hrun as (nonce & s2 & _ & Hrun).
  apply bind_Ok in Hrun as (latest & s3 & _ & Hrun). apply bind_Ok in Hrun as (gas & s4 & Hgas & Hrun).
  injection Hrun as <- <-. pose proof (base_fee_range latest) as Hb. cbn [tx_chain_id tx_nonce tx_gas_limit
    tx_max_fee_per_gas tx_max_priority_fee_per_gas tx_to tx_value].
  split_and!; try done; try (by apply quantity_range).
  1,2: unfold estimate_gas in Hgas; apply bind_Ok in Hgas as ([v|e] & s5 & _ & Hg);
    [injection Hg as <- _; apply buffered_gas_range|].
  1,2: apply bind_Ok in Hg as (u & s6 & _ & Hg); injection Hg as <- _; done.
  all: unfold max_fee, max_priority_fee; unfold in_u64 in Hb; assert (0 <= base_fee_of latest / 2 <= base_fee_of latest)
    by (split; [apply Z.div_pos; lia|apply Z.div_le_upper_bound; lia]); lia.
Qed.
End Attach.
