(* ===== verification/ConcreteDebug.v ===== *)
(** * The debug toolkit on concrete lines

    Addresses, amounts and bytes in decimal, and a toy node that answers every request: lines as a
    developer types them, and the properties of the toolkit instantiated there. *)

From Stdlib Require Import Ascii.
From S2P Require Import Prelude DebugCommands.
From S2P Require Import Primitives BigEndian DbModel Engine Concrete Migration Orchestrator Config RpcServer.
From S2P Require Import DebugEvents DebugAttach.

#[local] Existing Instance toy_chain.

#[local] Instance decimal_parsers : CommandParsers := {
  address_from_str := parse_u64;
  u256_from_str := parse_u64;
  bytes_from_str s := (λ n, [n]) <$> parse_u64 s
}.

#[local] Instance decimal_text : CommandText := {
  address_text := u64_to_string;
  u256_text := u64_to_string;
  bytes_text bs := match bs with [n] => u64_to_string n | _ => EmptyString end
}.

Lemma decimal_prints : prints parse_u64 u64_to_string.
Proof.
  intros s n Hs. split; [apply u64_to_string_word|]. apply parse_u64_to_string. by eapply parse_u64_range.
Qed.

#[local] Instance decimal_ok : CommandTextOk.
Proof.
  split; [exact decimal_prints|exact decimal_prints|].
  intros s bs Hs. simpl in *. destruct (parse_u64 s) as [n|] eqn:Hn; simplify_eq/=.
  destruct (decimal_prints _ _ Hn) as [Hw Hp]. by rewrite Hp.
Qed.

(** Lines of the help, with other spellings and spacing. *)
Example parse_lines :
  map (λ s, parse s) ["  STATUS "; "block"; "blocks 3 5"; "tx send 7 100 2"; "admin revert 12"; "l1 reorg x";
    "events history"; "rpc eth_blockNumber"; ""; "frobnicate now"]%string =
  map Ok [CmdStatus; CmdBlock BlockArgLatest; CmdBlocks 3 5; CmdTx (TxSend 7 100 (Some 2));
    CmdAdmin (AdminRevertToL1Block 12); CmdUnknown "l1 reorg requires a block number";
    CmdEvents (EventsHistory 20); CmdRpc "eth_blockNumber" None; CmdUnknown ""; CmdUnknown "frobnicate"].
Proof. reflexivity. Qed.

Lemma parse_complete_witness :
  parse "admin revert 12" = Ok (CmdAdmin (AdminRevertToL1Block 12)) ∧
  parse "ADMIN   revert 12 " = parse "admin revert 12".
Proof.
  destruct parse_complete as (_ & Hr & Hs). split.
  - apply (Hr (CmdAdmin (AdminRevertToL1Block 12))). split; done.
  - apply (Hs "ADMIN   revert 12 "%string "admin revert 12"%string "ADMIN"%string "admin"%string ["revert"; "12"]%string);
      reflexivity.
Defined.

(** The parameters of a raw call are joined with single spaces, also within a JSON string: the two
    spaces of this one arrive as one. *)
Definition quoted (s : string) : string := (String "034" (s +:+ String "034" ""))%string.
Lemma raw_call_collapses_spaces :
  parse ("rpc eth_call [" +:+ quoted "a  b" +:+ "]")%string =
  Ok (CmdRpc "eth_call" (Some ("[" +:+ quoted "a b" +:+ "]")%string)).
Proof. reflexivity. Qed.

(** ** A node that answers *)

(** Its base fee is 5, its estimate of gas fails, and it agrees to every administrative request. *)
#[local] Instance toy_rpc : JsonRpc nat := λ name _ w,
  (if String.eqb name "eth_getBlockByNumber" then Ok (JObject [("baseFeePerGas", JString "0x5")])
   else if String.eqb name "eth_estimateGas" then Err "out of gas"
   else if String.eqb name "eth_chainId" then Ok (JString "0x22")
   else if String.eqb name "eth_getTransactionCount" then Ok (JString "0x0")
   else Ok (JBool true), S w)%string.
#[local] Instance toy_heads : HeadProvider nat := {
  get_block_number w := (Ok (Z.of_nat w), w);
  get_block n w := (Ok (Some (n, 100 + n, 0%nat)), w)
}.
#[local] Instance toy_attach : AttachBackends := {
  status_of_json _ := Err "no status"%string;
  json_from_str s := Some (JString s);
  address_lower_hex a := u64_to_hex a;
  encode_prefixed _ := "0x02"%string;
  sign_transaction _ _ := Ok [2]
}.

Definition attached : AttachRepl := mkAttach (W := nat) (Some 9) true false 0 None [] [] 0%nat.

Example admin_line :
  asked (execute_command "admin revert 12" attached).2 = [("rollupNodeAdmin_revertToL1Block"%string, JArray [JNumber 12])].
Proof. reflexivity. Qed.

Definition toy_tx : TxEip1559 := mkTx 34 0 21000 10 2 7 100.

Lemma toy_tx_built : (build_tx 9 7 100 attached).1 = Ok toy_tx.
Proof. vm_cast_no_check (eq_refl (Ok (E := string) toy_tx)). Qed.

Lemma tx_fields_sane_witness :
  (build_tx 9 7 100 attached).1 = Ok toy_tx ∧ 0 < tx_max_priority_fee_per_gas toy_tx <= tx_max_fee_per_gas toy_tx.
Proof.
  split; [exact toy_tx_built|].
  destruct (tx_fields_sane 9 7 100 attached toy_tx (build_tx 9 7 100 attached).2) as (_ & _ & _ & Hfee & _);
    [|exact Hfee].
  rewrite <- toy_tx_built. apply surjective_pairing.
Defined.
