(* ===== verification/Divergences.v ===== *)
(** * Where the code surprises

    Concrete runs in which the node does something other than what its comments say, or loses
    work: each is evaluated on the concrete node or database. *)

From S2P Require Import Prelude Sql Primitives Watcher BigEndian Codec Engine Concrete DbModel DbOps.
From S2P Require Import DbInvariant DbProps DbService ConcreteDb World Signing ConcreteRlp.
From S2P Require Import Sequencer SequencerProps Pipeline Consolidation Driver ConcreteWorld.
From S2P Require Import Orchestrator RunLoop ConcreteNode.

#[local] Existing Instances stored_order toy_chain toy_conversion toy_timers ethereum_rlp world_api
  world_client toy_peers toy_recovery toy_sig_bytes.

(** The check for a gap in the L1 message queue asks for one message at or above the predecessor,
    so any stored later message satisfies it: with only the message 5 stored, the message 3 is
    accepted although the message 2 is missing, and its commitment is computed from message 5. *)
Definition gap_db : Db := set_l1_message [message_row 5 20 None] (migrated 100).
Definition gap_node : Orchestrator World := toy_orchestrator toy_genesis_fcs [] [] gap_db.
Definition gap_step := handle_l1_message toy_orch_config (toy_message 3) toy_l1_30 gap_node.

Theorem queue_gap_unnoticed :
  is_ok gap_step.1 = true ∧
  map mr_queue_index (l1_message (database (env gap_step.2))) = [5; 3].
Proof. split; vm_compute; reflexivity. Qed.

(** The L1 finality handler commits the new status of the triggered batches before it moves the
    engine.  When the client fails, the batches are never pushed to the pipeline and stay in status
    [processing], where no later L1 event fetches them: only a restart does. *)
Definition finality_db : Db :=
  set_l2_block [genesis_block_row 100; block_row 1 1 11]
    (set_batch_commit
       [genesis_batch_row; batch_row 1 11 20 (Some 40) "consolidated"; batch_row 2 12 30 (Some 41) "committed"]
       (migrated 100)).
Definition finality_node : Orchestrator World := toy_orchestrator toy_genesis_fcs [] [] finality_db.
Definition finality_step := handle_l1_finalized 45 finality_node.

Theorem finality_loses_triggered :
  is_ok finality_step.1 = false ∧
  pushed_batches (derivation_pipeline finality_step.2) = [] ∧
  map br_status (batch_commit (database (env finality_step.2))) = ["finalized"; "finalized"; "processing"]%string ∧
  (fetch_and_update_unprocessed_finalized_batches 50 (database (env finality_step.2))).1 = Ok [].
Proof. split_and!; vm_compute; reflexivity. Qed.

(** A batch commit with index 0 looks up the predecessor [u64::MAX] and panics. *)
Theorem batch_zero_panics :
  match (handle_batch_commit toy_l1_30 (mkBatchCommitData 11 0 20 0 [] None None None) toy_node).1 with
  | Panic => True
  | _ => False
  end.
Proof. vm_compute. exact I. Qed.

(** Undoing a revert sets the status [consolidated] whatever it was before: the batch 3, which was
    never derived, is then taken for one whose blocks are stored. *)
Definition unreverted : Db :=
  (unwind 45 (set_batch_revert_block_number_for_batch_range 3 3 {| number := 50; hash := 9 |} small_db).2).2.

Theorem revert_undone_as_consolidated :
  map br_status (List.filter (λ r, br_index r =? 3) (batch_commit small_db)) = ["committed"]%string ∧
  map br_status (List.filter (λ r, br_index r =? 3) (batch_commit unreverted)) = ["consolidated"]%string ∧
  existsb (λ r, lr_batch_index r =? 3) (l2_block unreverted) = false.
Proof. split_and!; vm_compute; reflexivity. Qed.

(** A batch that was reverted and is committed again under the same hash keeps its revert: the
    upsert overwrites the block and the calldata of the row but neither its status nor its revert
    column.  The batch 2 is indexed and queued, its row stays reverted, and the commit of the batch
    3 that follows it is refused for a gap, as is every later one. *)
Definition reverted_db : Db :=
  (set_batch_revert_block_number_for_batch_range 2 3 {| number := 50; hash := 9 |} small_db).2.
Definition recommit_step :=
  handle_batch_commit {| number := 60; hash := 10 |} (mkBatchCommitData 12 2 60 0 [] None None None)
    (toy_orchestrator toy_genesis_fcs [] [] reverted_db).
Definition next_commit_step :=
  handle_batch_commit {| number := 61; hash := 11 |} (mkBatchCommitData 23 3 61 0 [] None None None)
    recommit_step.2.

Theorem recommit_stays_reverted :
  is_ok recommit_step.1 = true ∧
  pushed_batches (derivation_pipeline recommit_step.2) =
    [{| rq_batch_info := mkBatchInfo 2 12; rq_target_status := Consolidated |}] ∧
  map (λ r, (br_block_number r, br_reverted_block_number r, br_status r))
    (List.filter (λ r, br_hash r =? 12) (batch_commit (database (env recommit_step.2)))) =
    [(60, Some 50, "reverted"%string)] ∧
  match next_commit_step.1 with Err (BatchCommitGap index) => index = 3 | _ => False end.
Proof. split_and!; vm_compute; reflexivity. Qed.
